(* ===== verification/_CoqProject ===== *)
-Q . S2P
Prelude.v
Encoding.v
Numerals.v
Doubles.v
Str.v
Hash.v
HashFacts.v
DList.v
DListFacts.v
Core.v
CoreSpec.v
CoreFacts.v
KVStore.v
Buffer.v
Protocol.v
Server.v
TimeEvent.v
Lkvdb.v
LkvdbFacts.v
Persistence.v
PersistenceFacts.v
AofThreads.v
Commands.v
CommandsSpec.v
CommandsFacts.v
EngineFacts.v
Eviction.v
Recovery.v
ExpireFacts.v
Skiplist.v
SkiplistOrder.v
SkiplistFacts.v
SkiplistOps.v
SkiplistSet.v
Net.v
NetFacts.v
PubSub.v
Background.v
Config.v
ConfigFacts.v
Platform.v
Memory.v
Rewrite.v
RewriteFacts.v
Boot.v
Lifecycle.v
Tools.v
Sockets.v
