(* ===== verification/Prelude.v ===== *)
(** * LiteKV, verified

    LiteKV is a single-threaded in-memory key-value server in C++ that speaks the
    Redis request protocol. This library models its core and proves it correct.

    ** The program and its parts

    A connection's bytes are read into a [Buffer] (src/net/buffer), parsed by
    [TryParseFromBuffer] (src/net/protocol.cpp) into the [CommandCache] of its
    [Session] (src/net/net.h), executed by the command engine
    (src/net/commands.cpp) on the [KVContainer] (src/core), and the reply is
    appended to the write buffer and sent by [WriteProc] (src/net/server.cpp). A
    [KVContainer] maps keys ([StaticString], src/str.h) to [ValueObject]s
    (src/valueobject): 64-bit integers, [DynamicString]s, [DList]s (src/dlist),
    [HashDict]s and [HashSet]s (src/hashdict, src/hashset, both on the gradually
    rehashed tables of src/rehashable.h and src/hash.h). Keys expire by the timers
    of src/net/time_event. The key space is saved to and loaded from a binary file
    (src/lkvdb.cpp) that uses the integer encodings of src/encoding.cpp.

    ** The files

    - Prelude: machine integers ([u64], [i64], ... wrap; [chk64], [chk32] are signed
      arithmetic, undefined on overflow), bytes, C strings, writes to blocks of
      memory, hints and tactics.
    - Encoding (src/encoding): [Time33Hash], the variable-length and fixed
      encodings, and the reference encoding [varint] they are proved against.
    - Numerals, Doubles (src/str.cpp and the C++ library functions it calls):
      decimal printing and parsing; floating-point numbers are [spec_float]s, read
      correctly rounded.
    - Str (src/str): [DynamicString] with its heap block and [StaticString].
      [ds_repr d s] says that [d] holds the bytes [s].
    - Hash, HashFacts (src/hash.h, rehashable.h, hashdict, hashset): the class
      templates are definitions over the type classes [HashEntry] and [HashImpl],
      whose laws are the classes [EntrySpec] and [HashImplSpec]. [rh_ok] is the
      invariant of a container, a rehash in progress included, [rmap] the finite
      map it stands for.
    - DList, DListFacts (src/dlist): nodes are in a store indexed by address and
      the iterators alias them. [dl_repr l s]: [l] holds the sequence [s].
    - Core, CoreSpec, CoreFacts, KVStore (src/valueobject, src/core): the container
      and every operation on it; [kv_exec] collects the operations and [kv_spec] is
      their specification on an abstract store; [kv_repr] relates the two.
    - Buffer (src/net/buffer), Protocol (src/net/protocol.cpp, [CommandCache] of
      src/net/net.h), Server (src/net/server.cpp, [Session] and [Epoller] of
      src/net/net.h and net.cpp, the socket loops of src/net/utils.cpp). The
      answers of the kernel and the command engine are arguments.
    - TimeEvent (src/net/time_event): the timers and the loop that fires them.
    - Lkvdb, LkvdbFacts (src/lkvdb.cpp, [Snapshot] of src/core.cpp): the binary
      format, written and read.
    - Persistence, PersistenceFacts (src/persistence): the operations of the append-only
      file, each as a whole, and its replay from pieces cut anywhere ([reading],
      [parses]). AofThreads: the serving thread and the worker interleaved at every access
      to the caches, the pointers to them, the file and the mutex ([t_step]), and SIGINT at
      any of these points; a call that nothing interrupts is the operation of Persistence
      ([Append_alone], [Flush_alone]).
    - Commands (src/net/commands): a definition for every handler of the table and
      [HandleCommand] with the lazy eviction, the logging, the timers of
      [sExpiresMap] and the publish and subscribe commands. CommandsSpec says what
      the data commands do to the abstract store and reply ([cmd_spec]);
      CommandsFacts and EngineFacts prove it of the handlers, of [HandleCommand],
      and of a connection with this engine behind it.
    - Eviction: the lazy eviction of [HandleCommand] and the command [evict], as a
      [del] of the keys that are reported.
    - Recovery: the engine hands the commands it logs to the threads of AofThreads, one
      access at a time ([live]), and crashes at any of them; the engine that is restored.
      ExpireFacts: the expirations and their timers.
    - Net, NetFacts (src/net/net.cpp, the accept handler): the rounds of the event
      loop over the handlers, the timers and new connections.
    - PubSub: the publish and subscribe handlers of Commands on the sessions of
      Server, against the list of the subscriptions in force ([ps_spec]).
    - Background ([LiteKVBackgroundSave], [LiteKVSave] of src/lkvdb.cpp,
      [StopServeSockets] of src/net/server.cpp): the forked child next to the server,
      one system call at a time, with the epoll instance, the sockets and the files
      they share.
    - Skiplist (src/skiplist), SkiplistOrder (its comparator), SkiplistFacts (the
      invariant [sk_ok] of the linked nodes, the search), SkiplistOps (what each
      operation does), SkiplistSet (the set it refines). No other part of the
      program uses it yet.
    - Config, ConfigFacts (src/config): the lines of the configuration file through
      the one stream they are read from ([read_line]) and the items ([init_item]).
    - Platform (src/net/addr, net/utils.h, mem.h, the clock of net/time_event.h): byte
      orders, the address of the server, the memory in use as /proc tells it. Sockets
      (src/net/utils.cpp, the constructor of [Server]): the options of the sockets.
      Memory (src/mem.h): the reports of the memory in use.
    - Rewrite, RewriteFacts ([RemoveRedundancy] of src/persistence.cpp, called by
      src/tools/litekv-rewrite-dump.cpp): the compaction of the append-only file.
      [effect] is what a command does to its key alone.
    - Boot (src/main.cpp, the constructor of [Engine]): from the files of a directory
      to an engine that serves. Lifecycle: from a server to the next one, after
      SIGINT ([SigIntHandler] of src/main.cpp) or through the compaction tool.
    - Tools (src/tools): the generator of test data, with its random numbers as an
      argument, and the options of the benchmark.

    Definitions have the names of the C++ functions, with a prefix or suffix where
    C++ overloads a name or Rocq has it already ([kv_Delete], [ds_Serialize],
    [HashUpdateKV_all] for the overload that takes vectors); loops have a name of
    their own in small letters. An operation that can reach undefined behaviour
    (an access outside a block, a null or freed pointer, signed overflow) returns
    an option, and [None] stands for it. Theorems that give a result therefore
    also say that no undefined behaviour occurs.

    ** What is proved

    - Refinement: any sequence of operations on an empty container returns what it
      returns on an abstract store, error codes included
      ([KVContainer_refines_store]), and the same for hash dictionaries, hash sets,
      block lists, strings and connection buffers, whatever the gradual rehashing,
      the splitting in blocks or the compaction of the buffer do meanwhile.
    - Round trips: a printed request is parsed back and nothing of what follows it
      is consumed; integers survive their encodings; a store survives saving and
      loading, without the keys that have expired, unless a container in it is empty or has
      an empty element ([Snapshot_Load_roundtrip]).
    - Safety and termination: the parser reads nothing outside the buffer on
      arbitrary input; freeing a list frees every node; a rehash completes.
    - Commands: [HandleCommand] does to the container, replies and logs what the
      specification says ([HandleCommand_refines]), from the reads of the socket
      ([ReadToBuf], at most two in an event: [ReadProc_implements_commands]); what is set is
      what is got. The specification ([cmd_spec]) is of the program as it is: where the README
      says something else, the program is followed.
    - The event loop: the server serves any number of clients, their requests cut in
      pieces and interleaved in any order, as if their commands were executed one
      after the other ([Loop_serves], under the conditions of [rounds_ok]).
    - Publish and subscribe: a message goes to exactly the subscriptions in force, in
      the order in which they were made, each socket takes what it can, and the publisher
      learns how many took all ([PubSub_refines]).
    - Eviction: under the LRU policy it ends, and a command that triggers it behaves
      as a [del] of some keys and then the command ([eviction_is_a_deletion]).
    - The append-only file: access by access, nothing is lost or reordered unless a
      command is pushed into the very vector the worker is writing, or Switch finds both
      caches full ([interleaved_in_order]); at most two caches are missing while the
      worker keeps up ([aof_ordered_and_bounded]); each late push loses one command at
      most ([only_late_pushes_lost]), and SIGINT loses none that was put away
      ([sigint_saves]). Reading the file back gives the commands
      ([CommonOperation_replays]); after a crash, even in the middle of a write, the
      restored store is that of the commands written ([crash_recovery], for commands that
      are within their bounds and pop no empty string).
    - Restart and compaction, under the conditions of a crash: a server started on the
      configuration and the file another one left has its store ([restart_recovers]), all of
      it after Ctrl-C between two commands ([ctrl_c_restart]); generated test data is loaded
      as it was written ([pseudo_data_loads]); compacting the file keeps the data up to
      [rewritten] (numeric texts become numbers, empty containers are lost), for logs
      of [plain] commands, whatever the order of the hashed containers
      ([RemoveRedundancy_preserves]); a server started on the compacted file has that
      store ([compacted_restart]).
    - Background saves, of a store without empty containers or elements and one at a time:
      the dump file is the old one or the whole snapshot at every moment, and the child
      comes to an end ([bgsave_saves]); it does not disturb the server, as long as no client
      leaves too early ([bgsave_isolated]).
    - The configuration: what is loaded is within bounds ([Config_wellformed]), a file
      in the documented syntax gives the configuration it states
      ([Config_roundtrip]), and the order of the items does not matter.
    - Expirations: no entry of [sExpiresMap] dangles, exactly the keys that are due
      are removed, [expire] and [ttl] set and answer the deadline.
    - The skip list is an ordered set, whatever the levels drawn
      ([Skiplist_refines_set], [Skiplist_levels], [Skiplist_in_order]).
    - Timers: a timer for one firing fires exactly once.
    - Errors: the cases where the code does not do what it means to are stated as
      theorems or lemmas about the model too (a request cut between two arguments,
      a third piece of input, an overlapping [memcpy], eviction, [lrange] outside
      the list, [StaticString::operator!=], a failed [realloc], empty containers in
      a snapshot, a request without words, a popped empty string, writing behind a
      torn file, a worker that exits with a full cache, the removal of the only
      element of a skip list, a configuration line with too many or too few words, a
      file with a pending expiration that is to be compacted, a client that leaves
      while a child of a background save has its socket, a full disk, two saves at
      once, a command put away in the middle of a flush, SIGINT while the caches are
      swapped).

    ** Bounds and fuel

    Integers have their C++ widths. Strings are shorter than 2^31 bytes ([fits])
    and operations of the key space take strings and lists of less than 2^30
    ([small]), because the code keeps lengths and indices in [int]; hash containers
    have less than 2^60 or 2^61 entries, so that counts and table sizes, in
    [size_t], do not wrap. Loops that are not structural have fuel: ten rounds for
    the variable-length encodings (a 64-bit value has at most ten digits of seven
    bits), the number of nodes and one more for walks over a list, the number of
    unread bytes and one more for the parser and the loops of the server and the
    loader (every round consumes a byte or stops). The configuration reader and the
    compaction are structural recursions. The theorems show that these are
    enough: a result is always reached.

    Conditions that no constant bounds are predicates on the run: [cmd_ok] (the
    operands and the value a command meets are small, a range that is not empty begins in
    its list), [delivered] (an event brings one piece or two), [room] and [rounds_ok] (the
    buffers of a stream have room for the pieces, with a spare byte and no overlapping
    copy; [small_file_room] and [one_piece_room]: a file of up to 64 KiB always has),
    [enough_memory] (the lazy eviction is not triggered, while a file is replayed and in the
    theorems about connections), [rand_ok] (random draws are in their range), [orderly] (no
    [push_back] into a vector between its writing and its clearing, and Switch finds an empty
    cache), [in_time] (that it is the other one), [live] (runs that are orderly, of commands
    that are [cmd_ok] and pop no empty string, evictions under the LRU policy), [plain] and
    [storable] (what the compaction handles), [store_dumpable] (what a snapshot can hold),
    [one_save] (one background save at a time, the disk not full), [patient] (no client
    leaves while a child has its socket), [ps_ok] (a subscriber's socket takes what it
    takes in two sends). The witnesses show that they can hold, and the lemmas and
    findings what happens otherwise. The operations of [KVContainer_refines_store] do not
    include [ListRange], whose index may be outside the list (see [ListRange_elements] and
    [ListRange_undefined_outside]). The random levels of the skip list and the throws they
    come from are arbitrary.

    ** What is not modelled

    The bucket locks (the program runs commands in one thread; the threads of the
    append-only file and the children of background saves are modelled, as
    interleavings), the mapping of the snapshot that is loaded, destructors that only
    free memory (those of [DList] and [Skiplist] are modelled), allocation failure
    outside [DynamicString] and the plain constructors of values, and what the signal
    handler may do to the allocator and to the streams (its effect on the append-only
    file and the mutex is modelled). The thread that samples the memory in use is
    [UpdateMemInfo]; [Env] holds what a command finds of its readings. Accesses that
    two threads make to a vector at the same time are steps in some order in AofThreads;
    in C++ such a race is undefined, and [orderly] excludes it where it matters. The
    eviction that is logged without keys, of an empty store, is outside of [live].
    The drivers under src/benchmark, the tests and the Python client are no part of the
    server. [lv_time], the visit time, is kept, with the clock as an argument.
    The conversions [inet_pton] and [inet_ntop] are parameters. Assertions are kept, as
    the build files do. *)

From stdpp Require Export base option list gmap strings numbers.
From Stdlib Require Export ZArith Lia Ascii.

(** ** Automation *)

Create HintDb litekv.

(** Split conjunctions and existentials of the context. *)
Ltac destr_ex :=
  repeat match goal with
  | H : _ /\ _ |- _ => destruct H
  | H : exists _, _ |- _ => destruct H
  end.

(** Turn boolean comparisons on [Z] and [nat] into propositions. *)
Ltac bools :=
  repeat match goal with
  | H : (_ && _)%bool = true |- _ => apply andb_prop in H; destruct H
  | H : (_ || _)%bool = false |- _ => apply orb_false_elim in H; destruct H
  | H : negb _ = true |- _ => apply negb_true_iff in H
  | H : negb _ = false |- _ => apply negb_false_iff in H
  | H : (_ =? _)%Z = true |- _ => apply Z.eqb_eq in H
  | H : (_ =? _)%Z = false |- _ => apply Z.eqb_neq in H
  | H : (_ <? _)%Z = true |- _ => apply Z.ltb_lt in H
  | H : (_ <? _)%Z = false |- _ => apply Z.ltb_ge in H
  | H : (_ <=? _)%Z = true |- _ => apply Z.leb_le in H
  | H : (_ <=? _)%Z = false |- _ => apply Z.leb_gt in H
  | H : (_ >? _)%Z = true |- _ => rewrite Z.gtb_ltb in H; apply Z.ltb_lt in H
  | H : (_ >? _)%Z = false |- _ => rewrite Z.gtb_ltb in H; apply Z.ltb_ge in H
  | H : (_ >=? _)%Z = true |- _ => rewrite Z.geb_leb in H; apply Z.leb_le in H
  | H : (_ >=? _)%Z = false |- _ => rewrite Z.geb_leb in H; apply Z.leb_gt in H
  end.

(** Case on the test of a conditional of the goal. *)
Ltac case_if :=
  match goal with
  | |- context [if decide _ then _ else _] => case_decide
  | |- context [if ?b then _ else _] =>
      let E := fresh "E" in destruct b eqn:E; bools
  end.

(** ** Bytes and strings

    A [char] is an [ascii]; [std::string] and byte buffers are lists of them. *)

Abbreviation byte := ascii (only parsing).
Abbreviation bytes := (list ascii) (only parsing).

(** The bytes of a string literal of the source. *)
Abbreviation bs s := (String.list_ascii_of_string s) (only parsing).

Definition NUL : ascii := Ascii.zero.

(** The value of a byte as [unsigned char]. *)
Definition Z_of_byte (b : ascii) : Z := Z.of_N (N_of_ascii b).

(** Conversion of an integer to [unsigned char] (keeps the low eight bits). *)
Definition byte_of_Z (z : Z) : ascii := ascii_of_N (Z.to_N (z mod 256)).

(** The value of a byte as [char], which is signed on the target. *)
Definition schar (b : ascii) : Z :=
  if (Z_of_byte b <? 128)%Z then Z_of_byte b else (Z_of_byte b - 256)%Z.

Section ZBytes.
Local Open Scope Z_scope.

Lemma Z_of_byte_range b : 0 <= Z_of_byte b < 256.
Proof.
  unfold Z_of_byte. pose proof (N_ascii_bounded b). lia.
Qed.

Lemma Z_of_byte_of_Z z : Z_of_byte (byte_of_Z z) = z mod 256.
Proof.
  unfold Z_of_byte, byte_of_Z.
  pose proof (Z.mod_pos_bound z 256 ltac:(lia)).
  rewrite N_ascii_embedding by lia. lia.
Qed.

Lemma byte_of_Z_of_byte b : byte_of_Z (Z_of_byte b) = b.
Proof.
  unfold byte_of_Z. rewrite Z.mod_small by apply Z_of_byte_range.
  unfold Z_of_byte. rewrite N2Z.id. apply ascii_N_embedding.
Qed.

Lemma Z_of_byte_inj a b : Z_of_byte a = Z_of_byte b -> a = b.
Proof. intros H. rewrite <- (byte_of_Z_of_byte a), H. apply byte_of_Z_of_byte. Qed.

End ZBytes.

(** ** Machine integers *)

Section Ints.
Local Open Scope Z_scope.

(** Conversion to an unsigned integer of [w] bits. *)
Definition uwrap (w z : Z) : Z := z mod 2 ^ w.

(** Conversion to a signed integer of [w] bits (two's complement). *)
Definition swrap (w z : Z) : Z :=
  let m := z mod 2 ^ w in if m <? 2 ^ (w - 1) then m else m - 2 ^ w.

Definition u8 := uwrap 8.
Definition u16 := uwrap 16.
Definition u32 := uwrap 32.
Definition u64 := uwrap 64.
Definition i32 := swrap 32.
Definition i64 := swrap 64.

Definition INT32_MAX : Z := 2147483647.
Definition INT32_MIN : Z := -2147483648.
Definition INT64_MAX : Z := 9223372036854775807.
Definition INT64_MIN : Z := -9223372036854775808.
Definition UINT64_MAX : Z := 18446744073709551615.

Definition in_u32 (z : Z) : Prop := 0 <= z < 4294967296.
Definition in_u64 (z : Z) : Prop := 0 <= z <= UINT64_MAX.
Definition in_i32 (z : Z) : Prop := INT32_MIN <= z <= INT32_MAX.
Definition in_i64 (z : Z) : Prop := INT64_MIN <= z <= INT64_MAX.

(** Signed arithmetic on [int64_t]: an overflow is undefined behaviour. *)
Definition chk64 (z : Z) : option Z :=
  if (INT64_MIN <=? z) && (z <=? INT64_MAX) then Some z else None.

(** Signed arithmetic on [int]. *)
Definition chk32 (z : Z) : option Z :=
  if (INT32_MIN <=? z) && (z <=? INT32_MAX) then Some z else None.

Lemma uwrap_small w z : 0 <= z < 2 ^ w -> uwrap w z = z.
Proof. apply Z.mod_small. Qed.

Lemma uwrap_range w z : 0 <= w -> 0 <= uwrap w z < 2 ^ w.
Proof. intros. apply Z.mod_pos_bound. lia. Qed.

Lemma u32_small z : in_u32 z -> u32 z = z.
Proof. unfold in_u32. intros. apply uwrap_small. lia. Qed.

Lemma u64_small z : in_u64 z -> u64 z = z.
Proof. unfold in_u64, UINT64_MAX. intros. apply uwrap_small. lia. Qed.

Lemma u64_range z : in_u64 (u64 z).
Proof. unfold in_u64, u64, UINT64_MAX. pose proof (uwrap_range 64 z). lia. Qed.

Lemma swrap_small w z :
  0 < w -> - 2 ^ (w - 1) <= z < 2 ^ (w - 1) -> swrap w z = z.
Proof.
  intros Hw Hz. unfold swrap.
  assert (2 ^ w = 2 * 2 ^ (w - 1)) as E.
  { rewrite <- Z.pow_succ_r by lia. f_equal. lia. }
  destruct (Z_lt_le_dec z 0).
  - assert (z mod 2 ^ w = z + 2 ^ w) as ->.
    { symmetry. apply Z.mod_unique_pos with (-1); lia. }
    destruct (Z.ltb_spec (z + 2 ^ w) (2 ^ (w - 1))); lia.
  - rewrite Z.mod_small by lia.
    destruct (Z.ltb_spec z (2 ^ (w - 1))); lia.
Qed.

Lemma i64_small z : in_i64 z -> i64 z = z.
Proof. unfold in_i64, INT64_MIN, INT64_MAX. intros. apply swrap_small; lia. Qed.

Lemma i32_small z : in_i32 z -> i32 z = z.
Proof. unfold in_i32, INT32_MIN, INT32_MAX. intros. apply swrap_small; lia. Qed.

Lemma swrap_uwrap w z : swrap w (uwrap w z) = swrap w z.
Proof. unfold swrap, uwrap. by rewrite Zmod_mod. Qed.

Lemma i64_u64 z : in_i64 z -> i64 (u64 z) = z.
Proof. intros. unfold i64, u64. rewrite swrap_uwrap. by apply i64_small. Qed.

Lemma i64_range z : in_i64 (i64 z).
Proof.
  unfold in_i64, i64, swrap, INT64_MIN, INT64_MAX.
  pose proof (Z.mod_pos_bound z (2 ^ 64) ltac:(lia)).
  destruct (Z.ltb_spec (z mod 2 ^ 64) (2 ^ (64 - 1))); lia.
Qed.

Lemma chk64_some z : in_i64 z -> chk64 z = Some z.
Proof.
  unfold in_i64, chk64. intros [H1 H2].
  apply Z.leb_le in H1, H2. by rewrite H1, H2.
Qed.

Lemma chk32_some z : in_i32 z -> chk32 z = Some z.
Proof.
  unfold in_i32, chk32. intros [H1 H2].
  apply Z.leb_le in H1, H2. by rewrite H1, H2.
Qed.

End Ints.

#[export] Hint Resolve u64_range i64_range : litekv.

(** ** Memory blocks

    Accesses outside a block are undefined behaviour, the value [None] of
    [option]. *)

(** The prefix of a byte sequence before its first NUL: what [strlen],
    [strcmp] and [operator<<(const char * )] see of it. *)
Fixpoint c_str (s : list ascii) : list ascii :=
  match s with
  | [] => []
  | b :: r => if Ascii.eqb b NUL then [] else b :: c_str r
  end.

(** [mem[i] = x]. *)
Definition store {A} (mem : list A) (i : nat) (x : A) : option (list A) :=
  if decide (i < length mem)%nat then Some (<[i:=x]> mem) else None.

(** [memcpy(mem + off, src, |src|)]. *)
Definition memcpy {A} (mem : list A) (off : nat) (src : list A) : option (list A) :=
  if decide (off + length src <= length mem)%nat
  then Some (take off mem ++ src ++ drop (off + length src) mem) else None.

Lemma c_str_no_nul s : NUL ∉ s -> c_str s = s.
Proof.
  induction s as [|b r IH]; [done|]. cbn [c_str]. rewrite not_elem_of_cons. intros [Hb Hr].
  destruct (Ascii.eqb_spec b NUL); [congruence|]. by rewrite IH.
Qed.

Lemma c_str_idem s : c_str (c_str s) = c_str s.
Proof.
  induction s as [|b r IH]; [done|]. cbn [c_str].
  destruct (Ascii.eqb b NUL) eqn:E; [done|]. cbn [c_str]. by rewrite E, IH.
Qed.

Lemma c_str_app_nul s r : NUL ∉ s -> c_str (s ++ NUL :: r) = s.
Proof.
  induction s as [|b t IH]; [done|]. rewrite not_elem_of_cons. intros [Hb Ht].
  cbn. destruct (Ascii.eqb_spec b NUL); [congruence|]. by rewrite IH.
Qed.

Lemma store_some {A} (mem : list A) i x :
  (i < length mem)%nat -> store mem i x = Some (<[i:=x]> mem).
Proof. intros. unfold store. by rewrite decide_True. Qed.

Lemma store_app {A} (pre post : list A) x y :
  store (pre ++ x :: post) (length pre) y = Some (pre ++ y :: post).
Proof.
  rewrite store_some by (rewrite length_app; cbn; lia).
  by rewrite <- (Nat.add_0_r (length pre)), insert_app_r.
Qed.

Lemma memcpy_some {A} (mem : list A) off src :
  (off + length src <= length mem)%nat ->
  memcpy mem off src = Some (take off mem ++ src ++ drop (off + length src) mem).
Proof. intros. unfold memcpy. by rewrite decide_True. Qed.

Lemma memcpy_length {A} (mem mem' : list A) off src :
  memcpy mem off src = Some mem' -> length mem' = length mem.
Proof.
  unfold memcpy. case_decide; [|done]. intros [= <-].
  rewrite !length_app, length_take, length_drop. lia.
Qed.
