(* ===== verification/Encoding.v ===== *)
(** * Encoding: the byte encodings of src/encoding.cpp

    [Time33Hash], the variable-length integer encoding of the LiteKV binary
    format and its fixed eight byte encoding. Buffers are blocks of bytes, a
    null pointer is [None], and an access outside the block makes the whole
    function [None]. *)

From S2P Require Import Prelude.

Local Open Scope Z_scope.

(** One iteration of the loop of [Time33Hash]: [str[i]] is a signed [char],
    converted to [unsigned]; the sums are on [unsigned long]. *)
Definition hash_step (hash : Z) (c : ascii) : Z :=
  u64 (u64 (u64 (Z.shiftl hash 5) + hash) + u32 (schar c)).

Definition Time33Hash (str : list ascii) : Z := foldl hash_step 5381 str.

(** The loop of [EncodeVarUnsignedInt64]: [i] is the offset of [ptr] in [buf]. *)
Fixpoint enc_loop (fuel : nat) (value : Z) (buf : list ascii) (i : nat) (cnt : Z)
  : option (Z * list ascii) :=
  match fuel with
  | O => None
  | S fuel =>
      if value >=? 128 then
        buf ← store buf i (byte_of_Z (Z.lor value 128));
        enc_loop fuel (Z.shiftr value 7) buf (S i) (u8 (cnt + 1))
      else
        buf ← store buf i (byte_of_Z value);
        Some (u8 (cnt + 1), buf)
  end.

(** Ten iterations are enough for a [uint64_t] (see [enc_loop_varint]). *)
Definition EncodeVarUnsignedInt64 (value : Z) (buf : option (list ascii))
  : option (Z * option (list ascii)) :=
  match buf with
  | None => Some (0, None)
  | Some buf => '(cnt, buf) ← enc_loop 10 value buf 0 0; Some (cnt, Some buf)
  end.

(** The loop of [DecodeVarUnsignedInt64]; it stops by itself when [shift > 63]
    or [i >= 10], so that [fuel] 10 is never the reason it stops. *)
Fixpoint dec_loop (fuel : nat) (enc : list ascii) (shift i value : Z) : option Z :=
  match fuel with
  | O => Some value
  | S fuel =>
      if (shift <=? 63) && (i <? 10) then
        match enc with
        | [] => None
        | c :: enc =>
            let byte := Z_of_byte c in
            if Z.testbit byte 7 then
              dec_loop fuel enc (u32 (shift + 7)) (u8 (i + 1))
                (Z.lor value (u64 (Z.shiftl (Z.land byte 127) shift)))
            else Some (Z.lor value (u64 (Z.shiftl byte shift)))
        end
      else Some value
  end.

Definition DecodeVarUnsignedInt64 (enc : option (list ascii)) : option Z :=
  match enc with
  | None => Some 0
  | Some enc => dec_loop 10 enc 0 0 0
  end.

Definition EstimateUnsignedIntBytes (value : Z) : Z :=
  if value <=? 2 ^ 7 - 1 then 1
  else if value <=? 2 ^ 14 - 1 then 2
  else if value <=? 2 ^ 21 - 1 then 3
  else if value <=? 2 ^ 28 - 1 then 4
  else if value <=? 2 ^ 35 - 1 then 5
  else if value <=? 2 ^ 42 - 1 then 6
  else if value <=? 2 ^ 49 - 1 then 7
  else if value <=? 2 ^ 56 - 1 then 8
  else if value <=? 2 ^ 63 - 1 then 9
  else 10.

Definition EncodeVarSignedInt64 (value : Z) (buf : option (list ascii))
  : option (Z * option (list ascii)) := EncodeVarUnsignedInt64 (u64 value) buf.

Definition DecodeVarSignedInt64 (buf : option (list ascii)) : option Z :=
  i64 <$> DecodeVarUnsignedInt64 buf.

(** The object representation of a 64-bit integer on the (little endian)
    target. *)
Definition le_bytes (value : Z) : list ascii :=
  (λ k, byte_of_Z (Z.shiftr (u64 value) (8 * Z.of_nat k))) <$> seq 0 8.

Definition le_value (b : list ascii) : Z :=
  foldr (λ c acc, Z_of_byte c + 256 * acc) 0 b.

Definition EncodeFixed64BitInteger (value : Z) (buf : option (list ascii))
  : option (option (list ascii)) :=
  match buf with
  | None => Some None
  | Some buf => Some <$> memcpy buf 0 (le_bytes value)
  end.

Definition DecodeFixed64BitInteger (buf : option (list ascii)) : option Z :=
  match buf with
  | None => Some 0
  | Some buf =>
      if decide (8 <= length buf)%nat then Some (i64 (le_value (take 8 buf))) else None
  end.

(** ** Reference encoding

    The base-128 digits of a number, least significant first, every digit but
    the last with the continuation bit: what the encoder writes and what the
    decoders of this file and of src/lkvdb.cpp read. *)
Fixpoint varint_digits (n : nat) (v : Z) : list ascii :=
  match n with
  | O => []
  | S n =>
      if v >=? 128 then byte_of_Z (128 + v mod 128) :: varint_digits n (v / 128)
      else [byte_of_Z v]
  end.

Definition varint (v : Z) : list ascii := varint_digits 10 v.

(** ** Arithmetic of the digits *)

Lemma lor_128_small x : 0 <= x < 128 -> Z.lor x 128 = 128 + x.
Proof.
  intros Hx. rewrite Z.add_comm, <- Z.lxor_lor, <- Z.add_nocarry_lxor; [done| |].
  all: apply Z.bits_inj'; intros n Hn; rewrite Z.land_spec, Z.bits_0.
  all: replace 128 with (2 ^ 7) by done; rewrite Z.pow2_bits_eqb by lia.
  all: destruct (Z.eqb_spec 7 n); [subst n|by rewrite andb_false_r].
  all: rewrite andb_true_r; apply Z.bits_above_log2; [lia|].
  all: destruct (decide (x = 0)) as [->|]; [done|]; apply Z.log2_lt_pow2; lia.
Qed.

Lemma byte_of_lor_128 v : 0 <= v -> byte_of_Z (Z.lor v 128) = byte_of_Z (128 + v mod 128).
Proof.
  intros Hv. apply Z_of_byte_inj. rewrite !Z_of_byte_of_Z.
  rewrite <- (lor_128_small (v mod 128)) by (apply Z.mod_pos_bound; lia).
  replace 256 with (2 ^ 8) by done.
  apply Z.bits_inj'. intros n Hn. destruct (Z_lt_le_dec n 8).
  - rewrite !Z.mod_pow2_bits_low, !Z.lor_spec by lia.
    destruct (decide (n = 7)) as [->|]; [by rewrite !orb_true_r|].
    change (v mod 128) with (v mod 2 ^ 7).
    by rewrite Z.mod_pow2_bits_low by lia.
  - by rewrite !Z.mod_pow2_bits_high by lia.
Qed.

Lemma digit_value v : 0 <= v -> v >= 128 ->
  Z_of_byte (byte_of_Z (128 + v mod 128)) = 128 + v mod 128.
Proof.
  intros. rewrite Z_of_byte_of_Z. pose proof (Z.mod_pos_bound v 128 ltac:(lia)).
  apply Z.mod_small. lia.
Qed.

Lemma last_digit_value v : 0 <= v < 128 -> Z_of_byte (byte_of_Z v) = v.
Proof. intros. rewrite Z_of_byte_of_Z. apply Z.mod_small. lia. Qed.

Lemma testbit7_high x : 0 <= x < 128 -> Z.testbit (128 + x) 7 = true.
Proof. intros Hx. rewrite <- lor_128_small by done. by rewrite Z.lor_spec, orb_true_r. Qed.

Lemma testbit7_low x : 0 <= x < 128 -> Z.testbit x 7 = false.
Proof.
  intros. apply Z.bits_above_log2; [lia|].
  destruct (decide (x = 0)) as [->|]; [done|]; apply Z.log2_lt_pow2; lia.
Qed.

Lemma land_127 x : 0 <= x < 128 -> Z.land (128 + x) 127 = x.
Proof.
  intros. replace 127 with (Z.ones 7) by done. rewrite Z.land_ones by lia.
  replace (128 + x) with (x + 1 * 2 ^ 7) by lia.
  rewrite Z.mod_add by lia. apply Z.mod_small. lia.
Qed.

(** Reassembling a number from its low digit and the rest. *)
Lemma shiftl_digits v s : 0 <= v -> 0 <= s ->
  Z.lor (Z.shiftl (v mod 128) s) (Z.shiftl (v / 128) (s + 7)) = Z.shiftl v s.
Proof.
  intros Hv Hs. rewrite Z.add_comm, <- Z.shiftl_shiftl, <- Z.shiftl_lor by lia. f_equal.
  replace 128 with (2 ^ 7) by done.
  rewrite <- Z.land_ones, <- Z.shiftr_div_pow2 by lia.
  apply Z.bits_inj'. intros n Hn. rewrite Z.lor_spec, Z.land_spec.
  destruct (Z_lt_le_dec n 7).
  - rewrite Z.ones_spec_low, Z.shiftl_spec_low by lia. by rewrite andb_true_r, orb_false_r.
  - rewrite Z.ones_spec_high, Z.shiftl_spec, Z.shiftr_spec by lia.
    rewrite andb_false_r. cbn. f_equal. lia.
Qed.

Lemma shiftl_u64 v s : 0 <= v -> 0 <= s <= 64 -> v < 2 ^ (64 - s) ->
  u64 (Z.shiftl v s) = Z.shiftl v s.
Proof.
  intros Hv Hs Hlt. apply uwrap_small. rewrite Z.shiftl_mul_pow2 by lia.
  assert (2 ^ 64 = 2 ^ (64 - s) * 2 ^ s) as ->.
  { rewrite <- Z.pow_add_r by lia. f_equal. lia. }
  pose proof (Z.pow_pos_nonneg 2 s). nia.
Qed.

Lemma div_128_bound v s : 0 <= v -> 7 <= s -> v < 2 ^ s -> v / 128 < 2 ^ (s - 7).
Proof.
  intros. apply Z.div_lt_upper_bound; [lia|].
  replace 128 with (2 ^ 7) by done. rewrite <- Z.pow_add_r by lia.
  by replace (7 + (s - 7)) with s by lia.
Qed.

(** ** The length of the encoding *)

Lemma varint_digits_length n v : (0 < n)%nat -> (1 <= length (varint_digits n v) <= n)%nat.
Proof.
  revert v. induction n as [|n IH]; intros v Hn; [lia|]. cbn.
  destruct (v >=? 128); cbn; [|lia].
  destruct n; cbn; [lia|]. specialize (IH (v / 128) ltac:(lia)). cbn in IH. lia.
Qed.

Lemma varint_length v : (1 <= length (varint v) <= 10)%nat.
Proof. apply varint_digits_length. lia. Qed.

(** ** The encoder writes the reference encoding *)

Lemma shiftr_7 v : Z.shiftr v 7 = v / 128.
Proof. apply (Z.shiftr_div_pow2 v 7). lia. Qed.

Lemma u8_small z : 0 <= z < 256 -> u8 z = z.
Proof. intros. apply uwrap_small. lia. Qed.

Lemma enc_loop_varint n v pre post cnt :
  0 <= v < 2 ^ (7 * Z.of_nat n) -> 0 <= cnt ->
  (0 < n)%nat -> (length (varint_digits n v) <= length post)%nat ->
  cnt + Z.of_nat (length (varint_digits n v)) < 256 ->
  enc_loop n v (pre ++ post) (length pre) cnt =
    Some (cnt + Z.of_nat (length (varint_digits n v)),
          pre ++ varint_digits n v ++ drop (length (varint_digits n v)) post).
Proof.
  revert v pre post cnt. induction n as [|n IH]; intros v pre post cnt Hv Hc Hn Hlen Hcnt; [lia|].
  cbn [enc_loop varint_digits] in *. rewrite shiftr_7.
  destruct (v >=? 128) eqn:E; bools; cbn [length] in *;
    (destruct post as [|x post]; cbn [length] in Hlen; [lia|]); rewrite store_app; cbn.
  - rewrite byte_of_lor_128, u8_small by lia.
    destruct n as [|n]; [change (7 * Z.of_nat 1) with 7 in Hv; lia|].
    rewrite (cons_middle _ pre post), app_assoc.
    replace (S (length pre)) with (length (pre ++ [byte_of_Z (128 + v mod 128)]))
      by (rewrite length_app; cbn; lia).
    rewrite IH; [|split|lia..].
    + rewrite <- !app_assoc. cbn. f_equal. f_equal. lia.
    + apply Z.div_pos; lia.
    + replace (7 * Z.of_nat (S n)) with (7 * Z.of_nat (S (S n)) - 7) by lia.
      apply div_128_bound; lia.
  - rewrite u8_small by lia. done.
Qed.

Lemma u64_fits v : in_u64 v -> 0 <= v < 2 ^ (7 * Z.of_nat 10).
Proof. unfold in_u64, UINT64_MAX. intros. lia. Qed.

(** The decoding loop on the reference encoding, whatever follows it. *)
Lemma dec_loop_varint n v rest k value :
  (0 < n)%nat -> Z.of_nat n + k = 10 -> 0 <= k -> 0 <= v < 2 ^ (64 - 7 * k) ->
  dec_loop n (varint_digits n v ++ rest) (7 * k) k value =
    Some (Z.lor value (Z.shiftl v (7 * k))).
Proof.
  revert v k value. induction n as [|n IH]; intros v k value Hn Hk Hk0 Hv; [lia|].
  cbn [dec_loop varint_digits].
  destruct (Z.leb_spec (7 * k) 63); [|lia]. destruct (Z.ltb_spec k 10); [|lia]. cbn [andb].
  destruct (v >=? 128) eqn:E; bools; cbn [app].
  - rewrite digit_value by lia. pose proof (Z.mod_pos_bound v 128 ltac:(lia)).
    rewrite testbit7_high, land_127 by lia.
    assert (k < 9).
    { destruct (decide (k = 9)) as [->|]; [|lia]. change (2 ^ (64 - 7 * 9)) with 2 in Hv. lia. }
    destruct n as [|n]; [lia|].
    replace (u32 (7 * k + 7)) with (7 * (k + 1)) by (rewrite u32_small; unfold in_u32; lia).
    rewrite u8_small by lia.
    rewrite IH; [|lia|lia|lia|split; [apply Z.div_pos; lia|]].
    + rewrite <- (shiftl_digits v (7 * k)), Z.lor_assoc by lia. do 3 f_equal; [|lia].
      rewrite shiftl_u64; [done|lia|lia|].
      apply Z.lt_le_trans with (2 ^ 7); [lia|]. apply Z.pow_le_mono_r; lia.
    + replace (64 - 7 * (k + 1)) with (64 - 7 * k - 7) by lia. apply div_128_bound; lia.
  - rewrite last_digit_value by lia. rewrite testbit7_low by lia.
    rewrite shiftl_u64 by lia. done.
Qed.

Lemma varint_decode v rest :
  in_u64 v -> dec_loop 10 (varint v ++ rest) 0 0 0 = Some v.
Proof.
  intros Hv. pose proof (dec_loop_varint 10 v rest 0 0) as H.
  change (7 * 0) with 0 in H. unfold varint. rewrite H; [|lia..|].
  - rewrite Z.shiftl_0_r. by rewrite Z.lor_0_l.
  - unfold in_u64, UINT64_MAX in Hv. change (2 ^ (64 - 0)) with (2 ^ 64). lia.
Qed.

Lemma EncodeVarUnsignedInt64_varint v buf :
  in_u64 v -> (10 <= length buf)%nat ->
  EncodeVarUnsignedInt64 v (Some buf) =
    Some (Z.of_nat (length (varint v)), Some (varint v ++ drop (length (varint v)) buf)).
Proof.
  intros Hv Hb. unfold EncodeVarUnsignedInt64. pose proof (varint_length v).
  pose proof (enc_loop_varint 10 v [] buf 0) as E. fold (varint v) in E.
  cbn [app length] in E. rewrite E; [done|by apply u64_fits|lia..].
Qed.

(** ** The fixed eight byte encoding *)

Lemma le_bytes_length v : length (le_bytes v) = 8%nat.
Proof. done. Qed.

(** The [n] bytes of [a] from byte [i] on give back [a / 256 ^ i] modulo [256 ^ n]. *)
Lemma le_value_seq a i n : 0 <= a ->
  le_value ((λ k, byte_of_Z (Z.shiftr a (8 * Z.of_nat k))) <$> seq i n) =
    (a / 2 ^ (8 * Z.of_nat i)) mod 2 ^ (8 * Z.of_nat n).
Proof.
  intros Ha. revert i. induction n as [|n IH]; intros i; [by rewrite Z.mod_1_r|].
  cbn [seq fmap list_fmap le_value foldr].
  change (foldr _ 0 ?l) with (le_value l). rewrite IH, Z_of_byte_of_Z, Z.shiftr_div_pow2 by lia.
  replace (8 * Z.of_nat (S i)) with (8 * Z.of_nat i + 8) by lia.
  replace (8 * Z.of_nat (S n)) with (8 + 8 * Z.of_nat n) by lia.
  rewrite Z.pow_add_r, <- Z.div_div, (Z.pow_add_r 2 8) by lia. change (2 ^ 8) with 256.
  rewrite Z.rem_mul_r by lia. lia.
Qed.

Lemma le_value_le_bytes v : le_value (le_bytes v) = u64 v.
Proof.
  unfold le_bytes. pose proof (uwrap_range 64 v ltac:(lia)).
  rewrite le_value_seq by (unfold u64; lia).
  rewrite Z.div_1_r. by apply Z.mod_small.
Qed.

(** ** Theorems *)

(** C34. [DecodeVarUnsignedInt64] recovers every [uint64_t] from the bytes
    [EncodeVarUnsignedInt64] writes, whatever bytes follow them; the encoder
    writes between one and ten bytes, so it stays inside the ten byte buffers
    its callers allocate, and reports how many it wrote. *)
Theorem varint_roundtrip (v : Z) (rest : list ascii) (Hv : in_u64 v) :
  exists cnt buf,
    EncodeVarUnsignedInt64 v (Some (replicate 10 NUL)) = Some (cnt, Some buf) /\
    1 <= cnt <= 10 /\
    DecodeVarUnsignedInt64 (Some (take (Z.to_nat cnt) buf ++ rest)) = Some v.
Proof.
  pose proof (varint_length v).
  eexists _, _. split; [by apply EncodeVarUnsignedInt64_varint|]. split; [lia|].
  rewrite Nat2Z.id, take_app_length. by apply varint_decode.
Qed.

Lemma varint_roundtrip_witness : in_u64 300 /\ exists cnt buf,
  EncodeVarUnsignedInt64 300 (Some (replicate 10 NUL)) = Some (cnt, Some buf) /\
  1 <= cnt <= 10 /\
  DecodeVarUnsignedInt64 (Some (take (Z.to_nat cnt) buf ++ [NUL])) = Some 300.
Proof.
  assert (in_u64 300) as H by (unfold in_u64, UINT64_MAX; lia).
  exact (conj H (varint_roundtrip 300 [NUL] H)).
Defined.

(** Signed integers survive the unsigned encoding: [EncodeVarSignedInt64]
    then [DecodeVarSignedInt64] is the identity on [int64_t], negative numbers
    included. *)
Lemma varint_signed_roundtrip (v : Z) (rest : list ascii) (Hv : in_i64 v) :
  exists cnt buf,
    EncodeVarSignedInt64 v (Some (replicate 10 NUL)) = Some (cnt, Some buf) /\
    1 <= cnt <= 10 /\
    DecodeVarSignedInt64 (Some (take (Z.to_nat cnt) buf ++ rest)) = Some v.
Proof.
  pose proof (varint_length (u64 v)). pose proof (u64_range v) as Hr.
  eexists _, _. split; [by apply EncodeVarUnsignedInt64_varint|]. split; [lia|].
  unfold DecodeVarSignedInt64, DecodeVarUnsignedInt64. rewrite Nat2Z.id, take_app_length.
  rewrite varint_decode by done. cbn. by rewrite i64_u64.
Qed.

Lemma varint_signed_roundtrip_witness : in_i64 (-1) /\ exists cnt buf,
  EncodeVarSignedInt64 (-1) (Some (replicate 10 NUL)) = Some (cnt, Some buf) /\
  1 <= cnt <= 10 /\
  DecodeVarSignedInt64 (Some (take (Z.to_nat cnt) buf ++ [])) = Some (-1).
Proof.
  assert (in_i64 (-1)) as H by (unfold in_i64, INT64_MIN, INT64_MAX; lia).
  exact (conj H (varint_signed_roundtrip (-1) [] H)).
Defined.

Lemma varint_step n v : 128 <= v ->
  length (varint_digits (S n) v) = S (length (varint_digits n (v / 128))).
Proof. intros. cbn. destruct (v >=? 128) eqn:E; bools; [done|lia]. Qed.

Lemma varint_stop n v : v < 128 -> length (varint_digits (S n) v) = 1%nat.
Proof. intros. cbn. destruct (v >=? 128) eqn:E; bools; [lia|done]. Qed.

Lemma div_128_pow a k : 0 <= k -> a / 128 / 2 ^ k = a / 2 ^ (7 + k).
Proof. intros. rewrite Z.div_div, Z.pow_add_r by lia. done. Qed.

(** A number below [2 ^ (7 * k)] but not below [2 ^ (7 * (k - 1))] has [k] digits. *)
Lemma varint_digits_count k n v :
  (k < n)%nat -> (k = O \/ 2 ^ (7 * Z.of_nat k) <= v) -> v < 2 ^ (7 * Z.of_nat (S k)) ->
  length (varint_digits n v) = S k.
Proof.
  revert n v. induction k as [|k IH]; intros [|n] v Hn Hlo Hhi; try lia.
  - change (2 ^ (7 * Z.of_nat 1)) with 128 in Hhi. by apply varint_stop.
  - destruct Hlo as [|Hlo]; [lia|].
    replace (7 * Z.of_nat (S k)) with (7 + 7 * Z.of_nat k) in Hlo by lia.
    rewrite Z.pow_add_r in Hlo by lia. change (2 ^ 7) with 128 in Hlo.
    pose proof (Z.pow_pos_nonneg 2 (7 * Z.of_nat k)).
    rewrite varint_step by lia. f_equal. apply IH; [lia| |].
    + right. apply Z.div_le_lower_bound; lia.
    + replace (7 * Z.of_nat (S k)) with (7 * Z.of_nat (S (S k)) - 7) by lia.
      apply div_128_bound; lia.
Qed.

(** [EstimateUnsignedIntBytes] is exact: it returns the number of bytes
    [EncodeVarUnsignedInt64] writes for the same value. *)
Lemma estimate_exact (v : Z) (buf : list ascii)
    (Hv : in_u64 v) (Hbuf : (10 <= length buf)%nat) :
  exists buf', EncodeVarUnsignedInt64 v (Some buf) = Some (EstimateUnsignedIntBytes v, Some buf').
Proof.
  eexists. rewrite EncodeVarUnsignedInt64_varint by done. do 3 f_equal.
  unfold EstimateUnsignedIntBytes, varint. destruct Hv as [Hv0 Hv]. unfold UINT64_MAX in Hv.
  repeat (case_if;
    [first [ by rewrite (varint_digits_count 0) by lia | by rewrite (varint_digits_count 1) by lia
           | by rewrite (varint_digits_count 2) by lia | by rewrite (varint_digits_count 3) by lia
           | by rewrite (varint_digits_count 4) by lia | by rewrite (varint_digits_count 5) by lia
           | by rewrite (varint_digits_count 6) by lia | by rewrite (varint_digits_count 7) by lia
           | by rewrite (varint_digits_count 8) by lia ]|]).
  by rewrite (varint_digits_count 9) by lia.
Qed.

Lemma estimate_exact_witness : in_u64 16384 /\ (10 <= length (replicate 10 NUL))%nat /\
  exists buf', EncodeVarUnsignedInt64 16384 (Some (replicate 10 NUL))
               = Some (EstimateUnsignedIntBytes 16384, Some buf').
Proof.
  assert (in_u64 16384) as H by (unfold in_u64, UINT64_MAX; lia).
  assert (10 <= length (replicate 10 NUL))%nat as H' by (cbn; lia).
  exact (conj H (conj H' (estimate_exact 16384 (replicate 10 NUL) H H'))).
Defined.

(** The fixed encoding used for entry counts and expiry timestamps round
    trips on [int64_t] and overwrites exactly the first eight bytes of the
    buffer. *)
Lemma fixed64_roundtrip (v : Z) (buf : list ascii)
    (Hv : in_i64 v) (Hbuf : (8 <= length buf)%nat) :
  exists buf', EncodeFixed64BitInteger v (Some buf) = Some (Some buf') /\
    drop 8 buf' = drop 8 buf /\ DecodeFixed64BitInteger (Some buf') = Some v.
Proof.
  exists (le_bytes v ++ drop 8 buf). cbn [EncodeFixed64BitInteger].
  rewrite memcpy_some by (cbn; lia). split; [done|].
  rewrite (drop_app_length' (le_bytes v) _ 8) by done. split; [done|].
  cbn [DecodeFixed64BitInteger]. rewrite decide_True by (rewrite length_app, le_bytes_length; lia).
  rewrite (take_app_length' (le_bytes v) _ 8) by done.
  by rewrite le_value_le_bytes, i64_u64.
Qed.

Lemma fixed64_roundtrip_witness : in_i64 (-2) /\ (8 <= length (replicate 9 NUL))%nat /\
  exists buf', EncodeFixed64BitInteger (-2) (Some (replicate 9 NUL)) = Some (Some buf') /\
    drop 8 buf' = drop 8 (replicate 9 NUL) /\ DecodeFixed64BitInteger (Some buf') = Some (-2).
Proof.
  assert (in_i64 (-2)) as H by (unfold in_i64, INT64_MIN, INT64_MAX; lia).
  assert (8 <= length (replicate 9 NUL))%nat as H' by (cbn; lia).
  exact (conj H (conj H' (fixed64_roundtrip (-2) (replicate 9 NUL) H H'))).
Defined.

(** The hash is a 64-bit unsigned value. *)
Lemma Time33Hash_range s : in_u64 (Time33Hash s).
Proof.
  unfold Time33Hash. assert (in_u64 5381) as H by (unfold in_u64, UINT64_MAX; lia).
  revert H. generalize 5381. induction s as [|c s IH]; intros h Hh; [done|].
  cbn. apply IH. apply u64_range.
Qed.

#[export] Hint Resolve Time33Hash_range : litekv.
