(* ===== verification/Numerals.v ===== *)
(** * Numerals: decimal conversions

    The conversions of the C++ library the sources rely on ([std::to_string],
    [strtoll], [std::stoll], [std::stoi], [std::stoull]) and the functions of
    src/str.cpp built on them ([CanConvertToInt64], [CanConvertToInt32],
    [CanConvertToUInt64]). *)

From S2P Require Import Prelude.

Local Open Scope Z_scope.

(** The exceptions the sources throw or catch. *)
Inductive exn := invalid_argument | out_of_range | overflow_error.

(** ** Printing *)

Definition digit (d : Z) : ascii := byte_of_Z (48 + d).

Fixpoint dec_digits (fuel : nat) (n : Z) (acc : list ascii) : list ascii :=
  match fuel with
  | O => acc
  | S fuel =>
      let acc := digit (n mod 10) :: acc in
      if n <? 10 then acc else dec_digits fuel (n / 10) acc
  end.

(** [std::to_string] on a 64-bit integer; twenty digits are enough. *)
Definition to_string (z : Z) : list ascii :=
  if z <? 0 then "-"%char :: dec_digits 20 (- z) [] else dec_digits 20 z [].

(** ** Scanning *)

Definition is_digit (c : ascii) : bool := (48 <=? Z_of_byte c) && (Z_of_byte c <=? 57).

Definition is_space (c : ascii) : bool :=
  (Z_of_byte c =? 32) || ((9 <=? Z_of_byte c) && (Z_of_byte c <=? 13)).

Fixpoint count_while (p : ascii -> bool) (s : list ascii) : nat :=
  match s with
  | c :: s => if p c then S (count_while p s) else O
  | [] => O
  end.

Definition digits_value (s : list ascii) : Z :=
  foldl (λ a c, a * 10 + (Z_of_byte c - 48)) 0 s.

Record scan := { sc_neg : bool; sc_digits : list ascii; sc_end : nat }.

(** White space, an optional sign, then digits: what [strtol] and its relatives
    look at. [sc_end] is the offset of the character that stops the scan. *)
Definition scan_number (mem : list ascii) : scan :=
  let sp := count_while is_space mem in
  let s := drop sp mem in
  let '(neg, sg) := match s with
                    | "-"%char :: _ => (true, 1%nat)
                    | "+"%char :: _ => (false, 1%nat)
                    | _ => (false, O)
                    end in
  let s := drop sg s in
  let n := count_while is_digit s in
  {| sc_neg := neg; sc_digits := take n s; sc_end := (sp + sg + n)%nat |}.

(** [strtoll(mem, &end, 10)]: the value, [end - mem] and whether [errno] is set
    to [ERANGE]. The end of [mem] acts as a terminator. *)
Definition strtoll (mem : list ascii) : Z * nat * bool :=
  let sc := scan_number mem in
  if decide (sc_digits sc = []) then (0, O, false)
  else
    let v := if sc_neg sc then - digits_value (sc_digits sc) else digits_value (sc_digits sc) in
    if v >? INT64_MAX then (INT64_MAX, sc_end sc, true)
    else if v <? INT64_MIN then (INT64_MIN, sc_end sc, true)
    else (v, sc_end sc, false).

(** [strtoll] on a block with no terminator added: a scan that reaches the end
    of the block reads past it. *)
Definition strtoll_mem (mem : list ascii) : option (Z * nat * bool) :=
  if decide (sc_end (scan_number mem) < length mem)%nat then Some (strtoll mem) else None.

Definition strtoull (mem : list ascii) : Z * nat * bool :=
  let sc := scan_number mem in
  if decide (sc_digits sc = []) then (0, O, false)
  else
    let v := digits_value (sc_digits sc) in
    if v >? UINT64_MAX then (UINT64_MAX, sc_end sc, true)
    else (if sc_neg sc then u64 (- v) else v, sc_end sc, false).

(** [std::stoll], [std::stoi] and [std::stoull] work on [str.c_str()]. *)
Definition stoll (str : list ascii) : exn + Z :=
  let '(v, n, erange) := strtoll (c_str str) in
  if decide (n = O) then inl invalid_argument
  else if erange : bool then inl out_of_range else inr v.

Definition stoi (str : list ascii) : exn + Z :=
  let '(v, n, erange) := strtoll (c_str str) in
  if decide (n = O) then inl invalid_argument
  else if (erange : bool) || (v <? INT32_MIN) || (v >? INT32_MAX) then inl out_of_range
  else inr v.

Definition stoull (str : list ascii) : exn + Z :=
  let '(v, n, erange) := strtoull (c_str str) in
  if decide (n = O) then inl invalid_argument
  else if erange : bool then inl out_of_range else inr v.

(** ** The conversions of src/str.cpp

    [None] is the result [false] (the output argument is left alone), [Some] the
    result [true] with the value assigned. *)

Definition CanConvertToInt64 (str : list ascii) : option Z :=
  if decide (str = []) then None
  else if Z.of_nat (length str) >? 20 then None
  else match stoll str with
       | inr tmp => if decide (to_string tmp = str) then Some tmp else None
       | inl _ => None
       end.

Definition CanConvertToInt32 (str : list ascii) : option Z :=
  if decide (str = []) then None
  else if Z.of_nat (length str) >? 20 then None
  else match stoi str with
       | inr tmp => if decide (to_string tmp = str) then Some tmp else None
       | inl _ => None
       end.

Definition CanConvertToUInt64 (str : list ascii) : option Z :=
  if decide (str = []) then None
  else match stoull str with inr val => Some val | inl _ => None end.

(** ** Digits *)

Lemma digit_val d : 0 <= d < 10 -> Z_of_byte (digit d) = 48 + d.
Proof. intros. unfold digit. rewrite Z_of_byte_of_Z. apply Z.mod_small. lia. Qed.

Lemma digit_is_digit d : 0 <= d < 10 -> is_digit (digit d) = true.
Proof.
  intros. unfold is_digit. rewrite digit_val by done.
  apply andb_true_iff. rewrite !Z.leb_le. lia.
Qed.

Lemma is_digit_not_space c : is_digit c = true -> is_space c = false.
Proof.
  unfold is_digit, is_space. intros. bools.
  apply orb_false_iff. rewrite andb_false_iff, Z.eqb_neq, Z.leb_gt, Z.leb_gt. lia.
Qed.

Lemma dec_digits_digits n fuel acc : 0 <= n ->
  Forall (λ c, is_digit c = true) acc ->
  Forall (λ c, is_digit c = true) (dec_digits fuel n acc).
Proof.
  revert n acc. induction fuel as [|f IH]; intros n acc Hn Hacc; [done|]. cbn.
  assert (is_digit (digit (n mod 10)) = true)
    by (apply digit_is_digit, Z.mod_pos_bound; lia).
  case_if; [by constructor|]. apply IH; [apply Z.div_pos; lia|by constructor].
Qed.

Lemma dec_digits_value fuel n acc a : 0 <= n < 10 ^ Z.of_nat fuel -> (0 < fuel)%nat ->
  foldl (λ a c, a * 10 + (Z_of_byte c - 48)) 0 (dec_digits fuel n acc) = a ->
  foldl (λ a c, a * 10 + (Z_of_byte c - 48)) n acc = a.
Proof.
  revert n acc. induction fuel as [|f IH]; intros n acc Hn Hf; [lia|]. cbn [dec_digits].
  pose proof (Z.mod_pos_bound n 10 ltac:(lia)).
  case_if; intros E'.
  - cbn [foldl] in E'. rewrite digit_val, Z.mod_small in E' by lia.
    by replace (0 * 10 + (48 + n - 48)) with n in E' by lia.
  - destruct f as [|f]; [change (10 ^ Z.of_nat 1) with 10 in Hn; lia|].
    apply IH in E'; [| |lia].
    + cbn [foldl] in E'. rewrite digit_val in E' by lia.
      pose proof (Z.div_mod n 10 ltac:(lia)).
      by replace (n / 10 * 10 + (48 + n mod 10 - 48)) with n in E' by lia.
    + split; [apply Z.div_pos; lia|]. apply Z.div_lt_upper_bound; [lia|].
      rewrite <- Z.pow_succ_r by lia. replace (Z.succ (Z.of_nat (S f))) with (Z.of_nat (S (S f))) by lia.
      lia.
Qed.

Lemma dec_digits_length fuel n acc k : (0 < k)%nat ->
  0 <= n < 10 ^ Z.of_nat k -> (length (dec_digits fuel n acc) <= k + length acc)%nat.
Proof.
  revert n acc k. induction fuel as [|f IH]; intros n acc k Hk Hn; cbn; [lia|].
  case_if; cbn; [lia|]. destruct k as [|[|k]]; [lia|change (10 ^ Z.of_nat 1) with 10 in Hn; lia|].
  specialize (IH (n / 10) (digit (n mod 10) :: acc) (S k)). cbn in IH.
  assert (0 <= n / 10 < 10 ^ Z.of_nat (S k)); [|lia].
  split; [apply Z.div_pos; lia|]. apply Z.div_lt_upper_bound; [lia|].
  rewrite <- Z.pow_succ_r by lia. replace (Z.succ (Z.of_nat (S k))) with (Z.of_nat (S (S k))) by lia.
  lia.
Qed.

Lemma dec_digits_nonempty fuel n acc : (0 < fuel)%nat -> dec_digits fuel n acc <> [].
Proof.
  revert n acc. induction fuel as [|f IH]; intros n acc Hf; [lia|]. cbn.
  case_if; [done|]. destruct f; [done|]. apply IH. lia.
Qed.

Lemma count_while_all p s t : Forall (λ c, p c = true) s ->
  match t with c :: _ => p c = false | [] => True end ->
  count_while p (s ++ t) = length s.
Proof.
  intros Hs Ht. induction Hs as [|c s Hc Hs IH]; cbn.
  - destruct t; cbn; [done|]. by rewrite Ht.
  - by rewrite Hc, IH.
Qed.

(** The scan of a printed number followed by a non-digit. *)
Lemma scan_digits_only s t : s <> [] -> Forall (λ c, is_digit c = true) s ->
  match t with c :: _ => is_digit c = false | [] => True end ->
  scan_number (s ++ t) = {| sc_neg := false; sc_digits := s; sc_end := length s |}.
Proof.
  intros Hne Hs Ht. destruct s as [|c s]; [done|]. inversion Hs as [|? ? Hc Hs']; subst.
  unfold scan_number. cbn [app count_while]. rewrite is_digit_not_space by done. cbn [drop].
  assert (match c :: s ++ t with
          | "-"%char :: _ => (true, 1%nat) | "+"%char :: _ => (false, 1%nat)
          | _ => (false, O) end = (false, O)) as ->.
  { revert Hc. clear. destruct c as [[] [] [] [] [] [] [] []]; vm_compute; congruence. }
  rewrite drop_0. change (c :: s ++ t) with ((c :: s) ++ t).
  rewrite count_while_all by done. by rewrite take_app_length.
Qed.

Lemma scan_minus s t : s <> [] -> Forall (λ c, is_digit c = true) s ->
  match t with c :: _ => is_digit c = false | [] => True end ->
  scan_number ("-"%char :: s ++ t) = {| sc_neg := true; sc_digits := s; sc_end := S (length s) |}.
Proof.
  intros Hne Hs Ht. unfold scan_number.
  assert (count_while is_space ("-"%char :: s ++ t) = O) as -> by done. cbn [drop Nat.add].
  rewrite drop_0. rewrite count_while_all by done. by rewrite take_app_length.
Qed.

Lemma to_string_digits z : in_i64 z \/ in_u64 z ->
  exists ds, ds <> [] /\ Forall (λ c, is_digit c = true) ds /\
    digits_value ds = Z.abs z /\ (length ds <= 20)%nat /\
    to_string z = (if z <? 0 then "-"%char :: ds else ds).
Proof.
  intros Hz. assert (Z.abs z < 10 ^ Z.of_nat 20) as Hlt.
  { unfold in_i64, in_u64, INT64_MIN, INT64_MAX, UINT64_MAX in Hz.
    change (10 ^ Z.of_nat 20) with 100000000000000000000. lia. }
  exists (dec_digits 20 (Z.abs z) []). split; [apply dec_digits_nonempty; lia|].
  split; [apply dec_digits_digits; [lia|constructor]|].
  split; [unfold digits_value; symmetry; eapply (dec_digits_value 20 (Z.abs z) []); [lia..|done]|].
  split; [pose proof (dec_digits_length 20 (Z.abs z) [] 20); cbn in *; lia|].
  unfold to_string. case_if; [by rewrite Z.abs_neq by lia|by rewrite Z.abs_eq by lia].
Qed.

(** Scanning a printed number followed by a non-digit finds the number and the
    offset just after it. *)
Lemma strtoll_to_string z t : in_i64 z ->
  match t with c :: _ => is_digit c = false | [] => True end ->
  strtoll (to_string z ++ t) = (z, length (to_string z), false) /\
  sc_end (scan_number (to_string z ++ t)) = length (to_string z).
Proof.
  intros Hz Ht. destruct (to_string_digits z (or_introl Hz)) as (ds & Hne & Hds & Hval & _ & ->).
  unfold in_i64 in Hz. unfold strtoll. destruct (z <? 0) eqn:E; bools; cbn [app].
  - rewrite scan_minus by done. cbn [sc_digits sc_neg sc_end]. rewrite decide_False by done.
    rewrite Hval. rewrite Z.abs_neq by lia.
    destruct (Z.gtb_spec (- - z) INT64_MAX); [lia|].
    destruct (Z.ltb_spec (- - z) INT64_MIN); [lia|]. by rewrite Z.opp_involutive.
  - rewrite scan_digits_only by done. cbn [sc_digits sc_neg sc_end]. rewrite decide_False by done.
    rewrite Hval. rewrite Z.abs_eq by lia.
    destruct (Z.gtb_spec z INT64_MAX); [lia|].
    by destruct (Z.ltb_spec z INT64_MIN); [lia|].
Qed.

Lemma to_string_nonempty z : in_i64 z \/ in_u64 z -> to_string z <> [].
Proof.
  intros Hz. destruct (to_string_digits z Hz) as (ds & ? & _ & _ & _ & ->). by case_if.
Qed.

Lemma to_string_no_nul z : in_i64 z \/ in_u64 z -> NUL ∉ to_string z.
Proof.
  intros Hz. destruct (to_string_digits z Hz) as (ds & _ & Hds & _ & _ & ->).
  assert (NUL ∉ ds).
  { intros Hin. rewrite Forall_forall in Hds. apply list_elem_of_In in Hin. by specialize (Hds _ Hin). }
  case_if; [|done]. rewrite not_elem_of_cons. done.
Qed.

Lemma to_string_i64_length z : in_i64 z -> (1 <= length (to_string z) <= 20)%nat.
Proof.
  intros Hz. assert (Z.abs z < 10 ^ Z.of_nat 19) as Hlt.
  { unfold in_i64, INT64_MIN, INT64_MAX in Hz.
    change (10 ^ Z.of_nat 19) with 10000000000000000000. lia. }
  pose proof (to_string_nonempty z (or_introl Hz)).
  assert (length (to_string z) <= 20)%nat.
  { unfold to_string. case_if; cbn [length].
    - pose proof (dec_digits_length 20 (- z) [] 19). cbn [length] in *. lia.
    - pose proof (dec_digits_length 20 z [] 19). cbn [length] in *. lia. }
  destruct (to_string z); cbn in *; [done|lia].
Qed.

Lemma strtoll_range mem v n e : strtoll mem = (v, n, e) -> in_i64 v.
Proof.
  unfold strtoll, in_i64. case_decide; [intros [= <- _ _]; unfold INT64_MIN, INT64_MAX; lia|].
  cbn zeta. set (w := if sc_neg _ then _ else _).
  destruct (Z.gtb_spec w INT64_MAX); [intros [= <- _ _]; unfold INT64_MIN, INT64_MAX; lia|].
  destruct (Z.ltb_spec w INT64_MIN); intros [= <- _ _]; [unfold INT64_MIN, INT64_MAX|]; lia.
Qed.

Lemma stoll_to_string z : in_i64 z -> stoll (to_string z) = inr z.
Proof.
  intros Hz. unfold stoll. rewrite c_str_no_nul by (apply to_string_no_nul; auto).
  pose proof (strtoll_to_string z [] Hz I) as [E _]. rewrite app_nil_r in E. rewrite E.
  pose proof (to_string_i64_length z Hz). rewrite decide_False by lia. done.
Qed.

Lemma stoi_to_string z : in_i32 z -> stoi (to_string z) = inr z.
Proof.
  intros Hz. assert (in_i64 z) as Hz'
    by (unfold in_i32, in_i64, INT32_MIN, INT32_MAX, INT64_MIN, INT64_MAX in *; lia).
  unfold stoi. rewrite c_str_no_nul by (apply to_string_no_nul; auto).
  pose proof (strtoll_to_string z [] Hz' I) as [E _]. rewrite app_nil_r in E. rewrite E.
  pose proof (to_string_i64_length z Hz'). rewrite decide_False by lia.
  unfold in_i32 in Hz. destruct (Z.ltb_spec z INT32_MIN); [lia|].
  by destruct (Z.gtb_spec z INT32_MAX); [lia|].
Qed.

(** ** Theorems *)

(** [CanConvertToInt64] accepts exactly the canonical decimal numerals of
    [int64_t]: it succeeds with [z] if and only if the string is what
    [std::to_string] prints for an in-range [z]. A value that [set] stores as an
    integer is therefore printed back as the very string the client sent. *)
Lemma CanConvertToInt64_iff (str : list ascii) (z : Z) :
  CanConvertToInt64 str = Some z <-> in_i64 z /\ str = to_string z.
Proof.
  split.
  - unfold CanConvertToInt64. case_decide; [done|]. case_if; [done|].
    unfold stoll. destruct (strtoll (c_str str)) as [[v n] e] eqn:Hs.
    case_decide; [done|]. destruct e; [done|]. case_decide; [|done]. intros [= <-].
    split; [by eapply strtoll_range|done].
  - intros [Hz ->]. unfold CanConvertToInt64. pose proof (to_string_i64_length z Hz).
    rewrite decide_False by (apply to_string_nonempty; auto).
    destruct (Z.gtb_spec (Z.of_nat (length (to_string z))) 20); [lia|].
    by rewrite stoll_to_string, decide_True by done.
Qed.

(** [CanConvertToInt32] accepts exactly the canonical decimal numerals of
    [int]. *)
Lemma CanConvertToInt32_iff (str : list ascii) (z : Z) :
  CanConvertToInt32 str = Some z <-> in_i32 z /\ str = to_string z.
Proof.
  split.
  - unfold CanConvertToInt32. case_decide; [done|]. case_if; [done|].
    unfold stoi. destruct (strtoll (c_str str)) as [[v n] e] eqn:Hs.
    case_decide; [done|].
    destruct (e || (v <? INT32_MIN) || (v >? INT32_MAX)) eqn:E'; [done|]. bools.
    case_decide; [|done]. intros [= <-]. split; [unfold in_i32; lia|done].
  - intros [Hz ->]. assert (in_i64 z) as Hz'
      by (unfold in_i32, in_i64, INT32_MIN, INT32_MAX, INT64_MIN, INT64_MAX in *; lia).
    unfold CanConvertToInt32. pose proof (to_string_i64_length z Hz').
    rewrite decide_False by (apply to_string_nonempty; auto).
    destruct (Z.gtb_spec (Z.of_nat (length (to_string z))) 20); [lia|].
    by rewrite stoi_to_string, decide_True by done.
Qed.

Lemma stoull_to_string z : in_u64 z -> stoull (to_string z) = inr z.
Proof.
  intros Hz. destruct (to_string_digits z (or_intror Hz)) as (ds & Hne & Hds & Hval & _ & E). unfold stoull.
  rewrite c_str_no_nul by (apply to_string_no_nul; auto). rewrite E. unfold in_u64 in Hz.
  destruct (z <? 0) eqn:Ez; bools; [lia|]. unfold strtoull. rewrite <- (app_nil_r ds).
  rewrite scan_digits_only by done. cbn [sc_digits sc_neg sc_end]. rewrite decide_False by done.
  rewrite Hval, Z.abs_eq by lia. destruct (Z.gtb_spec z UINT64_MAX); [lia|].
  rewrite decide_False by (by destruct ds). done.
Qed.

Lemma CanConvertToUInt64_to_string z : in_u64 z -> CanConvertToUInt64 (to_string z) = Some z.
Proof.
  intros Hz. unfold CanConvertToUInt64. rewrite decide_False by (apply to_string_nonempty; auto). by rewrite stoull_to_string.
Qed.
