(* ===== verification/Doubles.v ===== *)
(** * Doubles: floating-point numbers and their decimal form

    A [double] is a [spec_float] of 53 bits; [std::stod] reads one, correctly rounded,
    as the C library does ([strtod], to nearest), with [errno]'s [ERANGE]; and
    [CanConvertToDouble] of src/str.cpp. *)

From S2P Require Import Prelude Numerals.
From Stdlib Require Import SpecFloat.

Local Open Scope Z_scope.

Definition double : Type := spec_float.
Definition double_prec : Z := 53.
Definition double_emax : Z := 1024.

(** The integer [z] as a double, and the product of two. *)
Definition double_of_Z (z : Z) : double := binary_normalize double_prec double_emax z 0 false.
Definition double_mul (x y : double) : double := SFmul double_prec double_emax x y.

(** [(size_t) x]: undefined unless the truncated value is a [size_t]. *)
Definition size_of_double (x : double) : option Z :=
  let trunc m e := if e >=? 0 then Z.shiftl m e else Z.shiftr m (- e) in
  match x with
  | S754_zero _ => Some 0
  | S754_finite false m e => if trunc (Zpos m) e <=? UINT64_MAX then Some (trunc (Zpos m) e) else None
  | S754_finite true m e => if trunc (Zpos m) e =? 0 then Some 0 else None
  | S754_infinity _ | S754_nan => None
  end.

(** ** [strtod] *)

(** A positive rational [n / d], rounded. *)
Definition round_ratio (n d : positive) : double :=
  SFdiv double_prec double_emax (S754_finite false n 0) (S754_finite false d 0).

Definition exact_ratio (n d : positive) (x : double) : bool :=
  match x with
  | S754_finite false m e =>
      if e >=? 0 then Z.shiftl (Zpos m) e * Zpos d =? Zpos n else Zpos m * Zpos d =? Z.shiftl (Zpos n) (- e)
  | _ => false
  end.

(** [ERANGE]: the result is infinite, or it is below the normal range (judged after
    rounding) and not exact. *)
Definition ratio_erange (n d : positive) (x : double) : bool :=
  match x with
  | S754_infinity _ => true
  | _ => SFltb (round_ratio (Pos.shiftl n 1100) d) (S754_finite false 1 78) && negb (exact_ratio n d x)
  end.

Definition neg_double (s : bool) (x : double) : double := if s then SFopp x else x.

(** [m * base ^ e]; exponents far outside the range are settled by the magnitude. *)
Definition scaled (neg : bool) (m : Z) (base : Z) (e : Z) (digits10 : Z) : double * bool :=
  match m with
  | Zpos p =>
      if digits10 + e >? 1100 then (S754_infinity neg, true)
      else if digits10 + e <? -1100 then (S754_zero neg, true)
      else
        let '(n, d) := if e >=? 0 then (Z.to_pos (Zpos p * base ^ e), 1%positive) else (p, Z.to_pos (base ^ (- e))) in
        let x := round_ratio n d in
        (neg_double neg x, ratio_erange n d x)
  | _ => (S754_zero neg, false)
  end.

Definition hex_digit (c : ascii) : option Z :=
  let z := Z_of_byte c in
  if is_digit c then Some (z - 48)
  else if (97 <=? z) && (z <=? 102) then Some (z - 87)
  else if (65 <=? z) && (z <=? 70) then Some (z - 55)
  else None.

Definition is_hex (c : ascii) : bool := match hex_digit c with Some _ => true | None => false end.

Definition hex_value (s : list ascii) : Z := foldl (λ v c, v * 16 + default 0 (hex_digit c)) 0 s.

Definition lower (c : ascii) : ascii :=
  if (65 <=? Z_of_byte c) && (Z_of_byte c <=? 90) then byte_of_Z (Z_of_byte c + 32) else c.

(** The string begins with the word, in any case. *)
Definition starts (word s : list ascii) : bool := bool_decide (lower <$> take (length word) s = word).

(** An optional exponent behind [mark]: its value and its length. *)
Definition scan_exponent (mark : ascii) (s : list ascii) : Z * nat :=
  match s with
  | c :: s =>
      if decide (lower c = mark) then
        let '(neg, sg) := match s with
                          | "-"%char :: _ => (true, 1%nat)
                          | "+"%char :: _ => (false, 1%nat)
                          | _ => (false, 0%nat)
                          end in
        let n := count_while is_digit (drop sg s) in
        let v := digits_value (take n (drop sg s)) in
        if decide (n = 0%nat) then (0, 0%nat) else (if neg : bool then - v else v, (1 + sg + n)%nat)
      else (0, 0%nat)
  | [] => (0, 0%nat)
  end.

(** Digits with an optional point: the digits and those behind it, and the length;
    none if there is no digit. *)
Definition scan_mantissa (digit : ascii -> bool) (s : list ascii) : option (list ascii * nat * nat) :=
  let n := count_while digit s in
  let '(frac, dot) := match drop n s with
                      | "."%char :: s' => (take (count_while digit s') s', 1%nat)
                      | _ => ([], 0%nat)
                      end in
  let ds := take n s ++ frac in
  if decide (ds = []) then None else Some (ds, length frac, (n + dot + length frac)%nat).

(** Significant digits. *)
Definition strip_zeros (ds : list ascii) : list ascii := drop (count_while (λ c, bool_decide (c = "0"%char)) ds) ds.

(** Behind blanks and the sign: the value and [ERANGE]; none if nothing is converted. *)
Definition scan_double (neg : bool) (s : list ascii) : option (double * bool) :=
  if starts (bs "inf") s then Some (S754_infinity neg, false)
  else if starts (bs "nan") s then Some (S754_nan, false)
  else
    match if starts (bs "0x") s then scan_mantissa is_hex (drop 2 s) else None with
    | Some (ds, frac, len) =>
        let '(e, _) := scan_exponent "p" (drop (2 + len) s) in
        Some (scaled neg (hex_value ds) 2 (e - 4 * Z.of_nat frac) (4 * Z.of_nat (length (strip_zeros ds))))
    | None =>
        match scan_mantissa is_digit s with
        | Some (ds, frac, len) =>
            let '(e, _) := scan_exponent "e" (drop len s) in
            Some (scaled neg (digits_value ds) 10 (e - Z.of_nat frac) (Z.of_nat (length (strip_zeros ds))))
        | None => None
        end
    end.

Definition strtod (mem : list ascii) : option (double * bool) :=
  let s := drop (count_while is_space mem) mem in
  match s with
  | "-"%char :: s => scan_double true s
  | "+"%char :: s => scan_double false s
  | _ => scan_double false s
  end.

(** [std::stod] on [str.c_str()]. *)
Definition stod (str : list ascii) : exn + double :=
  match strtod (c_str str) with
  | None => inl invalid_argument
  | Some (x, erange) => if erange : bool then inl out_of_range else inr x
  end.

Definition CanConvertToDouble (str : list ascii) : option double :=
  if decide (str = []) then None
  else match stod str with inr val => Some val | inl _ => None end.

Example doubles_read :
  stod (bs "0.9") = inr (S754_finite false 8106479329266893 (-53)) /\
  stod (bs " -12.5e1x") = inr (S754_finite true 8796093022208000 (-46)) /\
  stod (bs "0x1.8p1") = inr (S754_finite false 6755399441055744 (-51)) /\
  stod (bs "1e400") = inl out_of_range /\ stod (bs "1e-400") = inl out_of_range /\ stod (bs ".") = inl invalid_argument /\
  stod (bs "4.9406564584124654e-324") = inl out_of_range /\ stod (bs "0x1p-1074") = inr (S754_finite false 1 (-1074)).
Proof. vm_compute. repeat split. Qed.
