(* ===== verification/Str.v ===== *)
(** * Str: the string classes of src/str.h and src/str.cpp

    [DynamicString] is the growable string every value, list element, hash field
    and set member is stored in; [StaticString] is the type of keys.

    The heap block of a [DynamicString] is a list of cells; a cell [malloc] or
    [realloc] has not initialised is [None]. An access outside the block makes
    the operation [None] (undefined behaviour). The operations that allocate
    take the allocator's answers as [malloc_ok]; the rest of the program runs
    with [always_ok], where every allocation succeeds. *)

From S2P Require Import Prelude Encoding Numerals.

Local Open Scope Z_scope.

(** ** The growth of a buffer

    [uint32_t((len_ + addlen) * kBufGrowFactor + 1)] is computed in [float]:
    [rnd24] rounds a non-negative number to 24 significant bits, ties to even. *)
Definition rnd24 (v : Z) : Z :=
  if v <? 2 ^ 24 then v
  else
    let s := Z.log2 v - 23 in
    let q := v / 2 ^ s in
    let r := v mod 2 ^ s in
    let q := if 2 * r <? 2 ^ s then q
             else if 2 ^ s <? 2 * r then q + 1
             else if Z.even q then q else q + 1 in
    q * 2 ^ s.

(** In halves: [3 * n] is [2 * (1.5 * n)]. The conversion of a [float] out of
    the range of [uint32_t] is undefined. *)
Definition grow (n : Z) : option Z :=
  let x := rnd24 (3 * rnd24 n) in
  let y := rnd24 (x + 2) / 2 in
  if y <? 2 ^ 32 then Some y else None.

(** ** DynamicString *)

Record DynamicString := mkDS {
  ds_len : Z;                                (* uint32_t len_ *)
  ds_alloc : Z;                              (* uint32_t alloc_ *)
  ds_buf : option (list (option ascii))      (* char *buf_ *)
}.

#[export] Instance DynamicString_eq_dec : EqDecision DynamicString.
Proof. solve_decision. Defined.

(** The default constructor. *)
Definition ds_null : DynamicString := mkDS 0 0 None.

Definition always_ok : Z -> bool := λ _, true.

(** The first [n] bytes behind a [const char *]. *)
Definition read_src (str : list ascii) (n : Z) : option (list (option ascii)) :=
  if decide (Z.to_nat n <= length str)%nat then Some (Some <$> take (Z.to_nat n) str) else None.

Definition malloc (n : Z) : list (option ascii) := replicate (Z.to_nat n) None.

Definition realloc (b : list (option ascii)) (n : Z) : list (option ascii) :=
  take (Z.to_nat n) b ++ replicate (Z.to_nat n - length b) None.

Section Ops.
Variable malloc_ok : Z -> bool.

(** [DynamicString(const char *str, uint32_t len)]; a failed [malloc] is
    dereferenced. *)
Definition DynamicString_chars (str : option (list ascii)) (len : Z) : option DynamicString :=
  match str with
  | None => Some ds_null
  | Some str =>
      let alloc := u32 (len + 1) in
      if malloc_ok alloc then
        src ← read_src str len;
        b ← memcpy (malloc alloc) 0 src;
        b ← store b (Z.to_nat len) (Some NUL);
        Some (mkDS len alloc (Some b))
      else None
  end.

(** [DynamicString(const std::string &str)]. *)
Definition DynamicString_std (str : list ascii) : option DynamicString :=
  let alloc := u32 (Z.of_nat (length str) + 1) in
  if malloc_ok alloc then
    let len := u32 (Z.of_nat (length str)) in
    src ← read_src str len;
    b ← memcpy (malloc alloc) 0 src;
    b ← store b (Z.to_nat len) (Some NUL);
    Some (mkDS len alloc (Some b))
  else None.

(** The copy constructor. *)
Definition DynamicString_copy (x : DynamicString) : option DynamicString :=
  match ds_buf x with
  | None => Some ds_null
  | Some xb =>
      if malloc_ok (ds_alloc x) then
        b ← memcpy (malloc (ds_alloc x)) 0 (take (Z.to_nat (ds_len x)) xb);
        b ← store b (Z.to_nat (ds_len x)) (Some NUL);
        Some (mkDS (ds_len x) (ds_alloc x) (Some b))
      else None
  end.

(** The copy assignment, for distinct objects. *)
Definition DynamicString_assign (self x : DynamicString) : option DynamicString :=
  if malloc_ok (ds_alloc x) then
    b ← memcpy (malloc (ds_alloc x)) 0 (take (Z.to_nat (ds_len x)) (default [] (ds_buf x)));
    b ← store b (Z.to_nat (ds_len x)) (Some NUL);
    Some (mkDS (ds_len x) (ds_alloc x) (Some b))
  else Some self.

(** The move constructor: the new object and what is left in the source. *)
Definition DynamicString_move (ds : DynamicString) : DynamicString * DynamicString :=
  match ds_buf ds with
  | None => (ds_null, ds)
  | Some _ => (ds, ds_null)
  end.

(** [Append(const char *str, uint32_t addlen)]. *)
Definition Append (d : DynamicString) (str : list ascii) (addlen : Z) : option DynamicString :=
  let '(d, ok) :=
    match ds_buf d with
    | None =>
        let alloc := u32 (addlen + 1) in
        if malloc_ok alloc then (mkDS (ds_len d) alloc (Some (malloc alloc)), true)
        else (mkDS (ds_len d) alloc None, false)
    | Some _ => (d, true)
    end in
  if ok : bool then
    b ← ds_buf d;
    src ← read_src str addlen;
    let free_bytes := u32 (ds_alloc d - ds_len d - 1) in
    if free_bytes >=? addlen then
      b ← memcpy b (Z.to_nat (ds_len d)) src;
      let len := u32 (ds_len d + addlen) in
      b ← store b (Z.to_nat len) (Some NUL);
      Some (mkDS len (ds_alloc d) (Some b))
    else
      alloc ← grow (u32 (ds_len d + addlen));
      if malloc_ok alloc then
        b ← memcpy (realloc b alloc) (Z.to_nat (ds_len d)) src;
        let len := u32 (ds_len d + addlen) in
        b ← store b (Z.to_nat len) (Some NUL);
        Some (mkDS len alloc (Some b))
      else Some (mkDS (ds_len d) alloc (Some b))
  else Some d.

(** [Append(const std::string &)]: the size is converted to [uint32_t]. *)
Definition Append_std (d : DynamicString) (str : list ascii) : option DynamicString :=
  Append d str (u32 (Z.of_nat (length str))).

Definition Clear (d : DynamicString) : option DynamicString :=
  match ds_buf d with
  | None => Some d
  | Some b =>
      if (ds_len d =? 0) || (ds_alloc d =? 0) then Some d
      else
        b ← memcpy b 0 (replicate (Z.to_nat (ds_alloc d)) (Some NUL));
        b ← store b 0 (Some NUL);
        Some (mkDS 0 (ds_alloc d) (Some b))
  end.

(** [Reset(const char *str, uint32_t len)]. *)
Definition Reset (d : DynamicString) (str : list ascii) (len : Z) : option DynamicString :=
  match ds_buf d with
  | None =>
      let allocated := u32 (len + 1) in
      if malloc_ok allocated then
        d ← Clear (mkDS (ds_len d) allocated (Some (malloc allocated)));
        Append d str len
      else Some d
  | Some _ => d ← Clear d; Append d str len
  end.

Definition Reset_std (d : DynamicString) (str : list ascii) : option DynamicString :=
  Reset d str (u32 (Z.of_nat (length str))).

Definition Shrink (d : DynamicString) : DynamicString :=
  match ds_buf d with
  | None => d
  | Some b =>
      let n := u32 (ds_len d + 1) in
      if malloc_ok n then mkDS (ds_len d) n (Some (realloc b n)) else d
  end.

End Ops.

(** ** Reading a DynamicString *)

Definition ds_data (d : DynamicString) : list ascii :=
  match ds_buf d with
  | Some b => omap id (take (Z.to_nat (ds_len d)) b)
  | None => []
  end.

(** [ToStdString()]. *)
Definition ToStdString (d : DynamicString) : list ascii := ds_data d.

Definition ds_Empty (d : DynamicString) : bool := ds_len d =? 0.

Definition ds_Null (d : DynamicString) : bool := (ds_len d =? 0) && (ds_alloc d =? 0).

Definition ds_NoLenButNotNull (d : DynamicString) : bool :=
  (ds_len d =? 0) && negb (ds_alloc d =? 0).

Definition ds_Available (d : DynamicString) : Z := u32 (ds_alloc d - ds_len d - 1).

(** [operator<<(std::ostream &, const DynamicString &)]: the buffer as a C string. *)
Definition ds_stream (d : DynamicString) : list ascii :=
  match ds_buf d with Some b => c_str (omap id b) | None => [] end.

Definition ds_Hash (d : DynamicString) : Z := Time33Hash (ds_data d).

(** [memcmp]: bytes compare as [unsigned char]. *)
Fixpoint memcmp (a b : list ascii) : comparison :=
  match a, b with
  | x :: a, y :: b =>
      match Z.compare (Z_of_byte x) (Z_of_byte y) with Eq => memcmp a b | c => c end
  | _, _ => Eq
  end.

Definition ds_memcmp (a b : DynamicString) (n : Z) : comparison :=
  memcmp (take (Z.to_nat n) (ds_data a)) (take (Z.to_nat n) (ds_data b)).

Definition ds_eqb (a b : DynamicString) : bool :=
  (ds_len a =? ds_len b) && match ds_memcmp a b (ds_len a) with Eq => true | _ => false end.

Definition ds_neqb (a b : DynamicString) : bool :=
  negb (ds_len a =? ds_len b) || match ds_memcmp a b (ds_len a) with Eq => false | _ => true end.

Definition ds_ltb (a b : DynamicString) : bool :=
  match ds_memcmp a b (Z.min (ds_len a) (ds_len b)) with
  | Eq => ds_len a <? ds_len b
  | Lt => true
  | Gt => false
  end.

Definition ds_gtb (a b : DynamicString) : bool :=
  match ds_memcmp a b (Z.min (ds_len a) (ds_len b)) with
  | Eq => ds_len a >? ds_len b
  | Lt => false
  | Gt => true
  end.

(** [operator[](int idx)]: the offset of the character it refers to. *)
Definition ds_index (d : DynamicString) (idx : Z) : Z :=
  if idx >=? 0 then if idx >=? ds_len d then ds_len d else idx
  else if Z.abs idx >? ds_len d then ds_len d else ds_len d + idx.

(** [TryConvertToInt64]: it does not clear [errno], whose value on entry is
    [errno_erange]. *)
Definition TryConvertToInt64 (errno_erange : bool) (d : DynamicString) : exn + Z :=
  match ds_buf d with
  | None => inl invalid_argument
  | Some _ =>
      if ds_len d >? 20 then inl overflow_error
      else
        let '(ans, _, erange) := strtoll (ds_stream d) in
        let errno := errno_erange || erange in
        if ((ans =? INT64_MAX) && errno) || ((ans =? INT64_MIN) && errno) then inl overflow_error
        else if negb (Z.of_nat (length (to_string ans)) =? ds_len d) then inl invalid_argument
        else inr ans
  end.

(** ** Serialization *)

(** [SerializeCharBuf]: appends to the vector [buf] and returns a size. *)
Definition SerializeCharBuf (data : list ascii) (len : Z) (buf : list ascii)
  : option (Z * list ascii) :=
  if len =? 0 then Some (1, buf ++ [NUL])
  else
    '(cnt, enc) ← EncodeVarUnsignedInt64 len (Some (replicate 10 NUL));
    enc ← enc;
    let buf := buf ++ take (Z.to_nat cnt) enc ++ take (Z.to_nat len) data in
    Some (Z.of_nat (length buf), buf).

Definition ds_Serialize (d : DynamicString) (buf : list ascii) : option (Z * list ascii) :=
  SerializeCharBuf (ds_data d) (ds_len d) buf.

(** The comparisons with a C string, which ends at its first NUL. *)
Definition ds_eqb_cstr (a : DynamicString) (other : list ascii) : bool :=
  let other := c_str other in
  (ds_len a =? Z.of_nat (length other)) &&
  match memcmp (take (length other) (ds_data a)) other with Eq => true | _ => false end.

Definition ds_neqb_cstr (a : DynamicString) (other : list ascii) : bool :=
  let other := c_str other in
  negb (ds_len a =? Z.of_nat (length other)) ||
  match memcmp (take (length other) (ds_data a)) other with Eq => false | _ => true end.

Definition ds_ltb_cstr (a : DynamicString) (other : list ascii) : bool :=
  let other := c_str other in
  let len2 := Z.of_nat (length other) in
  let n := Z.to_nat (Z.min (ds_len a) len2) in
  match memcmp (take n (ds_data a)) (take n other) with
  | Eq => ds_len a <? len2
  | Lt => true
  | Gt => false
  end.

Definition ds_gtb_cstr (a : DynamicString) (other : list ascii) : bool :=
  let other := c_str other in
  let len2 := Z.of_nat (length other) in
  let n := Z.to_nat (Z.min (ds_len a) len2) in
  match memcmp (take n (ds_data a)) (take n other) with
  | Eq => ds_len a >? len2
  | Lt => false
  | Gt => true
  end.

(** ** StaticString

    A [StaticString] is never modified after its construction: it is a null
    pointer or a block of [len_] bytes and a terminator, of which the model
    keeps the [len_] bytes. *)
Definition StaticString : Type := option (list ascii).

(** [StaticString(const char *str)]: the length is [strlen(str)]. *)
Definition StaticString_cstr (str : list ascii) : StaticString := Some (c_str str).

(** [StaticString(const char *str, size_t len)]. *)
Definition StaticString_chars (str : option (list ascii)) (len : Z) : StaticString :=
  (λ s, take (Z.to_nat len) s) <$> str.

(** [StaticString(const std::string &str)] goes through [str.c_str()]. *)
Definition StaticString_std (str : list ascii) : StaticString := StaticString_cstr str.

(** The copy, and the move, which leaves the other null. *)
Definition StaticString_copy (other : StaticString) : StaticString := other.

Definition StaticString_move (other : StaticString) : StaticString * StaticString := (other, None).

(** [operator=]: [same] is [this == &other], [ok] whether [malloc] succeeds; a null string
    is copied as an empty block. *)
Definition StaticString_assign (same ok : bool) (this other : StaticString) : StaticString :=
  if same then this else if ok then Some (default [] other) else this.

Definition ss_Length (s : StaticString) : Z := Z.of_nat (length (default [] s)).

Definition ss_Empty (s : StaticString) : bool :=
  match s with None => true | Some _ => false end.

Definition ss_ToStdString (s : StaticString) : list ascii := c_str (default [] s).

(** [strcmp] on two C strings. *)
Fixpoint strcmp (a b : list ascii) : comparison :=
  match a, b with
  | [], [] => Eq
  | [], _ => Lt
  | _, [] => Gt
  | x :: a, y :: b =>
      match Z.compare (Z_of_byte x) (Z_of_byte y) with Eq => strcmp a b | c => c end
  end.

(** The comparisons dereference both buffers. *)
Definition ss_cmp (a b : StaticString) : option comparison :=
  a ← a; b ← b; Some (strcmp (c_str a) (c_str b)).

Definition ss_eqb (a b : StaticString) : option bool :=
  c ← ss_cmp a b;
  Some (match c with Eq => true | _ => false end && (ss_Length a =? ss_Length b)).

Definition ss_neqb (a b : StaticString) : option bool :=
  c ← ss_cmp a b;
  Some (match c with Eq => false | _ => true end && negb (ss_Length a =? ss_Length b)).

Definition ss_ltb (a b : StaticString) : option bool :=
  c ← ss_cmp a b; Some (match c with Lt => true | _ => false end).

Definition ss_gtb (a b : StaticString) : option bool :=
  c ← ss_cmp a b; Some (match c with Gt => true | _ => false end).

Definition ss_Hash (s : StaticString) : Z := Time33Hash (default [] s).

Definition ss_Serialize (s : StaticString) (buf : list ascii) : option (Z * list ascii) :=
  SerializeCharBuf (default [] s) (ss_Length s) buf.

(** ** The representation invariant

    [ds_repr d s]: [d] holds the bytes [s]. A null string has no block; any
    other has a block of exactly [alloc_] cells starting with the bytes of [s]
    and a terminator. *)
Definition ds_repr (d : DynamicString) (s : list ascii) : Prop :=
  match ds_buf d with
  | None => ds_len d = 0 /\ ds_alloc d = 0 /\ s = []
  | Some b =>
      ds_len d = Z.of_nat (length s) /\ ds_alloc d = Z.of_nat (length b) /\
      ds_alloc d < 2 ^ 32 /\ exists rest, b = (Some <$> s) ++ Some NUL :: rest
  end.

(** The lengths for which the 32-bit size computations cannot overflow. *)
Definition fits (s : list ascii) : Prop := Z.of_nat (length s) < 2 ^ 31.

Lemma ds_repr_null : ds_repr ds_null [].
Proof. done. Qed.

Lemma ds_repr_len d s : ds_repr d s -> ds_len d = Z.of_nat (length s).
Proof. unfold ds_repr. destruct (ds_buf d); [naive_solver|]. intros (-> & _ & ->). done. Qed.

Lemma omap_id_Some {A} (s : list A) : omap id (Some <$> s) = s.
Proof. induction s as [|x s IH]; [done|]. csimpl. by rewrite IH. Qed.

Lemma ds_data_repr d s : ds_repr d s -> ds_data d = s.
Proof.
  intros H. pose proof (ds_repr_len d s H) as L. unfold ds_repr, ds_data in *.
  destruct (ds_buf d) as [b|]; [|naive_solver]. destruct H as (_ & _ & _ & rest & ->).
  rewrite L, Nat2Z.id, take_app_length' by (by rewrite length_fmap). apply omap_id_Some.
Qed.

Lemma ds_repr_inj d s t : ds_repr d s -> ds_repr d t -> s = t.
Proof. intros H1 H2. by rewrite <- (ds_data_repr d s), <- (ds_data_repr d t). Qed.

Lemma ds_stream_repr d s : ds_repr d s -> ds_stream d = c_str s.
Proof.
  unfold ds_repr, ds_stream. destruct (ds_buf d) as [b|]; [|by intros (_ & _ & ->)].
  intros (_ & _ & _ & rest & ->). rewrite omap_app, omap_id_Some. csimpl.
  induction s as [|c s IH]; [done|]. cbn. destruct (Ascii.eqb c NUL); [done|]. by rewrite IH.
Qed.

Lemma memcmp_refl s : memcmp s s = Eq.
Proof. induction s as [|c s IH]; [done|]. cbn. by rewrite Z.compare_refl. Qed.

Lemma memcmp_Eq s t : length s = length t -> memcmp s t = Eq -> s = t.
Proof.
  revert t. induction s as [|c s IH]; intros [|d t] L; try done. cbn in *.
  destruct (Z.compare_spec (Z_of_byte c) (Z_of_byte d)) as [E| |]; [|done..].
  apply Z_of_byte_inj in E as ->. intros. f_equal. apply IH; [lia|done].
Qed.

Lemma ds_eqb_repr a b s t : ds_repr a s -> ds_repr b t -> ds_eqb a b = bool_decide (s = t).
Proof.
  intros Ha Hb. unfold ds_eqb, ds_memcmp.
  rewrite (ds_data_repr a s), (ds_data_repr b t), (ds_repr_len a s), (ds_repr_len b t) by done.
  case_bool_decide as E.
  - subst. by rewrite Z.eqb_refl, memcmp_refl.
  - destruct (Z.eqb_spec (Z.of_nat (length s)) (Z.of_nat (length t))); [|done]. cbn.
    rewrite !Nat2Z.id, !take_ge by lia.
    destruct (memcmp s t) eqn:M; [|done..]. destruct E. apply memcmp_Eq; [lia|done].
Qed.

Lemma ds_neqb_repr a b s t : ds_repr a s -> ds_repr b t -> ds_neqb a b = negb (bool_decide (s = t)).
Proof.
  intros Ha Hb. rewrite <- (ds_eqb_repr a b s t) by done. unfold ds_neqb, ds_eqb.
  rewrite negb_andb. f_equal. by destruct (ds_memcmp _ _ _).
Qed.

(** With a C string: equality with what is before its first NUL. *)
Lemma ds_eqb_cstr_repr a s t : ds_repr a s -> ds_eqb_cstr a t = bool_decide (s = c_str t).
Proof.
  intros Ha. unfold ds_eqb_cstr. rewrite (ds_data_repr a s Ha).
  rewrite (ds_repr_len a s) by done.
  case_bool_decide as E.
  - rewrite <- E, Z.eqb_refl, take_ge by lia. by rewrite memcmp_refl.
  - destruct (Z.eqb_spec (Z.of_nat (length s)) (Z.of_nat (length (c_str t)))) as [El|]; [|done]. cbn [andb].
    rewrite take_ge by lia. destruct (memcmp s (c_str t)) eqn:M; [|done..]. destruct E. apply memcmp_Eq; [lia|done].
Qed.

Lemma ds_neqb_cstr_negb a t : ds_neqb_cstr a t = negb (ds_eqb_cstr a t).
Proof. unfold ds_neqb_cstr, ds_eqb_cstr. rewrite negb_andb. f_equal. by destruct (memcmp _ _). Qed.

(** The order is the one of the string made from the C string. *)
Lemma ds_ltb_cstr_repr a b s t : ds_repr a s -> ds_repr b (c_str t) ->
  ds_ltb_cstr a t = ds_ltb a b /\ ds_gtb_cstr a t = ds_gtb a b.
Proof.
  intros Ha Hb. unfold ds_ltb_cstr, ds_gtb_cstr, ds_ltb, ds_gtb, ds_memcmp. rewrite (ds_data_repr b _ Hb).
  by rewrite (ds_repr_len b _ Hb).
Qed.

Lemma ds_Hash_repr d s : ds_repr d s -> ds_Hash d = Time33Hash s.
Proof. intros. unfold ds_Hash. by rewrite (ds_data_repr d s). Qed.

(** ** The growth is sufficient *)

Lemma rnd24_error v : 0 <= v -> 2 ^ 24 * Z.abs (rnd24 v - v) <= v.
Proof.
  intros Hv. unfold rnd24. destruct (Z.ltb_spec v (2 ^ 24)); [lia|]. cbn zeta.
  set (s := Z.log2 v - 23). assert (1 <= s) as Hs.
  { assert (24 <= Z.log2 v); [|lia]. apply Z.log2_le_pow2; lia. }
  pose proof (Z.log2_spec v ltac:(lia)) as [Hlog _].
  assert (2 ^ Z.log2 v = 2 ^ 23 * 2 ^ s) as E.
  { rewrite <- Z.pow_add_r by lia. f_equal. lia. }
  pose proof (Z.pow_pos_nonneg 2 s ltac:(lia) ltac:(lia)).
  pose proof (Z.mod_pos_bound v (2 ^ s) ltac:(lia)).
  pose proof (Z.div_mod v (2 ^ s) ltac:(lia)) as D.
  set (r := v mod 2 ^ s) in *. set (q := v / 2 ^ s) in *. set (p := 2 ^ s) in *.
  assert (2 * Z.abs ((if 2 * r <? p then q else if p <? 2 * r then q + 1
                      else if Z.even q then q else q + 1) * p - v) <= p); [|lia].
  destruct (Z.ltb_spec (2 * r) p); [lia|]. destruct (Z.ltb_spec p (2 * r)); [lia|].
  destruct (Z.even q); lia.
Qed.

Lemma grow_enough n : 1 <= n < 2 ^ 31 -> exists a, grow n = Some a /\ n + 1 <= a < 2 ^ 32.
Proof.
  intros Hn. unfold grow. pose proof (rnd24_error n ltac:(lia)).
  set (a := rnd24 n) in *. pose proof (rnd24_error (3 * a) ltac:(lia)).
  set (b := rnd24 (3 * a)) in *. pose proof (rnd24_error (b + 2) ltac:(lia)).
  set (c := rnd24 (b + 2)) in *. cbn zeta. pose proof (Z.div_mod c 2 ltac:(lia)).
  pose proof (Z.mod_pos_bound c 2 ltac:(lia)).
  destruct (Z.ltb_spec (c / 2) (2 ^ 32)); [|lia]. eexists. split; [done|]. lia.
Qed.

(** ** Allocating operations preserve the representation *)

Lemma read_src_all s : read_src s (Z.of_nat (length s)) = Some (Some <$> s).
Proof. unfold read_src. rewrite Nat2Z.id, decide_True by lia. by rewrite firstn_all. Qed.

(** Writing [t] and a terminator just after [s], in a block with room for both. *)
Lemma write_tail (s t : list ascii) (b : list (option ascii)) :
  (length s + length t < length b)%nat -> take (length s) b = Some <$> s ->
  exists rest,
    (b ← memcpy b (length s) (Some <$> t);
     store b (length s + length t) (Some NUL)) =
      Some ((Some <$> (s ++ t)) ++ Some NUL :: rest) /\
    length ((Some <$> (s ++ t)) ++ Some NUL :: rest) = length b.
Proof.
  intros Hlen Htake. rewrite memcpy_some by (rewrite length_fmap; lia). cbn.
  rewrite Htake, length_fmap.
  destruct (drop (length s + length t) b) as [|x rest] eqn:D.
  { apply (f_equal length) in D. rewrite length_drop in D. cbn in D. lia. }
  rewrite app_assoc, <- fmap_app.
  replace (length s + length t)%nat with (length (@Some ascii <$> (s ++ t)))
    by (rewrite length_fmap, length_app; done).
  rewrite store_app. exists rest. split; [done|].
  apply (f_equal length) in D. rewrite length_drop in D.
  rewrite length_app, length_fmap, length_app. cbn in *. lia.
Qed.

Lemma fresh_repr (s : list ascii) :
  Z.of_nat (length s) + 1 < 2 ^ 32 ->
  exists b,
    (b ← memcpy (malloc (Z.of_nat (length s) + 1)) 0 (Some <$> s);
     store b (length s) (Some NUL)) = Some b /\
    ds_repr (mkDS (Z.of_nat (length s)) (Z.of_nat (length s) + 1) (Some b)) s.
Proof.
  intros Hs. destruct (write_tail [] s (malloc (Z.of_nat (length s) + 1))) as (rest & E & L).
  - unfold malloc. rewrite length_replicate. cbn. lia.
  - done.
  - cbn [length app Nat.add] in *. eexists. split; [exact E|].
    unfold ds_repr. cbn. rewrite L. unfold malloc. rewrite length_replicate.
    split; [done|]. split; [lia|]. split; [lia|]. by eexists.
Qed.

Lemma DynamicString_std_repr s : fits s ->
  exists d, DynamicString_std always_ok s = Some d /\ ds_repr d s /\ ds_buf d <> None.
Proof.
  unfold fits. intros Hs. unfold DynamicString_std.
  rewrite !u32_small by (unfold in_u32; lia). cbn [always_ok]. rewrite read_src_all. cbn.
  destruct (fresh_repr s ltac:(lia)) as (b & E & R).
  destruct (memcpy _ _ _) as [b'|]; [|done]. cbn in *. rewrite Nat2Z.id, E. cbn. eauto.
Qed.

Lemma DynamicString_chars_repr s : fits s ->
  exists d, DynamicString_chars always_ok (Some s) (Z.of_nat (length s)) = Some d /\
            ds_repr d s /\ ds_buf d <> None.
Proof.
  unfold fits. intros Hs. unfold DynamicString_chars.
  rewrite !u32_small by (unfold in_u32; lia). cbn [always_ok]. rewrite read_src_all. cbn.
  destruct (fresh_repr s ltac:(lia)) as (b & E & R).
  destruct (memcpy _ _ _) as [b'|]; [|done]. cbn in *. rewrite Nat2Z.id, E. cbn. eauto.
Qed.

Lemma ds_repr_take d s b : ds_repr d s -> ds_buf d = Some b ->
  take (length s) b = Some <$> s /\ (length s < length b)%nat.
Proof.
  unfold ds_repr. intros H Eb. rewrite Eb in H. destruct H as (_ & _ & _ & rest & ->).
  rewrite take_app_length' by (by rewrite length_fmap).
  split; [done|]. rewrite length_app, length_fmap. cbn. lia.
Qed.

Lemma DynamicString_copy_repr d s : ds_repr d s ->
  exists d', DynamicString_copy always_ok d = Some d' /\ ds_repr d' s /\
             ds_Null d' = ds_Null d.
Proof.
  intros R. pose proof (ds_repr_len d s R) as L. unfold DynamicString_copy.
  destruct (ds_buf d) as [b|] eqn:Eb.
  - destruct (ds_repr_take d s b R Eb) as [T Hlt]. cbn [always_ok].
    rewrite L, Nat2Z.id, T. unfold ds_repr in R. rewrite Eb in R. destruct R as (_ & A & A' & _).
    destruct (write_tail [] s (malloc (ds_alloc d))) as (rest & E & L').
    + unfold malloc. rewrite length_replicate. cbn. lia.
    + done.
    + cbn [length app Nat.add] in *. destruct (memcpy _ _ _) as [b'|]; [|done]. cbn in *.
      rewrite E. cbn. eexists. split; [done|]. split; [|unfold ds_Null; cbn; by rewrite L].
      unfold ds_repr. cbn. rewrite L'. unfold malloc. rewrite length_replicate.
      split; [done|]. split; [lia|]. split; [lia|]. by eexists.
  - unfold ds_repr in R. rewrite Eb in R. destruct R as (L0 & A0 & ->).
    exists ds_null. split; [done|]. split; [done|]. unfold ds_Null. by rewrite L0, A0.
Qed.

(** A block that holds [s] but perhaps no terminator yet, as between the
    allocation and the copy of [Append] and [Reset]. *)
Definition ds_room (d : DynamicString) (s : list ascii) (b : list (option ascii)) : Prop :=
  ds_buf d = Some b /\ ds_len d = Z.of_nat (length s) /\ ds_alloc d = Z.of_nat (length b) /\
  ds_alloc d < 2 ^ 32 /\ take (length s) b = Some <$> s /\ (length s < length b)%nat.

Lemma ds_repr_room d s b : ds_repr d s -> ds_buf d = Some b -> ds_room d s b.
Proof.
  intros R Eb. destruct (ds_repr_take d s b R Eb). unfold ds_repr in R. rewrite Eb in R.
  unfold ds_room. naive_solver.
Qed.

Lemma malloc_room n : 0 <= n -> n + 1 < 2 ^ 32 ->
  ds_room (mkDS 0 (n + 1) (Some (malloc (n + 1)))) [] (malloc (n + 1)).
Proof.
  intros. unfold ds_room, malloc. cbn. rewrite length_replicate. repeat split; lia.
Qed.

(** [Append] on a string whose block is already allocated. *)
Lemma Append_room d s t b :
  ds_room d s b -> Z.of_nat (length s) + Z.of_nat (length t) < 2 ^ 31 ->
  exists d', Append always_ok d t (Z.of_nat (length t)) = Some d' /\
             ds_repr d' (s ++ t) /\ ds_buf d' <> None.
Proof.
  intros (Eb & L & A & A' & T & Hlt) Hfit. unfold Append.
  rewrite Eb. cbn [mbind option_bind]. rewrite Eb. cbn.
  rewrite read_src_all. cbn. rewrite L, Nat2Z.id.
  rewrite (u32_small (Z.of_nat (length s) + Z.of_nat (length t))) by (unfold in_u32; lia).
  rewrite (u32_small (ds_alloc d - _ - 1)) by (unfold in_u32; lia).
  replace (Z.to_nat (Z.of_nat (length s) + Z.of_nat (length t)))
    with (length s + length t)%nat by lia.
  case_if.
  - destruct (write_tail s t b ltac:(lia) T) as (rest & E' & L').
    destruct (memcpy _ _ _) as [b'|]; [|done]. cbn in *. rewrite E'. cbn.
    eexists. split; [done|]. split; [|done]. unfold ds_repr. cbn. rewrite L', length_app.
    split; [lia|]. split; [lia|]. split; [lia|]. by eexists.
  - destruct (grow_enough (Z.of_nat (length s) + Z.of_nat (length t)) ltac:(lia))
      as (a & -> & Ha). cbn.
    assert (length (realloc b a) = Z.to_nat a) as Lr.
    { unfold realloc. rewrite length_app, length_take, length_replicate. lia. }
    destruct (write_tail s t (realloc b a)) as (rest & E' & L').
    + lia.
    + unfold realloc. rewrite take_app_le by (rewrite length_take; lia).
      rewrite take_take. by rewrite Nat.min_l by lia.
    + destruct (memcpy _ _ _) as [b'|]; [|done]. cbn in *. rewrite E'. cbn.
      eexists. split; [done|]. split; [|done]. unfold ds_repr. cbn. rewrite L', length_app.
      split; [lia|]. split; [lia|]. split; [lia|]. by eexists.
Qed.

Lemma Append_repr d s t :
  ds_repr d s -> Z.of_nat (length s) + Z.of_nat (length t) < 2 ^ 31 ->
  exists d', Append always_ok d t (Z.of_nat (length t)) = Some d' /\
             ds_repr d' (s ++ t) /\ ds_buf d' <> None.
Proof.
  intros R Hfit. destruct (ds_buf d) as [b|] eqn:Eb.
  - eapply Append_room; [by eapply ds_repr_room|done].
  - unfold ds_repr in R. rewrite Eb in R. destruct R as (L0 & A0 & ->). cbn in Hfit.
    pose proof (Append_room _ [] t _ (malloc_room (Z.of_nat (length t)) ltac:(lia) ltac:(lia))
                  ltac:(cbn; lia)) as H.
    revert H. unfold Append. rewrite Eb, L0, u32_small by (unfold in_u32; lia). done.
Qed.

Lemma Clear_room d s b : ds_room d s b -> exists d' b', Clear d = Some d' /\ ds_room d' [] b'.
Proof.
  intros (Eb & L & A & A' & T & Hlt). unfold Clear. rewrite Eb. case_if.
  - assert (s = []) as -> by (destruct s; [done|]; cbn in *; lia).
    exists d, b. split; [done|]. unfold ds_room. naive_solver.
  - rewrite memcpy_some by (rewrite length_replicate; lia). cbn [mbind option_bind].
    rewrite A, Nat2Z.id, length_replicate, take_0. cbn [Nat.add app].
    rewrite drop_ge, app_nil_r by lia.
    rewrite store_some by (rewrite length_replicate; lia). cbn.
    eexists _, _. split; [done|]. unfold ds_room. cbn. rewrite length_insert, length_replicate.
    repeat split; try lia; try done.
Qed.

Lemma Reset_repr d s t :
  ds_repr d s -> fits t ->
  exists d', Reset always_ok d t (Z.of_nat (length t)) = Some d' /\
             ds_repr d' t /\ ds_buf d' <> None.
Proof.
  unfold fits. intros R Ht. unfold Reset. destruct (ds_buf d) as [b|] eqn:Eb.
  - destruct (Clear_room d s b (ds_repr_room d s b R Eb)) as (d' & b' & -> & Room).
    apply (Append_room d' [] t b' Room). cbn; lia.
  - unfold ds_repr in R. rewrite Eb in R. destruct R as (-> & A0 & ->).
    rewrite u32_small by (unfold in_u32; lia). cbn [always_ok].
    destruct (Clear_room _ [] _ (malloc_room (Z.of_nat (length t)) ltac:(lia) ltac:(lia)))
      as (d' & b' & -> & Room).
    apply (Append_room d' [] t b' Room). cbn; lia.
Qed.

Lemma Reset_std_repr d s t :
  ds_repr d s -> fits t ->
  exists d', Reset_std always_ok d t = Some d' /\ ds_repr d' t /\ ds_buf d' <> None.
Proof.
  unfold fits, Reset_std. intros. rewrite u32_small by (unfold in_u32; lia).
  by eapply Reset_repr.
Qed.

Lemma Append_std_repr d s t :
  ds_repr d s -> Z.of_nat (length s) + Z.of_nat (length t) < 2 ^ 31 ->
  exists d', Append_std always_ok d t = Some d' /\ ds_repr d' (s ++ t) /\ ds_buf d' <> None.
Proof.
  unfold Append_std. intros. rewrite u32_small by (unfold in_u32; lia). by apply Append_repr.
Qed.

Lemma DynamicString_move_repr d s : ds_repr d s ->
  ds_repr (DynamicString_move d).1 s /\ (DynamicString_move d).2 = ds_null.
Proof.
  intros R. unfold DynamicString_move. destruct (ds_buf d) eqn:Eb; [done|].
  unfold ds_repr in R. rewrite Eb in R. destruct d as [l a b]. cbn in *.
  destruct R as (-> & -> & ->). by subst.
Qed.

(** A string with a block is never null. *)
Lemma ds_buf_not_null d s : ds_repr d s -> ds_buf d <> None -> ds_Null d = false.
Proof.
  unfold ds_repr, ds_Null. destruct (ds_buf d) as [b|]; [|done].
  intros (_ & -> & _ & rest & ->) _. rewrite length_app. cbn.
  apply andb_false_iff. right. apply Z.eqb_neq. lia.
Qed.

Lemma SerializeCharBuf_spec data buf : fits data ->
  exists n, SerializeCharBuf data (Z.of_nat (length data)) buf =
    Some (n, buf ++ varint (Z.of_nat (length data)) ++ data).
Proof.
  unfold fits. intros Hd. unfold SerializeCharBuf.
  destruct (Z.eqb_spec (Z.of_nat (length data)) 0) as [E|E].
  - destruct data; [|cbn in E; lia]. by eexists.
  - rewrite EncodeVarUnsignedInt64_varint by (try done; unfold in_u64, UINT64_MAX; lia). cbn.
    rewrite !Nat2Z.id, take_app_length, firstn_all. by eexists.
Qed.

Lemma Clear_repr d s : ds_repr d s -> exists d', Clear d = Some d' /\ ds_repr d' [].
Proof.
  intros R. unfold Clear. destruct (ds_buf d) as [b|] eqn:Eb.
  - destruct (ds_repr_room d s b R Eb) as (_ & L & A & A' & _ & Hlt). case_if.
    { exists d. split; [done|]. destruct s; [done|]. cbn in *. lia. }
    rewrite memcpy_some by (rewrite length_replicate; lia). cbn [mbind option_bind].
    rewrite A, Nat2Z.id, length_replicate, take_0. cbn [Nat.add app].
    rewrite drop_ge, app_nil_r by lia. destruct b as [|x b]; [cbn in Hlt; lia|].
    rewrite store_some by (cbn; lia). cbn. eexists. split; [done|].
    unfold ds_repr. cbn. rewrite length_replicate. cbn in *.
    repeat split; try lia. by eexists.
  - exists d. split; [done|]. unfold ds_repr in *. rewrite Eb in *. naive_solver.
Qed.

Lemma Shrink_repr d s : ds_repr d s -> ds_repr (Shrink always_ok d) s.
Proof.
  intros R. unfold Shrink. destruct (ds_buf d) as [b|] eqn:Eb; [|done]. cbn.
  unfold ds_repr in *. rewrite Eb in R. destruct R as (L & A & A' & rest & ->). cbn.
  rewrite length_app, length_fmap in A. cbn in A.
  rewrite L, u32_small by (unfold in_u32; lia).
  unfold realloc. rewrite length_app, length_replicate, length_take, !length_app, length_fmap.
  cbn [length]. repeat split; try lia. exists [].
  replace (_ - _)%nat with 0%nat by lia. cbn [replicate]. rewrite app_nil_r.
  rewrite cons_middle, app_assoc, take_app_length'; [done|].
  rewrite length_app, length_fmap. cbn. lia.
Qed.

(** ** Theorems *)

(** Sequences of the mutating operations, and their meaning on byte strings. *)
Inductive ds_op := OpAppend (t : list ascii) | OpReset (t : list ascii) | OpClear | OpShrink.

Definition ds_step (d : DynamicString) (o : ds_op) : option DynamicString :=
  match o with
  | OpAppend t => Append_std always_ok d t
  | OpReset t => Reset_std always_ok d t
  | OpClear => Clear d
  | OpShrink => Some (Shrink always_ok d)
  end.

Definition ds_run (d : DynamicString) (ops : list ds_op) : option DynamicString :=
  foldl (λ d o, d ≫= λ d, ds_step d o) (Some d) ops.

Definition bytes_step (s : list ascii) (o : ds_op) : list ascii :=
  match o with
  | OpAppend t => s ++ t
  | OpReset t => t
  | OpClear => []
  | OpShrink => s
  end.

(** Every intermediate string stays below 2 GiB. *)
Fixpoint ops_fit (s : list ascii) (ops : list ds_op) : Prop :=
  match ops with
  | [] => True
  | o :: ops => fits (bytes_step s o) /\ ops_fit (bytes_step s o) ops
  end.

Lemma ds_step_repr d s o : ds_repr d s -> fits (bytes_step s o) ->
  exists d', ds_step d o = Some d' /\ ds_repr d' (bytes_step s o).
Proof.
  intros R F. unfold fits in F. destruct o as [t|t| |]; cbn in *.
  - rewrite length_app in F. destruct (Append_std_repr d s t) as (d' & ? & ? & _); eauto. lia.
  - destruct (Reset_std_repr d s t) as (d' & ? & ? & _); eauto.
  - by eapply Clear_repr.
  - eexists. split; [done|]. by apply Shrink_repr.
Qed.

Lemma ds_run_cons d o ops d' :
  ds_step d o = Some d' -> ds_run d (o :: ops) = ds_run d' ops.
Proof. intros E. unfold ds_run. cbn. by rewrite E. Qed.

(** Starting from the empty string, any sequence of [Append], [Reset],
    [Clear] and [Shrink] runs without an access outside the heap block (the
    [float] growth computation always allocates enough), and leaves exactly the
    bytes the same sequence leaves on plain strings, correctly terminated and
    with [alloc_] equal to the size of the block. *)
Lemma DynamicString_ops_refine (ops : list ds_op) (Hfit : ops_fit [] ops) :
  exists d, ds_run ds_null ops = Some d /\ ds_repr d (foldl bytes_step [] ops).
Proof.
  revert Hfit. generalize ds_repr_null. generalize ds_null. generalize (@nil ascii).
  induction ops as [|o ops IH]; intros s d R Hfit; [by exists d|].
  destruct Hfit as [F Hfit]. destruct (ds_step_repr d s o R F) as (d' & E & R').
  rewrite (ds_run_cons d o ops d') by done. cbn. by apply IH.
Qed.

Lemma DynamicString_ops_refine_witness :
  ops_fit [] [OpAppend (bs "abc"); OpAppend (bs "defgh"); OpReset (bs "x"); OpShrink; OpClear] /\
  exists d, ds_run ds_null
              [OpAppend (bs "abc"); OpAppend (bs "defgh"); OpReset (bs "x"); OpShrink; OpClear]
            = Some d /\
            ds_repr d (foldl bytes_step []
              [OpAppend (bs "abc"); OpAppend (bs "defgh"); OpReset (bs "x"); OpShrink; OpClear]).
Proof.
  assert (ops_fit [] [OpAppend (bs "abc"); OpAppend (bs "defgh"); OpReset (bs "x");
                      OpShrink; OpClear]) as H by (cbn; unfold fits; cbn; lia).
  split; [exact H|]. apply (DynamicString_ops_refine _ H).
Defined.

(** [operator<] compares like [memcmp] with the shorter string first. *)
Fixpoint lex (s t : list ascii) : comparison :=
  match s, t with
  | [], [] => Eq
  | [], _ => Lt
  | _, [] => Gt
  | x :: s, y :: t =>
      match Z.compare (Z_of_byte x) (Z_of_byte y) with Eq => lex s t | c => c end
  end.

Lemma lex_memcmp s t :
  lex s t = match memcmp (take (min (length s) (length t)) s) (take (min (length s) (length t)) t)
            with Eq => Nat.compare (length s) (length t) | c => c end.
Proof.
  revert t. induction s as [|x s IH]; intros [|y t]; try done. cbn.
  destruct (Z_of_byte x ?= Z_of_byte y); [|done..]. apply IH.
Qed.

Lemma ds_memcmp_repr a b s t : ds_repr a s -> ds_repr b t ->
  ds_memcmp a b (Z.min (ds_len a) (ds_len b)) =
    memcmp (take (min (length s) (length t)) s) (take (min (length s) (length t)) t).
Proof.
  intros Ha Hb. unfold ds_memcmp.
  rewrite (ds_data_repr a s), (ds_data_repr b t), (ds_repr_len a s), (ds_repr_len b t) by done.
  by replace (Z.to_nat (Z.min (Z.of_nat (length s)) (Z.of_nat (length t))))
    with (min (length s) (length t)) by lia.
Qed.

(** The comparison operators of [DynamicString] are the lexicographic order
    of the contents: [<], [==] and [>] decide [Lt], [Eq] and [Gt], so exactly
    one of them holds, and [!=] is the negation of [==]. *)
Lemma DynamicString_comparison (a b : DynamicString) (s t : list ascii)
    (Ha : ds_repr a s) (Hb : ds_repr b t) :
  ds_ltb a b = match lex s t with Lt => true | _ => false end /\
  ds_eqb a b = match lex s t with Eq => true | _ => false end /\
  ds_gtb a b = match lex s t with Gt => true | _ => false end /\
  ds_neqb a b = negb (ds_eqb a b).
Proof.
  rewrite (ds_eqb_repr a b s t), (ds_neqb_repr a b s t) by done.
  unfold ds_ltb, ds_gtb. rewrite (ds_memcmp_repr a b s t) by done.
  rewrite (ds_repr_len a s), (ds_repr_len b t), lex_memcmp by done.
  destruct (memcmp _ _) eqn:M.
  - case_bool_decide as E.
    + subst. rewrite Nat.compare_refl, Z.gtb_ltb, Z.ltb_irrefl. done.
    + destruct (Nat.compare_spec (length s) (length t)) as [L|L|L];
      destruct (Z.ltb_spec (Z.of_nat (length s)) (Z.of_nat (length t)));
      destruct (Z.gtb_spec (Z.of_nat (length s)) (Z.of_nat (length t))); try lia; try done.
      destruct E. apply memcmp_Eq; [done|]. rewrite !take_ge in M by lia. done.
  - rewrite bool_decide_false; [done|]. intros ->. by rewrite memcmp_refl in M.
  - rewrite bool_decide_false; [done|]. intros ->. by rewrite memcmp_refl in M.
Qed.

Lemma DynamicString_comparison_witness :
  exists a b, DynamicString_std always_ok (bs "hello") = Some a /\
    DynamicString_std always_ok (bs "hello world") = Some b /\
    (ds_ltb a b = true /\ ds_eqb a b = false /\ ds_gtb a b = false /\
     ds_neqb a b = negb (ds_eqb a b)).
Proof.
  eexists _, _. split; [vm_compute; reflexivity|]. split; [vm_compute; reflexivity|].
  apply (DynamicString_comparison _ _ (bs "hello") (bs "hello world")).
  - vm_compute. repeat split; try lia. by eexists [].
  - vm_compute. repeat split; try lia. by eexists [].
Defined.

(** When [realloc] fails, [Append] has already enlarged [alloc_]: the block
    keeps its old size, and the next [Append], which trusts [alloc_], writes
    outside it. The allocator here grants the first five bytes and refuses
    anything larger. *)
Lemma Append_failed_realloc_corrupts :
  exists d1 d2,
    DynamicString_std (λ n, n <=? 5) (bs "abcd") = Some d1 /\
    Append_std (λ n, n <=? 5) d1 (bs "efgh") = Some d2 /\
    ds_alloc d2 = 13 /\ length (default [] (ds_buf d2)) = 5%nat /\
    Append_std (λ n, n <=? 5) d2 (bs "xy") = None.
Proof. eexists _, _. do 2 (split; [vm_compute; reflexivity|]). by vm_compute. Qed.

Lemma strcmp_Eq s t : strcmp s t = Eq <-> s = t.
Proof.
  revert t. induction s as [|x s IH]; intros [|y t]; cbn; try done.
  destruct (Z.compare_spec (Z_of_byte x) (Z_of_byte y)) as [E|E|E].
  - apply Z_of_byte_inj in E as ->. rewrite IH. split; congruence.
  - split; [done|]. intros [= -> ->]. lia.
  - split; [done|]. intros [= -> ->]. lia.
Qed.

(** Identity of keys: [KeyEqual] on two keys made from [std::string]s holds
    exactly when the strings agree up to their first NUL byte. Keys without NUL
    are compared byte for byte; a key with a NUL is the key cut there. *)
Lemma StaticString_key_identity (s t : list ascii) :
  ss_eqb (StaticString_std s) (StaticString_std t) = Some (bool_decide (c_str s = c_str t)).
Proof.
  unfold StaticString_std, StaticString_cstr, ss_eqb, ss_cmp. cbn. f_equal.
  rewrite !c_str_idem. unfold ss_Length. cbn.
  case_bool_decide as E.
  - rewrite E, Z.eqb_refl. by rewrite (proj2 (strcmp_Eq _ _) eq_refl).
  - destruct (strcmp _ _) eqn:C; try done. by apply strcmp_Eq in C.
Qed.

(** [StaticString::operator!=] asks for different bytes and for different
    lengths: two keys of the same length are never [!=], however much they
    differ, so that it is not the negation of [operator==]. *)
Lemma StaticString_neq_same_length (s t : list ascii) :
  length (c_str s) = length (c_str t) ->
  ss_neqb (StaticString_std s) (StaticString_std t) = Some false.
Proof.
  intros H. unfold StaticString_std, StaticString_cstr, ss_neqb, ss_cmp, ss_Length. cbn. f_equal.
  by rewrite H, Z.eqb_refl, andb_false_r.
Qed.

Lemma StaticString_neq_same_length_witness :
  ss_neqb (StaticString_std (bs "ab")) (StaticString_std (bs "cd")) = Some false /\
  ss_eqb (StaticString_std (bs "ab")) (StaticString_std (bs "cd")) = Some false.
Proof. split; [by apply (StaticString_neq_same_length (bs "ab") (bs "cd"))|by vm_compute]. Defined.

(** [TryConvertToInt64] accepts a one-character string that is not a number and
    returns 0: the check that the whole string was converted only compares
    lengths. *)
Lemma TryConvertToInt64_accepts_letter :
  exists d, DynamicString_std always_ok (bs "a") = Some d /\
    TryConvertToInt64 false d = inr 0.
Proof. eexists. split; [vm_compute; reflexivity|]. by vm_compute. Qed.
