(* ===== verification/Hash.v ===== *)
(** * Hash: the chained hash tables of src/hash.h, src/rehashable.h,
    src/hashdict.cpp and src/hashset.cpp

    [HashStruct E] is the template [HashStructBase<EntryType>] (an array of
    chains), [Rehashable E] the gradually rehashed container built from two of
    them, [HashDict] and [HashSet] its two uses. A chain of entries linked by
    [next] is a list. An array access out of range, a null dereference or a
    division by zero makes an operation [None]. *)

From S2P Require Import Prelude Encoding Numerals Str.
From Stdlib Require Import QArith.
From stdpp Require Import list fin_maps.

Local Open Scope Z_scope.

Definition UNDEFINED : Z := -1.
Definition NEW_ADDED : Z := 0.
Definition UPDATED : Z := 1.
Definition EXISTED : Z := 2.
Definition ERASED : Z := 1.
Definition NOT_ERASED : Z := 0.

(** The [key] member the templates require of an entry type. *)
Class HashEntry (E : Type) := entry_key : E -> DynamicString.

(** ** HashStructBase *)

Record HashStruct (E : Type) := mkHS {
  table_ : list (list E);
  slot_size_ : Z;
  count_ : Z;
  rehashing_idx_ : Z
}.
Arguments mkHS {E}.
Arguments table_ {E}.
Arguments slot_size_ {E}.
Arguments count_ {E}.
Arguments rehashing_idx_ {E}.

Section HashStructBase.
Context {E : Type} `{!HashEntry E}.
Implicit Types (h : HashStruct E) (e : E) (key : DynamicString).

Definition HashStructBase_new (init_size : Z) : HashStruct E :=
  mkHS (replicate (Z.to_nat init_size) []) init_size 0 (-1).

Definition with_table h (t : list (list E)) : HashStruct E := mkHS t (slot_size_ h) (count_ h) (rehashing_idx_ h).
Definition with_count h (c : Z) : HashStruct E := mkHS (table_ h) (slot_size_ h) c (rehashing_idx_ h).
Definition with_idx h (i : Z) : HashStruct E := mkHS (table_ h) (slot_size_ h) (count_ h) i.

(** [LoadFactor()]; the quotient of two [double]s is taken exactly. *)
Definition LoadFactor h : Q := inject_Z (count_ h) / inject_Z (slot_size_ h).

Definition CalculateSlotIndex h key : option nat :=
  if slot_size_ h =? 0 then None else Some (Z.to_nat (ds_Hash key mod slot_size_ h)).

(** The loop of [EraseKey]: the chain without the first entry of the key. *)
Fixpoint erase_chain key (head : list E) : option (list E) :=
  match head with
  | [] => None
  | e :: next =>
      if ds_neqb (entry_key e) key then cons e <$> erase_chain key next else Some next
  end.

Definition EraseKey h key : option (HashStruct E * Z) :=
  slot_idx ← CalculateSlotIndex h key;
  head ← table_ h !! slot_idx;
  match erase_chain key head with
  | None => Some (h, NOT_ERASED)
  | Some chain =>
      t ← store (table_ h) slot_idx chain;
      Some (with_count (with_table h t) (u64 (count_ h - 1)), ERASED)
  end.

(** The loops [for (i = 0; i < slot_size_; ++i)] over the slots. *)
Definition slots h : option (list (list E)) :=
  mapM (λ i, table_ h !! i) (seq 0 (Z.to_nat (slot_size_ h))).

Definition AllEntries h : option (list E) :=
  if count_ h =? 0 then Some [] else t ← slots h; Some (mjoin (M:=list) t).

Definition AllKeys h : option (list DynamicString) :=
  if count_ h =? 0 then Some [] else t ← slots h; Some (entry_key <$> mjoin (M:=list) t).

Fixpoint find_chain key (head : list E) : option E :=
  match head with
  | [] => None
  | e :: next => if ds_eqb (entry_key e) key then Some e else find_chain key next
  end.

(** [FindEntry]: the result [None] inside is the null pointer. *)
Definition FindEntry h key : option (option E) :=
  slot_idx ← CalculateSlotIndex h key;
  head ← table_ h !! slot_idx;
  Some (find_chain key head).

Definition CheckExists h key : option bool :=
  r ← FindEntry h key; Some (bool_decide (is_Some r)).

(** Modifies in place the entry [FindEntry] points to. *)
Fixpoint modify_chain key (f : E -> option E) (head : list E) : option (list E) :=
  match head with
  | [] => None
  | e :: next =>
      if ds_eqb (entry_key e) key then e ← f e; Some (e :: next)
      else cons e <$> modify_chain key f next
  end.

Definition modify_entry h key (f : E -> option E) : option (HashStruct E) :=
  slot_idx ← CalculateSlotIndex h key;
  head ← table_ h !! slot_idx;
  chain ← modify_chain key f head;
  t ← store (table_ h) slot_idx chain;
  Some (with_table h t).

(** Places an entry at the head of its slot's list and counts it. *)
Definition push_entry h (slot_idx : nat) e : option (HashStruct E) :=
  head ← table_ h !! slot_idx;
  t ← store (table_ h) slot_idx (e :: head);
  Some (with_count (with_table h t) (u64 (count_ h + 1))).

(** The loop of [StepRehashingIdx] and [NextOccupiedSlotIdx] from slot [i] on. *)
Fixpoint next_occupied h (n i : nat) : option Z :=
  match n with
  | O => Some (-1)
  | S n =>
      chain ← table_ h !! i;
      match chain with [] => next_occupied h n (S i) | _ :: _ => Some (Z.of_nat i) end
  end.

Definition NextOccupiedSlotIdx h (begin : Z) : option Z :=
  let i := Z.to_nat (u64 (begin + 1)) in
  next_occupied h (Z.to_nat (slot_size_ h) - i) i.

Definition StepRehashingIdx h : option (HashStruct E) :=
  let i := Z.to_nat (u64 (rehashing_idx_ h + 1)) in
  idx ← next_occupied h (Z.to_nat (slot_size_ h) - i) i;
  Some (with_idx h idx).

Definition RehashDone h : bool := rehashing_idx_ h =? -1.

Definition EnsureAllSlotsEmpty h : option bool :=
  t ← slots h; Some (forallb (λ c, match c with [] => true | _ :: _ => false end) t).

End HashStructBase.

(** ** Rehashable *)

(** What [Rehashable<ImplType>] calls of its table type. *)
Class HashImpl (E : Type) := AddEntry : HashStruct E -> option E -> option (HashStruct E * Z).

Definition kGrowFactor : Z := 2.

Record Rehashable (E : Type) := mkRH {
  cur_ht_ : option (HashStruct E);
  backup_ht_ : option (HashStruct E);
  max_load_factor_ : Q
}.
Arguments mkRH {E}.
Arguments cur_ht_ {E}.
Arguments backup_ht_ {E}.
Arguments max_load_factor_ {E}.

Section Rehashable.
Context {E : Type} `{!HashEntry E} `{!HashImpl E}.
Implicit Types (d : Rehashable E) (key : DynamicString).

Definition Rehashable_new (max_load_factor : Q) : Rehashable E :=
  mkRH (Some (HashStructBase_new 16)) None max_load_factor.

Definition Rehashable_Count d : Z :=
  match cur_ht_ d, backup_ht_ d with
  | Some c, None => count_ c
  | None, Some b => count_ b
  | Some c, Some b => u64 (count_ c + count_ b)
  | None, None => 0
  end.

Definition CheckNeedRehash d : option (Rehashable E * bool) :=
  cur ← cur_ht_ d;
  let need_rehash :=
    ((rehashing_idx_ cur =? -1) && negb (Qle_bool (LoadFactor cur) (max_load_factor_ d)))
    || negb (rehashing_idx_ cur =? -1) in
  if need_rehash && (rehashing_idx_ cur =? -1) then
    cur ← StepRehashingIdx cur;
    Some (mkRH (Some cur) (backup_ht_ d) (max_load_factor_ d), need_rehash)
  else Some (d, need_rehash).

(** The loop that moves the entries of one slot to the backup table. *)
Fixpoint move_chain (head : list E) (cur backup : HashStruct E)
  : option (HashStruct E * HashStruct E) :=
  match head with
  | [] => Some (cur, backup)
  | e :: next =>
      '(backup, _) ← AddEntry backup (Some e);
      move_chain next (with_count cur (u64 (count_ cur - 1))) backup
  end.

(** The body of [if (!cur_ht_->RehashDone())] in [PerformRehash]. *)
Definition move_slot (cur backup : HashStruct E) : option (HashStruct E * HashStruct E) :=
  let i := Z.to_nat (rehashing_idx_ cur) in
  head ← table_ cur !! i;
  t ← store (table_ cur) i [];
  '(cur, backup) ← move_chain head (with_table cur t) backup;
  cur ← StepRehashingIdx cur;
  Some (cur, backup).

Definition PerformRehash d : option (Rehashable E * bool) :=
  cur ← cur_ht_ d;
  let backup := default (HashStructBase_new (u64 (slot_size_ cur * kGrowFactor))) (backup_ht_ d) in
  '(cur, backup) ←
    (if RehashDone cur then Some (cur, backup) else move_slot cur backup);
  empty ← (if RehashDone cur then EnsureAllSlotsEmpty cur else Some false);
  if empty : bool then Some (mkRH (Some backup) None (max_load_factor_ d), true)
  else Some (mkRH (Some cur) (Some backup) (max_load_factor_ d), false).

(** [if (CheckNeedRehash()) { PerformRehash(); }]. *)
Definition rehash_step d : option (Rehashable E) :=
  '(d, need) ← CheckNeedRehash d;
  if need : bool then '(d, _) ← PerformRehash d; Some d else Some d.

Definition Erase d key : option (Rehashable E * Z) :=
  d ← rehash_step d;
  '(cur, r) ← match cur_ht_ d with
              | Some cur => '(cur, r) ← EraseKey cur key; Some (Some cur, r)
              | None => Some (None, NOT_ERASED)
              end;
  let d := mkRH cur (backup_ht_ d) (max_load_factor_ d) in
  if r =? ERASED then Some (d, ERASED)
  else match backup_ht_ d with
       | Some b =>
           '(b, r) ← EraseKey b key;
           Some (mkRH cur (Some b) (max_load_factor_ d), if r =? ERASED then ERASED else NOT_ERASED)
       | None => Some (d, NOT_ERASED)
       end.

Definition Rehashable_AllKeys d : option (list DynamicString) :=
  if Rehashable_Count d =? 0 then Some []
  else
    a ← match cur_ht_ d with Some c => AllKeys c | None => Some [] end;
    b ← match backup_ht_ d with Some c => AllKeys c | None => Some [] end;
    Some (a ++ b).

Definition Rehashable_CheckExists d key : option bool :=
  a ← match cur_ht_ d with Some c => CheckExists c key | None => Some false end;
  if a : bool then Some true
  else match backup_ht_ d with Some c => CheckExists c key | None => Some false end.

Definition Rehashable_AllEntries d : option (list E) :=
  if Rehashable_Count d =? 0 then Some []
  else
    a ← match cur_ht_ d with Some c => AllEntries c | None => Some [] end;
    b ← match backup_ht_ d with Some c => AllEntries c | None => Some [] end;
    Some (a ++ b).

(** [RehashMoveSlots(n)]. *)
Fixpoint RehashMoveSlots (n : nat) d : option (Rehashable E) :=
  '(d, done) ← PerformRehash d;
  if done : bool then Some d
  else match n with O | S O => Some d | S n => RehashMoveSlots n d end.

End Rehashable.

(** ** HashTable and HashDict *)

Record HTEntry := mkHT { ht_key : DynamicString; ht_value : DynamicString }.

#[export] Instance HTEntry_key : HashEntry HTEntry := ht_key.

(** [Reset(const DynamicString &str)]. *)
Definition Reset_ds (d str : DynamicString) : option DynamicString :=
  Reset always_ok d (ds_data str) (ds_len str).

Definition set_value (val : DynamicString) (e : HTEntry) : option HTEntry :=
  v ← Reset_ds (ht_value e) val; Some (mkHT (ht_key e) v).

(** [new HTEntry(new HEntryKey(key), new HEntryVal(val))]. *)
Definition new_HTEntry (key val : DynamicString) : option HTEntry :=
  k ← DynamicString_copy always_ok key;
  v ← DynamicString_copy always_ok val;
  Some (mkHT k v).

Definition UpdateKV (h : HashStruct HTEntry) (key val : DynamicString)
  : option (HashStruct HTEntry * Z) :=
  slot_idx ← CalculateSlotIndex h key;
  head ← table_ h !! slot_idx;
  match head with
  | [] => e ← new_HTEntry key val; h ← push_entry h slot_idx e; Some (h, NEW_ADDED)
  | _ :: _ =>
      entry ← FindEntry h key;
      match entry with
      | None => e ← new_HTEntry key val; h ← push_entry h slot_idx e; Some (h, NEW_ADDED)
      | Some _ => h ← modify_entry h key (set_value val); Some (h, UPDATED)
      end
  end.

#[export] Instance HashTable_AddEntry : HashImpl HTEntry := λ h new_entry,
  match new_entry with
  | None => Some (h, UNDEFINED)
  | Some e =>
      slot_idx ← CalculateSlotIndex h (ht_key e);
      head ← table_ h !! slot_idx;
      match head with
      | [] => h ← push_entry h slot_idx e; Some (h, NEW_ADDED)
      | _ :: _ =>
          entry ← FindEntry h (ht_key e);
          match entry with
          | None => h ← push_entry h slot_idx e; Some (h, NEW_ADDED)
          | Some _ => h ← modify_entry h (ht_key e) (set_value (ht_value e)); Some (h, UPDATED)
          end
      end
  end.

Definition HashTable_AllValues (h : HashStruct HTEntry) : option (list DynamicString) :=
  if count_ h =? 0 then Some [] else t ← slots h; Some (ht_value <$> mjoin (M:=list) t).

(** [At]: [inl out_of_range] when the key is absent. *)
Definition HashTable_At (h : HashStruct HTEntry) (key : DynamicString)
  : option (exn + DynamicString) :=
  entry ← FindEntry h key;
  match entry with
  | None => Some (inl out_of_range)
  | Some e => Some (inr (ht_value e))
  end.

Definition HashDict : Type := Rehashable HTEntry.

Definition HashDict_Update (d : HashDict) (key val : DynamicString) : option (HashDict * Z) :=
  d ← rehash_step d;
  cur ← cur_ht_ d;
  if RehashDone cur then
    '(cur, r) ← UpdateKV cur key val;
    Some (mkRH (Some cur) (backup_ht_ d) (max_load_factor_ d), r)
  else
    entry ← FindEntry cur key;
    match entry with
    | Some _ =>
        cur ← modify_entry cur key (set_value val);
        Some (mkRH (Some cur) (backup_ht_ d) (max_load_factor_ d), UPDATED)
    | None =>
        match backup_ht_ d with
        | Some b =>
            '(b, r) ← UpdateKV b key val;
            Some (mkRH (Some cur) (Some b) (max_load_factor_ d), r)
        | None => Some (d, UNDEFINED)
        end
    end.

Definition HashDict_AllValues (d : HashDict) : option (list DynamicString) :=
  if Rehashable_Count d =? 0 then Some []
  else
    a ← match cur_ht_ d with Some c => HashTable_AllValues c | None => Some [] end;
    b ← match backup_ht_ d with Some c => HashTable_AllValues c | None => Some [] end;
    Some (a ++ b).

(** [At] first does a rehashing step: the dictionary is returned with the value
    or the exception. *)
Definition HashDict_At (d : HashDict) (key : DynamicString)
  : option (HashDict * (exn + DynamicString)) :=
  d ← rehash_step d;
  match cur_ht_ d with
  | Some cur =>
      r ← HashTable_At cur key;
      match r with
      | inr v => Some (d, inr v)
      | inl _ =>
          match backup_ht_ d with
          | Some b => r ← HashTable_At b key; Some (d, r)
          | None => Some (d, inl out_of_range)
          end
      end
  | None => Some (d, inl out_of_range)
  end.

(** ** HashSetImpl and HashSet *)

Record HSEntry := mkHSE { hs_key : DynamicString }.

#[export] Instance HSEntry_key : HashEntry HSEntry := hs_key.

#[export] Instance HashSetImpl_AddEntry : HashImpl HSEntry := λ h new_entry,
  match new_entry with
  | None => Some (h, UNDEFINED)
  | Some e =>
      slot_idx ← CalculateSlotIndex h (hs_key e);
      head ← table_ h !! slot_idx;
      match head with
      | [] => h ← push_entry h slot_idx e; Some (h, NEW_ADDED)
      | _ :: _ =>
          entry ← FindEntry h (hs_key e);
          match entry with
          | None => h ← push_entry h slot_idx e; Some (h, NEW_ADDED)
          | Some _ => Some (h, EXISTED)
          end
      end
  end.

Definition HashSetImpl_Add (h : HashStruct HSEntry) (item : DynamicString)
  : option (HashStruct HSEntry * Z) :=
  slot_idx ← CalculateSlotIndex h item;
  head ← table_ h !! slot_idx;
  match head with
  | [] => k ← DynamicString_copy always_ok item;
          h ← push_entry h slot_idx (mkHSE k); Some (h, NEW_ADDED)
  | _ :: _ =>
      entry ← FindEntry h item;
      match entry with
      | None => k ← DynamicString_copy always_ok item;
                h ← push_entry h slot_idx (mkHSE k); Some (h, NEW_ADDED)
      | Some _ => Some (h, EXISTED)
      end
  end.

Definition HashSet : Type := Rehashable HSEntry.

Definition HashSet_Insert (d : HashSet) (item : DynamicString) : option (HashSet * Z) :=
  d ← rehash_step d;
  cur ← cur_ht_ d;
  if RehashDone cur then
    '(cur, r) ← HashSetImpl_Add cur item;
    Some (mkRH (Some cur) (backup_ht_ d) (max_load_factor_ d), r)
  else
    entry ← FindEntry cur item;
    match entry with
    | Some _ => Some (d, EXISTED)
    | None =>
        match backup_ht_ d with
        | Some b =>
            '(b, r) ← HashSetImpl_Add b item;
            Some (mkRH (Some cur) (Some b) (max_load_factor_ d), r)
        | None => Some (d, UNDEFINED)
        end
    end.

(** ** Serialization *)

Definition serialize_count (n : Z) (buf : list ascii) : option (list ascii) :=
  '(cnt, enc) ← EncodeVarUnsignedInt64 n (Some (replicate 10 NUL));
  enc ← enc;
  Some (buf ++ take (Z.to_nat cnt) enc).

Fixpoint serialize_all (l : list DynamicString) (buf : list ascii) : option (list ascii) :=
  match l with
  | [] => Some buf
  | d :: l => '(_, buf) ← ds_Serialize d buf; serialize_all l buf
  end.

Definition HashDict_Serialize (d : HashDict) (buf : list ascii) : option (Z * list ascii) :=
  let len := Rehashable_Count d in
  if len =? 0 then Some (0, buf)
  else
    buf ← serialize_count len buf;
    entries ← Rehashable_AllEntries d;
    buf ← serialize_all (e ← entries; [ht_key e; ht_value e]) buf;
    Some (Z.of_nat (length buf), buf).

Definition HashSet_Serialize (d : HashSet) (buf : list ascii) : option (Z * list ascii) :=
  let count := Rehashable_Count d in
  if count =? 0 then Some (0, buf)
  else
    buf ← serialize_count count buf;
    entries ← Rehashable_AllEntries d;
    buf ← serialize_all (hs_key <$> entries) buf;
    Some (Z.of_nat (length buf), buf).
