(* ===== verification/HashFacts.v ===== *)
(** * HashFacts: the hash containers implement finite maps

    The invariant of one table ([hash_ok]), of a container in the middle of a
    gradual rehash ([rh_ok]), the finite map a container stands for ([rmap]) and
    the proofs that every operation preserves the first and acts as the
    corresponding operation on the second. *)

From S2P Require Import Prelude Encoding Numerals Str Hash.
From Stdlib Require Import QArith.
From stdpp Require Import list fin_maps.

Local Open Scope Z_scope.

(** A well-formed string: it represents its own contents. *)
Definition ds_ok (d : DynamicString) : Prop := ds_repr d (ds_data d).

Lemma ds_repr_ok d s : ds_repr d s -> ds_ok d.
Proof. intros R. unfold ds_ok. by rewrite (ds_data_repr d s R). Qed.

Lemma ds_ok_null : ds_ok ds_null.
Proof. done. Qed.

Lemma ds_eqb_ok a b : ds_ok a -> ds_ok b -> ds_eqb a b = bool_decide (ds_data a = ds_data b).
Proof. apply ds_eqb_repr. Qed.

Lemma ds_neqb_ok a b : ds_ok a -> ds_ok b -> ds_neqb a b = negb (bool_decide (ds_data a = ds_data b)).
Proof. apply ds_neqb_repr. Qed.

(** A string that is not null and holds the bytes [x]: what a value stored in a
    container is, and what tells it from "no value". *)
Definition ds_val (d : DynamicString) (x : list ascii) : Prop := ds_repr d x /\ ds_Null d = false.

Definition val_ok (d : DynamicString) : Prop := ds_val d (ds_data d).

Lemma ds_val_ok d x : ds_val d x -> val_ok d.
Proof. intros [R N]. split; [by eapply ds_repr_ok|done]. Qed.

Lemma ds_val_data d x : ds_val d x -> ds_data d = x.
Proof. intros [R _]. by apply ds_data_repr. Qed.

Lemma ds_val_of d x : ds_repr d x -> ds_buf d <> None -> ds_val d x.
Proof. intros R N. split; [done|]. by eapply ds_buf_not_null. Qed.

Lemma ds_val_copy d x : ds_val d x -> exists d', DynamicString_copy always_ok d = Some d' /\ ds_val d' x.
Proof.
  intros [R N]. destruct (DynamicString_copy_repr d x R) as (d' & E & R' & N').
  exists d'. split; [done|]. split; [done|congruence].
Qed.

#[export] Hint Resolve ds_repr_ok ds_ok_null ds_val_ok ds_val_of : litekv.

(** ** Entries *)

(** What the proofs need of an entry type: when an entry is well-formed and the
    value it carries. *)
Class EntrySpec (E A : Type) `{!HashEntry E} := {
  entry_ok : E -> Prop;
  entry_val : E -> A;
  entry_ok_key : forall e, entry_ok e -> ds_ok (entry_key e)
}.

#[export] Instance HTEntry_spec : EntrySpec HTEntry (list ascii) := {
  entry_ok e := val_ok (ht_key e) /\ val_ok (ht_value e);
  entry_val e := ds_data (ht_value e);
  entry_ok_key e H := proj1 (proj1 H)
}.

#[export] Instance HSEntry_spec : EntrySpec HSEntry () := {
  entry_ok e := val_ok (hs_key e);
  entry_val _ := tt;
  entry_ok_key e H := proj1 H
}.

Section Facts.
Context {E A : Type} `{!HashEntry E} `{!EntrySpec E A}.
Implicit Types (h : HashStruct E) (e : E) (k : list ascii) (key : DynamicString).

Definition kb e : list ascii := ds_data (entry_key e).

Definition emap (l : list E) : gmap (list ascii) A := list_to_map ((λ e, (kb e, entry_val e)) <$> l).

Definition entries h : list E := mjoin (table_ h).

Definition slot_of (n : Z) k : nat := Z.to_nat (Time33Hash k mod n).

(** The invariant of one table: the array has [slot_size_] slots, every entry is
    well-formed and in the slot of its hash, keys are distinct, and [count_]
    counts the entries. *)
Record hash_ok h : Prop := {
  hk_len : length (table_ h) = Z.to_nat (slot_size_ h);
  hk_pos : 0 < slot_size_ h < 2 ^ 63;
  hk_slot : forall i c e, table_ h !! i = Some c -> e ∈ c ->
              entry_ok e /\ slot_of (slot_size_ h) (kb e) = i;
  hk_nodup : NoDup (kb <$> entries h);
  hk_count : count_ h = Z.of_nat (length (entries h));
  hk_small : count_ h < 2 ^ 63
}.

(** ** The map of a list of entries *)

Lemma fst_pairs (l : list E) : fst <$> ((λ e, (kb e, entry_val e)) <$> l) = kb <$> l.
Proof. by rewrite <- list_fmap_compose. Qed.

Lemma emap_nodup (l : list E) : NoDup (kb <$> l) -> NoDup (fst <$> ((λ e, (kb e, entry_val e)) <$> l)).
Proof. by rewrite fst_pairs. Qed.

Lemma emap_lookup (l : list E) k a : NoDup (kb <$> l) ->
  emap l !! k = Some a <-> exists e, e ∈ l /\ kb e = k /\ entry_val e = a.
Proof.
  intros Hn. unfold emap. rewrite <- elem_of_list_to_map by (by apply emap_nodup).
  rewrite list_elem_of_fmap. naive_solver.
Qed.

Lemma emap_None (l : list E) k : emap l !! k = None <-> k ∉ kb <$> l.
Proof.
  unfold emap. rewrite <- (fst_pairs l). symmetry. apply not_elem_of_list_to_map.
Qed.

Lemma emap_perm (l l' : list E) : NoDup (kb <$> l) -> l ≡ₚ l' -> emap l = emap l'.
Proof.
  intros Hn Hp. apply list_to_map_proper; [by apply emap_nodup|]. by rewrite Hp.
Qed.

Lemma emap_cons e (l : list E) : emap (e :: l) = <[kb e := entry_val e]> (emap l).
Proof. done. Qed.

Lemma emap_size (l : list E) : NoDup (kb <$> l) -> size (emap l) = length l.
Proof.
  induction l as [|e l IH]; [done|]. rewrite fmap_cons, NoDup_cons. intros [Hin Hn].
  rewrite emap_cons, map_size_insert_None by (by apply emap_None). by rewrite IH.
Qed.

(** ** One slot and the rest *)

Lemma slot_split h i c : table_ h !! i = Some c ->
  exists R, entries h ≡ₚ c ++ R /\
    forall c', entries (with_table h (<[i:=c']> (table_ h))) ≡ₚ c' ++ R.
Proof.
  intros Hi. exists (mjoin (take i (table_ h)) ++ mjoin (drop (S i) (table_ h))).
  pose proof (lookup_lt_Some _ _ _ Hi). split.
  - unfold entries. rewrite <- (take_drop_middle _ _ _ Hi) at 1.
    rewrite join_app. cbn. solve_Permutation.
  - intros c'. unfold entries, with_table. cbn [table_]. rewrite insert_take_drop by done.
    rewrite join_app. cbn. solve_Permutation.
Qed.

Lemma entries_elem h e : e ∈ entries h <-> exists i c, table_ h !! i = Some c /\ e ∈ c.
Proof.
  unfold entries. rewrite list_elem_of_join. setoid_rewrite list_elem_of_lookup at 2. naive_solver.
Qed.

Lemma hash_entry_ok h e : hash_ok h -> e ∈ entries h -> entry_ok e.
Proof. intros Hh He. apply entries_elem in He as (i & c & Hi & Hc). by eapply hk_slot. Qed.

Lemma slot_lt h k : hash_ok h -> (slot_of (slot_size_ h) k < length (table_ h))%nat.
Proof.
  intros Hh. rewrite hk_len by done. pose proof (hk_pos h Hh).
  pose proof (Z.mod_pos_bound (Time33Hash k) (slot_size_ h)). unfold slot_of. lia.
Qed.

Lemma slot_index h key : hash_ok h ->
  CalculateSlotIndex h key = Some (slot_of (slot_size_ h) (ds_data key)).
Proof.
  intros Hh. unfold CalculateSlotIndex, ds_Hash. pose proof (hk_pos h Hh).
  by destruct (Z.eqb_spec (slot_size_ h) 0); [lia|].
Qed.

Lemma slot_lookup h k : hash_ok h -> exists c, table_ h !! slot_of (slot_size_ h) k = Some c.
Proof. intros Hh. apply lookup_lt_is_Some_2, slot_lt, Hh. Qed.

(** An entry with key [k] can only be in the slot of [k]. *)
Lemma slot_complete h k c e : hash_ok h -> table_ h !! slot_of (slot_size_ h) k = Some c ->
  e ∈ entries h -> kb e = k -> e ∈ c.
Proof.
  intros Hh Hc He <-. apply entries_elem in He as (i & c' & Hi & He).
  destruct (hk_slot h Hh i c' e Hi He) as [_ <-]. congruence.
Qed.

(** Replacing one chain. *)
Lemma hash_ok_slot h i c c' R cnt idx :
  hash_ok h -> table_ h !! i = Some c ->
  (forall d, entries (with_table h (<[i:=d]> (table_ h))) ≡ₚ d ++ R) ->
  (forall e, e ∈ c' -> entry_ok e /\ slot_of (slot_size_ h) (kb e) = i) ->
  NoDup (kb <$> (c' ++ R)) -> cnt = Z.of_nat (length (c' ++ R)) -> cnt < 2 ^ 63 ->
  hash_ok (mkHS (<[i:=c']> (table_ h)) (slot_size_ h) cnt idx).
Proof.
  intros Hh Hi HR Hc' Hn -> Hs.
  assert (entries (mkHS (<[i:=c']> (table_ h)) (slot_size_ h) (Z.of_nat (length (c' ++ R))) idx)
          ≡ₚ c' ++ R) as P by apply (HR c').
  split; cbn [table_ slot_size_ count_]; rewrite ?P; try done.
  - rewrite length_insert. by apply hk_len.
  - by apply hk_pos.
  - intros j d e Hj He. destruct (decide (j = i)) as [->|].
    + rewrite list_lookup_insert_eq in Hj by (by eapply lookup_lt_Some). simplify_eq. auto.
    + rewrite list_lookup_insert_ne in Hj by done. by eapply hk_slot.
Qed.

(** ** Chains *)

Lemma find_chain_None key c : ds_ok key -> (forall e, e ∈ c -> entry_ok e) ->
  find_chain key c = None -> ds_data key ∉ kb <$> c.
Proof.
  intros Hk. induction c as [|e c IH]; intros Hc; cbn; [intros _; apply not_elem_of_nil|].
  rewrite ds_eqb_ok by (try done; apply entry_ok_key, Hc; left).
  case_bool_decide as Ek; [done|]. intros Hf. rewrite not_elem_of_cons. split; [done|].
  apply IH; [|done]. intros. apply Hc. by right.
Qed.

Lemma find_chain_Some key c e : ds_ok key -> (forall e, e ∈ c -> entry_ok e) ->
  find_chain key c = Some e ->
  kb e = ds_data key /\ exists c1 c2, c = c1 ++ e :: c2 /\
    (forall f e', f e = Some e' -> modify_chain key f c = Some (c1 ++ e' :: c2)).
Proof.
  intros Hk. induction c as [|x c IH]; intros Hc; cbn; [done|].
  rewrite ds_eqb_ok by (try done; apply entry_ok_key, Hc; left).
  case_bool_decide as Ek.
  - intros [= ->]. split; [done|]. exists [], c. split; [done|]. intros f e' ->. done.
  - intros Hf. destruct IH as (He & c1 & c2 & -> & Hm); [|done|].
    + intros. apply Hc. by right.
    + split; [done|]. exists (x :: c1), c2. split; [done|]. intros f e' Hfe. by rewrite (Hm f e').
Qed.

Lemma erase_chain_None key c : ds_ok key -> (forall e, e ∈ c -> entry_ok e) ->
  erase_chain key c = None -> ds_data key ∉ kb <$> c.
Proof.
  intros Hk. induction c as [|e c IH]; intros Hc; cbn; [intros _; apply not_elem_of_nil|].
  rewrite ds_neqb_ok by (try done; apply entry_ok_key, Hc; left).
  case_bool_decide as Ek; cbn; [done|]. intros Hf. rewrite not_elem_of_cons. split; [done|].
  apply IH; [|by destruct (erase_chain key c)]. intros. apply Hc. by right.
Qed.

Lemma erase_chain_Some key c c' : ds_ok key -> (forall e, e ∈ c -> entry_ok e) ->
  erase_chain key c = Some c' ->
  exists c1 e c2, c = c1 ++ e :: c2 /\ c' = c1 ++ c2 /\ kb e = ds_data key.
Proof.
  intros Hk. revert c'. induction c as [|x c IH]; intros c' Hc; cbn; [done|].
  rewrite ds_neqb_ok by (try done; apply entry_ok_key, Hc; left).
  case_bool_decide as Ek; cbn.
  - intros [= <-]. by exists [], x, c.
  - intros Hf. apply fmap_Some in Hf as (c'' & Hf & ->).
    destruct (IH c'') as (c1 & e & c2 & -> & -> & He); [|done|].
    + intros. apply Hc. by right.
    + by exists (x :: c1), e, c2.
Qed.

(** ** Operations on one table *)

(** Empty slots stay empty, the array keeps its size: what the rehashing
    invariant needs of a change to the current table. *)
Definition keeps_empty h h' : Prop :=
  slot_size_ h' = slot_size_ h /\ rehashing_idx_ h' = rehashing_idx_ h /\
  forall j, table_ h !! j = Some [] -> table_ h' !! j = Some [].

Lemma FindEntry_spec h key : hash_ok h -> ds_ok key ->
  exists r, FindEntry h key = Some r /\ entry_val <$> r = emap (entries h) !! ds_data key.
Proof.
  intros Hh Hk. unfold FindEntry. rewrite slot_index by done. cbn.
  destruct (slot_lookup h (ds_data key) Hh) as [c Hc]. rewrite Hc. cbn. eexists. split; [done|].
  assert (forall e, e ∈ c -> entry_ok e) as Hok by (intros; by eapply hk_slot).
  destruct (find_chain key c) as [e|] eqn:F.
  - destruct (find_chain_Some key c e) as (Hke & c1 & c2 & -> & _); try done.
    symmetry. apply emap_lookup; [by apply hk_nodup|]. exists e. split; [|done].
    apply entries_elem. eexists _, _. split; [done|]. set_solver.
  - symmetry. apply emap_None. intros Hin. apply list_elem_of_fmap in Hin as (e & He & Hin).
    apply (find_chain_None key c) in F; [|done..]. apply F. rewrite He.
    apply list_elem_of_fmap. exists e. split; [done|]. by eapply slot_complete.
Qed.

Lemma FindEntry_Some h key e : hash_ok h -> ds_ok key -> FindEntry h key = Some (Some e) ->
  entry_ok e /\ kb e = ds_data key /\ table_ h !! slot_of (slot_size_ h) (ds_data key) <> Some [].
Proof.
  intros Hh Hk. unfold FindEntry. rewrite slot_index by done. cbn.
  destruct (slot_lookup h (ds_data key) Hh) as [c Hc]. rewrite Hc. cbn. intros [= HF].
  assert (forall x, x ∈ c -> entry_ok x) as Hok by (intros; by eapply hk_slot).
  destruct (find_chain_Some key c e) as (Hke & c1 & c2 & -> & _); try done.
  split; [apply Hok; set_solver|]. split; [done|]. by destruct c1.
Qed.

Lemma modify_entry_spec h key f e e' : hash_ok h -> ds_ok key ->
  FindEntry h key = Some (Some e) -> f e = Some e' -> entry_ok e' -> kb e' = kb e ->
  exists h' R, modify_entry h key f = Some h' /\ hash_ok h' /\ keeps_empty h h' /\
    kb e = ds_data key /\ entries h ≡ₚ e :: R /\ entries h' ≡ₚ e' :: R.
Proof.
  intros Hh Hk HF Hfe Hok' Hkb. unfold FindEntry, modify_entry in *.
  rewrite slot_index in * by done. cbn in *.
  destruct (slot_lookup h (ds_data key) Hh) as [c Hc]. rewrite Hc in *. cbn in *.
  assert (forall x, x ∈ c -> entry_ok x) as Hok by (intros; by eapply hk_slot).
  injection HF as HF. destruct (find_chain_Some key c e) as (Hke & c1 & c2 & -> & Hm); try done.
  rewrite (Hm f e') by done. cbn. rewrite store_some by (by apply slot_lt). cbn.
  destruct (slot_split h _ _ Hc) as (R & PR & PR').
  exists (with_table h (<[slot_of (slot_size_ h) (ds_data key) := c1 ++ e' :: c2]> (table_ h))), (c1 ++ c2 ++ R).
  split; [done|].
  assert (entries h ≡ₚ e :: c1 ++ c2 ++ R) as P1 by (rewrite PR; solve_Permutation).
  split; [|split; [|split; [done|split; [done|rewrite PR'; solve_Permutation]]]].
  - apply (hash_ok_slot h _ (c1 ++ e :: c2) _ R); try done.
    + intros x Hx. apply elem_of_app in Hx as [Hx|Hx].
      * eapply hk_slot; [done..|]. set_solver.
      * apply elem_of_cons in Hx as [->|Hx]; [|eapply hk_slot; [done..|]; set_solver].
        split; [done|]. by rewrite Hkb, Hke.
    + pose proof (hk_nodup h Hh) as Hn. rewrite PR in Hn.
      replace (kb <$> ((c1 ++ e' :: c2) ++ R)) with (kb <$> ((c1 ++ e :: c2) ++ R)); [done|].
      rewrite !fmap_app, !fmap_cons. by rewrite Hkb.
    + rewrite (hk_count h Hh), PR. by rewrite !length_app.
    + by apply hk_small.
  - split; [done|]. split; [done|]. intros j Hj. cbn.
    rewrite list_lookup_insert_ne; [done|]. intros <-. rewrite Hj in Hc.
    by destruct c1.
Qed.

Lemma push_entry_spec h e : hash_ok h -> entry_ok e -> kb e ∉ kb <$> entries h ->
  count_ h < 2 ^ 62 ->
  exists h', push_entry h (slot_of (slot_size_ h) (kb e)) e = Some h' /\ hash_ok h' /\
    slot_size_ h' = slot_size_ h /\ rehashing_idx_ h' = rehashing_idx_ h /\
    entries h' ≡ₚ e :: entries h.
Proof.
  intros Hh He Hn Hs. unfold push_entry.
  destruct (slot_lookup h (kb e) Hh) as [c Hc]. rewrite Hc. cbn.
  rewrite store_some by (by apply slot_lt). cbn. eexists. split; [done|].
  destruct (slot_split h _ _ Hc) as (R & PR & PR').
  assert (0 <= count_ h) by (rewrite hk_count by done; lia).
  split; [|split; [done|split; [done|by rewrite PR; rewrite (PR' (e :: c))]]].
  apply (hash_ok_slot h _ c _ R); try done.
  - intros x [->|Hx]%elem_of_cons; [done|]. by eapply hk_slot.
  - rewrite <- app_comm_cons, fmap_cons, NoDup_cons, <- PR. split; [done|]. by apply hk_nodup.
  - rewrite hk_count by done. rewrite PR. cbn [app length]. rewrite u64_small; [lia|].
    rewrite <- PR, <- hk_count by done. unfold in_u64, UINT64_MAX. lia.
  - rewrite u64_small; [lia|]. unfold in_u64, UINT64_MAX. lia.
Qed.

Lemma EraseKey_spec h key : hash_ok h -> ds_ok key ->
  exists h' r, EraseKey h key = Some (h', r) /\ hash_ok h' /\ keeps_empty h h' /\
    ((r = NOT_ERASED /\ h' = h /\ ds_data key ∉ kb <$> entries h) \/
     (r = ERASED /\ exists e, kb e = ds_data key /\ entries h ≡ₚ e :: entries h')).
Proof.
  intros Hh Hk. unfold EraseKey. rewrite slot_index by done. cbn.
  destruct (slot_lookup h (ds_data key) Hh) as [c Hc]. rewrite Hc. cbn.
  assert (forall x, x ∈ c -> entry_ok x) as Hok by (intros; by eapply hk_slot).
  destruct (erase_chain key c) as [c'|] eqn:F.
  - destruct (erase_chain_Some key c c') as (c1 & e & c2 & -> & -> & Hke); try done.
    rewrite store_some by (by apply slot_lt). cbn. eexists _, _. split; [done|].
    destruct (slot_split h _ _ Hc) as (R & PR & PR').
    assert (entries h ≡ₚ e :: (c1 ++ c2) ++ R) as P1 by (rewrite PR; solve_Permutation).
    assert (count_ h = Z.of_nat (S (length ((c1 ++ c2) ++ R)))) as Cn
      by (rewrite (hk_count h Hh), P1; done).
    pose proof (hk_small h Hh).
    split; [|split; [|right; split; [done|]]].
    + apply (hash_ok_slot h _ (c1 ++ e :: c2) _ R); try done.
      * intros x Hx. eapply hk_slot; [done..|]. set_solver.
      * pose proof (hk_nodup h Hh) as Hn. rewrite P1, fmap_cons, NoDup_cons in Hn. naive_solver.
      * rewrite u64_small; [lia|]. unfold in_u64, UINT64_MAX. lia.
      * rewrite u64_small; [lia|]. unfold in_u64, UINT64_MAX. lia.
    + split; [done|]. split; [done|]. intros j Hj. cbn.
      rewrite list_lookup_insert_ne; [done|]. intros <-. rewrite Hj in Hc. by destruct c1.
    + exists e. split; [done|]. rewrite P1. by rewrite (PR' (c1 ++ c2)).
  - eexists _, _. split; [done|]. split; [done|]. split; [done|]. left.
    split; [done|]. split; [done|]. intros Hin. apply list_elem_of_fmap in Hin as (e & He & Hin).
    apply (erase_chain_None key c) in F; [|done..]. apply F. rewrite He.
    apply list_elem_of_fmap. exists e. split; [done|]. by eapply slot_complete.
Qed.

Lemma slots_spec h : hash_ok h -> slots h = Some (table_ h).
Proof.
  intros Hh. unfold slots. rewrite <- (hk_len h Hh). generalize (table_ h) as t. clear.
  intros t. apply mapM_Some. apply Forall2_same_length_lookup_2; [by rewrite length_seq|].
  intros i x y Hx Hy. apply lookup_seq in Hx as [-> _]. done.
Qed.

Lemma AllEntries_spec h : hash_ok h -> AllEntries h = Some (entries h).
Proof.
  intros Hh. unfold AllEntries. rewrite slots_spec by done.
  destruct (Z.eqb_spec (count_ h) 0) as [C|]; [|done].
  rewrite hk_count in C by done. destruct (entries h); [done|]. cbn in C. lia.
Qed.

Lemma AllKeys_spec h : hash_ok h -> AllKeys h = Some (entry_key <$> entries h).
Proof.
  intros Hh. unfold AllKeys. rewrite slots_spec by done.
  destruct (Z.eqb_spec (count_ h) 0) as [C|]; [|done].
  rewrite hk_count in C by done. destruct (entries h); [done|]. cbn in C. lia.
Qed.

Lemma hash_new_ok n : 0 < n < 2 ^ 63 -> hash_ok (HashStructBase_new n) /\
  entries (HashStructBase_new n) = [].
Proof.
  intros Hn. assert (entries (@HashStructBase_new E n) = []) as En.
  { unfold entries. cbn. induction (Z.to_nat n); [done|]. cbn. done. }
  split; [|done]. split; try rewrite En; cbn; try done; try lia.
  - by rewrite length_replicate.
  - intros i c e Hi He. apply lookup_replicate in Hi as [-> _]. set_solver.
  - constructor.
Qed.
End Facts.

(** ** Gradual rehashing *)

(** What [Rehashable] relies on in its table type: adding an entry whose key is
    not in the table pushes it onto its slot. *)
Class HashImplSpec (E A : Type) `{!HashEntry E} `{!HashImpl E} `{!EntrySpec E A} :=
  AddEntry_fresh : forall (h : HashStruct E) (e : E),
    hash_ok h -> entry_ok e -> kb e ∉ kb <$> entries h ->
    AddEntry h (Some e) =
      (h' ← push_entry h (slot_of (slot_size_ h) (kb e)) e; Some (h', NEW_ADDED)).

(** A key that is not in the table is not found by [FindEntry]. *)
Lemma FindEntry_fresh {E A} `{!HashEntry E} `{!EntrySpec E A} (h : HashStruct E) key :
  hash_ok h -> ds_ok key -> ds_data key ∉ kb <$> entries h -> FindEntry h key = Some None.
Proof.
  intros Hh Hk Hn. destruct (FindEntry_spec h key Hh Hk) as (r & -> & Hr).
  rewrite (proj2 (emap_None _ _) Hn) in Hr. by destruct r.
Qed.

#[export] Instance HashTable_AddEntry_spec : HashImplSpec HTEntry (list ascii).
Proof.
  intros h e Hh [[Hk _] Hv] Hn. unfold AddEntry, HashTable_AddEntry.
  rewrite slot_index, (FindEntry_fresh h (ht_key e)) by done. cbn.
  destruct (slot_lookup h (kb e) Hh) as [c Hc]. unfold kb in Hc. cbn in Hc.
  change (entry_key e) with (ht_key e) in Hc. rewrite Hc. cbn.
  destruct c; unfold kb; reflexivity.
Qed.

#[export] Instance HashSetImpl_AddEntry_spec : HashImplSpec HSEntry ().
Proof.
  intros h e Hh [Hk _] Hn. unfold AddEntry, HashSetImpl_AddEntry.
  rewrite slot_index, (FindEntry_fresh h (hs_key e)) by done. cbn.
  destruct (slot_lookup h (kb e) Hh) as [c Hc]. unfold kb in Hc. cbn in Hc.
  change (entry_key e) with (hs_key e) in Hc. rewrite Hc. cbn.
  destruct c; unfold kb; reflexivity.
Qed.

Lemma LoadFactor_le c s : 0 < s -> Qle_bool (inject_Z c / inject_Z s) 1 = (c <=? s).
Proof.
  intros Hs. destruct s as [|p|p]; try lia. unfold Qle_bool, Qdiv, Qmult, Qinv, inject_Z. cbn.
  destruct (Z.leb_spec c (Z.pos p)); [apply Z.leb_le|apply Z.leb_gt]; lia.
Qed.

Section Rehash.
Context {E A : Type} `{!HashEntry E} `{!HashImpl E} `{!EntrySpec E A} `{!HashImplSpec E A}.
Implicit Types (h : HashStruct E) (d : Rehashable E).

Definition rents d : list E :=
  from_option entries [] (cur_ht_ d) ++ from_option entries [] (backup_ht_ d).

(** The finite map a container stands for. *)
Definition rmap d : gmap (list ascii) A := emap (rents d).

(** The invariant of a container: either no rehash is in progress, or the
    entries are split between the two tables and every slot before
    [rehashing_idx_] has been moved. *)
Record rh_ok d : Prop := {
  rh_state : exists cur, cur_ht_ d = Some cur /\ hash_ok cur /\
    match backup_ht_ d with
    | None => rehashing_idx_ cur = -1
    | Some b =>
        hash_ok b /\ rehashing_idx_ b = -1 /\ 0 <= rehashing_idx_ cur < slot_size_ cur /\
        forall j, Z.of_nat j < rehashing_idx_ cur -> table_ cur !! j = Some []
    end;
  rh_nodup : NoDup (kb <$> rents d);
  rh_load : max_load_factor_ d = 1%Q
}.

Lemma rh_size d : rh_ok d -> size (rmap d) = length (rents d).
Proof. intros Hd. apply emap_size, rh_nodup, Hd. Qed.

Lemma move_chain_spec (head : list E) cur backup :
  (forall e, e ∈ head -> entry_ok e) -> hash_ok backup ->
  NoDup (kb <$> (head ++ entries backup)) ->
  Z.of_nat (length head) <= count_ cur < 2 ^ 63 ->
  Z.of_nat (length (head ++ entries backup)) < 2 ^ 62 ->
  exists backup',
    move_chain head cur backup =
      Some (with_count cur (count_ cur - Z.of_nat (length head)), backup') /\
    hash_ok backup' /\ slot_size_ backup' = slot_size_ backup /\
    rehashing_idx_ backup' = rehashing_idx_ backup /\
    entries backup' ≡ₚ head ++ entries backup.
Proof.
  revert cur backup. induction head as [|e head IH]; intros cur backup Hok Hb Hn Hc Hs.
  { exists backup. split; [|done]. cbn. rewrite Z.sub_0_r. by destruct cur. }
  rewrite <- app_comm_cons, fmap_cons, NoDup_cons, fmap_app, not_elem_of_app in Hn.
  destruct Hn as [[Hn1 Hn2] Hn]. cbn [length app] in *. rewrite length_app in Hs.
  cbn [move_chain]. rewrite AddEntry_fresh by (try done; apply Hok; left).
  destruct (push_entry_spec backup e) as (b1 & -> & Hb1 & S1 & I1 & P1); try done.
  { apply Hok. left. }
  { rewrite hk_count by done. lia. }
  cbn. assert (u64 (count_ cur - 1) = count_ cur - 1) as Eu
    by (apply u64_small; unfold in_u64, UINT64_MAX; lia).
  destruct (IH (with_count cur (u64 (count_ cur - 1))) b1) as (b2 & -> & Hb2 & S2 & I2 & P2).
  - intros. apply Hok. by right.
  - done.
  - by rewrite fmap_app, P1, fmap_cons, <- Permutation_middle, NoDup_cons, not_elem_of_app.
  - cbn. lia.
  - rewrite length_app, P1. cbn. lia.
  - exists b2. cbn. rewrite Eu. split; [unfold with_count; cbn; do 3 f_equal; lia|].
    split; [done|]. split; [congruence|]. split; [congruence|].
    rewrite P2, P1. by rewrite <- Permutation_middle.
Qed.

Lemma next_occupied_spec h n i : (i + n = length (table_ h))%nat ->
  exists r, next_occupied h n i = Some r /\
    ((r = -1 /\ forall j, (i <= j < length (table_ h))%nat -> table_ h !! j = Some []) \/
     (exists j, r = Z.of_nat j /\ (i <= j < length (table_ h))%nat /\
        forall j', (i <= j' < j)%nat -> table_ h !! j' = Some [])).
Proof.
  revert i. induction n as [|n IH]; intros i Hi.
  - exists (-1). split; [done|]. left. split; [done|]. intros. lia.
  - destruct (lookup_lt_is_Some_2 (table_ h) i) as [c Hc]; [lia|]. cbn. rewrite Hc. cbn.
    destruct c as [|e c].
    + destruct (IH (S i) ltac:(lia)) as (r & -> & Hr). exists r. split; [done|].
      assert (forall j, (i <= j)%nat -> j = i \/ (S i <= j)%nat) as Hcase by lia.
      destruct Hr as [[-> Hr]|(j & -> & Hj & Hr)]; [left|right].
      * split; [done|]. intros j Hj. destruct (Hcase j ltac:(lia)) as [->|]; [done|]. apply Hr. lia.
      * exists j. split; [done|]. split; [lia|]. intros j' Hj'.
        destruct (Hcase j' ltac:(lia)) as [->|]; [done|]. apply Hr. lia.
    + exists (Z.of_nat i). split; [done|]. right. exists i. split; [done|]. split; [lia|].
      intros. lia.
Qed.

Lemma StepRehashingIdx_spec h : length (table_ h) = Z.to_nat (slot_size_ h) ->
  0 < slot_size_ h < 2 ^ 63 -> -1 <= rehashing_idx_ h < slot_size_ h ->
  exists r, StepRehashingIdx h = Some (with_idx h r) /\
    ((r = -1 /\ forall j, rehashing_idx_ h < Z.of_nat j < slot_size_ h -> table_ h !! j = Some []) \/
     (rehashing_idx_ h < r < slot_size_ h /\
      forall j, rehashing_idx_ h < Z.of_nat j < r -> table_ h !! j = Some [])).
Proof.
  intros Hlen Hpos Hidx. unfold StepRehashingIdx.
  rewrite u64_small by (unfold in_u64, UINT64_MAX; lia).
  destruct (next_occupied_spec h (Z.to_nat (slot_size_ h) - Z.to_nat (rehashing_idx_ h + 1))
              (Z.to_nat (rehashing_idx_ h + 1))) as (r & -> & Hr); [lia|].
  exists r. split; [done|]. destruct Hr as [[-> Hr]|(j & -> & Hj & Hr)]; [left|right].
  - split; [done|]. intros j Hj. apply Hr. lia.
  - split; [lia|]. intros j' Hj'. apply Hr. lia.
Qed.

Lemma all_slots_empty h : length (table_ h) = Z.to_nat (slot_size_ h) ->
  (forall j, Z.of_nat j < slot_size_ h -> table_ h !! j = Some []) ->
  entries h = [] /\ (hash_ok h -> EnsureAllSlotsEmpty h = Some true).
Proof.
  intros Hlen Hj. assert (forall c, c ∈ table_ h -> c = []) as Hc.
  { intros c Hc. apply list_elem_of_lookup in Hc as [j Hc].
    pose proof (lookup_lt_Some _ _ _ Hc). rewrite Hj in Hc by lia. congruence. }
  unfold EnsureAllSlotsEmpty. split.
  - destruct (entries h) as [|e l] eqn:Ee; [done|].
    assert (e ∈ entries h) as He by (rewrite Ee; left).
    apply entries_elem in He as (i & c & Hi & He).
    rewrite (Hc c) in He by (by eapply list_elem_of_lookup_2). by apply elem_of_nil in He.
  - intros Hh. rewrite slots_spec by done. cbn. f_equal. apply forallb_forall.
    intros c Hin. apply list_elem_of_In in Hin. by rewrite (Hc c).
Qed.

(** The state in which [PerformRehash] moves a slot. *)
Record moving d cur : Prop := {
  mv_cur : cur_ht_ d = Some cur;
  mv_ok : hash_ok cur;
  mv_idx : 0 <= rehashing_idx_ cur < slot_size_ cur;
  mv_empty : forall j, Z.of_nat j < rehashing_idx_ cur -> table_ cur !! j = Some [];
  mv_backup : match backup_ht_ d with
              | None => slot_size_ cur * 2 < 2 ^ 63
              | Some b => hash_ok b /\ rehashing_idx_ b = -1
              end;
  mv_nodup : NoDup (kb <$> rents d);
  mv_load : max_load_factor_ d = 1%Q
}.

(** The backup table [PerformRehash] works with. *)
Lemma backup_spec d cur : moving d cur ->
  let b := default (HashStructBase_new (u64 (slot_size_ cur * kGrowFactor))) (backup_ht_ d) in
  hash_ok b /\ rehashing_idx_ b = -1 /\ rents d = entries cur ++ entries b.
Proof.
  intros M b. unfold rents. rewrite (mv_cur _ _ M). pose proof (mv_backup _ _ M) as Hb.
  subst b. destruct (backup_ht_ d) as [b|]; cbn [default from_option]; [naive_solver|].
  pose proof (hk_pos cur (mv_ok _ _ M)). rewrite u64_small.
  - destruct (hash_new_ok (E:=E) (slot_size_ cur * kGrowFactor)) as [Hn ->]; [unfold kGrowFactor; lia|].
    done.
  - unfold in_u64, UINT64_MAX, kGrowFactor. lia.
Qed.

(** Emptying the slot at [rehashing_idx_]. *)
Lemma emptied_spec h i c idx : hash_ok h -> table_ h !! i = Some c ->
  let h' := mkHS (<[i:=[]]> (table_ h)) (slot_size_ h) (count_ h - Z.of_nat (length c)) idx in
  hash_ok h' /\ entries h ≡ₚ c ++ entries h' /\ Z.of_nat (length c) <= count_ h.
Proof.
  intros Hh Hi h'. destruct (slot_split h i c Hi) as (R & PR & PR').
  assert (count_ h = Z.of_nat (length c) + Z.of_nat (length R)) as Cn
    by (rewrite hk_count, PR, length_app by done; lia).
  pose proof (hk_small h Hh). pose proof (hk_nodup h Hh) as Hn.
  rewrite PR, fmap_app in Hn. apply NoDup_app in Hn as (_ & _ & Hn).
  split; [|split; [change (entries h') with (entries (with_table h (<[i:=[]]> (table_ h))));
    by rewrite PR, (PR' [])|lia]].
  apply (hash_ok_slot h i c [] R); try done; [|cbn; lia|lia].
  intros e He. by apply elem_of_nil in He.
Qed.

(** Moving one slot: the entries stay the same, the index advances to the next
    occupied slot, or every slot is empty. *)
Lemma move_slot_spec cur b : hash_ok cur -> hash_ok b ->
  0 <= rehashing_idx_ cur < slot_size_ cur ->
  (forall j, Z.of_nat j < rehashing_idx_ cur -> table_ cur !! j = Some []) ->
  NoDup (kb <$> (entries cur ++ entries b)) ->
  Z.of_nat (length (entries cur ++ entries b)) < 2 ^ 62 ->
  exists cur' b', move_slot cur b = Some (cur', b') /\ hash_ok cur' /\ hash_ok b' /\
    slot_size_ cur' = slot_size_ cur /\ rehashing_idx_ b' = rehashing_idx_ b /\
    entries cur' ++ entries b' ≡ₚ entries cur ++ entries b /\
    ((rehashing_idx_ cur' = -1 /\
      forall j, Z.of_nat j < slot_size_ cur' -> table_ cur' !! j = Some []) \/
     (rehashing_idx_ cur < rehashing_idx_ cur' < slot_size_ cur' /\
      forall j, Z.of_nat j < rehashing_idx_ cur' -> table_ cur' !! j = Some [])).
Proof.
  intros Hc Hb Hi Hemp Hn Hs. pose proof (hk_pos _ Hc). unfold move_slot.
  set (i := Z.to_nat (rehashing_idx_ cur)).
  assert (i < length (table_ cur))%nat as Hlt by (rewrite (hk_len cur Hc); lia).
  destruct (lookup_lt_is_Some_2 _ _ Hlt) as [c Hic]. rewrite Hic. cbn [mbind option_bind].
  rewrite store_some by done. cbn [mbind option_bind].
  pose proof (λ idx, emptied_spec cur i c idx Hc Hic) as He. destruct (He 0) as (_ & Pc & Hcl).
  pose proof (hk_small _ Hc).
  destruct (move_chain_spec c (with_table cur (<[i:=[]]> (table_ cur))) b)
    as (b' & -> & Hb' & Sb' & Ib' & Pb'); try done.
  { intros e Hin. by eapply (hk_slot cur Hc). }
  { rewrite Pc in Hn. rewrite !fmap_app, !NoDup_app in Hn. rewrite fmap_app, NoDup_app. set_solver. }
  { rewrite length_app in Hs |- *. rewrite Pc, length_app in Hs. lia. }
  cbn [mbind option_bind].
  destruct (StepRehashingIdx_spec (with_count (with_table cur (<[i:=[]]> (table_ cur)))
      (count_ cur - Z.of_nat (length c)))) as (r & Er & Hr); cbn;
    [rewrite length_insert; by apply hk_len|done|lia|]. cbn in Er, Hr. rewrite Er. cbn.
  destruct (He r) as (Hc' & Pc' & _). eexists _, b'. split; [done|].
  split; [done|]. split; [done|]. split; [done|]. split; [done|].
  split; [rewrite Pb', Pc'; unfold with_idx, with_count, with_table; cbn; solve_Permutation|]. cbn.
  assert (forall j, Z.of_nat j <= rehashing_idx_ cur -> <[i:=[]]> (table_ cur) !! j = Some []) as Hlow.
  { intros j Hj. destruct (decide (j = i)) as [->|]; [by apply list_lookup_insert_eq|].
    rewrite list_lookup_insert_ne by done. apply Hemp. lia. }
  destruct Hr as [[-> Hr]|[Hr Hr']]; [left|right]; (split; [done|]); intros j Hj;
    (destruct (Z.leb_spec (Z.of_nat j) (rehashing_idx_ cur)); [by apply Hlow|]).
  - apply Hr. lia.
  - apply Hr'. lia.
Qed.

Lemma PerformRehash_spec d cur : moving d cur -> Z.of_nat (length (rents d)) < 2 ^ 62 ->
  exists d' r, PerformRehash d = Some (d', r) /\ rh_ok d' /\ rents d' ≡ₚ rents d /\
    (if r : bool then backup_ht_ d' = None
     else exists cur', moving d' cur' /\ slot_size_ cur' = slot_size_ cur /\
       rehashing_idx_ cur < rehashing_idx_ cur').
Proof.
  intros M Hs. destruct (backup_spec d cur M) as (Hb & Ib & Er).
  pose proof (mv_idx _ _ M) as Hi. pose proof (mv_nodup _ _ M) as Hn. pose proof (mv_load _ _ M) as Hl.
  unfold PerformRehash. rewrite (mv_cur _ _ M). cbn [mbind option_bind].
  revert Hb Ib Er. generalize (default (HashStructBase_new (u64 (slot_size_ cur * kGrowFactor)))
    (backup_ht_ d)) as b. intros b Hb Ib Er. rewrite Er in Hs, Hn.
  unfold RehashDone. rewrite (proj2 (Z.eqb_neq (rehashing_idx_ cur) (-1))) by lia.
  destruct (move_slot_spec cur b (mv_ok _ _ M) Hb Hi (mv_empty _ _ M) Hn Hs)
    as (cur' & b' & -> & Hc' & Hb' & Sc' & Ib' & P & Hcase). cbn [mbind option_bind].
  rewrite Er. destruct Hcase as [[Ei Hall]|[Hr Hemp]].
  - destruct (all_slots_empty cur' (hk_len _ Hc') Hall) as [En Hes].
    rewrite Ei, Hes by done. cbn. eexists _, _. split; [done|]. rewrite En in P. cbn in P.
    assert (rents (mkRH (Some b') None (max_load_factor_ d)) = entries b') as Ern
      by (unfold rents; cbn; by rewrite app_nil_r).
    split; [|split; [by rewrite Ern|done]]. split; [| |done].
    + exists b'. split; [done|]. split; [done|]. cbn. congruence.
    + by rewrite Ern, P.
  - destruct (Z.eqb_spec (rehashing_idx_ cur') (-1)) as [|_]; [lia|]. cbn. eexists _, _. split; [done|].
    set (d' := mkRH _ _ _). change (rents d') with (entries cur' ++ entries b').
    assert (NoDup (kb <$> rents d')) by (change (rents d') with (entries cur' ++ entries b'); by rewrite P).
    split; [|split; [done|]].
    + split; [|done|done]. exists cur'. do 2 (split; [done|]). cbn. split; [done|]. split; [congruence|].
      split; [lia|done].
    + exists cur'. split; [|split; [done|lia]]. split; try done; [lia|]. cbn. split; [done|congruence].
Qed.

(** The number of entries stays far below the range of the counters. *)
Definition room d : Prop := Z.of_nat (size (rmap d)) < 2 ^ 61.

Lemma room_length d : rh_ok d -> room d -> Z.of_nat (length (rents d)) < 2 ^ 61.
Proof. unfold room. intros Hd. by rewrite rh_size. Qed.

Lemma rmap_perm d d' : rh_ok d -> rents d' ≡ₚ rents d -> rmap d' = rmap d.
Proof. intros Hd P. symmetry. apply emap_perm; [by apply rh_nodup|done]. Qed.

Lemma rehash_step_spec d : rh_ok d -> room d ->
  exists d', rehash_step d = Some d' /\ rh_ok d' /\ rents d' ≡ₚ rents d.
Proof.
  intros Hd Hr. pose proof (room_length d Hd Hr) as Hs.
  destruct (rh_state d Hd) as (cur & Ec & Hc & Hb).
  unfold rehash_step, CheckNeedRehash. rewrite Ec, (rh_load d Hd). cbn [mbind option_bind].
  pose proof (hk_pos cur Hc) as Hpos. unfold LoadFactor.
  assert (rents d = entries cur ++ from_option entries [] (backup_ht_ d)) as Er
    by (unfold rents; by rewrite Ec).
  pose proof (hk_count cur Hc) as Cn.
  destruct (backup_ht_ d) as [b|] eqn:Eb.
  - destruct Hb as (Hb & Ib & Hi & He). rewrite (proj2 (Z.eqb_neq _ _)) by lia.
    rewrite andb_false_l, andb_false_r. cbn [orb negb mbind option_bind].
    destruct (PerformRehash_spec d cur) as (d' & r & -> & Hd' & P & _).
    + split; try done; [by rewrite Eb|by apply rh_nodup|by apply rh_load].
    + lia.
    + by exists d'.
  - rewrite Hb. rewrite LoadFactor_le by lia. cbn [Z.eqb Pos.eqb andb negb orb].
    rewrite orb_false_r, andb_true_r. destruct (Z.leb_spec (count_ cur) (slot_size_ cur)); cbn [negb].
    { by exists d. }
    rewrite Er, length_app in Hs.
    destruct (StepRehashingIdx_spec cur) as (r & -> & Hcase); [by apply hk_len|done|lia|].
    cbn [mbind option_bind]. rewrite Hb in Hcase. destruct Hcase as [[-> Hall]|[Hri He]].
    { destruct (all_slots_empty cur (hk_len _ Hc)) as [En _]; [intros; apply Hall; lia|].
      rewrite En in Cn. cbn in Cn. lia. }
    assert (hash_ok (with_idx cur r)) as Hc' by (destruct Hc; by split).
    destruct (PerformRehash_spec (mkRH (Some (with_idx cur r)) None 1%Q) (with_idx cur r))
      as (d' & r' & -> & Hd' & P & _).
    + split; try done; cbn; try lia.
      * intros j Hj. apply He. lia.
      * pose proof (rh_nodup d Hd) as Hn. by rewrite Er in Hn.
    + unfold rents. cbn. rewrite length_app. cbn in Hs |- *. unfold entries in *. cbn. lia.
    + exists d'. split; [done|]. split; [done|]. by rewrite P, Er.
Qed.

(** ** Observations *)

Lemma Count_spec d : rh_ok d -> room d -> Rehashable_Count d = Z.of_nat (size (rmap d)).
Proof.
  intros Hd Hr. rewrite rh_size by done. pose proof (room_length d Hd Hr) as Hs. revert Hs.
  destruct (rh_state d Hd) as (cur & Ec & Hc & Hb). unfold Rehashable_Count, rents. rewrite Ec. cbn.
  destruct (backup_ht_ d) as [b|]; cbn; rewrite length_app; intros Hs.
  - destruct Hb as [Hb _]. rewrite u64_small; rewrite !hk_count by done; [lia|].
    unfold in_u64, UINT64_MAX. lia.
  - rewrite hk_count by done. cbn. lia.
Qed.

Lemma Count_zero d : rh_ok d -> room d ->
  Rehashable_Count d = Z.of_nat (length (rents d)).
Proof. intros Hd Hr. by rewrite Count_spec, rh_size. Qed.

Lemma AllEntries_rspec d : rh_ok d -> room d -> Rehashable_AllEntries d = Some (rents d).
Proof.
  intros Hd Hr. unfold Rehashable_AllEntries. rewrite Count_zero by done.
  destruct (Z.eqb_spec (Z.of_nat (length (rents d))) 0) as [C|_].
  { destruct (rents d); [done|cbn in C; lia]. }
  destruct (rh_state d Hd) as (cur & Ec & Hc & Hb). unfold rents. rewrite Ec.
  rewrite AllEntries_spec by done. cbn. destruct (backup_ht_ d) as [b|]; [|done].
  rewrite AllEntries_spec; [done|]. apply Hb.
Qed.

Lemma AllKeys_rspec d : rh_ok d -> room d -> Rehashable_AllKeys d = Some (entry_key <$> rents d).
Proof.
  intros Hd Hr. unfold Rehashable_AllKeys. rewrite Count_zero by done.
  destruct (Z.eqb_spec (Z.of_nat (length (rents d))) 0) as [C|_].
  { destruct (rents d); [done|cbn in C; lia]. }
  destruct (rh_state d Hd) as (cur & Ec & Hc & Hb). unfold rents. rewrite Ec, fmap_app.
  rewrite AllKeys_spec by done. cbn. destruct (backup_ht_ d) as [b|]; [|done].
  rewrite AllKeys_spec; [done|]. apply Hb.
Qed.

(** A lookup in the container is a lookup in the current, then in the backup
    table. *)
Lemma emap_app (l l' : list E) k :
  emap (l ++ l') !! k = match emap l !! k with Some a => Some a | None => emap l' !! k end.
Proof.
  unfold emap. rewrite fmap_app, list_to_map_app, lookup_union.
  by destruct (_ !! k), (_ !! k).
Qed.

Lemma rmap_lookup d cur k : cur_ht_ d = Some cur ->
  rmap d !! k = match emap (entries cur) !! k with
                | Some a => Some a
                | None => b ← backup_ht_ d; emap (entries b) !! k
                end.
Proof.
  intros Ec. unfold rmap, rents. rewrite Ec, emap_app. cbn [from_option].
  by destruct (backup_ht_ d).
Qed.

Lemma CheckExists_one h key : hash_ok h -> ds_ok key ->
  CheckExists h key = Some (bool_decide (is_Some (emap (entries h) !! ds_data key))).
Proof.
  intros Hh Hk. unfold CheckExists. destruct (FindEntry_spec h key Hh Hk) as (r & -> & <-). cbn.
  f_equal. apply bool_decide_ext. by rewrite fmap_is_Some.
Qed.

Lemma CheckExists_spec d key : rh_ok d -> ds_ok key ->
  Rehashable_CheckExists d key = Some (bool_decide (is_Some (rmap d !! ds_data key))).
Proof.
  intros Hd Hk. destruct (rh_state d Hd) as (cur & Ec & Hc & Hb).
  unfold Rehashable_CheckExists. rewrite Ec, (rmap_lookup d cur) by done.
  rewrite CheckExists_one by done. cbn. case_bool_decide as H1.
  - destruct H1 as [a ->]. by rewrite bool_decide_true.
  - apply eq_None_not_Some in H1. rewrite H1. destruct (backup_ht_ d) as [b|].
    + rewrite CheckExists_one; [done| |done]. apply Hb.
    + done.
Qed.

(** ** Changes of one entry *)

(** The list [l'] is [l] with the entry of key [k] set to [v]: a new entry
    (result [NEW_ADDED]) or the old one replaced ([UPDATED]). *)
Definition upd (l l' : list E) (k : list ascii) (v : A) (r : Z) : Prop :=
  exists e R, kb e = k /\ entry_val e = v /\ l' ≡ₚ e :: R /\
    ((r = NEW_ADDED /\ l ≡ₚ R /\ k ∉ kb <$> l) \/
     (r = UPDATED /\ exists e0, kb e0 = k /\ l ≡ₚ e0 :: R)).

Lemma upd_app_l (l l' m : list E) k v : upd l l' k v UPDATED -> upd (l ++ m) (l' ++ m) k v UPDATED.
Proof.
  intros (e & R & Hk & Hv & P & [(C & _)|(_ & e0 & Hk0 & P0)]); [done|].
  exists e, (R ++ m). do 2 (split; [done|]). split; [by rewrite P|]. right. split; [done|].
  exists e0. split; [done|]. by rewrite P0.
Qed.

Lemma upd_app_r (l l' m : list E) k v r : k ∉ kb <$> m -> upd l l' k v r -> upd (m ++ l) (m ++ l') k v r.
Proof.
  intros Hm (e & R & Hk & Hv & P & Hcase). exists e, (m ++ R). do 2 (split; [done|]).
  split; [rewrite P; solve_Permutation|]. destruct Hcase as [(-> & P0 & Hn)|(-> & e0 & Hk0 & P0)]; [left|right].
  - split; [done|]. split; [by rewrite P0|]. rewrite fmap_app. set_solver.
  - split; [done|]. exists e0. split; [done|]. rewrite P0. solve_Permutation.
Qed.

Lemma upd_perm (l0 l l' : list E) k v r : l0 ≡ₚ l -> upd l l' k v r -> upd l0 l' k v r.
Proof.
  intros P0 (e & R & Hk & Hv & P & Hcase). exists e, R. do 3 (split; [done|]).
  by setoid_rewrite P0.
Qed.

Lemma upd_spec (l l' : list E) k v r : NoDup (kb <$> l) -> upd l l' k v r ->
  NoDup (kb <$> l') /\ emap l' = <[k:=v]> (emap l) /\
  r = match emap l !! k with None => NEW_ADDED | Some _ => UPDATED end.
Proof.
  intros Hn (e & R & <- & <- & P & Hcase).
  assert (NoDup (kb <$> (e :: R))) as Hn'.
  { destruct Hcase as [(_ & P0 & Hk)|(_ & e0 & Hk & P0)]; rewrite P0 in *; [by constructor|].
    by rewrite fmap_cons, Hk in Hn. }
  split; [by rewrite P|]. rewrite (emap_perm l' (e :: R)) by (by rewrite ?P).
  destruct Hcase as [(-> & P0 & Hk)|(-> & e0 & Hk & P0)].
  - rewrite (emap_perm l R Hn P0), emap_cons. split; [done|].
    rewrite P0 in Hk. by rewrite (proj2 (emap_None R (kb e))).
  - rewrite (emap_perm l (e0 :: R) Hn P0), !emap_cons, Hk, insert_insert_eq, lookup_insert_eq. done.
Qed.

(** Replacing the current table. *)
Lemma rh_set_cur d cur cur' : rh_ok d -> cur_ht_ d = Some cur -> hash_ok cur' ->
  slot_size_ cur' = slot_size_ cur -> rehashing_idx_ cur' = rehashing_idx_ cur ->
  (backup_ht_ d = None \/ keeps_empty cur cur') ->
  NoDup (kb <$> rents (mkRH (Some cur') (backup_ht_ d) (max_load_factor_ d))) ->
  rh_ok (mkRH (Some cur') (backup_ht_ d) (max_load_factor_ d)).
Proof.
  intros Hd Ec Hc' Sc Ic Hk Hn. split; [|done|exact (rh_load d Hd)].
  destruct (rh_state d Hd) as (cur0 & Ec0 & Hc & Hb). rewrite Ec in Ec0. simplify_eq.
  exists cur'. do 2 (split; [done|]). cbn [backup_ht_]. rewrite Ic, Sc.
  destruct (backup_ht_ d) as [b|]; [|done]. destruct Hk as [|(_ & _ & Hk)]; [done|].
  destruct Hb as (? & ? & ? & ?). split_and!; auto; lia.
Qed.

(** Replacing the backup table. *)
Lemma rh_set_backup d cur b b' : rh_ok d -> cur_ht_ d = Some cur -> backup_ht_ d = Some b -> hash_ok b' ->
  rehashing_idx_ b' = rehashing_idx_ b ->
  NoDup (kb <$> (entries cur ++ entries b')) ->
  rh_ok (mkRH (Some cur) (Some b') (max_load_factor_ d)).
Proof.
  intros Hd Ec Eb Hb' Ib Hn. split; [|done|exact (rh_load d Hd)].
  destruct (rh_state d Hd) as (cur0 & Ec0 & Hc & Hb). rewrite Ec in Ec0. simplify_eq.
  rewrite Eb in Hb. exists cur0. do 2 (split; [done|]). cbn. destruct Hb as (? & ? & ? & ?).
  split_and!; auto; lia.
Qed.

(** The size of each table is bounded by that of the container. *)
Lemma table_counts d cur : rh_ok d -> room d -> cur_ht_ d = Some cur ->
  count_ cur < 2 ^ 62 /\ forall b, backup_ht_ d = Some b -> hash_ok b /\ count_ b < 2 ^ 62.
Proof.
  intros Hd Hr Ec. pose proof (room_length d Hd Hr) as Hs. unfold rents in Hs.
  destruct (rh_state d Hd) as (cur0 & Ec0 & Hc & Hb). rewrite Ec in Ec0. simplify_eq.
  rewrite Ec, length_app in Hs. cbn [from_option] in Hs. split; [rewrite hk_count by done; lia|].
  intros b Eb. rewrite Eb in *. destruct Hb as [Hb _]. split; [done|]. cbn in Hs.
  rewrite hk_count by done. lia.
Qed.

Lemma emap_delete (l l' : list E) e : NoDup (kb <$> l) -> l ≡ₚ e :: l' ->
  NoDup (kb <$> l') /\ emap l' = delete (kb e) (emap l) /\ emap l !! kb e = Some (entry_val e).
Proof.
  intros Hn P. rewrite (emap_perm l (e :: l') Hn P), emap_cons.
  rewrite P, fmap_cons, NoDup_cons in Hn. destruct Hn as [He Hn].
  split; [done|]. split; [|by rewrite lookup_insert_eq].
  by rewrite delete_insert_id by (by apply emap_None).
Qed.

Lemma Erase_spec d key : rh_ok d -> room d -> ds_ok key ->
  exists d' r, Erase d key = Some (d', r) /\ rh_ok d' /\
    rmap d' = delete (ds_data key) (rmap d) /\
    r = match rmap d !! ds_data key with None => NOT_ERASED | Some _ => ERASED end.
Proof.
  intros Hd Hr Hk. destruct (rehash_step_spec d Hd Hr) as (d1 & E1 & Hd1 & P1).
  unfold Erase. rewrite E1, <- (rmap_perm d d1 Hd P1). clear E1 P1 Hd Hr d. cbn [mbind option_bind].
  destruct (rh_state d1 Hd1) as (cur & Ec & Hc & Hb). rewrite Ec.
  pose proof (rh_nodup d1 Hd1) as Hn.
  destruct (EraseKey_spec cur key Hc Hk) as (cur' & r & -> & Hc' & Hkeep & Hcase).
  cbn [mbind option_bind cur_ht_ backup_ht_ max_load_factor_].
  destruct Hcase as [(-> & -> & Hnin)|(-> & e & Ek & P)].
  - change (NOT_ERASED =? ERASED) with false. cbn [negb].
    destruct d1 as [c1 b1 l1]. cbn [cur_ht_ backup_ht_ max_load_factor_] in *. subst c1.
    destruct b1 as [b|].
    + destruct Hb as (Hb & _). destruct (EraseKey_spec b key Hb Hk) as (b' & r & -> & Hb' & (_ & Ib & _) & Hcase).
      cbn [mbind option_bind]. eexists _, _. split; [done|].
      destruct Hcase as [(-> & -> & Hnin')|(-> & e & Ek & P)].
      * assert (rmap (mkRH (Some cur) (Some b) l1) !! ds_data key = None) as El.
        { apply emap_None. unfold rents. cbn. rewrite fmap_app. set_solver. }
        rewrite El, delete_id by done. done.
      * unfold rents in Hn. cbn in Hn.
        destruct (emap_delete (entries cur ++ entries b) (entries cur ++ entries b') e) as (Hn' & Em & El);
          [done|rewrite P; solve_Permutation|]. rewrite Ek in *.
        split; [by apply (rh_set_backup (mkRH (Some cur) (Some b) l1) cur b b')|].
        split; [done|]. unfold rmap, rents. cbn [cur_ht_ backup_ht_ from_option]. by rewrite El.
    + eexists _, _. split; [done|]. split; [done|].
      assert (rmap (mkRH (Some cur) None l1) !! ds_data key = None) as El.
      { apply emap_None. unfold rents. cbn. by rewrite app_nil_r. }
      by rewrite El, delete_id.
  - change (ERASED =? ERASED) with true. cbn iota. eexists _, _. split; [done|].
    assert (rents d1 = entries cur ++ from_option entries [] (backup_ht_ d1)) as Er
      by (unfold rents; by rewrite Ec).
    destruct (emap_delete (rents d1) (entries cur' ++ from_option entries [] (backup_ht_ d1)) e)
      as (Hn' & Em & El); [done|rewrite Er, P; done|]. rewrite Ek in *.
    split; [|split; [done|unfold rmap; by rewrite El]].
    pose proof Hkeep as (? & ? & _). apply (rh_set_cur d1 cur); auto.
Qed.
End Rehash.

(** ** HashDict *)

(** Setting a value in place. *)
Lemma set_value_spec val e : entry_ok e -> val_ok val -> fits (ds_data val) ->
  exists e', set_value val e = Some e' /\ entry_ok e' /\ kb e' = kb e /\ entry_val e' = ds_data val.
Proof.
  intros [Hk [Hv _]] [Hval _] Hf. unfold set_value, Reset_ds. rewrite (ds_repr_len _ _ Hval).
  destruct (Reset_repr (ht_value e) _ (ds_data val) Hv Hf) as (v & -> & Hr & Hb). cbn.
  eexists. split; [done|]. split; [|split; [done|by apply ds_data_repr]].
  split; [done|]. eapply ds_val_ok. by apply ds_val_of.
Qed.

Lemma new_HTEntry_spec key val : val_ok key -> val_ok val ->
  exists e, new_HTEntry key val = Some e /\ entry_ok e /\ kb e = ds_data key /\
    entry_val e = ds_data val.
Proof.
  intros Hk Hv. unfold new_HTEntry.
  destruct (ds_val_copy key _ Hk) as (k & -> & Rk). cbn.
  destruct (ds_val_copy val _ Hv) as (v & -> & Rv). cbn.
  eexists. split; [done|]. split; [split; by eapply ds_val_ok|].
  split; by apply ds_val_data.
Qed.

Lemma UpdateKV_spec h key val : hash_ok h -> val_ok key -> val_ok val -> fits (ds_data val) ->
  count_ h < 2 ^ 62 ->
  exists h' r, UpdateKV h key val = Some (h', r) /\ hash_ok h' /\
    slot_size_ h' = slot_size_ h /\ rehashing_idx_ h' = rehashing_idx_ h /\
    upd (entries h) (entries h') (ds_data key) (ds_data val) r.
Proof.
  intros Hh Hkv Hv Hf Hs. pose proof (proj1 Hkv) as Hk. unfold UpdateKV. rewrite slot_index by done. cbn [mbind option_bind].
  destruct (slot_lookup h (ds_data key) Hh) as [c Hc]. rewrite Hc. cbn [mbind option_bind].
  destruct (FindEntry_spec h key Hh Hk) as (fe & EF & Hfe).
  destruct (new_HTEntry_spec key val Hkv Hv) as (e & En & He & Hke & Hve). rewrite En, EF.
  cbn [mbind option_bind].
  assert (ds_data key ∉ kb <$> entries h -> exists h',
    push_entry h (slot_of (slot_size_ h) (ds_data key)) e = Some h' /\ hash_ok h' /\
    slot_size_ h' = slot_size_ h /\ rehashing_idx_ h' = rehashing_idx_ h /\
    upd (entries h) (entries h') (ds_data key) (ds_data val) NEW_ADDED) as Hpush.
  { intros Hn. rewrite <- Hke in *. destruct (push_entry_spec h e) as (h' & ? & ? & ? & ? & P); try done.
    exists h'. do 4 (split; [done|]). exists e, (entries h). do 3 (split; [done|]). by left. }
  destruct fe as [e0|].
  - destruct (FindEntry_Some h key e0 Hh Hk EF) as (He0 & Hk0 & Hne).
    destruct (set_value_spec val e0 He0 Hv Hf) as (e' & Es & He' & Hk' & Hv').
    destruct (modify_entry_spec h key (set_value val) e0 e') as (h' & R & -> & Hh' & (? & ? & _) & _ & P & P'); try done.
    destruct c as [|x c]; [congruence|]. eexists _, _. split; [done|]. do 3 (split; [done|]).
    exists e', R. split; [congruence|]. do 2 (split; [done|]). right. eauto.
  - symmetry in Hfe. destruct (Hpush (proj1 (emap_None _ _) Hfe)) as (h' & -> & Hrest).
    destruct c; cbn; eauto.
Qed.

(** The two states an operation finds after its rehashing step. *)
Lemma after_step {E A} `{!HashEntry E} `{!HashImpl E} `{!EntrySpec E A} `{!HashImplSpec E A}
  (d : Rehashable E) : rh_ok d -> room d ->
  exists cur ob lf, rehash_step d = Some (mkRH (Some cur) ob lf) /\
    rh_ok (mkRH (Some cur) ob lf) /\ rmap (mkRH (Some cur) ob lf) = rmap d /\
    hash_ok cur /\ count_ cur < 2 ^ 62 /\
    ((ob = None /\ rehashing_idx_ cur = -1) \/
     (exists b, ob = Some b /\ hash_ok b /\ count_ b < 2 ^ 62 /\ rehashing_idx_ cur <> -1)).
Proof.
  intros Hd Hr. destruct (rehash_step_spec d Hd Hr) as (d1 & -> & Hd1 & P1).
  pose proof (rmap_perm d d1 Hd P1) as Em.
  assert (room d1) as Hr1 by (unfold room; by rewrite Em).
  destruct (rh_state d1 Hd1) as (cur & Ec & Hc & Hb).
  destruct (table_counts d1 cur Hd1 Hr1 Ec) as [C1 C2].
  destruct d1 as [c1 ob lf]. cbn in Ec, Hb, C2. subst c1. exists cur, ob, lf.
  do 5 (split; [done|]). destruct ob as [b|]; [right|by left].
  exists b. destruct (C2 b eq_refl). destruct Hb as (? & ? & ? & ?). split_and!; auto; lia.
Qed.

Lemma HashDict_Update_spec (d : HashDict) key val : rh_ok d -> room d -> val_ok key -> val_ok val ->
  fits (ds_data val) ->
  exists d' r, HashDict_Update d key val = Some (d', r) /\ rh_ok d' /\
    rmap d' = <[ds_data key := ds_data val]> (rmap d) /\
    r = match rmap d !! ds_data key with None => NEW_ADDED | Some _ => UPDATED end.
Proof.
  intros Hd0 Hr0 Hkv Hv Hf. pose proof (proj1 Hkv) as Hk.
  destruct (after_step d Hd0 Hr0) as (cur & ob & lf & E1 & Hd & Em & Hc & Cc & Hcase).
  unfold HashDict_Update. rewrite E1, <- Em. clear E1 Em Hd0 Hr0 d.
  cbn [mbind option_bind cur_ht_ backup_ht_ max_load_factor_]. unfold RehashDone.
  pose proof (rh_nodup _ Hd) as Hn. destruct Hcase as [(-> & Ei)|(b & -> & Hb & Cb & Ei)].
  - rewrite Ei. cbn [Z.eqb Pos.eqb].
    destruct (UpdateKV_spec cur key val) as (cur' & r & -> & Hc' & Sc & Ic & U); try done.
    cbn [mbind option_bind]. eexists _, r. split; [done|].
    apply (upd_app_r _ _ []) in U; [|apply not_elem_of_nil]. cbn in U.
    rewrite <- (app_nil_r (entries cur)), <- (app_nil_r (entries cur')) in U.
    destruct (upd_spec _ _ _ _ _ Hn U) as (Hn' & Em & Er). split; [|done].
    by apply (rh_set_cur _ cur cur' Hd); auto.
  - rewrite (proj2 (Z.eqb_neq _ _) Ei). destruct (FindEntry_spec cur key Hc Hk) as (fe & EF & Hfe).
    rewrite EF. cbn [mbind option_bind]. destruct fe as [e0|].
    + destruct (FindEntry_Some cur key e0 Hc Hk EF) as (He0 & Hk0 & _).
      destruct (set_value_spec val e0 He0 Hv Hf) as (e' & Es & He' & Hk' & Hv').
      destruct (modify_entry_spec cur key (set_value val) e0 e')
        as (cur' & R & -> & Hc' & Hke & _ & P & P'); try done.
      cbn [mbind option_bind]. eexists _, _. split; [done|].
      assert (upd (entries cur) (entries cur') (ds_data key) (ds_data val) UPDATED) as U.
      { exists e', R. split; [congruence|]. do 2 (split; [done|]). right. eauto. }
      apply (upd_app_l _ _ (entries b)) in U.
      destruct (upd_spec _ _ _ _ _ Hn U) as (Hn' & Em & Er). split; [|done].
      pose proof Hke as (? & ? & _). by apply (rh_set_cur _ cur cur' Hd); auto.
    + symmetry in Hfe. apply emap_None in Hfe.
      destruct (UpdateKV_spec b key val) as (b' & r & -> & Hb' & Sb & Ib & U); try done.
      cbn [mbind option_bind]. eexists _, r. split; [done|].
      apply (upd_app_r _ _ (entries cur)) in U; [|done].
      destruct (upd_spec _ _ _ _ _ Hn U) as (Hn' & Em & Er). split; [|done].
      by apply (rh_set_backup _ cur b b' Hd).
Qed.

Lemma HashTable_At_spec h key : hash_ok h -> ds_ok key ->
  exists r, HashTable_At h key = Some r /\
    match emap (entries h) !! ds_data key with
    | None => r = inl out_of_range
    | Some v => exists d, r = inr d /\ ds_val d v
    end.
Proof.
  intros Hh Hk. unfold HashTable_At. destruct (FindEntry_spec h key Hh Hk) as (r & EF & <-).
  rewrite EF. cbn. destruct r as [e|]; cbn; eauto.
  destruct (FindEntry_Some h key e Hh Hk EF) as ([_ Hv] & _ & _). eauto.
Qed.

Lemma HashDict_At_spec (d : HashDict) key : rh_ok d -> room d -> ds_ok key ->
  exists d' r, HashDict_At d key = Some (d', r) /\ rh_ok d' /\ rmap d' = rmap d /\
    match rmap d !! ds_data key with
    | None => r = inl out_of_range
    | Some v => exists s, r = inr s /\ ds_val s v
    end.
Proof.
  intros Hd0 Hr0 Hk.
  destruct (after_step d Hd0 Hr0) as (cur & ob & lf & E1 & Hd & Em & Hc & Cc & Hcase).
  unfold HashDict_At. rewrite E1, <- Em. clear E1 Em Hd0 Hr0 d.
  cbn [mbind option_bind cur_ht_ backup_ht_].
  rewrite (rmap_lookup _ cur) by done. cbn [backup_ht_ mbind option_bind].
  destruct (HashTable_At_spec cur key Hc Hk) as (r & -> & Hr). cbn [mbind option_bind].
  destruct (emap (entries cur) !! ds_data key) as [v|].
  { destruct Hr as (s & -> & Hs). eexists _, _. eauto 10. }
  subst r. destruct Hcase as [(-> & _)|(b & -> & Hb & _)]; cbn [mbind option_bind].
  { eexists _, _. eauto 10. }
  destruct (HashTable_At_spec b key Hb Hk) as (r & -> & Hr). cbn [mbind option_bind].
  eexists _, _. eauto 10.
Qed.

Lemma HashTable_AllValues_spec h : hash_ok h -> HashTable_AllValues h = Some (ht_value <$> entries h).
Proof.
  intros Hh. unfold HashTable_AllValues. rewrite slots_spec by done.
  destruct (Z.eqb_spec (count_ h) 0) as [C|]; [|done].
  rewrite hk_count in C by done. destruct (entries h); [done|]. cbn in C. lia.
Qed.

Lemma HashDict_AllValues_spec (d : HashDict) : rh_ok d -> room d ->
  HashDict_AllValues d = Some (ht_value <$> rents d).
Proof.
  intros Hd Hr. unfold HashDict_AllValues. rewrite Count_zero by done.
  destruct (Z.eqb_spec (Z.of_nat (length (rents d))) 0) as [C|_].
  { destruct (rents d); [done|cbn in C; lia]. }
  destruct (rh_state d Hd) as (cur & Ec & Hc & Hb). unfold rents. rewrite Ec, fmap_app.
  rewrite HashTable_AllValues_spec by done. cbn. destruct (backup_ht_ d) as [b|]; [|done].
  rewrite HashTable_AllValues_spec; [done|]. apply Hb.
Qed.

(** ** HashSet *)

(** The list [l'] is [l] with the item [k]: unchanged when it is there already. *)
Definition sadd (l l' : list HSEntry) (k : list ascii) (r : Z) : Prop :=
  (r = EXISTED /\ l' = l /\ k ∈ kb <$> l) \/ (r = NEW_ADDED /\ upd l l' k tt NEW_ADDED).

Lemma sadd_app_r l l' m k r : k ∉ kb <$> m -> sadd l l' k r -> sadd (m ++ l) (m ++ l') k r.
Proof.
  intros Hm [(-> & -> & Hk)|(-> & U)]; [left|right].
  - do 2 (split; [done|]). rewrite fmap_app. set_solver.
  - split; [done|]. by apply upd_app_r.
Qed.

Lemma sadd_spec l l' k r : NoDup (kb <$> l) -> sadd l l' k r ->
  NoDup (kb <$> l') /\ emap l' = <[k:=tt]> (emap l) /\
  r = match emap l !! k with None => NEW_ADDED | Some _ => EXISTED end.
Proof.
  intros Hn [(-> & -> & Hk)|(-> & U)].
  - destruct (emap l !! k) as [[]|] eqn:El; [by rewrite insert_id|]. by apply emap_None in El.
  - destruct (upd_spec l l' k tt NEW_ADDED Hn U) as (Hn' & Em & Er).
    do 2 (split; [done|]). by destruct (emap l !! k).
Qed.

Lemma HashSetImpl_Add_spec h item : hash_ok h -> val_ok item -> count_ h < 2 ^ 62 ->
  exists h' r, HashSetImpl_Add h item = Some (h', r) /\ hash_ok h' /\
    slot_size_ h' = slot_size_ h /\ rehashing_idx_ h' = rehashing_idx_ h /\
    sadd (entries h) (entries h') (ds_data item) r.
Proof.
  intros Hh Hkv Hs. pose proof (proj1 Hkv) as Hk. unfold HashSetImpl_Add. rewrite slot_index by done. cbn [mbind option_bind].
  destruct (slot_lookup h (ds_data item) Hh) as [c Hc]. rewrite Hc. cbn [mbind option_bind].
  destruct (FindEntry_spec h item Hh Hk) as (fe & EF & Hfe). rewrite EF. cbn [mbind option_bind].
  destruct (ds_val_copy item _ Hkv) as (k & -> & Rk). cbn [mbind option_bind].
  symmetry in Hfe. destruct fe as [e0|].
  - exists h, EXISTED. destruct (FindEntry_Some h item e0 Hh Hk EF) as (He0 & Hk0 & Hne).
    split; [by destruct c; [congruence|]|]. do 3 (split; [done|]). left. do 2 (split; [done|]).
    apply emap_lookup in Hfe as (e & He & Hke & _); [|by apply hk_nodup].
    rewrite <- Hke. by apply list_elem_of_fmap_2.
  - apply emap_None in Hfe.
    assert (kb (mkHSE k) = ds_data item) as Ek by (by apply ds_val_data).
    assert (entry_ok (mkHSE k)) as Hek by (by eapply ds_val_ok).
    rewrite <- Ek in *. destruct (push_entry_spec h (mkHSE k)) as (h' & -> & ? & ? & ? & P); try done.
    exists h', NEW_ADDED. split; [by destruct c|]. do 3 (split; [done|]). right. split; [done|].
    exists (mkHSE k), (entries h). do 3 (split; [done|]). by left.
Qed.

Lemma HashSet_Insert_spec (d : HashSet) item : rh_ok d -> room d -> val_ok item ->
  exists d' r, HashSet_Insert d item = Some (d', r) /\ rh_ok d' /\
    rmap d' = <[ds_data item := tt]> (rmap d) /\
    r = match rmap d !! ds_data item with None => NEW_ADDED | Some _ => EXISTED end.
Proof.
  intros Hd0 Hr0 Hkv. pose proof (proj1 Hkv) as Hk.
  destruct (after_step d Hd0 Hr0) as (cur & ob & lf & E1 & Hd & Em & Hc & Cc & Hcase).
  unfold HashSet_Insert. rewrite E1, <- Em. clear E1 Em Hd0 Hr0 d.
  cbn [mbind option_bind cur_ht_ backup_ht_ max_load_factor_]. unfold RehashDone.
  pose proof (rh_nodup _ Hd) as Hn. destruct Hcase as [(-> & Ei)|(b & -> & Hb & Cb & Ei)].
  - rewrite Ei. cbn [Z.eqb Pos.eqb].
    destruct (HashSetImpl_Add_spec cur item) as (cur' & r & -> & Hc' & Sc & Ic & U); try done.
    cbn [mbind option_bind]. eexists _, r. split; [done|].
    rewrite <- (app_nil_r (entries cur)), <- (app_nil_r (entries cur')) in U.
    destruct (sadd_spec _ _ _ _ Hn U) as (Hn' & Em & Er). split; [|done].
    by apply (rh_set_cur _ cur cur' Hd); auto.
  - rewrite (proj2 (Z.eqb_neq _ _) Ei). destruct (FindEntry_spec cur item Hc Hk) as (fe & EF & Hfe).
    rewrite EF. cbn [mbind option_bind]. symmetry in Hfe. destruct fe as [e0|].
    + eexists _, _. split; [done|]. split; [done|].
      destruct (sadd_spec (entries cur ++ entries b) (entries cur ++ entries b) (ds_data item) EXISTED Hn) as (_ & Em & Er); [|done].
      left. do 2 (split; [done|]). apply emap_lookup in Hfe as (e & He & Hke & _); [|by apply hk_nodup].
      rewrite <- Hke. apply list_elem_of_fmap_2. set_solver.
    + apply emap_None in Hfe.
      destruct (HashSetImpl_Add_spec b item) as (b' & r & -> & Hb' & Sb & Ib & U); try done.
      cbn [mbind option_bind]. eexists _, r. split; [done|].
      apply (sadd_app_r _ _ (entries cur)) in U; [|done].
      destruct (sadd_spec _ _ _ _ Hn U) as (Hn' & Em & Er). split; [|done].
      by apply (rh_set_backup _ cur b b' Hd).
Qed.

Lemma Rehashable_new_ok {E A} `{!HashEntry E} `{!EntrySpec E A} :
  rh_ok (Rehashable_new (E:=E) 1%Q) /\ rmap (Rehashable_new (E:=E) 1%Q) = ∅.
Proof.
  destruct (hash_new_ok (E:=E) 16) as [Hh Hn]; [lia|].
  assert (rents (Rehashable_new (E:=E) 1%Q) = []) as Er
    by (unfold rents, Rehashable_new; cbn [cur_ht_ backup_ht_ from_option]; by rewrite Hn).
  split; [|unfold rmap; by rewrite Er]. split; [|rewrite Er; constructor|done].
  eexists. split; [done|]. by split.
Qed.

(** ** Sequences of operations *)

(** The calls a client makes on a dictionary, with [std::string] arguments that
    the container wraps in a [DynamicString]. *)
Inductive dict_op :=
  | DUpdate (key val : list ascii)
  | DErase (key : list ascii)
  | DAt (key : list ascii)
  | DCheckExists (key : list ascii)
  | DCount.

Inductive dict_reply :=
  | RInt (n : Z)
  | RValue (v : exn + list ascii)
  | RBool (b : bool).

Definition dict_exec (d : HashDict) (o : dict_op) : option (HashDict * dict_reply) :=
  match o with
  | DUpdate key val =>
      k ← DynamicString_std always_ok key; v ← DynamicString_std always_ok val;
      '(d, r) ← HashDict_Update d k v; Some (d, RInt r)
  | DErase key => k ← DynamicString_std always_ok key; '(d, r) ← Erase d k; Some (d, RInt r)
  | DAt key =>
      k ← DynamicString_std always_ok key;
      '(d, r) ← HashDict_At d k;
      Some (d, RValue (match r with inl e => inl e | inr v => inr (ds_data v) end))
  | DCheckExists key =>
      k ← DynamicString_std always_ok key; r ← Rehashable_CheckExists d k; Some (d, RBool r)
  | DCount => Some (d, RInt (Rehashable_Count d))
  end.

Fixpoint dict_run (d : HashDict) (l : list dict_op) : option (HashDict * list dict_reply) :=
  match l with
  | [] => Some (d, [])
  | o :: l =>
      '(d, r) ← dict_exec d o; '(d, rs) ← dict_run d l; Some (d, r :: rs)
  end.

(** The abstract dictionary: a finite map. *)
Definition dict_spec (m : gmap (list ascii) (list ascii)) (o : dict_op)
  : gmap (list ascii) (list ascii) * dict_reply :=
  match o with
  | DUpdate key val =>
      (<[key:=val]> m, RInt (match m !! key with None => NEW_ADDED | Some _ => UPDATED end))
  | DErase key =>
      (delete key m, RInt (match m !! key with None => NOT_ERASED | Some _ => ERASED end))
  | DAt key => (m, RValue (match m !! key with None => inl out_of_range | Some v => inr v end))
  | DCheckExists key => (m, RBool (bool_decide (is_Some (m !! key))))
  | DCount => (m, RInt (Z.of_nat (size m)))
  end.

Fixpoint dict_spec_run (m : gmap (list ascii) (list ascii)) (l : list dict_op)
  : gmap (list ascii) (list ascii) * list dict_reply :=
  match l with
  | [] => (m, [])
  | o :: l => let '(m, r) := dict_spec m o in let '(m, rs) := dict_spec_run m l in (m, r :: rs)
  end.

(** The arguments are shorter than 2^31 bytes. *)
Definition dict_op_fits (o : dict_op) : Prop :=
  match o with
  | DUpdate key val => fits key /\ fits val
  | DErase key | DAt key | DCheckExists key => fits key
  | DCount => True
  end.

Lemma DynamicString_std_ok s : fits s ->
  exists d, DynamicString_std always_ok s = Some d /\ ds_ok d /\ ds_data d = s.
Proof.
  intros Hs. destruct (DynamicString_std_repr s Hs) as (d & E & R & _).
  exists d. split; [done|]. split; [by eapply ds_repr_ok|by apply ds_data_repr].
Qed.

Lemma DynamicString_std_val s : fits s ->
  exists d, DynamicString_std always_ok s = Some d /\ val_ok d /\ ds_data d = s.
Proof.
  intros Hs. destruct (DynamicString_std_repr s Hs) as (d & E & R & N).
  exists d. split; [done|]. split; [eapply ds_val_ok; by apply ds_val_of|by apply ds_data_repr].
Qed.

Lemma dict_exec_spec d o : rh_ok d -> room d -> dict_op_fits o ->
  exists d' r, dict_exec d o = Some (d', r) /\ rh_ok d' /\ dict_spec (rmap d) o = (rmap d', r).
Proof.
  intros Hd Hr Ho. destruct o as [key val|key|key|key|]; cbn [dict_exec dict_spec dict_op_fits] in Ho |- *.
  - destruct Ho as [H1 H2]. destruct (DynamicString_std_val key H1) as (k & -> & Hk & <-).
    destruct (DynamicString_std_val val H2) as (v & -> & Hv & <-). cbn [mbind option_bind].
    destruct (HashDict_Update_spec d k v) as (d' & r & -> & Hd' & Em & ->); try done. cbn [mbind option_bind].
    eexists _, _. split; [done|]. split; [done|]. by rewrite Em.
  - destruct (DynamicString_std_ok key Ho) as (k & -> & Hk & <-). cbn [mbind option_bind].
    destruct (Erase_spec d k) as (d' & r & -> & Hd' & Em & ->); try done. cbn [mbind option_bind].
    eexists _, _. split; [done|]. split; [done|]. by rewrite Em.
  - destruct (DynamicString_std_ok key Ho) as (k & -> & Hk & <-). cbn [mbind option_bind].
    destruct (HashDict_At_spec d k) as (d' & r & -> & Hd' & Em & Hv); try done. cbn [mbind option_bind].
    eexists _, _. split; [done|]. split; [done|]. rewrite Em. destruct (rmap d !! ds_data k) as [v|].
    + destruct Hv as (s & -> & Rs). by rewrite (ds_val_data _ _ Rs).
    + by subst r.
  - destruct (DynamicString_std_ok key Ho) as (k & -> & Hk & <-). cbn [mbind option_bind].
    rewrite CheckExists_spec by done. cbn [mbind option_bind]. eauto.
  - rewrite Count_spec by done. eauto.
Qed.

Lemma dict_spec_size m o : (size (dict_spec m o).1 <= S (size m))%nat.
Proof.
  destruct o as [key val|key|key|key|]; cbn; try lia.
  - rewrite map_size_insert. destruct (m !! key); cbn; lia.
  - rewrite map_size_delete. destruct (m !! key); cbn; lia.
Qed.

Lemma dict_run_spec d l : rh_ok d -> Forall dict_op_fits l ->
  Z.of_nat (size (rmap d) + length l) < 2 ^ 61 ->
  exists d' rs, dict_run d l = Some (d', rs) /\ rh_ok d' /\ dict_spec_run (rmap d) l = (rmap d', rs).
Proof.
  intros Hd Hl. revert d Hd. induction Hl as [|o l Ho Hl IH]; intros d Hd Hs; cbn; [eauto|].
  destruct (dict_exec_spec d o) as (d1 & r & -> & Hd1 & Es); try done.
  { unfold room. lia. }
  rewrite Es. pose proof (dict_spec_size (rmap d) o) as Hsz. rewrite Es in Hsz. cbn in Hsz, Hs |- *.
  destruct (IH d1 Hd1) as (d2 & rs & -> & Hd2 & ->); [lia|]. cbn. eauto.
Qed.

(** C11. From an empty dictionary, every sequence of fewer than 2^61 calls of
    [Update], [Erase], [At], [CheckExists] and [Count] runs without undefined
    behaviour and returns exactly the replies of a finite map, however the
    gradual rehashing interleaves with them; the final table holds the map's
    contents. *)
Theorem HashDict_refines_map (l : list dict_op) :
  Forall dict_op_fits l -> Z.of_nat (length l) < 2 ^ 61 ->
  exists d rs, dict_run (Rehashable_new 1%Q) l = Some (d, rs) /\ rh_ok d /\
    dict_spec_run ∅ l = (rmap d, rs).
Proof.
  intros Hl Hs. destruct (@Rehashable_new_ok HTEntry (list ascii) _ _) as [Hn Hm].
  rewrite <- Hm. apply dict_run_spec; [done|done|]. rewrite Hm, map_size_empty. lia.
Qed.

Lemma HashDict_refines_map_witness :
  exists d rs, dict_run (Rehashable_new 1%Q)
    [DUpdate (bs "a") (bs "1"); DUpdate (bs "a") (bs "2"); DAt (bs "a"); DErase (bs "b"); DCount]
      = Some (d, rs) /\ rh_ok d /\
    dict_spec_run ∅
      [DUpdate (bs "a") (bs "1"); DUpdate (bs "a") (bs "2"); DAt (bs "a"); DErase (bs "b"); DCount]
      = (rmap d, rs).
Proof.
  apply HashDict_refines_map.
  - repeat constructor; unfold fits; cbn; lia.
  - cbn. lia.
Defined.

(** C13. [HashSet::Insert] and the inherited [Erase], [CheckExists] and
    [Count] act as set insertion, deletion, membership and cardinality, keep the
    invariant of the container, and report whether the element was there. *)
Theorem HashSet_refines_set (d : HashSet) item : rh_ok d -> room d -> val_ok item ->
  (exists d' r, HashSet_Insert d item = Some (d', r) /\ rh_ok d' /\
     dom (rmap d') =@{gset _} {[ds_data item]} ∪ dom (rmap d) /\
     r = (if bool_decide (ds_data item ∈ dom (rmap d)) then EXISTED else NEW_ADDED)) /\
  (exists d' r, Erase d item = Some (d', r) /\ rh_ok d' /\
     dom (rmap d') =@{gset _} dom (rmap d) ∖ {[ds_data item]} /\
     r = (if bool_decide (ds_data item ∈ dom (rmap d)) then ERASED else NOT_ERASED)) /\
  Rehashable_CheckExists d item = Some (bool_decide (ds_data item ∈ dom (rmap d))) /\
  Rehashable_Count d = Z.of_nat (size (dom (rmap d))).
Proof.
  intros Hd Hr Hkv. pose proof (proj1 Hkv) as Hk. split; [|split; [|split]].
  - destruct (HashSet_Insert_spec d item) as (d' & r & -> & Hd' & Em & ->); try done.
    eexists _, _. split; [done|]. split; [done|]. split; [by rewrite Em, dom_insert_L|].
    destruct (rmap d !! ds_data item) eqn:El.
    + by rewrite bool_decide_true by (by apply elem_of_dom_2 in El).
    + by rewrite bool_decide_false by (by apply not_elem_of_dom).
  - destruct (Erase_spec d item) as (d' & r & -> & Hd' & Em & ->); try done.
    eexists _, _. split; [done|]. split; [done|]. split; [by rewrite Em, dom_delete_L|].
    destruct (rmap d !! ds_data item) eqn:El.
    + by rewrite bool_decide_true by (by apply elem_of_dom_2 in El).
    + by rewrite bool_decide_false by (by apply not_elem_of_dom).
  - rewrite CheckExists_spec by done. f_equal. apply bool_decide_ext. by rewrite elem_of_dom.
  - rewrite Count_spec by done. by rewrite size_dom.
Qed.

Lemma HashSet_refines_set_witness :
  exists d item, rh_ok d /\ room d /\ val_ok item /\
  (exists d' r, HashSet_Insert d item = Some (d', r) /\ rh_ok d' /\
     dom (rmap d') =@{gset _} {[ds_data item]} ∪ dom (rmap d) /\
     r = (if bool_decide (ds_data item ∈ dom (rmap d)) then EXISTED else NEW_ADDED)) /\
  Rehashable_Count d = Z.of_nat (size (dom (rmap d))).
Proof.
  destruct (@Rehashable_new_ok HSEntry () _ _) as [Hn Hm].
  destruct (DynamicString_std_val (bs "x")) as (k & _ & Hk & _); [unfold fits; cbn; lia|].
  assert (room (Rehashable_new (E:=HSEntry) 1%Q)) as Hr by (unfold room; rewrite Hm; done).
  exists (Rehashable_new 1%Q), k. do 3 (split; [done|]).
  destruct (HashSet_refines_set (Rehashable_new 1%Q) k Hn Hr Hk) as (H1 & _ & _ & H2). by split.
Defined.

(** Whatever state a container is in, [AllEntries] lists each of its
    entries once, split over the two tables or not: the keys are pairwise
    distinct, together with their values they are exactly the map, and [AllKeys]
    and [AllValues] enumerate the same entries in the same order. *)
Lemma HashDict_enumerates (d : HashDict) : rh_ok d -> room d ->
  exists es, Rehashable_AllEntries d = Some es /\
    NoDup ((λ e, ds_data (ht_key e)) <$> es) /\
    rmap d = list_to_map ((λ e, (ds_data (ht_key e), ds_data (ht_value e))) <$> es) /\
    Rehashable_AllKeys d = Some (ht_key <$> es) /\
    HashDict_AllValues d = Some (ht_value <$> es) /\
    Rehashable_Count d = Z.of_nat (length es).
Proof.
  intros Hd Hr. exists (rents d). rewrite AllEntries_rspec, AllKeys_rspec, HashDict_AllValues_spec by done.
  split; [done|]. split; [exact (rh_nodup d Hd)|]. do 3 (split; [done|]). by apply Count_zero.
Qed.

Lemma HashDict_enumerates_witness : rh_ok (Rehashable_new (E:=HTEntry) 1%Q) /\
  exists es, Rehashable_AllEntries (Rehashable_new (E:=HTEntry) 1%Q) = Some es /\ NoDup ((λ e, ds_data (ht_key e)) <$> es).
Proof.
  destruct (@Rehashable_new_ok HTEntry (list ascii) _ _) as [Hn Hm]. split; [done|].
  destruct (HashDict_enumerates (Rehashable_new 1%Q)) as (es & H1 & H2 & _); [done| |by exists es].
  unfold room. by rewrite Hm.
Defined.

(** C33. Gradual rehashing terminates: once it has begun, as many slot moves as
    the current table has slots left finish it, the backup table becomes the
    current one and the contents have not changed. *)
Theorem RehashMoveSlots_completes (n : nat) (d : HashDict) cur : moving d cur ->
  Z.of_nat (length (rents d)) < 2 ^ 62 ->
  slot_size_ cur - rehashing_idx_ cur <= Z.of_nat n ->
  exists d', RehashMoveSlots n d = Some d' /\ rh_ok d' /\ backup_ht_ d' = None /\ rmap d' = rmap d.
Proof.
  revert d cur. induction n as [|n IH]; intros d cur M Hs Hn.
  { pose proof (mv_idx d cur M). lia. }
  cbn [RehashMoveSlots]. pose proof (mv_idx d cur M) as Hi.
  destruct (PerformRehash_spec d cur M Hs) as (d1 & r & -> & Hd1 & P & Hcase). cbn [mbind option_bind].
  assert (rmap d1 = rmap d) as Em by (symmetry; apply emap_perm; [exact (mv_nodup d cur M)|by rewrite P]).
  destruct r; [eauto|]. destruct Hcase as (cur1 & M1 & S1 & I1).
  pose proof (mv_idx d1 cur1 M1). destruct n as [|n]; [lia|].
  destruct (IH d1 cur1 M1) as (d' & -> & Hd' & Eb & Em'); [by rewrite P|lia|].
  exists d'. do 3 (split; [done|]). by rewrite Em'.
Qed.

Lemma RehashMoveSlots_completes_witness :
  exists (d : HashDict) cur, moving d cur /\
  exists d', RehashMoveSlots 16 d = Some d' /\ rh_ok d' /\ backup_ht_ d' = None /\ rmap d' = rmap d.
Proof.
  set (cur := with_idx (HashStructBase_new (E:=HTEntry) 16) 0).
  assert (moving (mkRH (Some cur) None 1%Q) cur) as M.
  { destruct (hash_new_ok (E:=HTEntry) 16) as [[] Hn]; [lia|].
    split; done || (cbn; lia). }
  exists (mkRH (Some cur) None 1%Q), cur. split; [exact M|].
  apply (RehashMoveSlots_completes 16 _ cur M); [vm_compute; reflexivity|cbn; lia].
Defined.
