(* ===== verification/DList.v ===== *)
(** * DList: the block list of src/dlist.h and src/dlist.cpp

    A [DList] is a doubly linked list of nodes, each with a block of
    [kBlockSize] strings; the elements occupy a window of consecutive cells that
    may start and end in the middle of a block. Nodes live in a store indexed by
    their addresses; an element pointer is a node's block and an offset into it.
    Following a null or freed pointer, or an access outside a block, makes an
    operation [None]. *)

From S2P Require Import Prelude Encoding Numerals Str Hash.
From stdpp Require Import list fin_maps.

Local Open Scope Z_scope.

Definition kBlockSize : Z := 128.
Definition kRedundantFactor : Z := 2.

Record Node := mkNode {
  n_prev : option nat;
  n_next : option nat;
  n_data : list DynamicString;
  n_occupied : Z
}.

(** A new node: null links and a block of empty strings. *)
Definition Node_new : Node := mkNode None None (replicate 128 ds_null) 0.

Definition with_prev (p : option nat) (n : Node) : Node := mkNode p (n_next n) (n_data n) (n_occupied n).
Definition with_next (p : option nat) (n : Node) : Node := mkNode (n_prev n) p (n_data n) (n_occupied n).
Definition with_data (d : list DynamicString) (n : Node) : Node := mkNode (n_prev n) (n_next n) d (n_occupied n).
Definition with_occupied (o : Z) (n : Node) : Node := mkNode (n_prev n) (n_next n) (n_data n) o.

(** An element pointer: the node whose block it points into, and the offset. *)
Definition ElemPtr : Type := nat * Z.

Record Iterator := mkIt { it_node : nat; it_ptr : option ElemPtr }.

Record DList := mkDL {
  heap : gmap nat Node;
  next_id : nat;
  begin_ : Iterator;
  end_ : Iterator;
  head_ : option nat;
  tail_ : option nat;
  len_ : Z;
  n_nodes_ : Z
}.

Definition with_heap (h : gmap nat Node) (l : DList) : DList :=
  mkDL h (next_id l) (begin_ l) (end_ l) (head_ l) (tail_ l) (len_ l) (n_nodes_ l).
Definition with_begin (b : Iterator) (l : DList) : DList :=
  mkDL (heap l) (next_id l) b (end_ l) (head_ l) (tail_ l) (len_ l) (n_nodes_ l).
Definition with_end (e : Iterator) (l : DList) : DList :=
  mkDL (heap l) (next_id l) (begin_ l) e (head_ l) (tail_ l) (len_ l) (n_nodes_ l).
Definition with_len (n : Z) (l : DList) : DList :=
  mkDL (heap l) (next_id l) (begin_ l) (end_ l) (head_ l) (tail_ l) n (n_nodes_ l).

(** Changing the node at an address. *)
Definition modify_node (i : nat) (f : Node -> Node) (h : gmap nat Node) : option (gmap nat Node) :=
  n ← h !! i; Some (<[i := f n]> h).

(** [*p] and [*p = d]. *)
Definition deref (h : gmap nat Node) (p : ElemPtr) : option DynamicString :=
  n ← h !! p.1; if p.2 <? 0 then None else n_data n !! Z.to_nat p.2.

Definition assign (h : gmap nat Node) (p : ElemPtr) (d : DynamicString) : option (gmap nat Node) :=
  n ← h !! p.1;
  data ← (if p.2 <? 0 then None else store (n_data n) (Z.to_nat p.2) d);
  Some (<[p.1 := with_data data n]> h).

#[global] Instance ElemPtr_eq_dec : EqDecision ElemPtr.
Proof. unfold ElemPtr. apply _. Defined.

(** [DList()]: two linked nodes and null element pointers. *)
Definition DList_new : DList :=
  mkDL (<[0%nat := with_next (Some 1%nat) Node_new]> (<[1%nat := with_prev (Some 0%nat) Node_new]> ∅)) 2
    (mkIt 0 None) (mkIt 1 None) (Some 0%nat) (Some 1%nat) 0 2.

Definition DList_Length (l : DList) : Z := len_ l.
Definition DList_Empty (l : DList) : bool := len_ l =? 0.

(** The part of [PushLeft] that moves [begin_] to the cell to write. *)
Definition push_left_pos (l : DList) : option DList :=
  let b := begin_ l in
  match it_ptr b with
  | None =>
      let p := Some (it_node b, kBlockSize - 1) in
      let l := with_begin (mkIt (it_node b) p) l in
      match it_ptr (end_ l) with
      | None => Some (with_end (mkIt (it_node b) p) l)
      | Some _ => Some l
      end
  | Some p =>
      if decide (p = (it_node b, 0)) then
        n ← heap l !! it_node b;
        match n_prev n with
        | None =>
            let new := next_id l in
            h ← modify_node (it_node b) (with_prev (Some new))
                  (<[new := with_next (Some (it_node b)) Node_new]> (heap l));
            Some (mkDL h (S new) (mkIt new (Some (new, kBlockSize - 1))) (end_ l)
                    (Some new) (tail_ l) (len_ l) (u64 (n_nodes_ l + 1)))
        | Some pr => Some (with_begin (mkIt pr (Some (pr, kBlockSize - 1))) l)
        end
      else Some (with_begin (mkIt (it_node b) (Some (p.1, p.2 - 1))) l)
  end.

(** [p->Reset(val, len); node->occupied++; ++len_;], where [len] is the size of
    the [std::string] as a [uint32_t]. *)
Definition put_elem (it : Iterator) (val : list ascii) (l : DList) : option DList :=
  p ← it_ptr it;
  d ← deref (heap l) p;
  d ← Reset_std always_ok d val;
  h ← assign (heap l) p d;
  h ← modify_node (it_node it) (λ n, with_occupied (u16 (n_occupied n + 1)) n) h;
  Some (with_len (u64 (len_ l + 1)) (with_heap h l)).

Definition PushLeft (l : DList) (val : list ascii) : option DList :=
  l ← push_left_pos l; put_elem (begin_ l) val l.

Definition push_right_pos (l : DList) : option DList :=
  let e := end_ l in
  match it_ptr e with
  | None =>
      let p := Some (it_node e, 0) in
      let l := with_end (mkIt (it_node e) p) l in
      match it_ptr (begin_ l) with
      | None => Some (with_begin (mkIt (it_node e) p) l)
      | Some _ => Some l
      end
  | Some p =>
      if decide (p = (it_node e, kBlockSize - 1)) then
        n ← heap l !! it_node e;
        match n_next n with
        | None =>
            let new := next_id l in
            h ← modify_node (it_node e) (with_next (Some new))
                  (<[new := with_prev (Some (it_node e)) Node_new]> (heap l));
            Some (mkDL h (S new) (begin_ l) (mkIt new (Some (new, 0)))
                    (head_ l) (Some new) (len_ l) (u64 (n_nodes_ l + 1)))
        | Some nx => Some (with_end (mkIt nx (Some (nx, 0))) l)
        end
      else Some (with_end (mkIt (it_node e) (Some (p.1, p.2 + 1))) l)
  end.

Definition PushRight (l : DList) (val : list ascii) : option DList :=
  l ← push_right_pos l; put_elem (end_ l) val l.

(** [--len_; return std::move( *ret);]: the moved-from cell keeps a null string. *)
Definition take_elem (ret : ElemPtr) (l : DList) : option (DList * DynamicString) :=
  d ← deref (heap l) ret;
  let '(res, rest) := DynamicString_move d in
  h ← assign (heap l) ret rest;
  Some (with_len (u64 (len_ l - 1)) (with_heap h l), res).

Definition dec_occupied (i : nat) (l : DList) : option DList :=
  h ← modify_node i (λ n, with_occupied (u16 (n_occupied n - 1)) n) (heap l); Some (with_heap h l).

(** The part of [PopLeft] that moves [begin_] past the removed element. *)
Definition pop_left_pos (l : DList) (ret : ElemPtr) : option DList :=
  let b := begin_ l in
  if decide (it_ptr b = it_ptr (end_ l)) then
    l ← dec_occupied (it_node b) l;
    Some (with_end (mkIt (it_node (end_ l)) None) (with_begin (mkIt (it_node b) None) l))
  else if decide (ret = (it_node b, kBlockSize - 1)) then
    n ← heap l !! it_node b;
    match n_next n with
    | Some nx =>
        l ← dec_occupied (it_node b) l; Some (with_begin (mkIt nx (Some (nx, 0))) l)
    | None => Some l
    end
  else dec_occupied (it_node b) (with_begin (mkIt (it_node b) (Some (ret.1, ret.2 + 1))) l).

Definition PopLeft (l : DList) : option (DList * DynamicString) :=
  if DList_Empty l then Some (l, ds_null)
  else
    ret ← it_ptr (begin_ l);
    l ← pop_left_pos l ret;
    take_elem ret l.

Definition pop_right_pos (l : DList) (ret : ElemPtr) : option DList :=
  let e := end_ l in
  if decide (it_ptr (begin_ l) = it_ptr e) then
    l ← dec_occupied (it_node e) l;
    Some (with_end (mkIt (it_node e) None) (with_begin (mkIt (it_node (begin_ l)) None) l))
  else if decide (ret = (it_node e, 0)) then
    n ← heap l !! it_node e;
    match n_prev n with
    | Some pr =>
        l ← dec_occupied (it_node e) l; Some (with_end (mkIt pr (Some (pr, kBlockSize - 1))) l)
    | None => Some l
    end
  else dec_occupied (it_node e) (with_end (mkIt (it_node e) (Some (ret.1, ret.2 - 1))) l).

Definition PopRight (l : DList) : option (DList * DynamicString) :=
  if DList_Empty l then Some (l, ds_null)
  else
    ret ← it_ptr (end_ l);
    l ← pop_right_pos l ret;
    take_elem ret l.

(** The loop of [NodeAtIndex]: [n] times [tmp = tmp->next]. The result may be
    null; following a null pointer is not defined. *)
Fixpoint hop (h : gmap nat Node) (n : nat) (tmp : option nat) : option (option nat) :=
  match n with
  | O => Some tmp
  | S n => i ← tmp; nd ← h !! i; hop h n (n_next nd)
  end.

(** [NodeAtIndex]: the node, the number of crossed nodes and the offset. *)
Definition NodeAtIndex (l : DList) (idx : Z) : option (option nat * Z * Z) :=
  let bn := it_node (begin_ l) in
  n ← heap l !! bn;
  if idx <? n_occupied n then Some (Some bn, -1, i32 idx)
  else
    let diff := i32 (u64 (idx - n_occupied n)) in
    let n_cross := Z.quot diff kBlockSize in
    let offset := Z.rem diff kBlockSize in
    tmp ← hop (heap l) (Z.to_nat (n_cross + 1)) (Some bn);
    Some (tmp, n_cross, offset).

(** [operator\[\]]: the address of the element, or [out_of_range]. *)
Definition DList_index (l : DList) (idx : Z) : option (exn + ElemPtr) :=
  if idx >=? len_ l then Some (inl out_of_range)
  else
    let bn := it_node (begin_ l) in
    n ← heap l !! bn;
    if idx <? n_occupied n then p ← it_ptr (begin_ l); Some (inr (p.1, p.2 + idx))
    else '(tmp, _, offset) ← NodeAtIndex l idx; i ← tmp; Some (inr (i, offset)).

(** [l\[idx\]] read as a value. *)
Definition DList_get (l : DList) (idx : Z) : option (exn + DynamicString) :=
  r ← DList_index l idx;
  match r with
  | inl e => Some (inl e)
  | inr p => d ← deref (heap l) p; Some (inr d)
  end.

(** [l\[idx\].Reset(val)]. *)
Definition DList_set (l : DList) (idx : Z) (val : list ascii) : option (exn + DList) :=
  r ← DList_index l idx;
  match r with
  | inl e => Some (inl e)
  | inr p =>
      d ← deref (heap l) p;
      d ← Reset_std always_ok d val;
      h ← assign (heap l) p d;
      Some (inr (with_heap h l))
  end.

(** [for (i = 0; i < occupied; i++) { ...*elem...; elem++; }]. *)
Fixpoint read_cells (h : gmap nat Node) (elem : ElemPtr) (n : nat)
  : option (list DynamicString * ElemPtr) :=
  match n with
  | O => Some ([], elem)
  | S n =>
      d ← deref h elem;
      '(ds, elem) ← read_cells h (elem.1, elem.2 + 1) n;
      Some (d :: ds, elem)
  end.

(** The loop [while (tmp && tmp->occupied > 0 && elem)] over all nodes, shared by
    [RangeAsStdStringVector()], [RangeAsDynaStringVector()] and [Serialize]. *)
Fixpoint all_elems (fuel : nat) (h : gmap nat Node) (tmp : option nat) (elem : option ElemPtr)
  : option (list DynamicString) :=
  match fuel with
  | O => None
  | S fuel =>
      match tmp, elem with
      | Some i, Some e =>
          n ← h !! i;
          if 0 <? n_occupied n then
            '(ds, e) ← read_cells h e (Z.to_nat (n_occupied n));
            let tmp := n_next n in
            rest ← all_elems fuel h tmp (match tmp with Some j => Some (j, 0) | None => Some e end);
            Some (ds ++ rest)
          else Some []
      | _, _ => match tmp with Some i => n ← h !! i; Some [] | None => Some [] end
      end
  end.

(** One more than the number of nodes bounds the iterations. *)
Definition fuel_of (l : DList) : nat := S (size (heap l)).

Definition RangeAsDynaStringVector (l : DList) : option (list DynamicString) :=
  if DList_Empty l then Some []
  else
    ds ← all_elems (fuel_of l) (heap l) (Some (it_node (begin_ l))) (it_ptr (begin_ l));
    mapM (DynamicString_copy always_ok) ds.

Definition RangeAsStdStringVector (l : DList) : option (list (list ascii)) :=
  if DList_Empty l then Some []
  else
    ds ← all_elems (fuel_of l) (heap l) (Some (it_node (begin_ l))) (it_ptr (begin_ l));
    Some (map ToStdString ds).

(** The loop [while (elem != tmp->data + kBlockSize && distance > 0)]. *)
Fixpoint read_block (h : gmap nat Node) (i : nat) (elem : ElemPtr) (distance : nat)
  : option (list DynamicString * ElemPtr * nat) :=
  match distance with
  | O => Some ([], elem, O)
  | S distance' =>
      if decide (elem = (i, kBlockSize)) then Some ([], elem, distance)
      else
        d ← deref h elem;
        '(ds, elem, distance) ← read_block h i (elem.1, elem.2 + 1) distance';
        Some (d :: ds, elem, distance)
  end.

Fixpoint range_elems (fuel : nat) (h : gmap nat Node) (tmp : option nat) (elem : ElemPtr)
  (distance : nat) : option (list DynamicString) :=
  match fuel with
  | O => None
  | S fuel =>
      match tmp with
      | None => Some []
      | Some i =>
          n ← h !! i;
          if (0 <? n_occupied n) && negb (bool_decide (distance = O)) then
            '(ds, e, distance) ← read_block h i elem distance;
            let tmp := n_next n in
            rest ← range_elems fuel h tmp (match tmp with Some j => (j, 0) | None => e end) distance;
            Some (ds ++ rest)
          else Some []
      end
  end.

(** The common body of the two [Range...(start, finish)] functions: the elements
    visited. *)
Definition range_ptrs (l : DList) (start finish : Z) : option (list DynamicString) :=
  if DList_Empty l || (start >? finish) then Some []
  else
    let finish := Z.min finish (i32 (u64 (len_ l - 1))) in
    d1 ← chk32 (finish - start);
    distance ← chk32 (d1 + 1);
    '(tmp, _, offset) ← NodeAtIndex l (u64 start);
    i ← tmp;
    elem ← (if decide (i = it_node (begin_ l))
            then p ← it_ptr (begin_ l); Some (p.1, p.2 + offset)
            else Some (i, offset));
    range_elems (fuel_of l) (heap l) (Some i) elem (Z.to_nat distance).

Definition RangeAsDynaStringVector_range (l : DList) (start finish : Z) : option (list DynamicString) :=
  ds ← range_ptrs l start finish; mapM (DynamicString_copy always_ok) ds.

Definition RangeAsStdStringVector_range (l : DList) (start finish : Z) : option (list (list ascii)) :=
  ds ← range_ptrs l start finish; Some (map ToStdString ds).

(** The loops of [FreeNodes] and [FreeRedundantNodes]. *)
Fixpoint free_all (fuel : nat) (h : gmap nat Node) (tmp : option nat) : option (gmap nat Node) :=
  match fuel with
  | O => None
  | S fuel =>
      match tmp with
      | None => Some h
      | Some i => n ← h !! i; free_all fuel (delete i h) (n_next n)
      end
  end.

Definition FreeNodes (l : DList) : option DList :=
  h ← free_all (fuel_of l) (heap l) (head_ l);
  Some (mkDL h (next_id l) (begin_ l) (end_ l) None None (len_ l) (n_nodes_ l)).

(** [while (tmp && tmp->occupied == 0 && tmp != begin_.node->prev)]: returns the
    store, the node it stopped at and the node count. *)
Fixpoint free_left (fuel : nat) (h : gmap nat Node) (bn : nat) (tmp : option nat) (cnt : Z)
  : option (gmap nat Node * option nat * Z) :=
  match fuel with
  | O => None
  | S fuel =>
      match tmp with
      | None => Some (h, tmp, cnt)
      | Some i =>
          n ← h !! i;
          if n_occupied n =? 0 then
            b ← h !! bn;
            if decide (tmp = n_prev b) then Some (h, tmp, cnt)
            else
              let tmp := n_next n in
              j ← tmp;
              h ← modify_node j (with_prev None) (delete i h);
              free_left fuel h bn tmp (u64 (cnt - 1))
          else Some (h, tmp, cnt)
      end
  end.

Fixpoint free_right (fuel : nat) (h : gmap nat Node) (en : nat) (tmp : option nat) (cnt : Z)
  : option (gmap nat Node * option nat * Z) :=
  match fuel with
  | O => None
  | S fuel =>
      match tmp with
      | None => Some (h, tmp, cnt)
      | Some i =>
          n ← h !! i;
          if n_occupied n =? 0 then
            e ← h !! en;
            if decide (tmp = n_next e) then Some (h, tmp, cnt)
            else
              let tmp := n_prev n in
              j ← tmp;
              h ← modify_node j (with_next None) (delete i h);
              free_right fuel h en tmp (u64 (cnt - 1))
          else Some (h, tmp, cnt)
      end
  end.

Definition FreeRedundantNodes (l : DList) : option DList :=
  let capacity := i32 (u64 (n_nodes_ l * kBlockSize)) in
  if capacity >=? i32 (u64 (len_ l * kRedundantFactor)) then
    '(h, hd, cnt) ← free_left (fuel_of l) (heap l) (it_node (begin_ l)) (head_ l) (n_nodes_ l);
    '(h, tl, cnt) ← free_right (fuel_of l) h (it_node (end_ l)) (tail_ l) cnt;
    Some (mkDL h (next_id l) (begin_ l) (end_ l) hd tl (len_ l) cnt)
  else Some l.

Definition DList_Serialize (l : DList) (buf : list ascii) : option (Z * list ascii) :=
  if DList_Empty l then Some (0, buf)
  else
    buf ← serialize_count (len_ l) buf;
    ds ← all_elems (fuel_of l) (heap l) (Some (it_node (begin_ l))) (it_ptr (begin_ l));
    buf ← serialize_all ds buf;
    Some (Z.of_nat (length buf), buf).
