(* ===== verification/DListFacts.v ===== *)
(** * DListFacts: the block list refines a sequence of byte strings

    The invariant of a [DList] (the chain of nodes, the window of occupied cells
    and the counts of the nodes) and the proofs that every operation preserves it
    and acts on the sequence of byte strings the window holds. *)

From S2P Require Import Prelude Encoding Numerals Str Hash HashFacts DList.
From Stdlib Require Import ZifyNat.
From stdpp Require Import list fin_maps.

Local Open Scope Z_scope.

(** ** The invariant *)

#[local] Arguments Nat.div : simpl never.
#[local] Arguments Nat.modulo : simpl never.
#[local] Arguments Nat.mul : simpl never.

(** Cell [p] of the chain of nodes [ids], counted from the start of the first
    block; the count of the node at position [i]. *)
Definition cell (h : gmap nat Node) (ids : list nat) (p : nat) : option DynamicString :=
  i ← ids !! (p / 128)%nat; n ← h !! i; n_data n !! (p mod 128)%nat.

Definition occ (h : gmap nat Node) (ids : list nat) (i : nat) : option Z :=
  id ← ids !! i; n ← h !! id; Some (n_occupied n).

Definition prev_of (ids : list nat) (i : nat) : option nat :=
  match i with O => None | S j => ids !! j end.

Definition node_ok (ids : list nat) (i : nat) (n : Node) : Prop :=
  n_prev n = prev_of ids i /\ n_next n = ids !! S i /\
  length (n_data n) = 128%nat /\ Forall ds_ok (n_data n).

(** The number of cells of the window [pb, pb + len) in block [i]. *)
Definition overlap (pb len i : nat) : nat :=
  (Nat.min (pb + len) (128 * S i) - Nat.max pb (128 * i))%nat.

(** The address of cell [p]. *)
Definition addr (ids : list nat) (p : nat) : option ElemPtr :=
  i ← ids !! (p / 128)%nat; Some (i, Z.of_nat (p mod 128)).

(** [dl_chain l ids]: the nodes of [l] are the chain [ids], well linked, with
    full blocks of well-formed strings. *)
Record dl_chain (l : DList) (ids : list nat) : Prop := {
  ch_nodup : NoDup ids;
  ch_nodes : forall i id, ids !! i = Some id -> exists n, heap l !! id = Some n /\ node_ok ids i n;
  ch_heap : forall id, is_Some (heap l !! id) <-> id ∈ ids;
  ch_fresh : forall id, id ∈ ids -> (id < next_id l)%nat;
  ch_head : head_ l = ids !! 0%nat;
  ch_tail : tail_ l = last ids;
  ch_count : n_nodes_ l = u64 (Z.of_nat (length ids))
}.

(** The iterator [it] points to cell [p]. *)
Definition points (ids : list nat) (it : Iterator) (p : nat) : Prop :=
  ids !! (p / 128)%nat = Some (it_node it) /\ it_ptr it = addr ids p.

(** [dl_window l ids pb len]: the iterators delimit the window of [len] cells from
    [pb] on, and every node counts its share of the window. *)
Record dl_window (l : DList) (ids : list nat) (pb len : nat) : Prop := {
  wd_occ : forall i, (i < length ids)%nat ->
             occ (heap l) ids i = Some (Z.of_nat (overlap pb len i));
  wd_fit : (pb + len <= 128 * length ids)%nat;
  wd_begin : match len with
             | O => it_ptr (begin_ l) = None /\ it_node (begin_ l) ∈ ids
             | S _ => points ids (begin_ l) pb
             end;
  wd_end : match len with
           | O => it_ptr (end_ l) = None /\ it_node (end_ l) ∈ ids
           | S n => points ids (end_ l) (pb + n)
           end
}.

(** The window holds the byte strings [s]. *)
Definition holds (h : gmap nat Node) (ids : list nat) (pb : nat) (s : list (list ascii)) : Prop :=
  forall k x, s !! k = Some x -> exists d, cell h ids (pb + k) = Some d /\ ds_val d x.

(** [dl_repr l s]: the list [l] holds the byte strings [s], in order. *)
Definition dl_repr (l : DList) (s : list (list ascii)) : Prop :=
  exists ids pb, dl_chain l ids /\ dl_window l ids pb (length s) /\
    len_ l = Z.of_nat (length s) /\ Z.of_nat (length s) <= 2 ^ 63 /\ holds (heap l) ids pb s.

(** Arithmetic with division by the block size. *)
Ltac blocks :=
  unfold overlap in *; zify; Z.to_euclidean_division_equations; lia.

(** ** Chains *)

Lemma dl_chain_ext l l' ids : dl_chain l ids -> heap l' = heap l -> next_id l' = next_id l ->
  head_ l' = head_ l -> tail_ l' = tail_ l -> n_nodes_ l' = n_nodes_ l -> dl_chain l' ids.
Proof. intros [] H1 H2 H3 H4 H5. split; rewrite ?H1, ?H2, ?H3, ?H4, ?H5; done. Qed.

Lemma addr_inj ids p q a : NoDup ids -> addr ids p = Some a -> addr ids q = Some a -> p = q.
Proof.
  unfold addr. intros Hn Hp Hq. destruct (ids !! (p / 128)%nat) as [i|] eqn:Ei; [|done].
  destruct (ids !! (q / 128)%nat) as [j|] eqn:Ej; [|done]. cbn in *. simplify_eq.
  pose proof (NoDup_lookup _ _ _ _ Hn Ei Ej). blocks.
Qed.

Lemma points_lt ids it p : points ids it p -> (p < 128 * length ids)%nat.
Proof. intros [H _]. apply lookup_lt_Some in H. blocks. Qed.

Lemma points_ptr ids it p : points ids it p -> it_ptr it = Some (it_node it, Z.of_nat (p mod 128)).
Proof. intros [H1 H2]. rewrite H2. unfold addr. by rewrite H1. Qed.

(** The node an iterator points into. *)
Lemma chain_node l ids i id : dl_chain l ids -> ids !! i = Some id ->
  exists n, heap l !! id = Some n /\ node_ok ids i n.
Proof. intros Hc. apply (ch_nodes l ids Hc). Qed.

Lemma cell_lookup l ids p : dl_chain l ids -> (p < 128 * length ids)%nat ->
  exists d, cell (heap l) ids p = Some d /\ ds_ok d.
Proof.
  intros Hc Hp. destruct (lookup_lt_is_Some_2 ids (p / 128)) as [id Hid]; [blocks|].
  destruct (chain_node l ids _ id Hc Hid) as (n & Hn & _ & _ & Hlen & Hok).
  destruct (lookup_lt_is_Some_2 (n_data n) (p mod 128)) as [d Hd]; [blocks|].
  exists d. unfold cell. rewrite Hid. cbn. rewrite Hn. split; [done|].
  by eapply Forall_lookup_1.
Qed.

Lemma deref_cell h ids it p : points ids it p ->
  deref h (it_node it, Z.of_nat (p mod 128)) = cell h ids p.
Proof.
  intros [Hid _]. unfold deref, cell. rewrite Hid. cbn.
  destruct (h !! it_node it); [|done]. cbn.
  rewrite (proj2 (Z.ltb_ge _ _)) by lia. by rewrite Nat2Z.id.
Qed.

(** Replacing the contents of one node. *)
Lemma chain_insert l ids i id n n' : dl_chain l ids -> ids !! i = Some id -> heap l !! id = Some n ->
  n_prev n' = n_prev n -> n_next n' = n_next n -> length (n_data n') = 128%nat ->
  Forall ds_ok (n_data n') -> dl_chain (with_heap (<[id:=n']> (heap l)) l) ids.
Proof.
  intros Hc Hi Hn Hp Hx Hlen Hok. pose proof (ch_nodup l ids Hc) as Hnd.
  destruct Hc as [_ Hnodes Hheap Hf Hh Ht Hcnt]. split; cbn; try done.
  - intros j jd Hj. destruct (decide (jd = id)) as [->|].
    + assert (j = i) as -> by (by eapply NoDup_lookup).
      exists n'. rewrite lookup_insert_eq. split; [done|].
      destruct (Hnodes i id Hi) as (n0 & Hn0 & H1 & H2 & _). simplify_eq.
      repeat split; congruence.
    + rewrite lookup_insert_ne by done. by apply Hnodes.
  - intros jd. destruct (decide (jd = id)) as [->|].
    + rewrite lookup_insert_eq. split; [|by eauto]. intros _. by eapply list_elem_of_lookup_2.
    + by rewrite lookup_insert_ne.
Qed.

(** The effect of such a replacement on the cells and the counts. *)
Lemma cell_insert h ids i id n n' p : NoDup ids -> ids !! i = Some id -> h !! id = Some n ->
  cell (<[id:=n']> h) ids p =
    if decide (p / 128 = i)%nat then n_data n' !! (p mod 128)%nat else cell h ids p.
Proof.
  intros Hnd Hi Hn. unfold cell. destruct (ids !! (p / 128)%nat) as [jd|] eqn:Ej; cbn.
  - case_decide as E.
    + rewrite E in Ej. simplify_eq. by rewrite lookup_insert_eq.
    + rewrite lookup_insert_ne; [done|]. intros <-. apply E. by eapply NoDup_lookup.
  - case_decide as E; [|done]. rewrite E in Ej. congruence.
Qed.

Lemma occ_insert h ids i id n n' j : NoDup ids -> ids !! i = Some id -> h !! id = Some n ->
  occ (<[id:=n']> h) ids j = if decide (j = i) then Some (n_occupied n') else occ h ids j.
Proof.
  intros Hnd Hi Hn. unfold occ. case_decide as E.
  - subst j. rewrite Hi. cbn. by rewrite lookup_insert_eq.
  - destruct (ids !! j) as [jd|] eqn:Ej; cbn; [|done].
    rewrite lookup_insert_ne; [done|]. intros <-. apply E. by eapply NoDup_lookup.
Qed.

(** Writing a well-formed string to a cell. *)
Lemma assign_spec l ids it p d : dl_chain l ids -> points ids it p -> ds_ok d ->
  exists h, assign (heap l) (it_node it, Z.of_nat (p mod 128)) d = Some h /\
    dl_chain (with_heap h l) ids /\
    (forall q, cell h ids q = if decide (q = p) then Some d else cell (heap l) ids q) /\
    (forall i, occ h ids i = occ (heap l) ids i).
Proof.
  intros Hc [Hid _] Hd. destruct (chain_node l ids _ _ Hc Hid) as (n & Hn & Hok).
  pose proof Hok as (_ & _ & Hlen & Hall). pose proof (ch_nodup l ids Hc) as Hnd.
  assert (p mod 128 < length (n_data n))%nat as Hlt by blocks.
  unfold assign. cbn. rewrite Hn. cbn. rewrite (proj2 (Z.ltb_ge _ _)) by lia.
  rewrite Nat2Z.id, store_some by done. cbn. eexists. split; [done|]. split; [|split].
  - eapply chain_insert; try done; cbn.
    + by rewrite length_insert.
    + by apply Forall_insert.
  - intros q. erewrite cell_insert by done. cbn. case_decide as E1; case_decide as E2; try done.
    + subst q. by rewrite list_lookup_insert_eq.
    + rewrite list_lookup_insert_ne by blocks. unfold cell. rewrite E1, Hid. cbn. by rewrite Hn.
    + by subst q.
  - intros i. erewrite occ_insert by done. cbn. case_decide as E; [|done].
    subst i. unfold occ. rewrite Hid. cbn. by rewrite Hn.
Qed.

(** Changing the count of a node. *)
Lemma occupied_spec l ids i id f : dl_chain l ids -> ids !! i = Some id ->
  exists h, modify_node id (λ n, with_occupied (f (n_occupied n)) n) (heap l) = Some h /\
    dl_chain (with_heap h l) ids /\
    (forall q, cell h ids q = cell (heap l) ids q) /\
    (forall j, occ h ids j = if decide (j = i) then f <$> occ (heap l) ids j else occ (heap l) ids j).
Proof.
  intros Hc Hid. destruct (chain_node l ids _ _ Hc Hid) as (n & Hn & Hok).
  pose proof Hok as (_ & _ & Hlen & Hall). pose proof (ch_nodup l ids Hc) as Hnd.
  unfold modify_node. rewrite Hn. cbn. eexists. split; [done|]. split; [|split].
  - by eapply chain_insert.
  - intros q. erewrite cell_insert by done. case_decide as E; [|done]. cbn.
    unfold cell. rewrite E, Hid. cbn. by rewrite Hn.
  - intros j. erewrite occ_insert by done. case_decide as E; [|done]. subst j.
    unfold occ. rewrite Hid. cbn. by rewrite Hn.
Qed.

Lemma put_elem_spec l ids it p val : dl_chain l ids -> points ids it p -> fits val ->
  exists l' d, put_elem it val l = Some l' /\ dl_chain l' ids /\ ds_val d val /\
    begin_ l' = begin_ l /\ end_ l' = end_ l /\ len_ l' = u64 (len_ l + 1) /\
    (forall q, cell (heap l') ids q = if decide (q = p) then Some d else cell (heap l) ids q) /\
    (forall i, occ (heap l') ids i =
       if decide (i = p / 128)%nat then (λ z, u16 (z + 1)) <$> occ (heap l) ids i
       else occ (heap l) ids i).
Proof.
  intros Hc Hp Hv. unfold put_elem. rewrite (points_ptr _ _ _ Hp). cbn [mbind option_bind].
  rewrite (deref_cell _ ids) by done.
  destruct (cell_lookup l ids p Hc (points_lt _ _ _ Hp)) as (d0 & -> & Hd0). cbn [mbind option_bind].
  destruct (Reset_std_repr d0 _ val Hd0 Hv) as (d & -> & Rd & Nd). cbn [mbind option_bind].
  destruct (assign_spec l ids it p d Hc Hp (ds_repr_ok _ _ Rd)) as (h & -> & Hc1 & C1 & O1).
  cbn [mbind option_bind]. pose proof Hp as [Hid _].
  destruct (occupied_spec (with_heap h l) ids (p / 128)%nat (it_node it) (λ z, u16 (z + 1)) Hc1 Hid)
    as (h' & E' & Hc2 & C2 & O2). cbn in E', C2, O2. rewrite E'. cbn [mbind option_bind].
  exists (with_len (u64 (len_ l + 1)) (with_heap h' l)), d. split; [done|].
  split; [by eapply dl_chain_ext|]. split; [by apply ds_val_of|]. do 3 (split; [done|]). cbn. split.
  - intros q. by rewrite C2, C1.
  - intros i. by rewrite O2, O1.
Qed.

Lemma dec_occupied_spec l ids i id : dl_chain l ids -> ids !! i = Some id ->
  exists l', dec_occupied id l = Some l' /\ dl_chain l' ids /\
    begin_ l' = begin_ l /\ end_ l' = end_ l /\ len_ l' = len_ l /\
    (forall q, cell (heap l') ids q = cell (heap l) ids q) /\
    (forall j, occ (heap l') ids j =
       if decide (j = i) then (λ z, u16 (z - 1)) <$> occ (heap l) ids j else occ (heap l) ids j).
Proof.
  intros Hc Hid. unfold dec_occupied.
  destruct (occupied_spec l ids i id (λ z, u16 (z - 1)) Hc Hid) as (h & -> & Hc' & C & O). cbn.
  eexists. split; [done|]. split; [done|]. do 3 (split; [done|]). by split.
Qed.

Lemma ds_val_move d x : ds_val d x -> exists r, DynamicString_move d = (r, ds_null) /\ ds_val r x.
Proof.
  intros [R N]. unfold DynamicString_move. destruct (ds_buf d) eqn:Eb; [by exists d|].
  unfold ds_repr in R. rewrite Eb in R. destruct R as (L & A & _). unfold ds_Null in N.
  by rewrite L, A in N.
Qed.

Lemma take_elem_spec l ids it p d x : dl_chain l ids -> points ids it p ->
  cell (heap l) ids p = Some d -> ds_val d x ->
  exists l' r, take_elem (it_node it, Z.of_nat (p mod 128)) l = Some (l', r) /\ ds_val r x /\
    dl_chain l' ids /\ begin_ l' = begin_ l /\ end_ l' = end_ l /\ len_ l' = u64 (len_ l - 1) /\
    (forall q, q <> p -> cell (heap l') ids q = cell (heap l) ids q) /\
    (forall i, occ (heap l') ids i = occ (heap l) ids i).
Proof.
  intros Hc Hp Hd Rd. unfold take_elem. rewrite (deref_cell _ ids), Hd by done. cbn [mbind option_bind].
  destruct (ds_val_move d x Rd) as (r & Em & Rr). rewrite Em.
  destruct (assign_spec l ids it p ds_null Hc Hp) as (h & -> & Hc' & C & O); [done|].
  cbn. eexists _, r. split; [done|]. split; [done|]. split; [by apply (dl_chain_ext (with_heap h l))|].
  do 3 (split; [done|]). split; [|done]. intros q Hq. cbn. rewrite C. by case_decide.
Qed.

(** ** Windows *)

Lemma overlap_push_left pb len i :
  overlap pb (S len) i = (overlap (S pb) len i + if decide (i = pb / 128)%nat then 1 else 0)%nat.
Proof. case_decide; blocks. Qed.

Lemma overlap_push_right pb len i :
  overlap pb (S len) i = (overlap pb len i + if decide (i = (pb + len) / 128)%nat then 1 else 0)%nat.
Proof. case_decide; blocks. Qed.

Lemma overlap_le pb len i : (overlap pb len i <= 128)%nat.
Proof. blocks. Qed.

Lemma overlap_0 pb i : overlap pb 0 i = 0%nat.
Proof. blocks. Qed.

Lemma u16_small z : 0 <= z < 65536 -> u16 z = z.
Proof. intros. unfold u16, uwrap. apply Z.mod_small. lia. Qed.

(** Writing the element completes a window that counts it. *)
Lemma put_window l ids it p pb len val (ov : nat -> nat) :
  dl_chain l ids -> points ids it p -> points ids (begin_ l) pb -> points ids (end_ l) (pb + len) ->
  (forall i, (i < length ids)%nat -> occ (heap l) ids i = Some (Z.of_nat (ov i))) ->
  (forall i, overlap pb (S len) i = (ov i + if decide (i = p / 128)%nat then 1 else 0)%nat) ->
  fits val ->
  exists l' d, put_elem it val l = Some l' /\ dl_chain l' ids /\ dl_window l' ids pb (S len) /\
    len_ l' = u64 (len_ l + 1) /\ ds_val d val /\
    (forall q, cell (heap l') ids q = if decide (q = p) then Some d else cell (heap l) ids q).
Proof.
  intros Hc Hp Hb He Ho Hov Hv.
  destruct (put_elem_spec l ids it p val Hc Hp Hv) as (l' & d & -> & Hc' & Rd & Eb & Ee & El & C & O).
  exists l', d. split; [done|]. split; [done|]. split; [|done].
  split; [|pose proof (points_lt _ _ _ He); lia|by rewrite Eb|by rewrite Ee].
  intros i Hi. rewrite O, Ho, Hov by done. pose proof (overlap_le pb (S len) i). rewrite Hov in *.
  case_decide; cbn; [|by rewrite Nat.add_0_r]. rewrite u16_small by lia. f_equal. lia.
Qed.

(** Pointing to a cell of the chain. *)
Lemma points_at ids id p o : ids !! (p / 128)%nat = Some id -> o = Z.of_nat (p mod 128) ->
  points ids (mkIt id (Some (id, o))) p.
Proof. intros Hid ->. split; [done|]. unfold addr. by rewrite Hid. Qed.

Lemma elem_position (ids : list nat) (id : nat) : id ∈ ids -> exists i, ids !! i = Some id /\ (i < length ids)%nat.
Proof.
  intros H. apply list_elem_of_lookup in H as [i Hi]. exists i. split; [done|].
  by eapply lookup_lt_Some.
Qed.

(** ** New nodes at either end *)

(** The two stores agree on the contents of the nodes [ids]. *)
Definition same_content (h h' : gmap nat Node) (ids : list nat) : Prop :=
  forall id, id ∈ ids -> (λ n, (n_data n, n_occupied n)) <$> h' !! id =
                         (λ n, (n_data n, n_occupied n)) <$> h !! id.

Lemma cell_same h h' ids p : same_content h h' ids -> cell h' ids p = cell h ids p.
Proof.
  intros Hs. unfold cell. destruct (ids !! (p / 128)%nat) as [id|] eqn:Ei; [|done]. cbn.
  specialize (Hs id ltac:(by eapply list_elem_of_lookup_2)).
  destruct (h' !! id), (h !! id); cbn in *; congruence.
Qed.

Lemma occ_same h h' ids i : same_content h h' ids -> occ h' ids i = occ h ids i.
Proof.
  intros Hs. unfold occ. destruct (ids !! i) as [id|] eqn:Ei; [|done]. cbn.
  specialize (Hs id ltac:(by eapply list_elem_of_lookup_2)).
  destruct (h' !! id), (h !! id); cbn in *; congruence.
Qed.

Lemma cell_cons h id ids p : cell h (id :: ids) (128 + p) = cell h ids p.
Proof.
  unfold cell. replace ((128 + p) / 128)%nat with (S (p / 128)) by blocks.
  by replace ((128 + p) mod 128)%nat with (p mod 128)%nat by blocks.
Qed.

Lemma cell_snoc h id ids p : (p < 128 * length ids)%nat -> cell h (ids ++ [id]) p = cell h ids p.
Proof. intros Hp. unfold cell. by rewrite lookup_app_l by blocks. Qed.

Lemma occ_snoc h id ids i : (i < length ids)%nat -> occ h (ids ++ [id]) i = occ h ids i.
Proof. intros Hi. unfold occ. by rewrite lookup_app_l. Qed.

(** Linking a fresh node [id] to the node [b] of the chain. *)
Lemma link_spec l ids b n m id f : dl_chain l ids -> heap l !! b = Some n -> id = next_id l ->
  n_data (f n) = n_data n -> n_occupied (f n) = n_occupied n ->
  let h := <[b := f n]> (<[id := m]> (heap l)) in
  b ∈ ids /\ id ∉ ids /\ h !! id = Some m /\ same_content (heap l) h ids /\
  (forall jd, jd ∈ ids -> jd <> b -> h !! jd = heap l !! jd) /\
  (forall jd, is_Some (h !! jd) <-> jd = id \/ jd ∈ ids).
Proof.
  intros Hc Hn -> E1 E2 h. set (id := next_id l) in *.
  assert (id ∉ ids) as Hfr by (intros Hin; pose proof (ch_fresh l ids Hc id Hin); lia).
  assert (b ∈ ids) as Hb by (apply (ch_heap l ids Hc); by eexists).
  assert (id <> b) as Hne by congruence. do 2 (split; [done|]).
  split; [subst h; by rewrite lookup_insert_ne, lookup_insert_eq by done|].
  assert (forall jd, jd ∈ ids -> jd <> b -> h !! jd = heap l !! jd) as Hother
    by (intros jd Hj Hjb; subst h; rewrite !lookup_insert_ne by congruence; done).
  split; [|split; [done|]].
  - intros jd Hj. destruct (decide (jd = b)) as [->|]; [|by rewrite Hother].
    subst h. rewrite lookup_insert_eq, Hn. cbn. by rewrite E1, E2.
  - intros jd. subst h. rewrite !lookup_insert_is_Some, (ch_heap l ids Hc). 
    destruct (decide (b = jd)), (decide (id = jd)); naive_solver.
Qed.

Lemma chain_new_left l ids b id n : dl_chain l ids -> ids !! 0%nat = Some b -> heap l !! b = Some n ->
  id = next_id l ->
  let h := <[b := with_prev (Some id) n]> (<[id := with_next (Some b) Node_new]> (heap l)) in
  forall it,
  dl_chain (mkDL h (S id) it (end_ l) (Some id) (tail_ l) (len_ l) (u64 (n_nodes_ l + 1))) (id :: ids) /\
  same_content (heap l) h ids /\ occ h (id :: ids) 0 = Some 0.
Proof.
  intros Hc Hb Hn Eid h it.
  destruct (link_spec l ids b n (with_next (Some b) Node_new) id (with_prev (Some id)) Hc Hn Eid)
    as (Hbin & Hfr & Hnew & Hsame & Hother & Hdom); [done..|]. fold h in Hnew, Hsame, Hother, Hdom.
  split; [|split; [done|unfold occ; cbn; by rewrite Hnew]].
  split; cbn [heap next_id head_ tail_ n_nodes_]; try done.
  - constructor; [done|]. by apply (ch_nodup l).
  - intros i jd Hj. destruct i as [|i]; cbn in Hj.
    + simplify_eq. eexists. split; [exact Hnew|]. do 3 (split; [done|]). by apply Forall_replicate.
    + destruct (chain_node l ids i jd Hc Hj) as (m0 & Hm0 & P1 & P2).
      destruct (decide (jd = b)) as [->|Hjb].
      * exists (with_prev (Some id) n). split; [apply lookup_insert_eq|]. simplify_eq. split; [|done].
        by rewrite (NoDup_lookup ids i 0 b (ch_nodup l ids Hc) Hj Hb).
      * exists m0. rewrite Hother by (done || by eapply list_elem_of_lookup_2). split; [done|].
        split; [|done]. rewrite P1. destruct i; cbn; [destruct Hjb; by injection (eq_trans (eq_sym Hj) Hb)|done].
  - intros jd. by rewrite elem_of_cons, Hdom.
  - intros jd [->|Hj]%elem_of_cons; [lia|]. pose proof (ch_fresh l ids Hc jd Hj). lia.
  - rewrite (ch_tail l ids Hc). by destruct ids.
  - rewrite (ch_count l ids Hc). unfold u64, uwrap. rewrite Zplus_mod_idemp_l. f_equal. cbn. lia.
Qed.

Lemma chain_new_right l ids b id n : dl_chain l ids -> last ids = Some b -> heap l !! b = Some n ->
  id = next_id l ->
  let h := <[b := with_next (Some id) n]> (<[id := with_prev (Some b) Node_new]> (heap l)) in
  forall it,
  dl_chain (mkDL h (S id) (begin_ l) it (head_ l) (Some id) (len_ l) (u64 (n_nodes_ l + 1))) (ids ++ [id]) /\
  same_content (heap l) h ids /\ occ h (ids ++ [id]) (length ids) = Some 0.
Proof.
  intros Hc Hb Hn Eid h it. rewrite last_lookup in Hb.
  destruct (link_spec l ids b n (with_prev (Some b) Node_new) id (with_next (Some id)) Hc Hn Eid)
    as (Hbin & Hfr & Hnew & Hsame & Hother & Hdom); [done..|]. fold h in Hnew, Hsame, Hother, Hdom.
  assert (0 < length ids)%nat as Hpos by (destruct ids; cbn; [done|lia]).
  split; [|split; [done|unfold occ; rewrite list_lookup_middle by done; cbn; by rewrite Hnew]].
  split; cbn [heap next_id head_ tail_ n_nodes_]; try done.
  - apply NoDup_app. split; [by apply (ch_nodup l)|]. split; [set_solver|apply NoDup_singleton].
  - intros i jd Hj. apply lookup_app_Some in Hj as [Hj|[Hi Hj]].
    + pose proof (lookup_lt_Some _ _ _ Hj) as Hlt.
      destruct (chain_node l ids i jd Hc Hj) as (m0 & Hm0 & P1 & P2 & P3).
      assert (prev_of (ids ++ [id]) i = prev_of ids i) as Ep
        by (destruct i; cbn; [done|by rewrite lookup_app_l by lia]).
      destruct (decide (jd = b)) as [->|Hjb].
      * exists (with_next (Some id) n). split; [apply lookup_insert_eq|]. simplify_eq.
        unfold node_ok. rewrite Ep. split; [done|]. split; [|done]. cbn.
        pose proof (NoDup_lookup ids _ _ b (ch_nodup l ids Hc) Hj Hb) as ->.
        by rewrite list_lookup_middle by lia.
      * exists m0. rewrite Hother by (done || by eapply list_elem_of_lookup_2). split; [done|].
        unfold node_ok. rewrite Ep. split; [done|]. split; [|done].
        rewrite lookup_app_l; [done|]. destruct (decide (S i = length ids)) as [E|]; [|lia].
        rewrite <- E in Hb. cbn in Hb. congruence.
    + apply list_lookup_singleton_Some in Hj as [Hi' <-]. assert (i = length ids) as -> by lia.
      exists (with_prev (Some b) Node_new). split; [done|]. unfold node_ok. cbn [n_prev n_next with_prev Node_new].
      split; [|split; [by rewrite lookup_ge_None_2 by (rewrite length_app; cbn; lia)|]].
      * destruct (length ids) as [|k] eqn:El; [lia|]. cbn in Hb |- *. rewrite lookup_app_l by lia. done.
      * split; [done|]. by apply Forall_replicate.
  - intros jd. rewrite elem_of_app, Hdom, list_elem_of_singleton. naive_solver.
  - intros jd [Hj|Hj]%elem_of_app; [pose proof (ch_fresh l ids Hc jd Hj); lia|].
    apply list_elem_of_singleton in Hj. lia.
  - rewrite (ch_head l ids Hc). by rewrite lookup_app_l.
  - by rewrite last_snoc.
  - rewrite (ch_count l ids Hc), length_app. unfold u64, uwrap. rewrite Zplus_mod_idemp_l. f_equal. cbn. lia.
Qed.

(** ** Push *)

(** The state between moving an iterator and writing the element: the iterators
    delimit [S (length s)] cells from [pb], the counts are still those of the
    window from [po] on, which holds [s]. *)
Record ready (l : DList) (ids : list nat) (pb po : nat) (s : list (list ascii)) : Prop := {
  rd_chain : dl_chain l ids;
  rd_begin : points ids (begin_ l) pb;
  rd_end : points ids (end_ l) (pb + length s);
  rd_occ : forall i, (i < length ids)%nat ->
             occ (heap l) ids i = Some (Z.of_nat (overlap po (length s) i));
  rd_holds : holds (heap l) ids po s
}.

Lemma points_mod ids it p q : points ids it p -> (q / 128 = p / 128)%nat ->
  points ids (mkIt (it_node it) (Some (it_node it, Z.of_nat (q mod 128)))) q.
Proof. intros [Hid _] E. apply points_at; [by rewrite E|done]. Qed.

(** A window can be moved anywhere while it is empty. *)
Lemma empty_occ l ids pb pb' : dl_window l ids pb 0 -> forall i, (i < length ids)%nat ->
  occ (heap l) ids i = Some (Z.of_nat (overlap pb' 0 i)).
Proof. intros W i Hi. rewrite (wd_occ _ _ _ _ W) by done. by rewrite !overlap_0. Qed.

Lemma push_left_pos_spec l ids pb s :
  dl_chain l ids -> dl_window l ids pb (length s) -> holds (heap l) ids pb s ->
  exists l' ids' pb', push_left_pos l = Some l' /\ len_ l' = len_ l /\ ready l' ids' pb' (S pb') s.
Proof.
  intros Hc W Hh. pose proof (wd_begin _ _ _ _ W) as Wb. pose proof (wd_end _ _ _ _ W) as We.
  pose proof (wd_occ _ _ _ _ W) as Wo. unfold push_left_pos. destruct s as [|x s].
  { destruct Wb as [Eb Hb], We as [Ee _]. cbn [length] in *. rewrite Eb. cbn. rewrite Ee.
    destruct (elem_position _ _ Hb) as (i & Hi & Hlt).
    assert (points ids (mkIt (it_node (begin_ l)) (Some (it_node (begin_ l), 127))) (128 * i + 127))
      as Hp by (apply points_at; [by replace ((128 * i + 127) / 128)%nat with i by blocks|blocks]).
    eexists _, ids, (128 * i + 127)%nat. split; [done|]. split; [done|].
    split; cbn [length begin_ end_ with_begin with_end heap]; [by eapply dl_chain_ext|done|by rewrite Nat.add_0_r| |done].
    by eapply empty_occ. }
  cbn [length] in Wb, We, Wo. rewrite (points_ptr _ _ _ Wb).
  pose proof Wb as [Hbn _]. case_decide as Edge.
  - assert (pb mod 128 = 0)%nat as Em by (injection Edge; lia).
    destruct (chain_node l ids _ _ Hc Hbn) as (n & Hn & Hp & _). rewrite Hn. cbn [mbind option_bind].
    destruct (pb / 128)%nat as [|j] eqn:Ej; cbn in Hp.
    + assert (pb = 0%nat) as -> by blocks. rewrite Hp. cbn zeta.
      unfold modify_node. assert (it_node (begin_ l) <> next_id l) as Hne.
      { intros E. assert (it_node (begin_ l) ∈ ids) as Hin by (by eapply list_elem_of_lookup_2).
        pose proof (ch_fresh l ids Hc _ Hin). lia. }
      rewrite lookup_insert_ne, Hn by done. cbn [mbind option_bind].
      destruct (chain_new_left l ids (it_node (begin_ l)) _ n Hc Hbn Hn eq_refl
                  (mkIt (next_id l) (Some (next_id l, kBlockSize - 1)))) as (Hc' & Hs & Ho).
      eexists _, _, 127%nat. split; [done|]. split; [done|].
      split; cbn [length begin_ end_ heap]; [exact Hc'|by apply points_at| | |].
      * replace (127 + S (length s))%nat with (128 + (0 + length s))%nat by lia.
        destruct We as [We1 We2]. split; [|rewrite We2; unfold addr];
          (replace ((128 + (0 + length s)) / 128)%nat with (S ((0 + length s) / 128)) by blocks); [done|].
        by replace ((128 + (0 + length s)) mod 128)%nat with ((0 + length s) mod 128)%nat by blocks.
      * intros [|i] Hi; [rewrite Ho; do 2 f_equal; blocks|].
        change (occ ?h (?x :: ids) (S i)) with (occ h ids i). rewrite (occ_same (heap l)) by done.
        rewrite Wo by (cbn in Hi; lia). do 2 f_equal. blocks.
      * intros k y Hk. destruct (Hh k y Hk) as (d & Hd & Rd). exists d. split; [|done].
        change (S 127 + k)%nat with (128 + (0 + k))%nat. by rewrite cell_cons, (cell_same (heap l)).
    + rewrite Hp. assert (S j < length ids)%nat by (by eapply lookup_lt_Some).
      destruct (lookup_lt_is_Some_2 ids j) as [pr Hpr]; [lia|]. rewrite Hpr.
      destruct pb as [|pb]; [blocks|]. eexists _, ids, pb. split; [done|]. split; [done|].
      split; cbn [length begin_ end_ with_begin heap]; [by eapply dl_chain_ext| | |done|done].
      * apply points_at; [by replace (pb / 128)%nat with j by blocks|unfold kBlockSize; blocks].
      * by rewrite Nat.add_succ_r.
  - assert (pb mod 128 <> 0)%nat as Em by (intros E; apply Edge; by rewrite E).
    destruct pb as [|pb]; [blocks|]. eexists _, ids, pb. split; [done|]. split; [done|].
    split; cbn [length begin_ end_ with_begin heap fst snd]; [by eapply dl_chain_ext| | |done|done].
    + apply points_at; [|blocks]. rewrite <- Hbn. f_equal. blocks.
    + by rewrite Nat.add_succ_r.
Qed.

Lemma push_right_pos_spec l ids pb s :
  dl_chain l ids -> dl_window l ids pb (length s) -> holds (heap l) ids pb s ->
  exists l' ids' pb', push_right_pos l = Some l' /\ len_ l' = len_ l /\ ready l' ids' pb' pb' s.
Proof.
  intros Hc W Hh. pose proof (wd_begin _ _ _ _ W) as Wb. pose proof (wd_end _ _ _ _ W) as We.
  pose proof (wd_occ _ _ _ _ W) as Wo. pose proof (wd_fit _ _ _ _ W) as Wf.
  unfold push_right_pos. destruct s as [|x s].
  { destruct Wb as [Eb _], We as [Ee He]. cbn [length] in *. rewrite Ee. cbn. rewrite Eb.
    destruct (elem_position _ _ He) as (i & Hi & Hlt).
    assert (points ids (mkIt (it_node (end_ l)) (Some (it_node (end_ l), 0))) (128 * i))
      as Hp by (apply points_at; [by replace ((128 * i) / 128)%nat with i by blocks|blocks]).
    eexists _, ids, (128 * i)%nat. split; [done|]. split; [done|].
    split; cbn [length begin_ end_ with_begin with_end heap]; [by eapply dl_chain_ext|done|by rewrite Nat.add_0_r| |done].
    by eapply empty_occ. }
  cbn [length] in Wb, We, Wo, Wf. rewrite (points_ptr _ _ _ We).
  set (q := (pb + length s)%nat) in *.
  assert (pb + S (length s) = S q)%nat as Eq by (subst q; lia).
  pose proof We as [Hen _]. case_decide as Edge.
  - assert (q mod 128 = 127)%nat as Em by (unfold kBlockSize in Edge; injection Edge; lia).
    destruct (chain_node l ids _ _ Hc Hen) as (n & Hn & _ & Hx & _). rewrite Hn. cbn [mbind option_bind].
    destruct (ids !! S (q / 128)) as [nx|] eqn:Ex; rewrite Hx.
    + eexists _, ids, pb. split; [done|]. split; [done|].
      split; cbn [length begin_ end_ with_end heap]; [by eapply dl_chain_ext|done| |done|done].
      rewrite Eq. apply points_at; [|blocks]. by replace (S q / 128)%nat with (S (q / 128)) by blocks.
    + assert (length ids = S (q / 128)) as El.
      { apply lookup_ge_None in Ex. apply lookup_lt_Some in Hen. lia. }
      assert (last ids = Some (it_node (end_ l))) as Hlast by (by rewrite last_lookup, El).
      unfold modify_node. assert (it_node (end_ l) <> next_id l) as Hne.
      { intros E. assert (it_node (end_ l) ∈ ids) as Hin by (by eapply list_elem_of_lookup_2).
        pose proof (ch_fresh l ids Hc _ Hin). lia. }
      cbn zeta. rewrite lookup_insert_ne, Hn by done. cbn [mbind option_bind].
      destruct (chain_new_right l ids (it_node (end_ l)) _ n Hc Hlast Hn eq_refl
                  (mkIt (next_id l) (Some (next_id l, 0)))) as (Hc' & Hs & Ho).
      eexists _, _, pb. split; [done|]. split; [done|].
      split; cbn [length begin_ end_ heap]; [exact Hc'| | | |].
      * destruct Wb as [Wb1 Wb2]. split; [|rewrite Wb2; unfold addr]; by rewrite lookup_app_l by (by eapply lookup_lt_Some).
      * rewrite Eq. apply points_at; [|blocks]. replace (S q / 128)%nat with (length ids) by blocks.
        by apply list_lookup_middle.
      * intros i Hi. rewrite length_app in Hi. cbn in Hi. destruct (decide (i = length ids)) as [->|].
        -- rewrite Ho. do 2 f_equal. blocks.
        -- rewrite occ_snoc, (occ_same (heap l)) by (done || lia). apply Wo. lia.
      * intros k y Hk. destruct (Hh k y Hk) as (d & Hd & Rd). exists d. split; [|done].
        apply lookup_lt_Some in Hk. cbn in Hk. by rewrite cell_snoc, (cell_same (heap l)) by (done || lia).
  - assert (q mod 128 <> 127)%nat as Em by (intros E; apply Edge; unfold kBlockSize; f_equal; lia).
    eexists _, ids, pb. split; [done|]. split; [done|].
    split; cbn [length begin_ end_ with_end heap fst snd]; [by eapply dl_chain_ext|done| |done|done].
    rewrite Eq. apply points_at; [|blocks]. rewrite <- Hen. f_equal. blocks.
Qed.

(** The length stays in range of [size_t]. *)
Lemma len_incr (n : nat) : Z.of_nat n < 2 ^ 63 -> u64 (Z.of_nat n + 1) = Z.of_nat (S n).
Proof. intros. rewrite u64_small by (unfold in_u64, UINT64_MAX; lia). lia. Qed.

Lemma len_decr (n : nat) : Z.of_nat (S n) <= 2 ^ 63 -> u64 (Z.of_nat (S n) - 1) = Z.of_nat n.
Proof. intros. rewrite u64_small by (unfold in_u64, UINT64_MAX; lia). lia. Qed.

Lemma PushLeft_repr l s val : dl_repr l s -> fits val -> Z.of_nat (length s) < 2 ^ 63 ->
  exists l', PushLeft l val = Some l' /\ dl_repr l' (val :: s).
Proof.
  intros (ids & pb & Hc & W & El & Hmax & Hh) Hv Hs. unfold PushLeft.
  destruct (push_left_pos_spec l ids pb s Hc W Hh) as (l1 & ids1 & pb1 & -> & El1 & [Hc1 Hb1 He1 Ho1 Hh1]).
  cbn [mbind option_bind].
  destruct (put_window l1 ids1 (begin_ l1) pb1 pb1 (length s) val (overlap (S pb1) (length s)))
    as (l2 & d & -> & Hc2 & W2 & El2 & Rd & C); try done.
  { intros i. apply overlap_push_left. }
  exists l2. split; [done|]. exists ids1, pb1. split; [done|]. split; [done|].
  split; [by rewrite El2, El1, El, len_incr|]. split; [cbn; lia|].
  intros [|k] y Hk; cbn in Hk; rewrite C.
  - simplify_eq. exists d. by rewrite Nat.add_0_r, decide_True.
  - rewrite decide_False, Nat.add_succ_r by lia. by apply Hh1.
Qed.

Lemma PushRight_repr l s val : dl_repr l s -> fits val -> Z.of_nat (length s) < 2 ^ 63 ->
  exists l', PushRight l val = Some l' /\ dl_repr l' (s ++ [val]).
Proof.
  intros (ids & pb & Hc & W & El & Hmax & Hh) Hv Hs. unfold PushRight.
  destruct (push_right_pos_spec l ids pb s Hc W Hh) as (l1 & ids1 & pb1 & -> & El1 & [Hc1 Hb1 He1 Ho1 Hh1]).
  cbn [mbind option_bind].
  destruct (put_window l1 ids1 (end_ l1) (pb1 + length s) pb1 (length s) val (overlap pb1 (length s)))
    as (l2 & d & -> & Hc2 & W2 & El2 & Rd & C); try done.
  { intros i. apply overlap_push_right. }
  exists l2. split; [done|]. exists ids1, pb1. rewrite length_app, Nat.add_1_r. split; [done|]. split; [done|].
  split; [by rewrite El2, El1, El, len_incr|]. split; [lia|].
  intros k y Hk. rewrite C. apply lookup_app_Some in Hk as [Hk|[Hk Hy]].
  - pose proof (lookup_lt_Some _ _ _ Hk). rewrite decide_False by lia. by apply Hh1.
  - apply list_lookup_singleton_Some in Hy as [Ek <-]. exists d. rewrite decide_True by lia. done.
Qed.

(** ** Pop *)

(** The two iterators meet exactly when one element is left. *)
Lemma ends_meet l ids pb len : dl_chain l ids -> points ids (begin_ l) pb ->
  points ids (end_ l) (pb + len) -> it_ptr (begin_ l) = it_ptr (end_ l) <-> len = 0%nat.
Proof.
  intros Hc Hb He. split; [|intros ->].
  - intros E. pose proof (points_ptr _ _ _ Hb) as Pb. destruct Hb as [_ Hb], He as [_ He].
    rewrite E in Pb. rewrite <- E in He. rewrite Hb in He, E. rewrite <- E in Pb.
    pose proof (addr_inj ids pb (pb + len) _ (ch_nodup l ids Hc) Pb ltac:(by rewrite <- He)). lia.
  - destruct Hb as [_ ->], He as [_ ->]. by rewrite Nat.add_0_r.
Qed.

(** Removing the cell [p] from the count of its node. *)
Lemma occ_pop l l' ids pb len (ov : nat -> nat) p :
  dl_window l ids pb (S len) ->
  (forall j, occ (heap l') ids j =
     if decide (j = p / 128)%nat then (λ z, u16 (z - 1)) <$> occ (heap l) ids j else occ (heap l) ids j) ->
  (forall i, overlap pb (S len) i = (ov i + if decide (i = p / 128)%nat then 1 else 0)%nat) ->
  forall i, (i < length ids)%nat -> occ (heap l') ids i = Some (Z.of_nat (ov i)).
Proof.
  intros W O Hov i Hi. rewrite O, (wd_occ _ _ _ _ W), Hov by done.
  pose proof (overlap_le pb (S len) i). rewrite Hov in *.
  case_decide; cbn; [|by rewrite Nat.add_0_r]. rewrite u16_small by lia. f_equal. lia.
Qed.

Lemma points_in ids it p : points ids it p -> it_node it ∈ ids.
Proof. intros [H _]. by eapply list_elem_of_lookup_2. Qed.

Lemma pop_left_pos_spec l ids pb len : dl_chain l ids -> dl_window l ids pb (S len) ->
  exists l', pop_left_pos l (it_node (begin_ l), Z.of_nat (pb mod 128)) = Some l' /\
    dl_chain l' ids /\ dl_window l' ids (S pb) len /\ len_ l' = len_ l /\
    forall q, cell (heap l') ids q = cell (heap l) ids q.
Proof.
  intros Hc W. pose proof (wd_begin _ _ _ _ W) as Wb. pose proof (wd_end _ _ _ _ W) as We.
  pose proof (wd_fit _ _ _ _ W) as Wf. cbn in Wb, We. pose proof Wb as [Hbn _].
  pose proof (ends_meet l ids pb len Hc Wb We) as Hmeet.
  pose proof (overlap_push_left pb len) as Hov.
  unfold pop_left_pos. destruct (decide (it_ptr (begin_ l) = it_ptr (end_ l))) as [E|E].
  { apply Hmeet in E as ->.
    destruct (dec_occupied_spec l ids _ _ Hc Hbn) as (l1 & -> & Hc1 & Eb & Ee & El & C & O).
    cbn [mbind option_bind]. eexists. split; [done|]. split; [by eapply dl_chain_ext|]. split; [|done].
    split; cbn [heap begin_ end_ with_begin with_end it_ptr it_node]; [|lia| |].
    - by eapply (occ_pop l l1 ids pb 0).
    - split; [done|]. by eapply points_in.
    - split; [done|]. rewrite Ee. by eapply points_in. }
  destruct len as [|len]; [destruct E; by apply Hmeet|].
  case_decide as Edge.
  - assert (pb mod 128 = 127)%nat as Em by (unfold kBlockSize in Edge; injection Edge; lia).
    destruct (chain_node l ids _ _ Hc Hbn) as (n & Hn & _ & Hx & _). rewrite Hn. cbn [mbind option_bind].
    destruct (lookup_lt_is_Some_2 ids (S (pb / 128))) as [nx Enx]; [blocks|]. rewrite Hx, Enx.
    destruct (dec_occupied_spec l ids _ _ Hc Hbn) as (l1 & -> & Hc1 & Eb & Ee & El & C & O).
    cbn [mbind option_bind]. eexists. split; [done|]. split; [by eapply dl_chain_ext|]. split; [|done].
    split; cbn [heap begin_ end_ with_begin it_ptr it_node]; [|lia| |].
    + by eapply (occ_pop l l1 ids pb (S len)).
    + apply points_at; [by replace (S pb / 128)%nat with (S (pb / 128)) by blocks|blocks].
    + rewrite Ee, Nat.add_succ_comm. done.
  - assert (pb mod 128 <> 127)%nat as Em by (intros Em; apply Edge; unfold kBlockSize; f_equal; lia).
    destruct (dec_occupied_spec (with_begin (mkIt (it_node (begin_ l))
        (Some (it_node (begin_ l), Z.of_nat (pb mod 128) + 1))) l) ids (pb / 128)%nat (it_node (begin_ l)))
      as (l1 & E1 & Hc1 & Eb & Ee & El & C & O); [by eapply dl_chain_ext|done|].
    cbn [fst snd] in E1 |- *. rewrite E1. exists l1. split; [done|]. split; [done|]. split; [|done].
    split; [|lia| |].
    + by eapply (occ_pop l l1 ids pb (S len)).
    + rewrite Eb. cbn. apply points_at; [|blocks]. rewrite <- Hbn. f_equal. blocks.
    + rewrite Ee. cbn. rewrite <- Nat.add_succ_r. done.
Qed.

Lemma pop_right_pos_spec l ids pb len : dl_chain l ids -> dl_window l ids pb (S len) ->
  exists l', pop_right_pos l (it_node (end_ l), Z.of_nat ((pb + len) mod 128)) = Some l' /\
    dl_chain l' ids /\ dl_window l' ids pb len /\ len_ l' = len_ l /\
    forall q, cell (heap l') ids q = cell (heap l) ids q.
Proof.
  intros Hc W. pose proof (wd_begin _ _ _ _ W) as Wb. pose proof (wd_end _ _ _ _ W) as We.
  pose proof (wd_fit _ _ _ _ W) as Wf. cbn in Wb, We. pose proof We as [Hen _].
  pose proof (ends_meet l ids pb len Hc Wb We) as Hmeet.
  pose proof (overlap_push_right pb len) as Hov.
  unfold pop_right_pos. destruct (decide (it_ptr (begin_ l) = it_ptr (end_ l))) as [E|E].
  { apply Hmeet in E as ->.
    destruct (dec_occupied_spec l ids _ _ Hc Hen) as (l1 & -> & Hc1 & Eb & Ee & El & C & O).
    cbn [mbind option_bind]. eexists. split; [done|]. split; [by eapply dl_chain_ext|]. split; [|done].
    split; cbn [heap begin_ end_ with_begin with_end it_ptr it_node]; [|lia| |].
    - by eapply (occ_pop l l1 ids pb 0).
    - split; [done|]. rewrite Eb. by eapply points_in.
    - split; [done|]. by eapply points_in. }
  destruct len as [|len]; [destruct E; by apply Hmeet|].
  set (q := (pb + S len)%nat) in *.
  case_decide as Edge.
  - assert (q mod 128 = 0)%nat as Em by (injection Edge; lia).
    destruct (chain_node l ids _ _ Hc Hen) as (n & Hn & Hp & _). rewrite Hn. cbn [mbind option_bind].
    destruct (q / 128)%nat as [|j] eqn:Ej; [blocks|]. cbn in Hp. rewrite Hp.
    assert (S j < length ids)%nat by (by eapply lookup_lt_Some).
    destruct (lookup_lt_is_Some_2 ids j) as [pr Hpr]; [lia|]. rewrite Hpr.
    destruct (dec_occupied_spec l ids _ _ Hc Hen) as (l1 & -> & Hc1 & Eb & Ee & El & C & O).
    cbn [mbind option_bind]. eexists. split; [done|]. split; [by eapply dl_chain_ext|]. split; [|done].
    split; cbn [heap begin_ end_ with_end it_ptr it_node]; [|lia| |].
    + eapply (occ_pop l l1 ids pb (S len) _ q); [done|by rewrite Ej|]. by rewrite Ej.
    + by rewrite Eb.
    + apply points_at; [|unfold kBlockSize; blocks]. by replace ((pb + len) / 128)%nat with j by blocks.
  - assert (q mod 128 <> 0)%nat as Em by (intros Em; apply Edge; by rewrite Em).
    destruct (dec_occupied_spec (with_end (mkIt (it_node (end_ l))
        (Some (it_node (end_ l), Z.of_nat (q mod 128) - 1))) l) ids (q / 128)%nat (it_node (end_ l)))
      as (l1 & E1 & Hc1 & Eb & Ee & El & C & O); [by eapply dl_chain_ext|done|].
    cbn [fst snd] in E1 |- *. rewrite E1. exists l1. split; [done|]. split; [done|]. split; [|done].
    split; [|lia| |].
    + by eapply (occ_pop l l1 ids pb (S len)).
    + rewrite Eb. done.
    + rewrite Ee. cbn. apply points_at; [|blocks]. rewrite <- Hen. f_equal. blocks.
Qed.

Lemma DList_new_repr : dl_repr DList_new [].
Proof.
  exists [0; 1]%nat, 0%nat. split; [|split; [|split; [done|split; [cbn; lia|done]]]].
  - split; try done.
    + repeat constructor; set_solver.
    + intros [|[|i]] id Hi; cbn in Hi; simplify_eq; (eexists; split; [reflexivity|]);
        (do 3 (split; [done|])); by apply Forall_replicate.
    + intros id. cbn. rewrite !lookup_insert_is_Some, lookup_empty, !elem_of_cons, elem_of_nil.
      rewrite is_Some_alt. destruct (decide (0 = id)%nat), (decide (1 = id)%nat); naive_solver.
    + intros id. rewrite !elem_of_cons, elem_of_nil. cbn. lia.
  - split; cbn; [|lia|split; [done|set_solver]|split; [done|set_solver]].
    intros [|[|i]] Hi; [done..|lia].
Qed.

Lemma PopLeft_repr l s : dl_repr l s ->
  match s with
  | [] => PopLeft l = Some (l, ds_null)
  | x :: s => exists l' d, PopLeft l = Some (l', d) /\ ds_val d x /\ dl_repr l' s
  end.
Proof.
  intros (ids & pb & Hc & W & El & Hmax & Hh). unfold PopLeft, DList_Empty. destruct s as [|x s].
  { by rewrite El. }
  rewrite El. destruct (Z.eqb_spec (Z.of_nat (length (x :: s))) 0) as [E|_]; [cbn in E; lia|].
  pose proof (wd_begin _ _ _ _ W) as Wb. cbn [length] in Wb. rewrite (points_ptr _ _ _ Wb).
  cbn [mbind option_bind].
  destruct (pop_left_pos_spec l ids pb (length s) Hc W) as (l1 & -> & Hc1 & W1 & El1 & C1).
  cbn [mbind option_bind]. destruct (Hh 0%nat x eq_refl) as (d & Hd & Rd). rewrite Nat.add_0_r in Hd.
  destruct (take_elem_spec l1 ids (begin_ l) pb d x) as (l2 & r & -> & Rr & Hc2 & Eb & Ee & El2 & C2 & O2); try done.
  { by rewrite C1. }
  exists l2, r. split; [done|]. split; [done|]. exists ids, (S pb). cbn [length] in El, Hmax.
  split; [done|]. split; [|split; [|split; [lia|]]].
  - destruct W1. split; rewrite ?Eb, ?Ee; try done. intros i Hi. by rewrite O2; auto.
  - rewrite El2, El1, El. by apply len_decr.
  - intros k y Hk. rewrite C2, C1 by lia. replace (S pb + k)%nat with (pb + S k)%nat by lia. by apply Hh.
Qed.

Lemma PopRight_repr l s : dl_repr l s ->
  match last s with
  | None => PopRight l = Some (l, ds_null)
  | Some x => exists l' d, PopRight l = Some (l', d) /\ ds_val d x /\ dl_repr l' (removelast s)
  end.
Proof.
  intros (ids & pb & Hc & W & El & Hmax & Hh). unfold PopRight, DList_Empty.
  destruct s as [|x s] using rev_ind; [by cbn; rewrite El|]. clear IHs.
  rewrite last_snoc, removelast_last, El, length_app, Nat.add_1_r in *.
  destruct (Z.eqb_spec (Z.of_nat (S (length s))) 0) as [E|_]; [lia|].
  pose proof (wd_end _ _ _ _ W) as We. cbn beta iota in We. rewrite (points_ptr _ _ _ We).
  cbn [mbind option_bind].
  destruct (pop_right_pos_spec l ids pb (length s) Hc W) as (l1 & -> & Hc1 & W1 & El1 & C1).
  cbn [mbind option_bind]. destruct (Hh (length s) x) as (d & Hd & Rd); [by apply list_lookup_middle|].
  destruct (take_elem_spec l1 ids (end_ l) (pb + length s) d x)
    as (l2 & r & -> & Rr & Hc2 & Eb & Ee & El2 & C2 & O2); try done.
  { by rewrite C1. }
  exists l2, r. split; [done|]. split; [done|]. exists ids, pb.
  split; [done|]. split; [|split; [|split; [lia|]]].
  - destruct W1. split; rewrite ?Eb, ?Ee; try done. intros i Hi. by rewrite O2; auto.
  - rewrite El2, El1, El. by apply len_decr.
  - intros k y Hk. pose proof (lookup_lt_Some _ _ _ Hk). rewrite C2, C1 by lia. apply Hh.
    by rewrite lookup_app_l.
Qed.

(** ** Traversal *)

(** The cells of [seq p n], in order. *)
Definition cells (h : gmap nat Node) (ids : list nat) (p n : nat) (ds : list DynamicString) : Prop :=
  Forall2 (λ q d, cell h ids q = Some d) (seq p n) ds.

Lemma cells_exist l ids p n : dl_chain l ids -> (p + n <= 128 * length ids)%nat ->
  exists ds, cells (heap l) ids p n ds.
Proof.
  intros Hc. revert p. induction n as [|n IH]; intros p Hp; [exists []; constructor|].
  destruct (IH (S p)) as [ds Hds]; [lia|].
  destruct (cell_lookup l ids p Hc) as (d & Hd & _); [lia|]. exists (d :: ds). by constructor.
Qed.

Lemma cells_app h ids p m n ds : cells h ids p (m + n) ds ->
  exists d1 d2, ds = d1 ++ d2 /\ cells h ids p m d1 /\ cells h ids (p + m) n d2.
Proof.
  unfold cells. rewrite seq_app. intros H. apply Forall2_app_inv_l in H as (d1 & d2 & H1 & H2 & ->).
  eauto.
Qed.

(** The strings in the window. *)
Lemma holds_cells h ids pb s ds : holds h ids pb s -> cells h ids pb (length s) ds ->
  Forall2 ds_val ds s.
Proof.
  intros Hh Hc. apply Forall2_same_length_lookup_2.
  - apply Forall2_length in Hc. rewrite length_seq in Hc. lia.
  - intros k d x Hd Hx. destruct (Hh k x Hx) as (d' & Hd' & Rd).
    pose proof (lookup_lt_Some _ _ _ Hx).
    assert (seq pb (length s) !! k = Some (pb + k)%nat) as Hk by (by apply lookup_seq_lt).
    pose proof (Forall2_lookup_lr _ _ _ _ _ _ Hc Hk Hd) as Hcd. cbn beta in Hcd.
    rewrite Hd' in Hcd. by simplify_eq.
Qed.

Lemma deref_at h ids id p i : ids !! i = Some id -> (p / 128 = i)%nat ->
  deref h (id, Z.of_nat (p mod 128)) = cell h ids p.
Proof.
  intros Hid <-. apply (deref_cell h ids (mkIt id (Some (id, Z.of_nat (p mod 128))))).
  by apply points_at.
Qed.

Lemma read_cells_spec h ids i id p n ds : ids !! i = Some id -> (128 * i <= p)%nat ->
  (p + n <= 128 * S i)%nat -> cells h ids p n ds ->
  read_cells h (id, Z.of_nat (p - 128 * i)) n = Some (ds, (id, Z.of_nat (p + n - 128 * i))).
Proof.
  intros Hid. revert p ds. induction n as [|n IH]; intros p ds Hp Hn Hc; inversion Hc; subst.
  { cbn. by rewrite Nat.add_0_r. }
  cbn [read_cells]. replace (p - 128 * i)%nat with (p mod 128)%nat by blocks.
  rewrite (deref_at h ids id p i) by (done || blocks).
  match goal with H : cell _ _ p = Some _ |- _ => rewrite H end. cbn [mbind option_bind fst snd].
  replace (Z.of_nat (p mod 128) + 1) with (Z.of_nat (S p - 128 * i)) by blocks.
  rewrite (IH (S p) l') by (done || lia). cbn. by rewrite Nat.add_succ_r.
Qed.

(** From block [i] on, the loop visits the rest of the window. *)
Lemma all_elems_spec fuel l ids pb len i id ds : dl_chain l ids -> dl_window l ids pb len ->
  (length ids < fuel + i)%nat -> ids !! i = Some id -> (pb < 128 * S i)%nat ->
  cells (heap l) ids (Nat.max pb (128 * i)) (pb + len - Nat.max pb (128 * i)) ds ->
  all_elems fuel (heap l) (Some id) (Some (id, Z.of_nat (Nat.max pb (128 * i) - 128 * i))) = Some ds.
Proof.
  intros Hc W. revert i id ds. induction fuel as [|fuel IH]; intros i id ds Hf Hid Hpb Hds.
  { apply lookup_lt_Some in Hid. lia. }
  set (p := Nat.max pb (128 * i)) in *. pose proof (lookup_lt_Some _ _ _ Hid) as Hi.
  destruct (chain_node l ids i id Hc Hid) as (n & Hn & _ & Hx & _).
  pose proof (wd_occ _ _ _ _ W i Hi) as Ho. unfold occ in Ho. rewrite Hid in Ho. cbn in Ho.
  rewrite Hn in Ho. cbn in Ho. injection Ho as Ho.
  cbn [all_elems]. rewrite Hn. cbn [mbind option_bind]. rewrite Ho.
  set (m := overlap pb len i) in *. destruct (Z.ltb_spec 0 (Z.of_nat m)) as [Hm|Hm].
  - assert (pb + len - p = m + (pb + len - Nat.max pb (128 * S i)))%nat as Esplit by (subst m p; blocks).
    assert (p + m <= 128 * S i)%nat as Hend by (subst m p; blocks).
    rewrite Esplit in Hds. apply cells_app in Hds as (d1 & d2 & -> & H1 & H2).
    rewrite Nat2Z.id, (read_cells_spec _ ids i id p m d1) by (done || lia). cbn [mbind option_bind].
    rewrite Hx. pose proof (wd_fit _ _ _ _ W) as Wf. destruct (ids !! S i) as [nx|] eqn:Enx.
    + destruct (decide (pb + len <= 128 * S i)%nat) as [Hlast|Hmore].
      * replace (pb + len - Nat.max pb (128 * S i))%nat with 0%nat in H2 by lia. inversion H2; subst d2.
        destruct fuel as [|fuel]; [lia|]. specialize (IH (S i) nx [] ltac:(lia) Enx ltac:(lia)).
        replace (Nat.max pb (128 * S i) - 128 * S i)%nat with 0%nat in IH by lia. change (Z.of_nat 0) with 0 in IH.
        rewrite IH; [done|]. replace (pb + len - Nat.max pb (128 * S i))%nat with 0%nat by lia. constructor.
      * specialize (IH (S i) nx d2 ltac:(lia) Enx ltac:(lia)).
        replace (Nat.max pb (128 * S i) - 128 * S i)%nat with 0%nat in IH by lia. change (Z.of_nat 0) with 0 in IH.
        rewrite IH; [done|]. replace (Nat.max pb (128 * S i)) with (p + m)%nat at 1 by (subst m p; blocks). done.
    + apply lookup_ge_None in Enx.
      replace (pb + len - Nat.max pb (128 * S i))%nat with 0%nat in H2 by lia. inversion H2; subst d2.
      destruct fuel as [|fuel]; [lia|]. cbn. by rewrite app_nil_r.
  - replace (pb + len - p)%nat with 0%nat in Hds by (subst m p; blocks). by inversion Hds.
Qed.

Lemma heap_size l ids : dl_chain l ids -> size (heap l) = length ids.
Proof.
  intros Hc. rewrite <- (size_dom (D:=gset nat)).
  replace (dom (heap l)) with (list_to_set ids : gset nat).
  - apply size_list_to_set, (ch_nodup l ids Hc).
  - apply set_eq. intros id. rewrite elem_of_list_to_set, elem_of_dom. symmetry. apply (ch_heap l ids Hc).
Qed.

(** The traversal of a whole list yields its elements. *)
Lemma all_elems_repr l s : dl_repr l s -> s <> [] ->
  exists ds, all_elems (fuel_of l) (heap l) (Some (it_node (begin_ l))) (it_ptr (begin_ l)) = Some ds /\
    Forall2 ds_val ds s.
Proof.
  intros (ids & pb & Hc & W & El & Hmax & Hh) Hs. destruct s as [|x s]; [done|].
  pose proof (wd_begin _ _ _ _ W) as Wb. cbn [length] in Wb. pose proof Wb as [Hbn _].
  rewrite (points_ptr _ _ _ Wb).
  destruct (cells_exist l ids pb (length (x :: s)) Hc) as [ds Hds]; [apply (wd_fit _ _ _ _ W)|].
  exists ds. split; [|by eapply holds_cells].
  pose proof (all_elems_spec (fuel_of l) l ids pb (length (x :: s)) (pb / 128)%nat (it_node (begin_ l)) ds Hc W) as H.
  replace (Nat.max pb (128 * (pb / 128)))%nat with pb in H by blocks.
  replace (pb - 128 * (pb / 128))%nat with (pb mod 128)%nat in H by blocks. apply H.
  - unfold fuel_of. rewrite (heap_size l ids Hc). lia.
  - done.
  - blocks.
  - by replace (pb + length (x :: s) - pb)%nat with (length (x :: s)) by lia.
Qed.

(** ** Indexing and ranges *)

Lemma hop_spec l ids n i id : dl_chain l ids -> ids !! i = Some id -> (i + n <= length ids)%nat ->
  hop (heap l) n (Some id) = Some (ids !! (i + n)%nat).
Proof.
  intros Hc. revert i id. induction n as [|n IH]; intros i id Hi Hn; cbn.
  { by rewrite Nat.add_0_r, Hi. }
  destruct (chain_node l ids i id Hc Hi) as (nd & Hnd & _ & Hx & _). rewrite Hnd. cbn. rewrite Hx.
  destruct (ids !! S i) as [nx|] eqn:Ex.
  - rewrite (IH (S i) nx) by (done || lia). by replace (S i + n)%nat with (i + S n)%nat by lia.
  - apply lookup_ge_None in Ex. pose proof (lookup_lt_Some _ _ _ Hi).
    assert (n = 0%nat) as -> by lia. cbn. rewrite lookup_ge_None_2; [done|lia].
Qed.

(** The count of the first node. *)
Lemma begin_occupied l ids pb len : dl_chain l ids -> dl_window l ids pb (S len) ->
  exists n, heap l !! it_node (begin_ l) = Some n /\
    n_occupied n = Z.of_nat (overlap pb (S len) (pb / 128)).
Proof.
  intros Hc W. pose proof (wd_begin _ _ _ _ W) as [Hbn _].
  destruct (chain_node l ids _ _ Hc Hbn) as (n & Hn & _). exists n. split; [done|].
  pose proof (wd_occ _ _ _ _ W _ (lookup_lt_Some _ _ _ Hbn)) as Ho.
  unfold occ in Ho. rewrite Hbn in Ho. cbn in Ho. rewrite Hn in Ho. by injection Ho.
Qed.

(** [NodeAtIndex] finds the block and the offset of an element; in the first
    block the offset is relative to the first element. *)
Lemma NodeAtIndex_spec l ids pb len k : dl_chain l ids -> dl_window l ids pb (S len) ->
  (k <= len)%nat -> Z.of_nat k <= INT32_MAX ->
  if decide (k < overlap pb (S len) (pb / 128))%nat
  then NodeAtIndex l (Z.of_nat k) = Some (Some (it_node (begin_ l)), -1, Z.of_nat k) /\
       ((pb + k) / 128 = pb / 128)%nat
  else exists c, NodeAtIndex l (Z.of_nat k) =
         Some (ids !! ((pb + k) / 128)%nat, c, Z.of_nat ((pb + k) mod 128)) /\
       ((pb + k) / 128 <> pb / 128)%nat.
Proof.
  intros Hc W Hk Hmax. destruct (begin_occupied l ids pb len Hc W) as (n & Hn & Ho).
  pose proof (wd_begin _ _ _ _ W) as [Hbn _]. pose proof (wd_fit _ _ _ _ W) as Wf.
  unfold NodeAtIndex, INT32_MAX in *. rewrite Hn. cbn [mbind option_bind]. rewrite Ho.
  set (o := overlap pb (S len) (pb / 128)) in *. case_decide as Hlt.
  - rewrite (proj2 (Z.ltb_lt _ _)) by lia. rewrite i32_small by (unfold in_i32, INT32_MIN, INT32_MAX; lia).
    split; [done|]. subst o. blocks.
  - rewrite (proj2 (Z.ltb_ge _ _)) by lia. rewrite u64_small by (unfold in_u64, UINT64_MAX; lia).
    rewrite i32_small by (unfold in_i32, INT32_MIN, INT32_MAX; lia).
    assert (pb + k = 128 * S (pb / 128) + (k - o))%nat as Epos by (subst o; blocks).
    rewrite Z.quot_div_nonneg, Z.rem_mod_nonneg by (unfold kBlockSize; lia).
    replace ((Z.of_nat k - Z.of_nat o) / kBlockSize + 1)
      with (Z.of_nat (S ((k - o) / 128))) by (unfold kBlockSize; blocks).
    replace ((Z.of_nat k - Z.of_nat o) mod kBlockSize)
      with (Z.of_nat ((pb + k) mod 128)) by (unfold kBlockSize; rewrite Epos; blocks).
    rewrite Nat2Z.id, (hop_spec l ids _ (pb / 128)%nat) by (done || blocks). cbn [mbind option_bind].
    eexists. split; [|blocks].
    by replace (pb / 128 + S ((k - o) / 128))%nat with ((pb + k) / 128)%nat by blocks.
Qed.

(** [operator\[\]] returns the address of the element, or throws. *)
Lemma DList_index_spec l ids pb (s : list (list ascii)) k : dl_chain l ids -> dl_window l ids pb (length s) ->
  len_ l = Z.of_nat (length s) -> Z.of_nat k <= INT32_MAX ->
  match s !! k with
  | None => DList_index l (Z.of_nat k) = Some (inl out_of_range)
  | Some _ => exists it, points ids it (pb + k) /\
      DList_index l (Z.of_nat k) = Some (inr (it_node it, Z.of_nat ((pb + k) mod 128)))
  end.
Proof.
  intros Hc W El Hmax. unfold DList_index. rewrite Z.geb_leb, El.
  destruct (s !! k) as [x|] eqn:Ek.
  2: { apply lookup_ge_None in Ek. by rewrite (proj2 (Z.leb_le _ _)) by lia. }
  apply lookup_lt_Some in Ek. rewrite (proj2 (Z.leb_gt _ _)) by lia.
  destruct (length s) as [|len]; [lia|].
  destruct (begin_occupied l ids pb len Hc W) as (n & Hn & Ho). rewrite Hn. cbn [mbind option_bind]. rewrite Ho.
  pose proof (NodeAtIndex_spec l ids pb len k Hc W ltac:(lia) Hmax) as HN.
  pose proof (wd_begin _ _ _ _ W) as Wb. pose proof (wd_fit _ _ _ _ W) as Wf. cbn beta iota in Wb.
  case_decide as Hlt.
  - destruct HN as [_ Eq]. rewrite (proj2 (Z.ltb_lt _ _)) by lia. rewrite (points_ptr _ _ _ Wb).
    cbn [mbind option_bind fst snd]. exists (mkIt (it_node (begin_ l)) (addr ids (pb + k))).
    destruct Wb as [Hbn _]. split; [split; [by rewrite Eq|done]|]. cbn. do 3 f_equal. blocks.
  - destruct HN as (c & -> & Hne). rewrite (proj2 (Z.ltb_ge _ _)) by lia. cbn [mbind option_bind].
    destruct (lookup_lt_is_Some_2 ids ((pb + k) / 128)) as [id Hid]; [blocks|].
    exists (mkIt id (addr ids (pb + k))). split; [by split|]. by rewrite Hid.
Qed.

Lemma DList_get_spec l s k : dl_repr l s -> Z.of_nat k <= INT32_MAX ->
  match s !! k with
  | None => DList_get l (Z.of_nat k) = Some (inl out_of_range)
  | Some x => exists d, DList_get l (Z.of_nat k) = Some (inr d) /\ ds_val d x
  end.
Proof.
  intros (ids & pb & Hc & W & El & Hmax & Hh) Hk. unfold DList_get.
  pose proof (DList_index_spec l ids pb s k Hc W El Hk) as HI.
  destruct (s !! k) as [x|] eqn:Ek; [|by rewrite HI].
  destruct HI as (it & Hp & ->). cbn [mbind option_bind]. rewrite (deref_cell _ ids) by done.
  destruct (Hh k x Ek) as (d & -> & Rd). cbn. eauto.
Qed.

Lemma DList_set_spec l s k val : dl_repr l s -> Z.of_nat k <= INT32_MAX -> fits val ->
  match s !! k with
  | None => DList_set l (Z.of_nat k) val = Some (inl out_of_range)
  | Some _ => exists l', DList_set l (Z.of_nat k) val = Some (inr l') /\ dl_repr l' (<[k := val]> s)
  end.
Proof.
  intros (ids & pb & Hc & W & El & Hmax & Hh) Hk Hv. unfold DList_set.
  pose proof (DList_index_spec l ids pb s k Hc W El Hk) as HI.
  destruct (s !! k) as [x|] eqn:Ek; [|by rewrite HI].
  destruct HI as (it & Hp & ->). cbn [mbind option_bind]. rewrite (deref_cell _ ids) by done.
  destruct (Hh k x Ek) as (d0 & -> & Rd0). cbn [mbind option_bind].
  destruct (Reset_std_repr d0 x val (proj1 Rd0) Hv) as (d & -> & Rd & Nd). cbn [mbind option_bind].
  destruct (assign_spec l ids it (pb + k) d Hc Hp (ds_repr_ok _ _ Rd)) as (h & -> & Hc1 & C1 & O1).
  cbn [mbind option_bind]. eexists. split; [done|]. exists ids, pb. rewrite length_insert.
  split; [done|]. split; [|split; [done|split; [done|]]].
  - destruct W. split; try done. cbn. intros i Hi. rewrite O1. auto.
  - intros j y Hj. cbn. rewrite C1. destruct (decide (j = k)) as [->|Hne].
    + rewrite list_lookup_insert_eq in Hj by (by eapply lookup_lt_Some). simplify_eq.
      rewrite decide_True by done. exists d. split; [done|]. by apply ds_val_of.
    + rewrite list_lookup_insert_ne in Hj by done. rewrite decide_False by lia. by apply Hh.
Qed.

Lemma read_block_spec h ids i id p m ds : ids !! i = Some id -> (128 * i <= p <= 128 * S i)%nat ->
  let k := Nat.min m (128 * S i - p) in
  cells h ids p k ds ->
  read_block h id (id, Z.of_nat (p - 128 * i)) m =
    Some (ds, (id, Z.of_nat (p + k - 128 * i)), (m - k)%nat).
Proof.
  intros Hid. revert p ds. induction m as [|m IH]; intros p ds Hp k Hc; cbn [read_block].
  { inversion Hc. subst k. cbn. by rewrite Nat.add_0_r. }
  case_decide as Edge.
  - assert (p = 128 * S i)%nat as -> by (unfold kBlockSize in Edge; injection Edge; lia).
    assert (k = 0%nat) as Ek by lia. rewrite Ek in *. inversion Hc. by rewrite Nat.add_0_r, Nat.sub_0_r.
  - assert (p < 128 * S i)%nat as Hlt.
    { destruct (decide (p = 128 * S i)%nat) as [->|]; [|lia]. destruct Edge. unfold kBlockSize. f_equal. lia. }
    set (k' := Nat.min m (128 * S i - S p)).
    assert (k = S k') as Ek by (subst k k'; lia). rewrite Ek in Hc. inversion Hc as [|? d ? l' Hd Hl]; subst.
    replace (p - 128 * i)%nat with (p mod 128)%nat by blocks.
    rewrite (deref_at h ids id p i) by (done || blocks). rewrite Hd. cbn [mbind option_bind fst snd].
    replace (Z.of_nat (p mod 128) + 1) with (Z.of_nat (S p - 128 * i)) by blocks.
    rewrite (IH (S p) l') by (done || lia). fold k'. cbn [mbind option_bind].
    rewrite Ek. by replace (S p + k')%nat with (p + S k')%nat by lia.
Qed.

(** The loop of the range functions reads [m] cells from [p] on. *)
Lemma range_elems_spec fuel l ids pb len i id p m ds : dl_chain l ids -> dl_window l ids pb len ->
  (length ids < fuel + i)%nat -> ids !! i = Some id -> (pb <= p)%nat -> (128 * i <= p < 128 * S i)%nat ->
  (p + m <= pb + len)%nat -> cells (heap l) ids p m ds ->
  range_elems fuel (heap l) (Some id) (id, Z.of_nat (p - 128 * i)) m = Some ds.
Proof.
  intros Hc W. revert i id p m ds.
  induction fuel as [|fuel IH]; intros i id p m ds Hf Hid Hpb Hp Hm Hds.
  { apply lookup_lt_Some in Hid. lia. }
  pose proof (lookup_lt_Some _ _ _ Hid) as Hi.
  destruct (chain_node l ids i id Hc Hid) as (n & Hn & _ & Hx & _).
  pose proof (wd_occ _ _ _ _ W i Hi) as Ho. unfold occ in Ho. rewrite Hid in Ho. cbn in Ho.
  rewrite Hn in Ho. cbn in Ho. injection Ho as Ho.
  cbn [range_elems]. rewrite Hn. cbn [mbind option_bind]. rewrite Ho.
  destruct m as [|m]; [inversion Hds; by rewrite andb_false_r|].
  rewrite (proj2 (Z.ltb_lt _ _)) by blocks. rewrite bool_decide_false by done. cbn [negb andb].
  set (k := Nat.min (S m) (128 * S i - p)).
  replace (S m) with (k + (S m - k))%nat in Hds by lia. apply cells_app in Hds as (d1 & d2 & -> & H1 & H2).
  rewrite (read_block_spec _ ids i id p (S m) d1) by (done || lia). fold k. cbn [mbind option_bind].
  rewrite Hx. destruct (ids !! S i) as [nx|] eqn:Enx.
  - assert (cells (heap l) ids (128 * S i) (S m - k) d2) as H2'.
    { destruct (decide (k = 128 * S i - p)%nat) as [E|].
      - by replace (p + k)%nat with (128 * S i)%nat in H2 by lia.
      - replace (S m - k)%nat with 0%nat in * by lia. inversion H2. constructor. }
    specialize (IH (S i) nx (128 * S i)%nat (S m - k)%nat d2 ltac:(lia) Enx ltac:(lia) ltac:(lia)).
    rewrite Nat.sub_diag in IH. change (Z.of_nat 0) with 0 in IH.
    destruct (decide (k = S m)) as [Ek|].
    + rewrite Ek, Nat.sub_diag in *. inversion H2'; subst d2.
      destruct fuel as [|fuel]; [lia|]. cbn [range_elems].
      destruct (chain_node l ids (S i) nx Hc Enx) as (n' & Hn' & _). rewrite Hn'. cbn [mbind option_bind].
      rewrite bool_decide_true, andb_false_r by done. by cbn.
    + rewrite IH; [done|lia|done].
  - apply lookup_ge_None in Enx. pose proof (wd_fit _ _ _ _ W).
    replace (S m - k)%nat with 0%nat in H2 by lia. inversion H2; subst d2.
    destruct fuel as [|fuel]; [lia|]. cbn. by rewrite app_nil_r.
Qed.

(** The elements from [start] to [finish], both within the list. *)
Lemma range_ptrs_spec l s (a b : nat) : dl_repr l s -> (a <= b < length s)%nat ->
  Z.of_nat (length s) <= INT32_MAX ->
  exists ds, range_ptrs l (Z.of_nat a) (Z.of_nat b) = Some ds /\
    Forall2 ds_val ds (take (b - a + 1) (drop a s)).
Proof.
  intros (ids & pb & Hc & W & El & Hmax & Hh) Hab Hlen. unfold INT32_MAX in Hlen.
  destruct (cells_exist l ids (pb + a) (b - a + 1) Hc) as [ds Hds]; [pose proof (wd_fit _ _ _ _ W); lia|].
  exists ds. split.
  2: { apply (holds_cells (heap l) ids (pb + a)).
       - intros k x Hk. apply lookup_take_Some in Hk as [Hk _]. rewrite lookup_drop in Hk.
         rewrite <- Nat.add_assoc. by apply Hh.
       - rewrite length_take, length_drop. by replace (_ `min` _)%nat with (b - a + 1)%nat by lia. }
  unfold range_ptrs, DList_Empty. rewrite El.
  rewrite (proj2 (Z.eqb_neq _ _)), Z.gtb_ltb, (proj2 (Z.ltb_ge _ _)) by lia. cbn [orb].
  rewrite (u64_small (_ - 1)), i32_small by (unfold in_u64, in_i32, UINT64_MAX, INT32_MIN, INT32_MAX; lia).
  rewrite Z.min_l by lia.
  rewrite chk32_some by (unfold in_i32, INT32_MIN, INT32_MAX; lia). cbn [mbind option_bind].
  rewrite chk32_some by (unfold in_i32, INT32_MIN, INT32_MAX; lia). cbn [mbind option_bind].
  rewrite u64_small by (unfold in_u64, UINT64_MAX; lia).
  destruct (length s) as [|len] eqn:Els; [lia|].
  pose proof (wd_begin _ _ _ _ W) as Wb. pose proof (wd_fit _ _ _ _ W) as Wf. cbn beta iota in Wb.
  pose proof (NodeAtIndex_spec l ids pb len a Hc W ltac:(lia) ltac:(unfold INT32_MAX; lia)) as HN.
  replace (Z.to_nat (Z.of_nat b - Z.of_nat a + 1)) with (b - a + 1)%nat by lia.
  assert (forall id, ids !! ((pb + a) / 128)%nat = Some id ->
    range_elems (fuel_of l) (heap l) (Some id) (id, Z.of_nat ((pb + a) mod 128)) (b - a + 1) = Some ds) as Hrun.
  { intros id Hid. replace ((pb + a) mod 128)%nat with (pb + a - 128 * ((pb + a) / 128))%nat by blocks.
    eapply (range_elems_spec _ l ids pb (S len)); try done; try lia; try blocks.
    unfold fuel_of. rewrite (heap_size l ids Hc). lia. }
  case_decide as Hlt.
  - destruct HN as [-> Eq]. cbn [mbind option_bind]. rewrite decide_True by done.
    rewrite (points_ptr _ _ _ Wb). cbn [mbind option_bind fst snd].
    replace (Z.of_nat (pb mod 128) + Z.of_nat a) with (Z.of_nat ((pb + a) mod 128)) by blocks.
    apply Hrun. rewrite Eq. apply Wb.
  - destruct HN as (c & -> & Hne). cbn [mbind option_bind].
    destruct (lookup_lt_is_Some_2 ids ((pb + a) / 128)) as [id Hid]; [blocks|]. rewrite Hid.
    cbn [mbind option_bind]. rewrite decide_False; [by apply Hrun|].
    intros ->. apply Hne. destruct Wb as [Hbn _]. by eapply NoDup_lookup; [apply (ch_nodup l)| |].
Qed.

(** The end of a range is clipped to the last element. *)
Lemma range_ptrs_clip l s (a : nat) f : dl_repr l s -> (a < length s)%nat -> Z.of_nat a <= f ->
  Z.of_nat (length s) <= INT32_MAX ->
  range_ptrs l (Z.of_nat a) f = range_ptrs l (Z.of_nat a) (Z.of_nat (Nat.min (Z.to_nat f) (length s - 1))).
Proof.
  intros (ids & pb & Hc & W & El & Hmax & Hh) Ha Hf Hl. unfold INT32_MAX in Hl. unfold range_ptrs, DList_Empty. rewrite El.
  rewrite (u64_small (_ - 1)), i32_small by (unfold in_u64, in_i32, UINT64_MAX, INT32_MIN, INT32_MAX; lia).
  rewrite !Z.gtb_ltb, !(proj2 (Z.ltb_ge _ (Z.of_nat a))) by lia.
  replace (Z.min (Z.of_nat (Nat.min (Z.to_nat f) (length s - 1))) (Z.of_nat (length s) - 1))
    with (Z.min f (Z.of_nat (length s) - 1)) by lia. done.
Qed.

Lemma RangeAsStdStringVector_repr l s : dl_repr l s -> RangeAsStdStringVector l = Some s.
Proof.
  intros Hr. unfold RangeAsStdStringVector, DList_Empty. pose proof Hr as (ids & pb & _ & _ & El & _).
  rewrite El. destruct s as [|x s]; [done|].
  rewrite (proj2 (Z.eqb_neq _ _)) by (cbn; lia).
  destruct (all_elems_repr l (x :: s) Hr) as (ds & -> & Hds); [done|]. cbn [mbind option_bind]. f_equal.
  clear -Hds. induction Hds as [|d y ds ys Hd _ IH]; [done|]. cbn. f_equal; [by apply ds_val_data|done].
Qed.

(** ** Sequences of operations *)

Inductive list_op :=
  | LPushLeft (val : list ascii)
  | LPushRight (val : list ascii)
  | LPopLeft
  | LPopRight
  | LGet (idx : nat)
  | LSet (idx : nat) (val : list ascii)
  | LRange.

Inductive list_reply :=
  | LNone
  | LLength (n : Z)
  | LElem (x : list ascii)
  | LThrow (e : exn)
  | LElems (l : list (list ascii)).

Definition list_exec (l : DList) (o : list_op) : option (DList * list_reply) :=
  match o with
  | LPushLeft val => l ← PushLeft l val; Some (l, LLength (DList_Length l))
  | LPushRight val => l ← PushRight l val; Some (l, LLength (DList_Length l))
  | LPopLeft => '(l, d) ← PopLeft l; Some (l, LElem (ds_data d))
  | LPopRight => '(l, d) ← PopRight l; Some (l, LElem (ds_data d))
  | LGet idx =>
      r ← DList_get l (Z.of_nat idx);
      Some (l, match r with inl e => LThrow e | inr d => LElem (ds_data d) end)
  | LSet idx val =>
      r ← DList_set l (Z.of_nat idx) val;
      match r with inl e => Some (l, LThrow e) | inr l => Some (l, LNone) end
  | LRange => r ← RangeAsStdStringVector l; Some (l, LElems r)
  end.

Fixpoint list_run (l : DList) (ops : list list_op) : option (DList * list list_reply) :=
  match ops with
  | [] => Some (l, [])
  | o :: ops => '(l, r) ← list_exec l o; '(l, rs) ← list_run l ops; Some (l, r :: rs)
  end.

(** The abstract list: a sequence of byte strings. Popping an empty list returns
    the empty string. *)
Definition list_spec (s : list (list ascii)) (o : list_op) : list (list ascii) * list_reply :=
  match o with
  | LPushLeft val => (val :: s, LLength (Z.of_nat (S (length s))))
  | LPushRight val => (s ++ [val], LLength (Z.of_nat (S (length s))))
  | LPopLeft => match s with [] => ([], LElem []) | x :: s => (s, LElem x) end
  | LPopRight => match last s with None => (s, LElem []) | Some x => (removelast s, LElem x) end
  | LGet idx => (s, match s !! idx with None => LThrow out_of_range | Some x => LElem x end)
  | LSet idx val =>
      match s !! idx with None => (s, LThrow out_of_range) | Some _ => (<[idx:=val]> s, LNone) end
  | LRange => (s, LElems s)
  end.

Fixpoint list_spec_run (s : list (list ascii)) (ops : list list_op) : list (list ascii) * list list_reply :=
  match ops with
  | [] => (s, [])
  | o :: ops => let '(s, r) := list_spec s o in let '(s, rs) := list_spec_run s ops in (s, r :: rs)
  end.

Definition list_op_fits (o : list_op) : Prop :=
  match o with
  | LPushLeft val | LPushRight val => fits val
  | LGet idx => Z.of_nat idx <= INT32_MAX
  | LSet idx val => Z.of_nat idx <= INT32_MAX /\ fits val
  | _ => True
  end.

Lemma repr_length l s : dl_repr l s -> DList_Length l = Z.of_nat (length s).
Proof. by intros (ids & pb & _ & _ & El & _). Qed.

Lemma list_exec_spec l s o : dl_repr l s -> Z.of_nat (length s) < 2 ^ 63 -> list_op_fits o ->
  exists l' s' r, list_exec l o = Some (l', r) /\ list_spec s o = (s', r) /\ dl_repr l' s' /\
    (length s' <= S (length s))%nat.
Proof.
  intros Hr Hs Ho. destruct o as [val|val| | |idx|idx val|]; cbn [list_exec list_spec list_op_fits] in *.
  - destruct (PushLeft_repr l s val Hr Ho Hs) as (l' & -> & Hr'). cbn [mbind option_bind].
    rewrite (repr_length l' _ Hr'). eexists _, _, _. do 3 (split; [done|]). cbn. lia.
  - destruct (PushRight_repr l s val Hr Ho Hs) as (l' & -> & Hr'). cbn [mbind option_bind].
    rewrite (repr_length l' _ Hr'), length_app, Nat.add_1_r. eexists _, _, _. do 3 (split; [done|]).
    rewrite length_app. cbn. lia.
  - pose proof (PopLeft_repr l s Hr) as HP. destruct s as [|x s].
    + rewrite HP. cbn. eexists _, _, _. do 3 (split; [done|]). cbn. lia.
    + destruct HP as (l' & d & -> & Rd & Hr'). cbn [mbind option_bind]. rewrite (ds_val_data _ _ Rd).
      eexists _, _, _. do 3 (split; [done|]). cbn. lia.
  - pose proof (PopRight_repr l s Hr) as HP. destruct (last s) as [x|] eqn:El.
    + destruct HP as (l' & d & -> & Rd & Hr'). cbn [mbind option_bind]. rewrite (ds_val_data _ _ Rd).
      eexists _, _, _. do 3 (split; [done|]). apply last_Some in El as [s0 ->].
      rewrite removelast_last, length_app. lia.
    + rewrite HP. cbn [mbind option_bind]. eexists _, _, _. do 3 (split; [done|]). lia.
  - pose proof (DList_get_spec l s idx Hr Ho) as HG. destruct (s !! idx) as [x|].
    + destruct HG as (d & -> & Rd). cbn [mbind option_bind]. rewrite (ds_val_data _ _ Rd).
      eexists _, _, _. do 3 (split; [done|]). lia.
    + rewrite HG. cbn. eexists _, _, _. do 3 (split; [done|]). lia.
  - destruct Ho as [Hi Hv]. pose proof (DList_set_spec l s idx val Hr Hi Hv) as HG.
    destruct (s !! idx) as [x|].
    + destruct HG as (l' & -> & Hr'). cbn. eexists _, _, _. do 3 (split; [done|]). rewrite length_insert. lia.
    + rewrite HG. cbn. eexists _, _, _. do 3 (split; [done|]). lia.
  - rewrite (RangeAsStdStringVector_repr l s Hr). cbn. eexists _, _, _. do 3 (split; [done|]). lia.
Qed.

Lemma list_run_spec ops l s : dl_repr l s -> Forall list_op_fits ops ->
  Z.of_nat (length s + length ops) < 2 ^ 63 ->
  exists l' s' rs, list_run l ops = Some (l', rs) /\ list_spec_run s ops = (s', rs) /\ dl_repr l' s'.
Proof.
  intros Hr Ho. revert l s Hr. induction Ho as [|o ops Ho Hops IH]; intros l s Hr Hs; cbn; [eauto 6|].
  destruct (list_exec_spec l s o Hr) as (l1 & s1 & r & -> & -> & Hr1 & Hl); [cbn in Hs; lia|done|].
  cbn [mbind option_bind]. destruct (IH l1 s1 Hr1) as (l2 & s2 & rs & -> & -> & Hr2); [cbn in Hs; lia|].
  cbn. eauto 6.
Qed.

(** C12. From an empty list, every sequence of pushes and pops at both ends,
    indexed reads and writes, and traversals runs without following a bad
    pointer and returns exactly the replies of a sequence of byte strings; a
    pop of the empty list returns the empty string and an index out of range
    throws. The window of cells may cross any number of blocks. *)
Theorem DList_refines_list (ops : list list_op) :
  Forall list_op_fits ops -> Z.of_nat (length ops) < 2 ^ 63 ->
  exists l s rs, list_run DList_new ops = Some (l, rs) /\ list_spec_run [] ops = (s, rs) /\ dl_repr l s.
Proof. intros Ho Hn. by apply list_run_spec; [apply DList_new_repr| |]. Qed.

Lemma DList_refines_list_witness :
  exists l s rs, list_run DList_new [LPushLeft (bs "a"); LPushRight (bs "b"); LPopLeft; LGet 0; LRange] = Some (l, rs) /\
    list_spec_run [] [LPushLeft (bs "a"); LPushRight (bs "b"); LPopLeft; LGet 0; LRange] = (s, rs) /\ dl_repr l s.
Proof.
  apply DList_refines_list; [|cbn; lia].
  repeat constructor; unfold list_op_fits, fits, INT32_MAX; cbn; lia.
Defined.

(** [RangeAsStdStringVector(start, finish)] with both bounds in the list
    returns the elements from [start] to [finish] inclusive, across the blocks. *)
Lemma DList_range (l : DList) (s : list (list ascii)) (a b : nat) :
  dl_repr l s -> (a <= b < length s)%nat -> Z.of_nat (length s) <= INT32_MAX ->
  RangeAsStdStringVector_range l (Z.of_nat a) (Z.of_nat b) = Some (take (b - a + 1) (drop a s)).
Proof.
  intros Hr Hab Hl. unfold RangeAsStdStringVector_range.
  destruct (range_ptrs_spec l s a b Hr Hab Hl) as (ds & -> & Hds). cbn [mbind option_bind]. f_equal.
  clear -Hds. induction Hds as [|d y ds ys Hd _ IH]; [done|]. cbn. f_equal; [by apply ds_val_data|done].
Qed.

Lemma DList_range_witness : exists l s, dl_repr l s /\
  RangeAsStdStringVector_range l 0 0 = Some (take 1 (drop 0 s)).
Proof.
  destruct (PushRight_repr DList_new [] (bs "a") DList_new_repr) as (l & _ & Hr);
    [unfold fits; cbn; lia|cbn; lia|].
  exists l, [bs "a"]. split; [done|].
  apply (DList_range l [bs "a"] 0 0 Hr); [cbn; lia|unfold INT32_MAX; cbn; lia].
Defined.

(** ** Destruction *)

Lemma free_all_spec ids fuel h i : NoDup ids -> (i <= length ids < fuel + i)%nat ->
  (forall id, is_Some (h !! id) <-> id ∈ drop i ids) ->
  (forall j id n, (i <= j)%nat -> ids !! j = Some id -> h !! id = Some n -> n_next n = ids !! S j) ->
  free_all fuel h (ids !! i) = Some ∅.
Proof.
  intros Hnd. revert h i. induction fuel as [|fuel IH]; intros h i Hf Hdom Hnext; [lia|]. cbn.
  destruct (ids !! i) as [id|] eqn:Ei.
  - pose proof (lookup_lt_Some _ _ _ Ei) as Hi. pose proof (drop_S _ _ _ Ei) as Ed.
    destruct (proj2 (Hdom id)) as [n Hn]; [rewrite Ed; left|]. rewrite Hn. cbn.
    rewrite (Hnext i id n) by done. apply IH; [lia| |].
    + intros jd. rewrite lookup_delete_is_Some, Hdom, Ed, elem_of_cons.
      assert (id ∉ drop (S i) ids) as Hni.
      { intros Hin. apply list_elem_of_lookup in Hin as [k Hk]. rewrite lookup_drop in Hk.
        pose proof (NoDup_lookup _ _ _ _ Hnd Ei Hk). lia. }
      split; [naive_solver|]. intros Hj. split; [congruence|by right].
    + intros j jd m Hj Hjd Hm. apply lookup_delete_Some in Hm as [_ Hm]. apply (Hnext j jd); [lia|done..].
  - rewrite drop_ge in Hdom by (by apply lookup_ge_None). f_equal. apply map_empty. intros id.
    apply eq_None_not_Some. rewrite Hdom. apply not_elem_of_nil.
Qed.

(** The destructor frees every node of the list exactly once: [FreeNodes]
    follows no freed pointer and leaves no node allocated. *)
Lemma FreeNodes_frees_all (l : DList) (s : list (list ascii)) : dl_repr l s ->
  exists l', FreeNodes l = Some l' /\ heap l' = ∅.
Proof.
  intros (ids & pb & Hc & _). unfold FreeNodes. rewrite (ch_head l ids Hc).
  rewrite (free_all_spec ids); [by eexists|by apply (ch_nodup l)| | |].
  - unfold fuel_of. rewrite (heap_size l ids Hc). lia.
  - intros id. by rewrite drop_0, (ch_heap l ids Hc).
  - intros j id n _ Hj Hn. destruct (chain_node l ids j id Hc Hj) as (n' & Hn' & _ & Hx & _). by simplify_eq.
Qed.

Lemma FreeNodes_frees_all_witness : exists l', FreeNodes DList_new = Some l' /\ heap l' = ∅.
Proof. apply (FreeNodes_frees_all DList_new []), DList_new_repr. Defined.

(** [FreeRedundantNodes] on a new list frees the node [begin_] points to and
    then reads it: the behaviour is undefined. *)
Lemma FreeRedundantNodes_empty_undefined : FreeRedundantNodes DList_new = None.
Proof. vm_compute. reflexivity. Qed.
