(* ===== verification/Core.v ===== *)
(** * Core: the values and the key space of src/valueobject.h,
    src/valueobject.cpp, src/core.h and src/core.cpp

    A [KVContainer] has [kBucketSize] buckets, each a map from keys to values, and
    the pool of all keys. A [Key] is a [StaticString] made from a [std::string];
    its contents have no NUL, so that [KeyEqual] is equality of contents, and the
    model uses the contents. The [std::unordered_map] of a bucket is a finite map.
    A [shared_ptr] to a value is the value: no caller keeps one across an
    operation. [now] is the clock reading an operation takes; an operation returns
    the container, its result and the value of [errcode]; [None] is undefined
    behaviour. Allocation does not fail. *)

From S2P Require Import Prelude Encoding Numerals Str Hash DList.
From Stdlib Require Import QArith.
From stdpp Require Import list fin_maps.

Local Open Scope Z_scope.

(** ** Values *)

Definition OBJECT_INT : Z := 1.
Definition OBJECT_STRING : Z := 2.
Definition OBJECT_LIST : Z := 3.
Definition OBJECT_HASH : Z := 4.
Definition OBJECT_SET : Z := 5.

(** The [void *ptr] of a value: an integer stored in the pointer, or the object
    it points to. *)
Inductive Payload :=
  | PInt (n : Z)
  | PStr (d : DynamicString)
  | PList (l : DList)
  | PDict (d : HashDict)
  | PSet (s : HashSet).

Record ValueObject := mkVO { vo_type : Z; vo_lv_time : Z; vo_ptr : Payload }.

(** [RetrievePtr(key, Type)]: using the pointer at another type is not defined. *)
Definition as_str (o : ValueObject) : option DynamicString :=
  match vo_ptr o with PStr d => Some d | _ => None end.
Definition as_list (o : ValueObject) : option DList :=
  match vo_ptr o with PList l => Some l | _ => None end.
Definition as_dict (o : ValueObject) : option HashDict :=
  match vo_ptr o with PDict d => Some d | _ => None end.
Definition as_set (o : ValueObject) : option HashSet :=
  match vo_ptr o with PSet s => Some s | _ => None end.

Definition with_ptr (p : Payload) (o : ValueObject) : ValueObject := mkVO (vo_type o) (vo_lv_time o) p.
Definition with_lv_time (now : Z) (o : ValueObject) : ValueObject := mkVO (vo_type o) now (vo_ptr o).

(** [ToInt64()]: the bits of the pointer. *)
Definition ToInt64 (o : ValueObject) : option Z :=
  if negb (vo_type o =? OBJECT_INT) then Some 0
  else match vo_ptr o with PInt n => Some n | _ => None end.

Definition vo_ToStdString (o : ValueObject) : option (list ascii) :=
  if negb (vo_type o =? OBJECT_STRING) then Some [] else d ← as_str o; Some (ToStdString d).

Definition ConstructIntObjPtr (now intval : Z) : ValueObject := mkVO OBJECT_INT now (PInt intval).
Definition ConstructStrObjPtr (now : Z) (strval : list ascii) : option ValueObject :=
  d ← DynamicString_std always_ok strval; Some (mkVO OBJECT_STRING now (PStr d)).
Definition ConstructDListObjPtr (now : Z) : ValueObject := mkVO OBJECT_LIST now (PList DList_new).
Definition ConstructHashObjPtr (now : Z) : ValueObject := mkVO OBJECT_HASH now (PDict (Rehashable_new 1%Q)).
Definition ConstructSetObjPtr (now : Z) : ValueObject := mkVO OBJECT_SET now (PSet (Rehashable_new 1%Q)).

(** The constructors of plain pointers; [obj_ok] and [data_ok] say whether the object and
    its data could be allocated. *)
Definition ConstructIntObj (obj_ok : bool) (now intval : Z) : option ValueObject :=
  if obj_ok then Some (mkVO OBJECT_INT now (PInt intval)) else None.
Definition ConstructStrObj (obj_ok data_ok : bool) (now : Z) (strval : list ascii) : option ValueObject :=
  if obj_ok && data_ok then d ← DynamicString_std always_ok strval; Some (mkVO OBJECT_STRING now (PStr d)) else None.
Definition ConstructDListObj (obj_ok data_ok : bool) (now : Z) : option ValueObject :=
  if obj_ok && data_ok then Some (mkVO OBJECT_LIST now (PList DList_new)) else None.
Definition ConstructHashObj (obj_ok data_ok : bool) (now : Z) : option ValueObject :=
  if obj_ok && data_ok then Some (mkVO OBJECT_HASH now (PDict (Rehashable_new 1%Q))) else None.
Definition ConstructSetObj (obj_ok data_ok : bool) (now : Z) : option ValueObject :=
  if obj_ok && data_ok then Some (mkVO OBJECT_SET now (PSet (Rehashable_new 1%Q))) else None.

(** [ValueObject::Serialize]. *)
Definition vo_Serialize (o : ValueObject) (buf : list ascii) : option (Z * list ascii) :=
  if vo_type o =? OBJECT_INT then
    n ← ToInt64 o;
    '(cnt, enc) ← EncodeVarSignedInt64 n (Some (replicate 10 NUL));
    enc ← enc;
    let buf := buf ++ take (Z.to_nat cnt) enc in
    Some (Z.of_nat (length buf), buf)
  else
    '(_, buf) ←
      (if vo_type o =? OBJECT_HASH then d ← as_dict o; HashDict_Serialize d buf
       else if vo_type o =? OBJECT_SET then s ← as_set o; HashSet_Serialize s buf
       else match vo_ptr o with
            | PStr d => ds_Serialize d buf
            | PList l => DList_Serialize l buf
            | _ => None
            end);
    Some (Z.of_nat (length buf), buf).

(** ** The container *)

Definition kBucketSize : Z := 512.

Definition kOkCode : Z := 200.
Definition kFailCode : Z := 400.
Definition kKeyNotFoundCode : Z := 401.
Definition kWrongTypeCode : Z := 402.
Definition kOutOfRangeCode : Z := 403.
Definition kOverflowCode : Z := 404.

Abbreviation HashMap := (gmap (list ascii) ValueObject).

Record KVContainer := mkKV { bucket_ : list HashMap; keys_pool_ : list (list ascii) }.

Definition KVContainer_new : KVContainer := mkKV (replicate 512 ∅) [].

(** [Key(str)] for a [std::string]: its contents. *)
Definition Key_std (str : list ascii) : list ascii := default [] (StaticString_std str).

(** The index [GetBucket] computes; it is below [kBucketSize]. *)
Definition bucket_idx (key : list ascii) : nat := Z.to_nat (Time33Hash key mod kBucketSize).

Definition GetBucket (c : KVContainer) (key : list ascii) : HashMap :=
  default ∅ (bucket_ c !! bucket_idx key).

(** [bucket.content.find(key)]. *)
Definition kv_find (c : KVContainer) (key : list ascii) : option ValueObject := GetBucket c key !! key.

(** A change of the object [bucket.content\[key\]] points to. *)
Definition put (c : KVContainer) (key : list ascii) (o : ValueObject) : KVContainer :=
  mkKV (<[bucket_idx key := <[key := o]> (GetBucket c key)]> (bucket_ c)) (keys_pool_ c).

(** [bucket.content\[key\] = obj; keys_pool_.emplace_back(key);]. *)
Definition add (c : KVContainer) (key : list ascii) (o : ValueObject) : KVContainer :=
  mkKV (bucket_ (put c key o)) (keys_pool_ c ++ [key]).

(** The macros [IfKeyNotFoundThenReturn] and [IfKeyNotTypeThenReturn]: the rest of
    the operation runs on the object found. *)
Definition found {R} (c : KVContainer) (key : list ascii) (retval : R)
  (rest : ValueObject -> option (KVContainer * R * Z)) : option (KVContainer * R * Z) :=
  match kv_find c key with
  | None => Some (c, retval, kKeyNotFoundCode)
  | Some o => rest o
  end.

Definition typed {R} (c : KVContainer) (key : list ascii) (target_type : Z) (retval : R)
  (rest : ValueObject -> option (KVContainer * R * Z)) : option (KVContainer * R * Z) :=
  found c key retval (λ o,
    if negb (vo_type o =? target_type) then Some (c, retval, kWrongTypeCode) else rest o).

Definition QueryObjectType (c : KVContainer) (key : list ascii) : Z :=
  match kv_find c key with None => -1 | Some o => vo_type o end.

Definition KeyExists (c : KVContainer) (key : list ascii) : bool := bool_decide (is_Some (kv_find c key)).

Definition KeyExists_all (c : KVContainer) (keys : list (list ascii)) : Z :=
  foldl (λ ans key, if KeyExists c (Key_std key) then ans + 1 else ans) 0 keys.

Definition NumItems (c : KVContainer) : Z :=
  foldl (λ cnt b, u64 (cnt + Z.of_nat (size b))) 0 (bucket_ c).

(** ** Integers and strings *)

Definition SetInt (now : Z) (c : KVContainer) (key : list ascii) (intval : Z) : KVContainer * bool :=
  match kv_find c key with
  | None => (add c key (ConstructIntObjPtr now intval), true)
  | Some _ => (put c key (mkVO OBJECT_INT now (PInt intval)), true)
  end.

Definition IncrIntBy (now : Z) (c : KVContainer) (key : list ascii) (increment : Z)
  : option (KVContainer * Z * Z) :=
  match kv_find c key with
  | None => Some (add c key (ConstructIntObjPtr now increment), increment, kOkCode)
  | Some o =>
      if negb (vo_type o =? OBJECT_INT) then Some (c, 0, kWrongTypeCode)
      else
        let o := with_lv_time now o in
        val ← ToInt64 o;
        limit ← chk64 (INT64_MAX - increment);
        if val >? limit then Some (put c key o, 0, kOverflowCode)
        else
          ans ← chk64 (val + increment);
          Some (put c key (with_ptr (PInt ans) o), ans, kOkCode)
  end.

Definition DecrIntBy (now : Z) (c : KVContainer) (key : list ascii) (decrement : Z)
  : option (KVContainer * Z * Z) :=
  match kv_find c key with
  | None =>
      neg ← chk64 (- decrement);
      Some (add c key (ConstructIntObjPtr now neg), neg, kOkCode)
  | Some o =>
      if negb (vo_type o =? OBJECT_INT) then Some (c, 0, kWrongTypeCode)
      else
        let o := with_lv_time now o in
        val ← ToInt64 o;
        limit ← chk64 (INT64_MIN + decrement);
        if val <? limit then Some (put c key o, 0, kOverflowCode)
        else
          ans ← chk64 (val - decrement);
          Some (put c key (with_ptr (PInt ans) o), ans, kOkCode)
  end.

Definition SetString (now : Z) (c : KVContainer) (key value : list ascii) : option (KVContainer * bool) :=
  match kv_find c key with
  | None => o ← ConstructStrObjPtr now value; Some (add c key o, true)
  | Some o =>
      let type := vo_type o in
      if type =? OBJECT_STRING then
        d ← as_str o;
        d ← Reset_std always_ok d value;
        Some (put c key (mkVO OBJECT_STRING now (PStr d)), true)
      else if (type =? OBJECT_INT) || (type =? OBJECT_LIST) || (type =? OBJECT_HASH) || (type =? OBJECT_SET) then
        d ← DynamicString_std always_ok value;
        Some (put c key (mkVO OBJECT_STRING now (PStr d)), true)
      else Some (put c key (mkVO OBJECT_STRING now (vo_ptr o)), true)
  end.

(** [StrLen]: the last branch compares [errcode] with [kWrongTypeCode] instead of
    assigning it, so the caller's value [errcode] stays. *)
Definition StrLen (now : Z) (c : KVContainer) (key : list ascii) (errcode : Z)
  : option (KVContainer * Z * Z) :=
  found c key 0 (λ o,
    if vo_type o =? OBJECT_INT then
      match vo_ptr o with
      | PInt num => Some (put c key (with_lv_time now o), Z.of_nat (length (to_string num)), kOkCode)
      | _ => None
      end
    else if vo_type o =? OBJECT_STRING then
      d ← as_str o; Some (put c key (with_lv_time now o), ds_len d, kOkCode)
    else Some (c, 0, errcode)).

Definition Get (now : Z) (c : KVContainer) (key : list ascii)
  : option (KVContainer * option ValueObject * Z) :=
  found c key None (λ o,
    if negb (vo_type o =? OBJECT_INT) && negb (vo_type o =? OBJECT_STRING)
    then Some (c, None, kWrongTypeCode)
    else
      let o := with_lv_time now o in
      Some (put c key o, Some o, kOkCode)).

(** [std::remove(p)] on the pool, then [erase]. *)
Definition kv_Delete (c : KVContainer) (key : list ascii) : KVContainer * bool :=
  match kv_find c key with
  | None => (c, false)
  | Some _ =>
      (mkKV (<[bucket_idx key := delete key (GetBucket c key)]> (bucket_ c))
         (filter (λ k, k <> key) (keys_pool_ c)), true)
  end.

Fixpoint kv_Delete_all (c : KVContainer) (keys : list (list ascii)) : KVContainer * Z :=
  match keys with
  | [] => (c, 0)
  | key :: keys =>
      let '(c, b) := kv_Delete c (Key_std key) in
      let '(c, n) := kv_Delete_all c keys in
      (c, if b : bool then n + 1 else n)
  end.

Definition kv_Append (now : Z) (c : KVContainer) (key val : list ascii) : option (KVContainer * Z * Z) :=
  match kv_find c key with
  | None =>
      o ← ConstructStrObjPtr now val;
      d ← as_str o;
      Some (add c key o, ds_len d, kOkCode)
  | Some o =>
      if vo_type o =? OBJECT_STRING then
        d ← as_str o;
        d ← Append_std always_ok d val;
        Some (put c key (mkVO OBJECT_STRING now (PStr d)), ds_len d, kOkCode)
      else if vo_type o =? OBJECT_INT then
        num ← ToInt64 o;
        d ← DynamicString_std always_ok (to_string num);
        d ← Append_std always_ok d val;
        Some (put c key (mkVO OBJECT_STRING now (PStr d)), ds_len d, kOkCode)
      else Some (c, 0, kWrongTypeCode)
  end.

(** ** Lists *)

Definition push1 (leftpush : bool) (l : DList) (val : list ascii) : option DList :=
  if leftpush then PushLeft l val else PushRight l val.

(** [ListPushAuxCommon]: the container with the list in it, and the object. *)
Definition push_target (now : Z) (c : KVContainer) (key : list ascii) : KVContainer * option ValueObject :=
  match kv_find c key with
  | None => let o := ConstructDListObjPtr now in (add c key o, Some o)
  | Some o => if negb (vo_type o =? OBJECT_LIST) then (c, None) else (c, Some o)
  end.

Definition ListPushAux (now : Z) (c : KVContainer) (key val : list ascii) (leftpush : bool)
  : option (KVContainer * bool * Z) :=
  match push_target now c key with
  | (c, None) => Some (c, false, kWrongTypeCode)
  | (c, Some o) =>
      l ← as_list o;
      l ← push1 leftpush l val;
      Some (put c key (with_lv_time now (with_ptr (PList l) o)), true, kOkCode)
  end.

Fixpoint push_all (leftpush : bool) (l : DList) (values : list (list ascii)) : option DList :=
  match values with
  | [] => Some l
  | val :: values => l ← push1 leftpush l val; push_all leftpush l values
  end.

Definition ListPushAux_all (now : Z) (c : KVContainer) (key : list ascii) (values : list (list ascii))
  (leftpush : bool) : option (KVContainer * Z * Z) :=
  match push_target now c key with
  | (c, None) => Some (c, 0, kWrongTypeCode)
  | (c, Some o) =>
      l ← as_list o;
      l ← push_all leftpush l values;
      Some (put c key (with_lv_time now (with_ptr (PList l) o)), DList_Length l, kOkCode)
  end.

Definition LeftPush (now : Z) (c : KVContainer) (key : list ascii) (values : list (list ascii)) :=
  ListPushAux_all now c (Key_std key) values true.
Definition RightPush (now : Z) (c : KVContainer) (key : list ascii) (values : list (list ascii)) :=
  ListPushAux_all now c (Key_std key) values false.

Definition ListPopAux (now : Z) (c : KVContainer) (key : list ascii) (leftpop : bool)
  : option (KVContainer * DynamicString * Z) :=
  typed c key OBJECT_LIST ds_null (λ o,
    l ← as_list o;
    '(l, d) ← (if leftpop then PopLeft l else PopRight l);
    Some (put c key (with_lv_time now (with_ptr (PList l) o)), d, kOkCode)).

Definition LeftPop (now : Z) (c : KVContainer) (key : list ascii) := ListPopAux now c key true.
Definition RightPop (now : Z) (c : KVContainer) (key : list ascii) := ListPopAux now c key false.

(** The indices of [ListRangeCommonOperation]: [None] when it returns early. *)
Definition range_bounds (list_len begin end' : Z) : option (option (Z * Z)) :=
  begin ← (if begin <? 0 then chk32 (begin + list_len) else Some begin);
  end' ← (if end' <? 0 then chk32 (end' + list_len) else Some end');
  Some (if (begin <? 0) && (0 <? end') then Some (0, end')
        else if ((0 <? begin) && (end' <? 0)) || ((begin <? 0) && (end' <? 0)) then None
        else Some (begin, end')).

Definition ListRange (now : Z) (c : KVContainer) (key : list ascii) (begin end' : Z)
  : option (KVContainer * list DynamicString * Z) :=
  typed c key OBJECT_LIST [] (λ o,
    l ← as_list o;
    bounds ← range_bounds (i32 (DList_Length l)) begin end';
    match bounds with
    | None => Some (c, [], kOkCode)
    | Some (begin, end') =>
        ds ← RangeAsDynaStringVector_range l begin end';
        Some (put c key (with_lv_time now o), ds, kOkCode)
    end).

Definition ListRangeAsStdString (now : Z) (c : KVContainer) (key : list ascii) (begin end' : Z)
  : option (KVContainer * list (list ascii) * Z) :=
  typed c key OBJECT_LIST [] (λ o,
    l ← as_list o;
    bounds ← range_bounds (i32 (DList_Length l)) begin end';
    match bounds with
    | None => Some (c, [], kOkCode)
    | Some (begin, end') =>
        ds ← RangeAsStdStringVector_range l begin end';
        Some (put c key (with_lv_time now o), ds, kOkCode)
    end).

Definition ListLen (now : Z) (c : KVContainer) (key : list ascii) : option (KVContainer * Z * Z) :=
  typed c key OBJECT_LIST 0 (λ o,
    l ← as_list o; Some (put c key (with_lv_time now o), DList_Length l, kOkCode)).

Definition ListItemAtIndex (now : Z) (c : KVContainer) (key : list ascii) (index : Z)
  : option (KVContainer * DynamicString * Z) :=
  typed c key OBJECT_LIST ds_null (λ o,
    l ← as_list o;
    index ← (if index <? 0 then chk32 (index + i32 (DList_Length l)) else Some index);
    if index <? 0 then Some (c, ds_null, kFailCode)
    else
      let c := put c key (with_lv_time now o) in
      r ← DList_get l index;
      match r with
      | inr d => d ← DynamicString_copy always_ok d; Some (c, d, kOkCode)
      | inl _ => Some (c, ds_null, kFailCode)
      end).

Definition ListSetItemAtIndex (now : Z) (c : KVContainer) (key : list ascii) (index : Z) (val : list ascii)
  : option (KVContainer * bool * Z) :=
  typed c key OBJECT_LIST false (λ o,
    l ← as_list o;
    index ← (if index <? 0 then chk32 (index + i32 (DList_Length l)) else Some index);
    if index <? 0 then Some (c, false, kFailCode)
    else
      r ← DList_set l index val;
      match r with
      | inr l => Some (put c key (with_lv_time now (with_ptr (PList l) o)), true, kOkCode)
      | inl _ => Some (c, false, kOutOfRangeCode)
      end).

(** ** Hashes *)

Definition HashUpdateKV (now : Z) (c : KVContainer) (key : list ascii) (field value : DynamicString)
  : option (KVContainer * bool * Z) :=
  match kv_find c key with
  | None =>
      let obj := ConstructHashObjPtr now in
      d ← as_dict obj;
      '(d, _) ← HashDict_Update d field value;
      Some (add c key (with_ptr (PDict d) obj), true, kOkCode)
  | Some o =>
      if negb (vo_type o =? OBJECT_HASH) then Some (c, false, kWrongTypeCode)
      else
        d ← as_dict o;
        '(d, ret) ← HashDict_Update d field value;
        let c := put c key (with_lv_time now (with_ptr (PDict d) o)) in
        if ret =? UNDEFINED then Some (c, false, kFailCode) else Some (c, true, kOkCode)
  end.

(** The loop over [fields] and [values]; a [std::string] argument of [Update] is
    converted to a [DynamicString]. *)
Fixpoint update_all (d : HashDict) (fields values : list (list ascii)) (count : Z) : option (HashDict * Z) :=
  match fields, values with
  | f :: fields, v :: values =>
      f ← DynamicString_std always_ok f;
      v ← DynamicString_std always_ok v;
      '(d, ret) ← HashDict_Update d f v;
      update_all d fields values (if ret =? UNDEFINED then count else count + 1)
  | _, _ => Some (d, count)
  end.

(** The container with an object of the type in it, and the object; [None] when
    the key holds another type. *)
Definition ensure_object (c : KVContainer) (key : list ascii) (type : Z) (obj : ValueObject)
  : KVContainer * option ValueObject :=
  match kv_find c key with
  | None => (add c key obj, Some obj)
  | Some o => if negb (vo_type o =? type) then (c, None) else (c, Some o)
  end.

Definition HashUpdateKV_all (now : Z) (c : KVContainer) (key : list ascii) (fields values : list (list ascii))
  : option (KVContainer * Z * Z) :=
  if negb (bool_decide (length fields = length values)) then Some (c, 0, kFailCode)
  else
    match ensure_object c key OBJECT_HASH (ConstructHashObjPtr now) with
    | (c, None) => Some (c, 0, kWrongTypeCode)
    | (c, Some o) =>
        d ← as_dict o;
        '(d, count) ← update_all d fields values 0;
        Some (put c key (with_lv_time now (with_ptr (PDict d) o)), count, kOkCode)
    end.

(** [HashGetValue]: [At] may do a rehashing step, so that the dictionary is
    written back. *)
Definition HashGetValue (now : Z) (c : KVContainer) (key : list ascii) (field : DynamicString)
  : option (KVContainer * DynamicString * Z) :=
  typed c key OBJECT_HASH ds_null (λ o,
    d ← as_dict o;
    '(d, r) ← HashDict_At d field;
    let c := put c key (with_lv_time now (with_ptr (PDict d) o)) in
    match r with
    | inr v => v ← DynamicString_copy always_ok v; Some (c, v, kOkCode)
    | inl _ => Some (c, ds_null, kKeyNotFoundCode)
    end).

Fixpoint get_all (d : HashDict) (fields : list (list ascii)) : option (HashDict * list DynamicString) :=
  match fields with
  | [] => Some (d, [])
  | f :: fields =>
      f ← DynamicString_std always_ok f;
      '(d, r) ← HashDict_At d f;
      v ← match r with inr v => DynamicString_copy always_ok v | inl _ => Some ds_null end;
      '(d, vs) ← get_all d fields;
      Some (d, v :: vs)
  end.

Definition HashGetValue_all (now : Z) (c : KVContainer) (key : list ascii) (fields : list (list ascii))
  : option (KVContainer * list DynamicString * Z) :=
  typed c key OBJECT_HASH [] (λ o,
    d ← as_dict o;
    '(d, vs) ← get_all d fields;
    Some (put c key (with_lv_time now (with_ptr (PDict d) o)), vs, kOkCode)).

Definition HashDelField (now : Z) (c : KVContainer) (key : list ascii) (field : DynamicString)
  : option (KVContainer * Z * Z) :=
  typed c key OBJECT_HASH 0 (λ o,
    d ← as_dict o;
    '(d, r) ← Erase d field;
    Some (put c key (with_lv_time now (with_ptr (PDict d) o)), r, kOkCode)).

(** The loop of [HashTypeEraseAux]. *)
Fixpoint erase_all {E} `{!HashEntry E} `{!HashImpl E} (d : Rehashable E) (items : list (list ascii)) (n_erased : Z)
  : option (Rehashable E * Z) :=
  match items with
  | [] => Some (d, n_erased)
  | i :: items =>
      i ← DynamicString_std always_ok i;
      '(d, r) ← Erase d i;
      erase_all d items (if r =? ERASED then n_erased + 1 else n_erased)
  end.

Definition HashDelField_all (now : Z) (c : KVContainer) (key : list ascii) (fields : list (list ascii))
  : option (KVContainer * Z * Z) :=
  typed c key OBJECT_HASH 0 (λ o,
    d ← as_dict o;
    '(d, n) ← erase_all d fields 0;
    Some (put c key (with_lv_time now (with_ptr (PDict d) o)), n, kOkCode)).

Definition HashExistField (now : Z) (c : KVContainer) (key : list ascii) (field : DynamicString)
  : option (KVContainer * bool * Z) :=
  typed c key OBJECT_HASH false (λ o,
    d ← as_dict o;
    b ← Rehashable_CheckExists d field;
    Some (put c key (with_lv_time now o), b, kOkCode)).

Definition HashGetAllEntries (now : Z) (c : KVContainer) (key : list ascii)
  : option (KVContainer * list DynamicString * Z) :=
  typed c key OBJECT_HASH [] (λ o,
    d ← as_dict o;
    entries ← Rehashable_AllEntries d;
    ds ← mapM (DynamicString_copy always_ok) (e ← entries; [ht_key e; ht_value e]);
    Some (put c key (with_lv_time now o), ds, kOkCode)).

Definition HashGetAllFields (now : Z) (c : KVContainer) (key : list ascii)
  : option (KVContainer * list DynamicString * Z) :=
  typed c key OBJECT_HASH [] (λ o,
    d ← as_dict o;
    keys ← Rehashable_AllKeys d;
    Some (put c key (with_lv_time now o), keys, kOkCode)).

Definition HashGetAllValues (now : Z) (c : KVContainer) (key : list ascii)
  : option (KVContainer * list DynamicString * Z) :=
  typed c key OBJECT_HASH [] (λ o,
    d ← as_dict o;
    values ← HashDict_AllValues d;
    Some (put c key (with_lv_time now o), values, kOkCode)).

Definition HashLen (now : Z) (c : KVContainer) (key : list ascii) : option (KVContainer * Z * Z) :=
  typed c key OBJECT_HASH 0 (λ o,
    d ← as_dict o; Some (put c key (with_lv_time now o), Rehashable_Count d, kOkCode)).

(** ** Sets *)

Definition SetAddItem (now : Z) (c : KVContainer) (key : list ascii) (member : DynamicString)
  : option (KVContainer * bool * Z) :=
  match kv_find c key with
  | None =>
      let obj := ConstructSetObjPtr now in
      s ← as_set obj;
      '(s, _) ← HashSet_Insert s member;
      Some (add c key (with_ptr (PSet s) obj), true, kOkCode)
  | Some o =>
      if negb (vo_type o =? OBJECT_SET) then Some (c, false, kWrongTypeCode)
      else
        s ← as_set o;
        '(s, ret) ← HashSet_Insert s member;
        let c := put c key (with_lv_time now (with_ptr (PSet s) o)) in
        if (ret =? EXISTED) || (ret =? UNDEFINED) then Some (c, false, kFailCode)
        else Some (c, true, kOkCode)
  end.

Fixpoint insert_all (s : HashSet) (members : list (list ascii)) (count : Z) : option (HashSet * Z) :=
  match members with
  | [] => Some (s, count)
  | m :: members =>
      m ← DynamicString_std always_ok m;
      '(s, ret) ← HashSet_Insert s m;
      insert_all s members (if ret =? NEW_ADDED then count + 1 else count)
  end.

Definition SetAddItem_all (now : Z) (c : KVContainer) (key : list ascii) (members : list (list ascii))
  : option (KVContainer * Z * Z) :=
  match ensure_object c key OBJECT_SET (ConstructSetObjPtr now) with
  | (c, None) => Some (c, 0, kWrongTypeCode)
  | (c, Some o) =>
      s ← as_set o;
      '(s, count) ← insert_all s members 0;
      Some (put c key (with_lv_time now (with_ptr (PSet s) o)), count, kOkCode)
  end.

Definition SetIsMember (now : Z) (c : KVContainer) (key : list ascii) (member : DynamicString)
  : option (KVContainer * bool * Z) :=
  typed c key OBJECT_SET false (λ o,
    s ← as_set o;
    b ← Rehashable_CheckExists s member;
    Some (put c key (with_lv_time now o), b, kOkCode)).

Fixpoint members_exist (s : HashSet) (members : list (list ascii)) : option (list bool) :=
  match members with
  | [] => Some []
  | m :: members =>
      m ← DynamicString_std always_ok m;
      b ← Rehashable_CheckExists s m;
      bs ← members_exist s members;
      Some (b :: bs)
  end.

Definition SetMIsMember (now : Z) (c : KVContainer) (key : list ascii) (members : list (list ascii))
  : option (KVContainer * list bool * Z) :=
  found c key (replicate (length members) false) (λ o,
    if negb (vo_type o =? OBJECT_SET) then Some (c, [], kWrongTypeCode)
    else
      s ← as_set o;
      ans ← members_exist s members;
      Some (put c key (with_lv_time now o), ans, kOkCode)).

Definition SetRemoveMembers (now : Z) (c : KVContainer) (key : list ascii) (members : list (list ascii))
  : option (KVContainer * Z * Z) :=
  typed c key OBJECT_SET 0 (λ o,
    s ← as_set o;
    '(s, n) ← erase_all s members 0;
    Some (put c key (with_lv_time now (with_ptr (PSet s) o)), n, kOkCode)).

Definition SetGetMembers (now : Z) (c : KVContainer) (key : list ascii)
  : option (KVContainer * list DynamicString * Z) :=
  typed c key OBJECT_SET [] (λ o,
    s ← as_set o;
    keys ← Rehashable_AllKeys s;
    Some (put c key (with_lv_time now o), keys, kOkCode)).

Definition SetGetMemberCount (now : Z) (c : KVContainer) (key : list ascii) : option (KVContainer * Z * Z) :=
  typed c key OBJECT_SET 0 (λ o,
    s ← as_set o; Some (put c key (with_lv_time now o), Rehashable_Count s, kOkCode)).

(** ** The overloads of core.h that take the key as a [std::string]

    And [IncrInt], [DecrInt]. The one of [SetRemoveMembers] is declared with
    result [bool]. *)

Definition QueryObjectType_skey (c : KVContainer) (key : list ascii) := QueryObjectType c (Key_std key).
Definition KeyExists_skey (c : KVContainer) (key : list ascii) := KeyExists c (Key_std key).
Definition SetInt_skey (now : Z) (c : KVContainer) (key : list ascii) := SetInt now c (Key_std key).
Definition IncrIntBy_skey (now : Z) (c : KVContainer) (key : list ascii) := IncrIntBy now c (Key_std key).
Definition IncrInt (now : Z) (c : KVContainer) (key : list ascii) := IncrIntBy now c key 1.
Definition IncrInt_skey (now : Z) (c : KVContainer) (key : list ascii) := IncrInt now c (Key_std key).
Definition DecrIntBy_skey (now : Z) (c : KVContainer) (key : list ascii) := DecrIntBy now c (Key_std key).
Definition DecrInt (now : Z) (c : KVContainer) (key : list ascii) := DecrIntBy now c key 1.
Definition DecrInt_skey (now : Z) (c : KVContainer) (key : list ascii) := DecrInt now c (Key_std key).
Definition SetString_skey (now : Z) (c : KVContainer) (key : list ascii) := SetString now c (Key_std key).
Definition StrLen_skey (now : Z) (c : KVContainer) (key : list ascii) := StrLen now c (Key_std key).
Definition Get_skey (now : Z) (c : KVContainer) (key : list ascii) := Get now c (Key_std key).
Definition Delete_skey (c : KVContainer) (key : list ascii) := kv_Delete c (Key_std key).
Definition Append_skey (now : Z) (c : KVContainer) (key : list ascii) := kv_Append now c (Key_std key).
Definition LeftPop_skey (now : Z) (c : KVContainer) (key : list ascii) := LeftPop now c (Key_std key).
Definition RightPop_skey (now : Z) (c : KVContainer) (key : list ascii) := RightPop now c (Key_std key).
Definition ListRange_skey (now : Z) (c : KVContainer) (key : list ascii) := ListRange now c (Key_std key).
Definition ListLen_skey (now : Z) (c : KVContainer) (key : list ascii) := ListLen now c (Key_std key).
Definition ListItemAtIndex_skey (now : Z) (c : KVContainer) (key : list ascii) :=
  ListItemAtIndex now c (Key_std key).
Definition ListSetItemAtIndex_skey (now : Z) (c : KVContainer) (key : list ascii) :=
  ListSetItemAtIndex now c (Key_std key).
Definition HashExistField_skey (now : Z) (c : KVContainer) (key field : list ascii) :=
  f ← DynamicString_std always_ok field; HashExistField now c (Key_std key) f.
Definition HashGetAllEntries_skey (now : Z) (c : KVContainer) (key : list ascii) :=
  HashGetAllEntries now c (Key_std key).
Definition HashGetAllFields_skey (now : Z) (c : KVContainer) (key : list ascii) :=
  HashGetAllFields now c (Key_std key).
Definition HashGetAllValues_skey (now : Z) (c : KVContainer) (key : list ascii) :=
  HashGetAllValues now c (Key_std key).
Definition HashLen_skey (now : Z) (c : KVContainer) (key : list ascii) := HashLen now c (Key_std key).
Definition SetAddItem_skey (now : Z) (c : KVContainer) (key : list ascii) := SetAddItem_all now c (Key_std key).
Definition SetIsMember_skey (now : Z) (c : KVContainer) (key member : list ascii) :=
  x ← DynamicString_std always_ok member; SetIsMember now c (Key_std key) x.
Definition SetMIsMember_skey (now : Z) (c : KVContainer) (key : list ascii) := SetMIsMember now c (Key_std key).
Definition SetRemoveMembers_skey (now : Z) (c : KVContainer) (key : list ascii) (members : list (list ascii))
  : option (KVContainer * bool * Z) :=
  '(c, n, e) ← SetRemoveMembers now c (Key_std key) members; Some (c, negb (n =? 0), e).
Definition SetGetMembers_skey (now : Z) (c : KVContainer) (key : list ascii) := SetGetMembers now c (Key_std key).
Definition SetGetMemberCount_skey (now : Z) (c : KVContainer) (key : list ascii) :=
  SetGetMemberCount now c (Key_std key).

(** ** Commands that rebuild a value *)

Definition RecoverCommandFromValue (c : KVContainer) (key : list ascii)
  : option (list (list ascii) * Z) :=
  match kv_find c (Key_std key) with
  | None => Some ([], kKeyNotFoundCode)
  | Some o =>
      let k_type := vo_type o in
      if k_type =? OBJECT_INT then
        n ← ToInt64 o; Some ([bs "set"; key; to_string n], kOkCode)
      else if k_type =? OBJECT_STRING then
        s ← vo_ToStdString o; Some ([bs "set"; key; s], kOkCode)
      else if k_type =? OBJECT_LIST then
        l ← as_list o; ranges ← RangeAsStdStringVector l; Some (bs "rpush" :: key :: ranges, kOkCode)
      else if k_type =? OBJECT_HASH then
        d ← as_dict o;
        entries ← Rehashable_AllEntries d;
        Some (bs "hset" :: key :: (e ← entries; [ToStdString (ht_key e); ToStdString (ht_value e)]), kOkCode)
      else if k_type =? OBJECT_SET then
        s ← as_set o;
        entries ← Rehashable_AllEntries s;
        Some (bs "sadd" :: key :: ((λ e, ToStdString (hs_key e)) <$> entries), kOkCode)
      else Some ([], kFailCode)
  end.

(** ** Eviction

    The random draws are parameters: [draws] lists the values [RandIntValue(0,
    keys_pool_.size() - 1)] returns. *)

(** [KeyEvictionRandom]: [key] is a reference into the pool, so that after
    [Delete] it denotes what the pool holds at the same index. *)
Fixpoint evict_random (c : KVContainer) (draws : list nat) : option (KVContainer * list (list ascii)) :=
  match draws with
  | [] => Some (c, [])
  | idx :: draws =>
      key ← keys_pool_ c !! idx;
      let '(c, b) := kv_Delete c key in
      if b : bool then
        key ← keys_pool_ c !! idx;
        '(c, ks) ← evict_random c draws;
        Some (c, key :: ks)
      else evict_random c draws
  end.

Definition KeyEvictionRandom (c : KVContainer) (num : nat) (draws : list nat)
  : option (KVContainer * list (list ascii)) :=
  evict_random c (take (Nat.min (length (keys_pool_ c)) num) draws).

(** The candidates of [KeyEvictionLruHelper]: the drawn keys without repetition. *)
Definition candidates (c : KVContainer) (draws : list nat) : option (list (list ascii)) :=
  foldl (λ acc idx,
           acc ← acc;
           key ← keys_pool_ c !! idx;
           Some (if decide (key ∈ acc) then acc else acc ++ [key]))
        (Some []) draws.

(** [std::min_element] with the comparison of visit times: the first minimum. *)
Definition lv_time (c : KVContainer) (key : list ascii) : option Z := vo_lv_time <$> kv_find c key.

Fixpoint min_lv (c : KVContainer) (best : list ascii) (keys : list (list ascii)) : option (list ascii) :=
  match keys with
  | [] => Some best
  | k :: keys =>
      t ← lv_time c k;
      tb ← lv_time c best;
      min_lv c (if t <? tb then k else best) keys
  end.

Definition KeyEvictionLruHelper (c : KVContainer) (draws : list nat) : option (KVContainer * list (list ascii)) :=
  match keys_pool_ c with
  | [] => Some (c, [])
  | _ :: _ =>
      cs ← candidates c (take 10 draws);
      match cs with
      | [] => Some (c, [])
      | k :: cs =>
          min ← min_lv c k cs;
          let '(c, b) := kv_Delete c min in
          Some (c, if b : bool then [min] else [])
      end
  end.

Definition LRU_EVICTION_TIME_LIMIT_MS : Z := 25.

(** [KeyEvictionLru]: [n_deleted] is never changed in the loop. Each round has its
    draws and the clock reading after it; the loop ends by itself, or when the
    rounds given are used up ([None]). *)
Fixpoint evict_lru (c : KVContainer) (num start : Z) (n_deleted : Z) (rounds : list (list nat * Z))
  : option (KVContainer * list (list ascii)) :=
  if bool_decide (keys_pool_ c = []) || negb (n_deleted <? num) then Some (c, [])
  else match rounds with
       | [] => None
       | (draws, now) :: rounds =>
           '(c, ks) ← KeyEvictionLruHelper c draws;
           if u64 (now - start) >? LRU_EVICTION_TIME_LIMIT_MS then Some (c, ks)
           else '(c, ks') ← evict_lru c num start n_deleted rounds; Some (c, ks ++ ks')
       end.

Definition KeyEvictionLru (c : KVContainer) (num start : Z) (rounds : list (list nat * Z))
  : option (KVContainer * list (list ascii)) := evict_lru c num start 0 rounds.

Definition EVICTION_POLICY_RANDOM : Z := 0.
Definition EVICTION_POLICY_LRU : Z := 1.

(** [KeyEviction], with the draws of one policy and the rounds of the other. *)
Definition KeyEviction (c : KVContainer) (policy n : Z) (draws : list nat) (start : Z) (rounds : list (list nat * Z))
  : option (KVContainer * list (list ascii)) :=
  if bool_decide (keys_pool_ c = []) then Some (c, [])
  else if policy =? EVICTION_POLICY_LRU then KeyEvictionLru c n start rounds
  else if policy =? EVICTION_POLICY_RANDOM then KeyEvictionRandom c (Z.to_nat n) draws
  else Some (c, []).

(** ** Statistics *)

Record stats := mkStats {
  n_int : Z; n_str : Z; n_list : Z; n_dict : Z; n_set : Z;
  n_list_elem : Z; n_dict_entry : Z; n_set_mem : Z
}.

(** One iteration of the loop of [Overview]. *)
Definition count_value (o : ValueObject) (s : stats) : option stats :=
  let '(mkStats i st l d se le de sm) := s in
  if vo_type o =? OBJECT_INT then Some (mkStats (u64 (i + 1)) st l d se le de sm)
  else if vo_type o =? OBJECT_STRING then Some (mkStats i (u64 (st + 1)) l d se le de sm)
  else if vo_type o =? OBJECT_LIST then
    x ← as_list o; Some (mkStats i st (u64 (l + 1)) d se (u64 (le + DList_Length x)) de sm)
  else if vo_type o =? OBJECT_HASH then
    x ← as_dict o; Some (mkStats i st l (u64 (d + 1)) se le (u64 (de + Rehashable_Count x)) sm)
  else if vo_type o =? OBJECT_SET then
    x ← as_set o; Some (mkStats i st l d (u64 (se + 1)) le de (u64 (sm + Rehashable_Count x)))
  else Some s.

Definition count_values (os : list ValueObject) (s : stats) : option stats :=
  foldl (λ s o, s ← s; count_value o s) (Some s) os.

Definition Overview (c : KVContainer) : option (list (list ascii)) :=
  s ← count_values (b ← bucket_ c; (map_to_list b).*2) (mkStats 0 0 0 0 0 0 0 0);
  Some [ bs "Number of int:"; to_string (n_int s);
         bs "Number of string:"; to_string (n_str s);
         bs "Number of list:"; to_string (n_list s);
         bs "Number of elements in list:"; to_string (n_list_elem s);
         bs "Number of hash:"; to_string (n_dict s);
         bs "Number of elements in hash:"; to_string (n_dict_entry s);
         bs "Number of set:"; to_string (n_set s);
         bs "Number of elements in set:"; to_string (n_set_mem s) ].
