(* ===== verification/CoreSpec.v ===== *)
(** * CoreSpec: what the key space promises

    The abstract store (a finite map of typed values), the operations of
    [KVContainer] as the commands call them ([kv_exec]) and their specification on
    the store ([kv_spec]), error codes included. CoreFacts proves that the first
    implements the second. *)

From S2P Require Import Prelude Encoding Numerals Str Hash DList Core.
From stdpp Require Import list fin_maps.

Local Open Scope Z_scope.

(** ** The abstract store *)

Inductive aval :=
  | AInt (n : Z)
  | AStr (s : list ascii)
  | AList (l : list (list ascii))
  | ADict (m : gmap (list ascii) (list ascii))
  | ASet (s : gset (list ascii)).

Definition atype (a : aval) : Z :=
  match a with
  | AInt _ => OBJECT_INT
  | AStr _ => OBJECT_STRING
  | AList _ => OBJECT_LIST
  | ADict _ => OBJECT_HASH
  | ASet _ => OBJECT_SET
  end.

Abbreviation astore := (gmap (list ascii) aval).

(** ** The specification of the operations *)

(** The operations, with [std::string] arguments as in the overloads of core.h. *)
Inductive kv_op :=
  | OSetInt (key : list ascii) (n : Z)
  | OIncrIntBy (key : list ascii) (n : Z)
  | ODecrIntBy (key : list ascii) (n : Z)
  | OSetString (key val : list ascii)
  | OStrLen (key : list ascii) (errcode : Z)
  | OGet (key : list ascii)
  | ODelete (key : list ascii)
  | OKeyExists (key : list ascii)
  | OQueryObjectType (key : list ascii)
  | OAppend (key val : list ascii)
  | OPush (leftpush : bool) (key : list ascii) (vals : list (list ascii))
  | OPop (leftpop : bool) (key : list ascii)
  | OListLen (key : list ascii)
  | OListItemAtIndex (key : list ascii) (index : Z)
  | OListSetItemAtIndex (key : list ascii) (index : Z) (val : list ascii)
  | OHashUpdateKV (key : list ascii) (fields vals : list (list ascii))
  | OHashGetValue (key field : list ascii)
  | OHashGetValues (key : list ascii) (fields : list (list ascii))
  | OHashDelField (key : list ascii) (fields : list (list ascii))
  | OHashExistField (key field : list ascii)
  | OHashGetAllFields (key : list ascii)
  | OHashGetAllValues (key : list ascii)
  | OHashLen (key : list ascii)
  | OSetAddItem (key : list ascii) (members : list (list ascii))
  | OSetIsMember (key member : list ascii)
  | OSetMIsMember (key : list ascii) (members : list (list ascii))
  | OSetRemoveMembers (key : list ascii) (members : list (list ascii))
  | OSetGetMembers (key : list ascii)
  | OSetGetMemberCount (key : list ascii).

Inductive kv_reply :=
  | VInt (n : Z)
  | VBool (b : bool)
  | VStr (s : option (list ascii))
  | VStrs (l : list (option (list ascii)))
  | VBools (l : list bool)
  | VBag (l : list (list ascii)).

(** The string a [DynamicString] result denotes; a null string is no value. *)
Definition ds_opt (d : DynamicString) : option (list ascii) :=
  if ds_Null d then None else Some (ds_data d).

(** The value [Get] returns, as the integer or the string. *)
Definition vo_reply (o : option ValueObject) : option kv_reply :=
  match o with
  | None => Some (VStr None)
  | Some o => match vo_ptr o with
              | PInt n => Some (VInt n)
              | PStr d => Some (VStr (ds_opt d))
              | _ => None
              end
  end.

Definition no_code : Z := 0.

Definition reply {R} (f : R -> kv_reply) (r : option (KVContainer * R * Z)) : option (KVContainer * kv_reply * Z) :=
  '(c, x, e) ← r; Some (c, f x, e).

Definition kv_exec (now : Z) (c : KVContainer) (o : kv_op) : option (KVContainer * kv_reply * Z) :=
  match o with
  | OSetInt key n => let '(c, b) := SetInt now c (Key_std key) n in Some (c, VBool b, no_code)
  | OIncrIntBy key n => reply VInt (IncrIntBy now c (Key_std key) n)
  | ODecrIntBy key n => reply VInt (DecrIntBy now c (Key_std key) n)
  | OSetString key val => '(c, b) ← SetString now c (Key_std key) val; Some (c, VBool b, no_code)
  | OStrLen key errcode => reply VInt (StrLen now c (Key_std key) errcode)
  | OGet key => '(c, v, e) ← Get now c (Key_std key); v ← vo_reply v; Some (c, v, e)
  | ODelete key => let '(c, b) := kv_Delete c (Key_std key) in Some (c, VBool b, no_code)
  | OKeyExists key => Some (c, VBool (KeyExists c (Key_std key)), no_code)
  | OQueryObjectType key => Some (c, VInt (QueryObjectType c (Key_std key)), no_code)
  | OAppend key val => reply VInt (kv_Append now c (Key_std key) val)
  | OPush leftpush key vals => reply VInt (ListPushAux_all now c (Key_std key) vals leftpush)
  | OPop leftpop key => reply (VStr ∘ ds_opt) (ListPopAux now c (Key_std key) leftpop)
  | OListLen key => reply VInt (ListLen now c (Key_std key))
  | OListItemAtIndex key index => reply (VStr ∘ ds_opt) (ListItemAtIndex now c (Key_std key) index)
  | OListSetItemAtIndex key index val => reply VBool (ListSetItemAtIndex now c (Key_std key) index val)
  | OHashUpdateKV key fields vals => reply VInt (HashUpdateKV_all now c (Key_std key) fields vals)
  | OHashGetValue key field =>
      f ← DynamicString_std always_ok field; reply (VStr ∘ ds_opt) (HashGetValue now c (Key_std key) f)
  | OHashGetValues key fields => reply (VStrs ∘ map ds_opt) (HashGetValue_all now c (Key_std key) fields)
  | OHashDelField key fields => reply VInt (HashDelField_all now c (Key_std key) fields)
  | OHashExistField key field =>
      f ← DynamicString_std always_ok field; reply VBool (HashExistField now c (Key_std key) f)
  | OHashGetAllFields key => reply (VBag ∘ map ds_data) (HashGetAllFields now c (Key_std key))
  | OHashGetAllValues key => reply (VBag ∘ map ds_data) (HashGetAllValues now c (Key_std key))
  | OHashLen key => reply VInt (HashLen now c (Key_std key))
  | OSetAddItem key members => reply VInt (SetAddItem_all now c (Key_std key) members)
  | OSetIsMember key member =>
      x ← DynamicString_std always_ok member; reply VBool (SetIsMember now c (Key_std key) x)
  | OSetMIsMember key members => reply VBools (SetMIsMember now c (Key_std key) members)
  | OSetRemoveMembers key members => reply VInt (SetRemoveMembers now c (Key_std key) members)
  | OSetGetMembers key => reply (VBag ∘ map ds_data) (SetGetMembers now c (Key_std key))
  | OSetGetMemberCount key => reply VInt (SetGetMemberCount now c (Key_std key))
  end.

(** The abstract operations. [on m k r f]: absent keys and wrong types are
    reported and leave the store as it is. *)
Definition on (m : astore) (k : list ascii) (r : kv_reply)
  (f : aval -> option (astore * kv_reply * Z)) : astore * kv_reply * Z :=
  match m !! k with
  | None => (m, r, kKeyNotFoundCode)
  | Some a => default (m, r, kWrongTypeCode) (f a)
  end.

Fixpoint set_fields (m : gmap (list ascii) (list ascii)) (fields vals : list (list ascii)) :=
  match fields, vals with
  | f :: fields, v :: vals => set_fields (<[f:=v]> m) fields vals
  | _, _ => m
  end.

(** Deletion and insertion of several items, with the number of items that were,
    or were not, there. *)
Fixpoint del_fields {A} (m : gmap (list ascii) A) (items : list (list ascii)) (n : Z) : gmap (list ascii) A * Z :=
  match items with
  | [] => (m, n)
  | i :: items => del_fields (delete i m) items (match m !! i with Some _ => n + 1 | None => n end)
  end.

Fixpoint del_members (s : gset (list ascii)) (items : list (list ascii)) (n : Z) : gset (list ascii) * Z :=
  match items with
  | [] => (s, n)
  | i :: items => del_members (s ∖ {[i]}) items (if decide (i ∈ s) then n + 1 else n)
  end.

Fixpoint add_members (s : gset (list ascii)) (items : list (list ascii)) (n : Z) : gset (list ascii) * Z :=
  match items with
  | [] => (s, n)
  | i :: items => add_members ({[i]} ∪ s) items (if decide (i ∈ s) then n else n + 1)
  end.

(** A negative index counts from the end of the list. *)
Definition norm_index (l : list (list ascii)) (index : Z) : Z :=
  if index <? 0 then index + Z.of_nat (length l) else index.

(** The first index [ListRange] reads: a negative one is clipped to 0 when the end
    is positive. *)
Definition range_start (l : list (list ascii)) (b e : Z) : Z :=
  if (norm_index l b <? 0) && (0 <? norm_index l e) then 0 else norm_index l b.

Definition kv_spec (m : astore) (o : kv_op) : astore * kv_reply * Z :=
  match o with
  | OSetInt key n => (<[Key_std key := AInt n]> m, VBool true, no_code)
  | OIncrIntBy key n =>
      match m !! Key_std key with
      | None => (<[Key_std key := AInt n]> m, VInt n, kOkCode)
      | Some (AInt v) =>
          if v + n >? INT64_MAX then (m, VInt 0, kOverflowCode)
          else (<[Key_std key := AInt (v + n)]> m, VInt (v + n), kOkCode)
      | Some _ => (m, VInt 0, kWrongTypeCode)
      end
  | ODecrIntBy key n =>
      match m !! Key_std key with
      | None => (<[Key_std key := AInt (- n)]> m, VInt (- n), kOkCode)
      | Some (AInt v) =>
          if v - n <? INT64_MIN then (m, VInt 0, kOverflowCode)
          else (<[Key_std key := AInt (v - n)]> m, VInt (v - n), kOkCode)
      | Some _ => (m, VInt 0, kWrongTypeCode)
      end
  | OSetString key val => (<[Key_std key := AStr val]> m, VBool true, no_code)
  | OStrLen key errcode =>
      match m !! Key_std key with
      | None => (m, VInt 0, kKeyNotFoundCode)
      | Some (AInt v) => (m, VInt (Z.of_nat (length (to_string v))), kOkCode)
      | Some (AStr s) => (m, VInt (Z.of_nat (length s)), kOkCode)
      | Some _ => (m, VInt 0, errcode)
      end
  | OGet key =>
      on m (Key_std key) (VStr None) (λ a,
        match a with
        | AInt n => Some (m, VInt n, kOkCode)
        | AStr s => Some (m, VStr (Some s), kOkCode)
        | _ => None
        end)
  | ODelete key => (delete (Key_std key) m, VBool (bool_decide (is_Some (m !! Key_std key))), no_code)
  | OKeyExists key => (m, VBool (bool_decide (is_Some (m !! Key_std key))), no_code)
  | OQueryObjectType key =>
      (m, VInt (match m !! Key_std key with None => -1 | Some a => atype a end), no_code)
  | OAppend key val =>
      let put s := (<[Key_std key := AStr s]> m, VInt (Z.of_nat (length s)), kOkCode) in
      match m !! Key_std key with
      | None => put val
      | Some (AStr s) => put (s ++ val)
      | Some (AInt n) => put (to_string n ++ val)
      | Some _ => (m, VInt 0, kWrongTypeCode)
      end
  | OPush leftpush key vals =>
      let push l := if leftpush : bool then rev vals ++ l else l ++ vals in
      let put l := (<[Key_std key := AList (push l)]> m, VInt (Z.of_nat (length (push l))), kOkCode) in
      match m !! Key_std key with
      | None => put []
      | Some (AList l) => put l
      | Some _ => (m, VInt 0, kWrongTypeCode)
      end
  | OPop leftpop key =>
      on m (Key_std key) (VStr None) (λ a,
        match a with
        | AList l =>
            Some (match (if leftpop : bool then head l else last l) with
                  | None => (m, VStr None, kOkCode)
                  | Some x =>
                      (<[Key_std key := AList (if leftpop then tail l else removelast l)]> m,
                       VStr (Some x), kOkCode)
                  end)
        | _ => None
        end)
  | OListLen key =>
      on m (Key_std key) (VInt 0) (λ a,
        match a with AList l => Some (m, VInt (Z.of_nat (length l)), kOkCode) | _ => None end)
  | OListItemAtIndex key index =>
      on m (Key_std key) (VStr None) (λ a,
        match a with
        | AList l =>
            let i := norm_index l index in
            Some (match (if i <? 0 then None else l !! Z.to_nat i) with
                  | None => (m, VStr None, kFailCode)
                  | Some x => (m, VStr (Some x), kOkCode)
                  end)
        | _ => None
        end)
  | OListSetItemAtIndex key index val =>
      on m (Key_std key) (VBool false) (λ a,
        match a with
        | AList l =>
            let i := norm_index l index in
            Some (if i <? 0 then (m, VBool false, kFailCode)
                  else match l !! Z.to_nat i with
                       | None => (m, VBool false, kOutOfRangeCode)
                       | Some _ => (<[Key_std key := AList (<[Z.to_nat i := val]> l)]> m, VBool true, kOkCode)
                       end)
        | _ => None
        end)
  | OHashUpdateKV key fields vals =>
      if negb (bool_decide (length fields = length vals)) then (m, VInt 0, kFailCode)
      else
        let put d := (<[Key_std key := ADict (set_fields d fields vals)]> m,
                      VInt (Z.of_nat (length fields)), kOkCode) in
        match m !! Key_std key with
        | None => put ∅
        | Some (ADict d) => put d
        | Some _ => (m, VInt 0, kWrongTypeCode)
        end
  | OHashGetValue key field =>
      on m (Key_std key) (VStr None) (λ a,
        match a with
        | ADict d => Some (m, VStr (d !! field), match d !! field with None => kKeyNotFoundCode | Some _ => kOkCode end)
        | _ => None
        end)
  | OHashGetValues key fields =>
      on m (Key_std key) (VStrs []) (λ a,
        match a with ADict d => Some (m, VStrs (map (λ f, d !! f) fields), kOkCode) | _ => None end)
  | OHashDelField key fields =>
      on m (Key_std key) (VInt 0) (λ a,
        match a with
        | ADict d => let '(d, n) := del_fields d fields 0 in Some (<[Key_std key := ADict d]> m, VInt n, kOkCode)
        | _ => None
        end)
  | OHashExistField key field =>
      on m (Key_std key) (VBool false) (λ a,
        match a with ADict d => Some (m, VBool (bool_decide (is_Some (d !! field))), kOkCode) | _ => None end)
  | OHashGetAllFields key =>
      on m (Key_std key) (VBag []) (λ a,
        match a with ADict d => Some (m, VBag (map_to_list d).*1, kOkCode) | _ => None end)
  | OHashGetAllValues key =>
      on m (Key_std key) (VBag []) (λ a,
        match a with ADict d => Some (m, VBag (map_to_list d).*2, kOkCode) | _ => None end)
  | OHashLen key =>
      on m (Key_std key) (VInt 0) (λ a,
        match a with ADict d => Some (m, VInt (Z.of_nat (size d)), kOkCode) | _ => None end)
  | OSetAddItem key members =>
      let put s := let '(s, n) := add_members s members 0 in (<[Key_std key := ASet s]> m, VInt n, kOkCode) in
      match m !! Key_std key with
      | None => put ∅
      | Some (ASet s) => put s
      | Some _ => (m, VInt 0, kWrongTypeCode)
      end
  | OSetIsMember key member =>
      on m (Key_std key) (VBool false) (λ a,
        match a with ASet s => Some (m, VBool (bool_decide (member ∈ s)), kOkCode) | _ => None end)
  | OSetMIsMember key members =>
      match m !! Key_std key with
      | None => (m, VBools (replicate (length members) false), kKeyNotFoundCode)
      | Some (ASet s) => (m, VBools (map (λ x, bool_decide (x ∈ s)) members), kOkCode)
      | Some _ => (m, VBools [], kWrongTypeCode)
      end
  | OSetRemoveMembers key members =>
      on m (Key_std key) (VInt 0) (λ a,
        match a with
        | ASet s => let '(s, n) := del_members s members 0 in Some (<[Key_std key := ASet s]> m, VInt n, kOkCode)
        | _ => None
        end)
  | OSetGetMembers key =>
      on m (Key_std key) (VBag []) (λ a,
        match a with ASet s => Some (m, VBag (elements s), kOkCode) | _ => None end)
  | OSetGetMemberCount key =>
      on m (Key_std key) (VInt 0) (λ a,
        match a with ASet s => Some (m, VInt (Z.of_nat (size s)), kOkCode) | _ => None end)
  end.

(** The order in which a hash or a set is listed is not specified. *)
Definition reply_sim (r r' : kv_reply) : Prop :=
  match r, r' with VBag l, VBag l' => l ≡ₚ l' | _, _ => r = r' end.

(** ** Bounds

    The strings and containers an operation touches are small enough for the
    32-bit lengths and indices of the program. *)

Definition small (s : list ascii) : Prop := Z.of_nat (length s) < 2 ^ 30.

Definition aval_small (a : aval) : Prop :=
  match a with
  | AInt _ => True
  | AStr s => small s
  | AList l => Z.of_nat (length l) < 2 ^ 30
  | ADict d => Z.of_nat (size d) < 2 ^ 60
  | ASet s => Z.of_nat (size s) < 2 ^ 60
  end.

Definition all_small (l : list (list ascii)) : Prop := Forall small l /\ Z.of_nat (length l) < 2 ^ 30.

Definition op_key (o : kv_op) : list ascii :=
  match o with
  | OSetInt key _ | OIncrIntBy key _ | ODecrIntBy key _ | OSetString key _ | OStrLen key _ | OGet key
  | ODelete key | OKeyExists key | OQueryObjectType key | OAppend key _ | OPush _ key _ | OPop _ key
  | OListLen key | OListItemAtIndex key _ | OListSetItemAtIndex key _ _ | OHashUpdateKV key _ _
  | OHashGetValue key _ | OHashGetValues key _ | OHashDelField key _ | OHashExistField key _
  | OHashGetAllFields key | OHashGetAllValues key | OHashLen key | OSetAddItem key _ | OSetIsMember key _
  | OSetMIsMember key _ | OSetRemoveMembers key _ | OSetGetMembers key | OSetGetMemberCount key => key
  end.

Definition args_ok (o : kv_op) : Prop :=
  match o with
  | OSetInt _ n => in_i64 n
  | OIncrIntBy _ n | ODecrIntBy _ n => 0 <= n <= INT64_MAX
  | OSetString _ v | OAppend _ v | OHashGetValue _ v | OHashExistField _ v | OSetIsMember _ v => small v
  | OPush _ _ l | OHashGetValues _ l | OHashDelField _ l | OSetAddItem _ l | OSetMIsMember _ l
  | OSetRemoveMembers _ l => all_small l
  | OListItemAtIndex _ i => in_i32 i
  | OListSetItemAtIndex _ i v => in_i32 i /\ small v
  | OHashUpdateKV _ l l' => all_small l /\ all_small l'
  | _ => True
  end.

Definition op_ok (m : astore) (o : kv_op) : Prop :=
  args_ok o /\ forall a, m !! Key_std (op_key o) = Some a -> aval_small a.
