(* ===== verification/CoreFacts.v ===== *)
(** * CoreFacts: the key space refines a finite map of typed values

    The values a container stands for ([kv_repr]), and the proofs that every
    operation keeps this relation and acts on the abstract store as its
    specification says, error codes included. *)

From S2P Require Import Prelude Encoding Numerals Str Hash HashFacts DList DListFacts Core CoreSpec.
From Stdlib Require Import QArith.
From stdpp Require Import list fin_maps.

Local Open Scope Z_scope.

(** A value object represents an abstract value: the type tag agrees with what
    the pointer points to, and that object's invariant holds. *)
Definition ptr_repr (p : Payload) (a : aval) : Prop :=
  match a, p with
  | AInt n, PInt n' => n' = n /\ in_i64 n
  | AStr s, PStr d => ds_val d s
  | AList l, PList d => dl_repr d l
  | ADict m, PDict d => rh_ok d /\ rmap d = m
  | ASet s, PSet d => rh_ok d /\ dom (rmap d) = s
  | _, _ => False
  end.

Definition vo_repr (o : ValueObject) (a : aval) : Prop :=
  vo_type o = atype a /\ ptr_repr (vo_ptr o) a.

(** A container represents a store: the buckets are all there, a key is only in
    the bucket of its hash, the pool lists every key once, and looking a key up
    finds an object that represents the store's value. *)
Record kv_repr (c : KVContainer) (m : astore) : Prop := {
  kr_len : length (bucket_ c) = 512%nat;
  kr_home : forall i b k, bucket_ c !! i = Some b -> is_Some (b !! k) -> i = bucket_idx k;
  kr_pool : NoDup (keys_pool_ c) /\ forall k, k ∈ keys_pool_ c <-> is_Some (m !! k);
  kr_find : forall k, option_Forall2 vo_repr (kv_find c k) (m !! k)
}.

Lemma bucket_idx_lt k : (bucket_idx k < 512)%nat.
Proof.
  unfold bucket_idx, kBucketSize. pose proof (Z.mod_pos_bound (Time33Hash k) 512). lia.
Qed.

(** ** Lookups after a change *)

Lemma find_put c k o k' : length (bucket_ c) = 512%nat ->
  kv_find (put c k o) k' = if decide (k' = k) then Some o else kv_find c k'.
Proof.
  intros Hl. pose proof (bucket_idx_lt k). unfold kv_find, GetBucket at 1, put. cbn [bucket_].
  destruct (decide (bucket_idx k' = bucket_idx k)) as [E|E].
  - rewrite E, list_lookup_insert_eq by lia. cbn [from_option]. unfold id. case_decide as Ek.
    + subst. apply lookup_insert_eq.
    + rewrite lookup_insert_ne by done. unfold GetBucket. by rewrite E.
  - rewrite list_lookup_insert_ne by done. case_decide as Ek; [by subst|done].
Qed.

Lemma find_add c k o k' : length (bucket_ c) = 512%nat ->
  kv_find (add c k o) k' = if decide (k' = k) then Some o else kv_find c k'.
Proof. apply find_put. Qed.

Lemma home_put c m k o i b k' : kv_repr c m -> bucket_ (put c k o) !! i = Some b -> is_Some (b !! k') ->
  i = bucket_idx k'.
Proof.
  intros Hr Hi Hk. pose proof (kr_len c m Hr) as Hl. pose proof (bucket_idx_lt k).
  cbn in Hi. destruct (decide (i = bucket_idx k)) as [->|Hne].
  - rewrite list_lookup_insert_eq in Hi by lia. injection Hi as <-.
    apply lookup_insert_is_Some in Hk as [->|[_ Hk]]; [done|].
    destruct (lookup_lt_is_Some_2 (bucket_ c) (bucket_idx k)) as [b Hb]; [lia|].
    unfold GetBucket in Hk. rewrite Hb in Hk. cbn in Hk. by eapply (kr_home c m Hr).
  - rewrite list_lookup_insert_ne in Hi by done. by eapply (kr_home c m Hr).
Qed.

Lemma repr_find c m k o : kv_repr c m -> kv_find c k = Some o ->
  exists a, m !! k = Some a /\ vo_repr o a.
Proof. intros Hr Hf. pose proof (kr_find c m Hr k) as H. rewrite Hf in H. inversion H; eauto. Qed.

Lemma repr_absent c m k : kv_repr c m -> kv_find c k = None <-> m !! k = None.
Proof.
  intros Hr. pose proof (kr_find c m Hr k) as H. inversion H; split; congruence.
Qed.

(** Changing the value of a key that is there. *)
Lemma kv_put c m k o a : kv_repr c m -> is_Some (m !! k) -> vo_repr o a ->
  kv_repr (put c k o) (<[k:=a]> m).
Proof.
  intros Hr Hk Ho. destruct (kr_pool c m Hr) as [Hn Hp]. split.
  - cbn. rewrite length_insert. by apply (kr_len c m).
  - intros i b k'. by apply (home_put c m).
  - split; [done|]. intros k'. cbn. rewrite Hp, lookup_insert_is_Some.
    destruct (decide (k = k')) as [->|]; naive_solver.
  - intros k'. rewrite find_put by (by apply (kr_len c m)). case_decide as E.
    + subst. rewrite lookup_insert_eq. by constructor.
    + rewrite lookup_insert_ne by done. apply (kr_find c m Hr).
Qed.

(** Replacing an object by one that stands for the same value. *)
Lemma kv_touch c m k o a : kv_repr c m -> m !! k = Some a -> vo_repr o a -> kv_repr (put c k o) m.
Proof.
  intros Hr Hk Ho. rewrite <- (insert_id m k a Hk). apply kv_put; [done| |done].
  by eexists.
Qed.

(** Adding a key. *)
Lemma kv_add c m k o a : kv_repr c m -> m !! k = None -> vo_repr o a -> kv_repr (add c k o) (<[k:=a]> m).
Proof.
  intros Hr Hk Ho. destruct (kr_pool c m Hr) as [Hn Hp]. split.
  - cbn. rewrite length_insert. by apply (kr_len c m).
  - intros i b k'. by apply (home_put c m).
  - cbn. split.
    + apply NoDup_app. split; [done|]. split; [|apply NoDup_singleton].
      intros k' Hk'. rewrite list_elem_of_singleton. intros ->. apply Hp in Hk' as [? ?]. congruence.
    + intros k'. rewrite elem_of_app, list_elem_of_singleton, Hp, lookup_insert_is_Some.
      destruct (decide (k = k')); naive_solver.
  - intros k'. rewrite find_add by (by apply (kr_len c m)). case_decide as E.
    + subst. rewrite lookup_insert_eq. by constructor.
    + rewrite lookup_insert_ne by done. apply (kr_find c m Hr).
Qed.

Lemma kv_Delete_repr c m k : kv_repr c m ->
  kv_repr (kv_Delete c k).1 (delete k m) /\ (kv_Delete c k).2 = bool_decide (is_Some (m !! k)).
Proof.
  intros Hr. destruct (kr_pool c m Hr) as [Hn Hp]. pose proof (kr_len c m Hr) as Hl.
  pose proof (bucket_idx_lt k). unfold kv_Delete. destruct (kv_find c k) as [o|] eqn:Ef; cbn [fst snd].
  - destruct (repr_find c m k o Hr Ef) as (a & Ha & _).
    split; [|by rewrite Ha, bool_decide_true by done].
    assert (forall k', kv_find (mkKV (<[bucket_idx k := delete k (GetBucket c k)]> (bucket_ c))
       (filter (λ k0, k0 <> k) (keys_pool_ c))) k' = if decide (k' = k) then None else kv_find c k') as Hfd.
    { intros k'. unfold kv_find, GetBucket at 1. cbn [bucket_].
      destruct (decide (bucket_idx k' = bucket_idx k)) as [E|E].
      - rewrite E, list_lookup_insert_eq by lia. cbn [from_option]. unfold id. case_decide as Ek.
        + subst. apply lookup_delete_eq.
        + rewrite lookup_delete_ne by done. unfold GetBucket. by rewrite E.
      - rewrite list_lookup_insert_ne by done. case_decide as Ek; [by subst|done]. }
    split.
    + cbn. by rewrite length_insert.
    + intros i b k' Hi Hk'. cbn in Hi. destruct (decide (i = bucket_idx k)) as [->|Hne].
      * rewrite list_lookup_insert_eq in Hi by lia. injection Hi as <-.
        apply lookup_delete_is_Some in Hk' as [_ Hk'].
        destruct (lookup_lt_is_Some_2 (bucket_ c) (bucket_idx k)) as [b Hb]; [lia|].
        unfold GetBucket in Hk'. rewrite Hb in Hk'. cbn in Hk'. by eapply (kr_home c m Hr).
      * rewrite list_lookup_insert_ne in Hi by done. by eapply (kr_home c m Hr).
    + cbn. split; [by apply NoDup_filter|]. intros k'.
      rewrite list_elem_of_filter, Hp, lookup_delete_is_Some. naive_solver.
    + intros k'. rewrite Hfd. case_decide as E.
      * subst. rewrite lookup_delete_eq. constructor.
      * rewrite lookup_delete_ne by done. apply (kr_find c m Hr).
  - apply (repr_absent c m k Hr) in Ef. rewrite delete_id by done. rewrite Ef. by split.
Qed.

Lemma KVContainer_new_repr : kv_repr KVContainer_new ∅.
Proof.
  assert (forall i b, bucket_ KVContainer_new !! i = Some b -> b = ∅) as He
    by (intros i b Hi; by apply lookup_replicate in Hi as [-> _]).
  split.
  - done.
  - intros i b k Hi. rewrite (He i b Hi), lookup_empty. intros [? ?]. done.
  - split; [constructor|]. intros k. rewrite lookup_empty. cbn. rewrite elem_of_nil.
    split; [done|by intros [? ?]].
  - intros k. rewrite lookup_empty. unfold kv_find, GetBucket.
    destruct (bucket_ KVContainer_new !! bucket_idx k) as [b|] eqn:E; cbn.
    + rewrite (He _ _ E), lookup_empty. constructor.
    + rewrite lookup_empty. constructor.
Qed.

(** ** Objects of each type *)

Lemma repr_int o n : vo_repr o (AInt n) -> vo_type o = OBJECT_INT /\ vo_ptr o = PInt n /\ in_i64 n.
Proof. intros [Ht Hp]. split; [done|]. cbn in Hp. by destruct (vo_ptr o); destruct Hp; subst. Qed.

Lemma repr_str o s : vo_repr o (AStr s) -> exists d, as_str o = Some d /\ ds_val d s.
Proof. intros [_ Hp]. unfold as_str. cbn in Hp. destruct (vo_ptr o); try done. eauto. Qed.

Lemma repr_list o l : vo_repr o (AList l) -> exists d, as_list o = Some d /\ dl_repr d l.
Proof. intros [_ Hp]. unfold as_list. cbn in Hp. destruct (vo_ptr o); try done. eauto. Qed.

Lemma repr_dict o x : vo_repr o (ADict x) -> exists d, as_dict o = Some d /\ rh_ok d /\ rmap d = x.
Proof. intros [_ Hp]. unfold as_dict. cbn in Hp. destruct (vo_ptr o); try done. eauto. Qed.

Lemma repr_set o x : vo_repr o (ASet x) -> exists d, as_set o = Some d /\ rh_ok d /\ dom (rmap d) = x.
Proof. intros [_ Hp]. unfold as_set. cbn in Hp. destruct (vo_ptr o); try done. eauto. Qed.

Lemma repr_touch o a now : vo_repr o a -> vo_repr (with_lv_time now o) a.
Proof. done. Qed.

Lemma repr_with o a a' now p : vo_repr o a -> atype a' = atype a -> ptr_repr p a' ->
  vo_repr (with_lv_time now (with_ptr p o)) a'.
Proof. intros [Ht _] E Hp. split; [cbn; congruence|done]. Qed.

Lemma typed_spec {R} c m k t (ret : R) rest : kv_repr c m ->
  match m !! k with
  | None => typed c k t ret rest = Some (c, ret, kKeyNotFoundCode)
  | Some a => exists o, vo_repr o a /\
      typed c k t ret rest = if atype a =? t then rest o else Some (c, ret, kWrongTypeCode)
  end.
Proof.
  intros Hr. unfold typed, found. pose proof (kr_find c m Hr k) as H. inversion H as [o a Ho|]; [|done].
  exists o. split; [done|]. destruct Ho as [-> _]. by destruct (atype a =? t).
Qed.


Lemma small_fits s : small s -> fits s.
Proof. unfold small, fits. lia. Qed.

Lemma all_small_fits l : all_small l -> Forall fits l.
Proof. intros [H _]. eapply Forall_impl; [done|]. apply small_fits. Qed.

#[local] Hint Resolve small_fits all_small_fits : litekv.

(** Evaluate the comparisons of type tags. *)
Ltac types := cbn [atype Z.eqb Pos.eqb negb andb orb mbind option_bind default from_option
  OBJECT_INT OBJECT_STRING OBJECT_LIST OBJECT_HASH OBJECT_SET].

(** The result of an operation agrees with its specification. *)
Definition refines (r : option (KVContainer * kv_reply * Z)) (s : astore * kv_reply * Z) : Prop :=
  exists c' x, r = Some (c', x, s.2) /\ reply_sim x s.1.2 /\ kv_repr c' s.1.1.

Lemma refines_sim c m x x' e : kv_repr c m -> reply_sim x x' -> refines (Some (c, x, e)) (m, x', e).
Proof. intros Hr Hx. by exists c, x. Qed.

Lemma refines_intro c m x e : kv_repr c m -> refines (Some (c, x, e)) (m, x, e).
Proof. intros Hr. apply refines_sim; [done|]. destruct x; cbn; reflexivity. Qed.

(** Operations on a key that must hold one type. *)
Lemma typed_refines {R} c m k t (ret : R) rest (f : R -> kv_reply) g x :
  x = f ret -> kv_repr c m ->
  (forall o a, m !! k = Some a -> vo_repr o a -> atype a <> t -> g a = None) ->
  (forall o a, m !! k = Some a -> vo_repr o a -> atype a = t ->
     exists s, g a = Some s /\ refines (reply f (rest o)) s) ->
  refines (reply f (typed c k t ret rest)) (on m k x g).
Proof.
  intros -> Hr Hbad Hgood. pose proof (typed_spec c m k t ret rest Hr) as HT. unfold on.
  destruct (m !! k) as [a|]; [|rewrite HT; by apply refines_intro].
  destruct HT as (o & Ho & ->). destruct (Z.eqb_spec (atype a) t) as [E|E].
  - destruct (Hgood o a) as (s & -> & Hs); done.
  - rewrite (Hbad o a) by done. by apply refines_intro.
Qed.

(** Reduce an operation that starts with the type check to its last part, on an
    object of the right type. *)
Tactic Notation "typed_op" constr(t) constr(f) :=
  eapply (typed_refines _ _ _ t _ _ f); [reflexivity|eassumption|intros ? [] _ _ ?; done|];
  intros o a Ek Ho Ht.

(** An object found under a key. *)
Lemma found_spec c m k : kv_repr c m ->
  match m !! k with
  | None => kv_find c k = None
  | Some a => exists o, kv_find c k = Some o /\ vo_repr o a
  end.
Proof.
  intros Hr. pose proof (kr_find c m Hr k) as H. inversion H; eauto.
Qed.

(** ** Integers and strings *)

Lemma SetInt_refines now c m k n : kv_repr c m -> in_i64 n ->
  kv_repr (SetInt now c k n).1 (<[k := AInt n]> m) /\ (SetInt now c k n).2 = true.
Proof.
  intros Hr Hn. pose proof (found_spec c m k Hr) as Hf. unfold SetInt.
  destruct (m !! k) as [a|] eqn:Ek.
  - destruct Hf as (o & -> & Ho). split; [|done]. apply kv_put; [done|by eexists|]. done.
  - rewrite Hf. split; [|done]. by apply kv_add.
Qed.

Lemma ToInt64_int o n now : vo_repr o (AInt n) -> ToInt64 (with_lv_time now o) = Some n.
Proof. intros Ho. destruct (repr_int o n Ho) as (Ht & Hp & _). unfold ToInt64. cbn. by rewrite Ht, Hp. Qed.

Lemma wrong_type o a t : vo_repr o a -> negb (vo_type o =? t) = negb (atype a =? t).
Proof. by intros [-> _]. Qed.

Lemma IncrIntBy_refines now c m k n : kv_repr c m -> 0 <= n <= INT64_MAX ->
  refines (reply VInt (IncrIntBy now c k n))
    (match m !! k with
     | None => (<[k := AInt n]> m, VInt n, kOkCode)
     | Some (AInt v) => if v + n >? INT64_MAX then (m, VInt 0, kOverflowCode)
                        else (<[k := AInt (v + n)]> m, VInt (v + n), kOkCode)
     | Some _ => (m, VInt 0, kWrongTypeCode)
     end).
Proof.
  intros Hr Hn. assert (in_i64 n) as Hi by (unfold in_i64, INT64_MIN, INT64_MAX in *; lia).
  pose proof (found_spec c m k Hr) as Hf. unfold IncrIntBy.
  destruct (m !! k) as [a|] eqn:Ek; [|rewrite Hf; apply refines_intro; by apply kv_add].
  destruct Hf as (o & -> & Ho). rewrite (wrong_type o a) by done.
  destruct a as [v| | | |]; types;
    try (by apply refines_intro).
  rewrite (ToInt64_int o v) by done. cbn [mbind option_bind].
  destruct (repr_int o v Ho) as (Ht & Hp & Hv). rewrite (chk64_some (INT64_MAX - n)) by (unfold in_i64, INT64_MIN, INT64_MAX in *; lia).
  cbn [mbind option_bind]. rewrite !Z.gtb_ltb.
  destruct (Z.ltb_spec (INT64_MAX - n) v) as [Hlt|Hge].
  - rewrite (proj2 (Z.ltb_lt _ _)) by lia. apply refines_intro. by eapply kv_touch.
  - rewrite (proj2 (Z.ltb_ge _ _)) by lia.
    assert (in_i64 (v + n)) by (unfold in_i64, INT64_MIN, INT64_MAX in *; lia).
    rewrite chk64_some by done. cbn [mbind option_bind reply]. apply refines_intro.
    apply kv_put; [done|by eexists|]. split; [done|]. by split.
Qed.

Lemma DecrIntBy_refines now c m k n : kv_repr c m -> 0 <= n <= INT64_MAX ->
  refines (reply VInt (DecrIntBy now c k n))
    (match m !! k with
     | None => (<[k := AInt (- n)]> m, VInt (- n), kOkCode)
     | Some (AInt v) => if v - n <? INT64_MIN then (m, VInt 0, kOverflowCode)
                        else (<[k := AInt (v - n)]> m, VInt (v - n), kOkCode)
     | Some _ => (m, VInt 0, kWrongTypeCode)
     end).
Proof.
  intros Hr Hn. assert (in_i64 (- n)) as Hi by (unfold in_i64, INT64_MIN, INT64_MAX in *; lia).
  pose proof (found_spec c m k Hr) as Hf. unfold DecrIntBy.
  destruct (m !! k) as [a|] eqn:Ek.
  2: { rewrite Hf, chk64_some by done. cbn [mbind option_bind]. apply refines_intro. by apply kv_add. }
  destruct Hf as (o & -> & Ho). rewrite (wrong_type o a) by done.
  destruct a as [v| | | |]; types;
    try (by apply refines_intro).
  rewrite (ToInt64_int o v) by done. cbn [mbind option_bind].
  destruct (repr_int o v Ho) as (Ht & Hp & Hv). rewrite (chk64_some (INT64_MIN + n)) by (unfold in_i64, INT64_MIN, INT64_MAX in *; lia).
  cbn [mbind option_bind].
  destruct (Z.ltb_spec v (INT64_MIN + n)) as [Hlt|Hge].
  - rewrite (proj2 (Z.ltb_lt _ _)) by lia. apply refines_intro. by eapply kv_touch.
  - rewrite (proj2 (Z.ltb_ge _ _)) by lia.
    assert (in_i64 (v - n)) by (unfold in_i64, INT64_MIN, INT64_MAX in *; lia).
    rewrite chk64_some by done. cbn [mbind option_bind reply]. apply refines_intro.
    apply kv_put; [done|by eexists|]. split; [done|]. by split.
Qed.

Lemma std_val s : fits s -> exists d, DynamicString_std always_ok s = Some d /\ ds_val d s.
Proof.
  intros Hs. destruct (DynamicString_std_repr s Hs) as (d & E & R & N). exists d. split; [done|].
  by apply ds_val_of.
Qed.

Lemma SetString_refines now c m k v : kv_repr c m -> fits v ->
  exists c', SetString now c k v = Some (c', true) /\ kv_repr c' (<[k := AStr v]> m).
Proof.
  intros Hr Hv. pose proof (found_spec c m k Hr) as Hf. unfold SetString, ConstructStrObjPtr.
  destruct (std_val v Hv) as (d & -> & Hd). destruct (m !! k) as [a|] eqn:Ek.
  2: { rewrite Hf. cbn [mbind option_bind]. eexists. split; [done|]. by apply kv_add. }
  destruct Hf as (o & -> & Ho). pose proof Ho as [-> _].
  destruct a as [n|s| | |]; types.
  2: { destruct (repr_str o s Ho) as (d0 & -> & [R0 _]). cbn [mbind option_bind].
       destruct (Reset_std_repr d0 s v R0 Hv) as (d1 & -> & R1 & N1). cbn [mbind option_bind].
       eexists. split; [done|]. apply kv_put; [done|by eexists|]. split; [done|]. by apply ds_val_of. }
  all: eexists; split; [done|]; apply kv_put; [done|by eexists|done].
Qed.

Lemma StrLen_refines now c m k e : kv_repr c m ->
  refines (reply VInt (StrLen now c k e))
    (match m !! k with
     | None => (m, VInt 0, kKeyNotFoundCode)
     | Some (AInt v) => (m, VInt (Z.of_nat (length (to_string v))), kOkCode)
     | Some (AStr s) => (m, VInt (Z.of_nat (length s)), kOkCode)
     | Some _ => (m, VInt 0, e)
     end).
Proof.
  intros Hr. pose proof (found_spec c m k Hr) as Hf. unfold StrLen, found.
  destruct (m !! k) as [a|] eqn:Ek; [|rewrite Hf; by apply refines_intro].
  destruct Hf as (o & -> & Ho). pose proof Ho as [-> _].
  destruct a as [n|s| | |]; types;
    try (by apply refines_intro).
  - destruct (repr_int o n Ho) as (_ & -> & _). apply refines_intro. by eapply kv_touch.
  - destruct (repr_str o s Ho) as (d & -> & [R _]). cbn [mbind option_bind reply].
    rewrite (ds_repr_len d s R). apply refines_intro. by eapply kv_touch.
Qed.

Lemma ds_opt_val d s : ds_val d s -> ds_opt d = Some s.
Proof. intros H. unfold ds_opt. rewrite (ds_val_data d s H). by destruct H as [_ ->]. Qed.

Lemma Get_refines now c m k : kv_repr c m ->
  refines ('(c, v, e) ← Get now c k; v ← vo_reply v; Some (c, v, e))
    (on m k (VStr None) (λ a, match a with
                              | AInt n => Some (m, VInt n, kOkCode)
                              | AStr s => Some (m, VStr (Some s), kOkCode)
                              | _ => None
                              end)).
Proof.
  intros Hr. pose proof (found_spec c m k Hr) as Hf. unfold Get, found, on.
  destruct (m !! k) as [a|] eqn:Ek; [|rewrite Hf; by apply refines_intro].
  destruct Hf as (o & -> & Ho). pose proof Ho as [-> _].
  destruct a as [n|s| | |]; types;
    try (by apply refines_intro).
  - destruct (repr_int o n Ho) as (_ & Hp & _). cbn [vo_reply with_lv_time vo_ptr]. rewrite Hp.
    apply refines_intro. by eapply kv_touch.
  - pose proof Ho as [_ Hp]. cbn in Hp. cbn [vo_reply with_lv_time vo_ptr]. destruct (vo_ptr o) eqn:Eo; try done.
    cbn [mbind option_bind]. rewrite (ds_opt_val _ s Hp). apply refines_intro. by eapply kv_touch.
Qed.

Lemma Append_refines now c m k v : kv_repr c m -> small v ->
  (forall a, m !! k = Some a -> aval_small a) ->
  refines (reply VInt (kv_Append now c k v))
    (let put s := (<[k := AStr s]> m, VInt (Z.of_nat (length s)), kOkCode) in
     match m !! k with
     | None => put v
     | Some (AStr s) => put (s ++ v)
     | Some (AInt n) => put (to_string n ++ v)
     | Some _ => (m, VInt 0, kWrongTypeCode)
     end).
Proof.
  intros Hr Hv Hsm. pose proof (small_fits v Hv) as Hfv. unfold small in Hv.
  pose proof (found_spec c m k Hr) as Hf. unfold kv_Append.
  destruct (m !! k) as [a|] eqn:Ek.
  2: { rewrite Hf. unfold ConstructStrObjPtr. destruct (std_val v Hfv) as (d & -> & Hd).
       cbn [mbind option_bind as_str vo_ptr]. rewrite (ds_repr_len d v (proj1 Hd)). apply refines_intro.
       by apply kv_add. }
  destruct Hf as (o & -> & Ho). pose proof Ho as [-> _]. specialize (Hsm a eq_refl).
  destruct a as [n|s| | |]; types;
    try (by apply refines_intro).
  - destruct (repr_int o n Ho) as (Ht & Hp & Hn). unfold ToInt64. rewrite Ht, Hp. cbn [negb Z.eqb Pos.eqb OBJECT_INT mbind option_bind].
    pose proof (to_string_i64_length n Hn) as Hl.
    destruct (std_val (to_string n)) as (d & -> & [Rd _]); [unfold fits; lia|]. cbn [mbind option_bind].
    destruct (Append_std_repr d (to_string n) v Rd) as (d1 & -> & R1 & N1); [lia|]. cbn [mbind option_bind reply].
    rewrite (ds_repr_len d1 _ R1). apply refines_intro. apply kv_put; [done|by eexists|].
    split; [done|]. by apply ds_val_of.
  - cbn in Hsm. unfold small in Hsm. destruct (repr_str o s Ho) as (d & -> & [Rd _]). cbn [mbind option_bind].
    destruct (Append_std_repr d s v Rd) as (d1 & -> & R1 & N1); [lia|]. cbn [mbind option_bind reply].
    rewrite (ds_repr_len d1 _ R1). apply refines_intro. apply kv_put; [done|by eexists|].
    split; [done|]. by apply ds_val_of.
Qed.

(** ** Lists *)

Lemma push1_repr b l s v : dl_repr l s -> fits v -> Z.of_nat (length s) < 2 ^ 63 ->
  exists l', push1 b l v = Some l' /\ dl_repr l' (if b then v :: s else s ++ [v]).
Proof. destruct b; [apply PushLeft_repr|apply PushRight_repr]. Qed.

Lemma push_all_repr b l s vs : dl_repr l s -> Forall fits vs -> Z.of_nat (length s + length vs) < 2 ^ 63 ->
  exists l', push_all b l vs = Some l' /\ dl_repr l' (if b then rev vs ++ s else s ++ vs).
Proof.
  intros Hr Hv. revert l s Hr. induction Hv as [|v vs Hv Hvs IH]; intros l s Hr Hs; cbn [push_all].
  { exists l. split; [done|]. destruct b; [done|]. by rewrite app_nil_r. }
  cbn in Hs. destruct (push1_repr b l s v Hr Hv) as (l1 & -> & Hr1); [lia|]. cbn [mbind option_bind].
  destruct (IH l1 _ Hr1) as (l2 & -> & Hr2); [destruct b; rewrite ?length_app; cbn; lia|].
  exists l2. split; [done|]. destruct b; cbn; by rewrite <- app_assoc in *.
Qed.

Lemma ListPushAux_all_refines now c m k b vs : kv_repr c m -> all_small vs ->
  (forall a, m !! k = Some a -> aval_small a) ->
  refines (reply VInt (ListPushAux_all now c k vs b))
    (let push l := if b then rev vs ++ l else l ++ vs in
     let put l := (<[k := AList (push l)]> m, VInt (Z.of_nat (length (push l))), kOkCode) in
     match m !! k with
     | None => put []
     | Some (AList l) => put l
     | Some _ => (m, VInt 0, kWrongTypeCode)
     end).
Proof.
  intros Hr Hvs Hsm. pose proof (all_small_fits vs Hvs) as Hfv. destruct Hvs as [_ Hn].
  pose proof (found_spec c m k Hr) as Hf. unfold ListPushAux_all, push_target.
  destruct (m !! k) as [a|] eqn:Ek.
  - destruct Hf as (o & -> & Ho). rewrite (wrong_type o a) by done. specialize (Hsm a eq_refl).
    destruct a as [| |l| |]; types; try (by apply refines_intro). cbn in Hsm.
    destruct (repr_list o l Ho) as (d & -> & Hd). types.
    destruct (push_all_repr b d l vs Hd Hfv) as (d1 & -> & Hd1); [lia|]. types. cbn [reply].
    rewrite (repr_length d1 _ Hd1). apply refines_intro. apply kv_put; [done|by eexists|].
    by eapply repr_with.
  - rewrite Hf. cbn [as_list ConstructDListObjPtr vo_ptr mbind option_bind].
    destruct (push_all_repr b DList_new [] vs DList_new_repr Hfv) as (d1 & -> & Hd1); [cbn; lia|]. types. cbn [reply].
    rewrite (repr_length d1 _ Hd1). apply refines_intro.
    rewrite <- (insert_insert_eq m k _ (AList [])). apply kv_put.
    + apply kv_add; [done|done|]. split; [done|]. apply DList_new_repr.
    + rewrite lookup_insert_eq. by eexists.
    + split; [done|]. done.
Qed.

Lemma ListPopAux_refines now c m k b : kv_repr c m ->
  refines (reply (VStr ∘ ds_opt) (ListPopAux now c k b))
    (on m k (VStr None) (λ a, match a with
       | AList l =>
           Some (match (if b then head l else last l) with
                 | None => (m, VStr None, kOkCode)
                 | Some x => (<[k := AList (if b then tail l else removelast l)]> m, VStr (Some x), kOkCode)
                 end)
       | _ => None
       end)).
Proof.
  intros Hr. unfold ListPopAux. typed_op OBJECT_LIST (VStr ∘ ds_opt). destruct a as [| |l| |]; try done. eexists. split; [done|].
  destruct (repr_list o l Ho) as (d & -> & Hd). types. destruct b.
  - pose proof (PopLeft_repr d l Hd) as HP. destruct l as [|x l]; cbn [head tail].
    + rewrite HP. types. cbn [reply]. apply refines_intro. eapply kv_touch; [done..|]. by eapply repr_with.
    + destruct HP as (d' & r & -> & Hr' & Hd'). types. cbn [reply mbind option_bind compose]. rewrite (ds_opt_val r x Hr').
      apply refines_intro. apply kv_put; [done|by eexists|]. by eapply repr_with.
  - pose proof (PopRight_repr d l Hd) as HP. destruct (last l) as [x|] eqn:El.
    + destruct HP as (d' & r & -> & Hr' & Hd'). types. cbn [reply mbind option_bind compose]. rewrite (ds_opt_val r x Hr').
      apply refines_intro. apply kv_put; [done|by eexists|]. by eapply repr_with.
    + rewrite HP. types. cbn [reply]. apply refines_intro. eapply kv_touch; [done..|]. by eapply repr_with.
Qed.

Lemma ListLen_refines now c m k : kv_repr c m ->
  refines (reply VInt (ListLen now c k))
    (on m k (VInt 0) (λ a, match a with AList l => Some (m, VInt (Z.of_nat (length l)), kOkCode) | _ => None end)).
Proof.
  intros Hr. unfold ListLen. typed_op OBJECT_LIST VInt. destruct a as [| |l| |]; try done. eexists. split; [done|].
  destruct (repr_list o l Ho) as (d & -> & Hd). types. cbn [reply]. rewrite (repr_length d l Hd).
  apply refines_intro. by eapply kv_touch.
Qed.

(** The index arithmetic of the list operations. *)
Lemma index_norm d (l : list (list ascii)) i : dl_repr d l -> Z.of_nat (length l) < 2 ^ 30 -> in_i32 i ->
  (if i <? 0 then chk32 (i + i32 (DList_Length d)) else Some i) = Some (norm_index l i) /\
  in_i32 (norm_index l i).
Proof.
  intros Hd Hl Hi. unfold norm_index. rewrite (repr_length d l Hd).
  rewrite i32_small by (unfold in_i32, INT32_MIN, INT32_MAX; lia).
  unfold in_i32, INT32_MIN, INT32_MAX in *.
  destruct (Z.ltb_spec i 0); [rewrite chk32_some|]; unfold in_i32, INT32_MIN, INT32_MAX; (split; [done|lia]) || lia.
Qed.

Lemma ListItemAtIndex_refines now c m k i : kv_repr c m -> in_i32 i ->
  (forall a, m !! k = Some a -> aval_small a) ->
  refines (reply (VStr ∘ ds_opt) (ListItemAtIndex now c k i))
    (on m k (VStr None) (λ a, match a with
       | AList l =>
           let i := norm_index l i in
           Some (match (if i <? 0 then None else l !! Z.to_nat i) with
                 | None => (m, VStr None, kFailCode)
                 | Some x => (m, VStr (Some x), kOkCode)
                 end)
       | _ => None
       end)).
Proof.
  intros Hr Hi Hsm. unfold ListItemAtIndex. typed_op OBJECT_LIST (VStr ∘ ds_opt). specialize (Hsm a Ek). destruct a as [| |l| |]; try done. cbn in Hsm. eexists. split; [done|].
  destruct (repr_list o l Ho) as (d & -> & Hd). types.
  destruct (index_norm d l i Hd Hsm Hi) as [-> Hn]. cbn [mbind option_bind]. cbv zeta.
  destruct (Z.ltb_spec (norm_index l i) 0) as [Hneg|Hpos]; [by apply refines_intro|].
  pose proof (DList_get_spec d l (Z.to_nat (norm_index l i)) Hd) as HG.
  rewrite Z2Nat.id in HG by done. specialize (HG (proj2 Hn)).
  destruct (l !! Z.to_nat (norm_index l i)) as [x|].
  - destruct HG as (r & -> & Hx). types. destruct (ds_val_copy r x Hx) as (r' & -> & Hx'). types.
    cbn [reply mbind option_bind compose]. rewrite (ds_opt_val r' x Hx'). apply refines_intro. by eapply kv_touch.
  - rewrite HG. types. cbn [reply]. apply refines_intro. by eapply kv_touch.
Qed.

Lemma ListSetItemAtIndex_refines now c m k i v : kv_repr c m -> in_i32 i -> fits v ->
  (forall a, m !! k = Some a -> aval_small a) ->
  refines (reply VBool (ListSetItemAtIndex now c k i v))
    (on m k (VBool false) (λ a, match a with
       | AList l =>
           let i := norm_index l i in
           Some (if i <? 0 then (m, VBool false, kFailCode)
                 else match l !! Z.to_nat i with
                      | None => (m, VBool false, kOutOfRangeCode)
                      | Some _ => (<[k := AList (<[Z.to_nat i := v]> l)]> m, VBool true, kOkCode)
                      end)
       | _ => None
       end)).
Proof.
  intros Hr Hi Hv Hsm. unfold ListSetItemAtIndex. typed_op OBJECT_LIST VBool. specialize (Hsm a Ek). destruct a as [| |l| |]; try done. cbn in Hsm. eexists. split; [done|].
  destruct (repr_list o l Ho) as (d & -> & Hd). types.
  destruct (index_norm d l i Hd Hsm Hi) as [-> Hn]. cbn [mbind option_bind]. cbv zeta.
  destruct (Z.ltb_spec (norm_index l i) 0) as [Hneg|Hpos]; [by apply refines_intro|].
  pose proof (DList_set_spec d l (Z.to_nat (norm_index l i)) v Hd) as HG.
  rewrite Z2Nat.id in HG by done. specialize (HG (proj2 Hn) Hv).
  destruct (l !! Z.to_nat (norm_index l i)) as [x|].
  - destruct HG as (d' & -> & Hd'). types. cbn [reply]. apply refines_intro.
    apply kv_put; [done|by eexists|]. by eapply repr_with.
  - rewrite HG. types. cbn [reply]. by apply refines_intro.
Qed.

(** ** Hashes *)

Lemma room_dict (d : HashDict) : Z.of_nat (size (rmap d)) < 2 ^ 61 -> room d.
Proof. done. Qed.

Lemma update_all_spec fs vs d n : rh_ok d -> Forall fits fs -> Forall fits vs -> length fs = length vs ->
  Z.of_nat (size (rmap d) + length fs) < 2 ^ 61 ->
  exists d', update_all d fs vs n = Some (d', n + Z.of_nat (length fs)) /\ rh_ok d' /\
    rmap d' = set_fields (rmap d) fs vs.
Proof.
  intros Hd Hf. revert vs d n Hd. induction Hf as [|f fs Hf Hfs IH]; intros [|v vs] d n Hd Hv Hl Hs; try done.
  { cbn. rewrite Z.add_0_r. eauto. }
  inversion Hv as [|? ? Hv1 Hvs]; subst. cbn [update_all length] in *.
  destruct (DynamicString_std_val f Hf) as (fd & -> & Hfd & Ef). destruct (DynamicString_std_val v Hv1) as (vd & -> & Hvd & Ev).
  cbn [mbind option_bind].
  destruct (HashDict_Update_spec d fd vd) as (d1 & r & -> & Hd1 & Em & Er); try done.
  { unfold room. lia. }
  { by rewrite Ev. }
  cbn [mbind option_bind]. assert ((r =? UNDEFINED) = false) as -> by (subst r; by destruct (rmap d !! _)).
  rewrite Ef, Ev in Em.
  destruct (IH vs d1 (n + 1)) as (d2 & -> & Hd2 & Em2); [done|done|lia| |].
  { rewrite Em, map_size_insert. destruct (rmap d !! f); cbn; lia. }
  exists d2. split; [do 2 f_equal; lia|]. split; [done|]. cbn [set_fields]. by rewrite <- Em.
Qed.

Lemma HashUpdateKV_all_refines now c m k fs vs : kv_repr c m -> all_small fs -> all_small vs ->
  (forall a, m !! k = Some a -> aval_small a) ->
  refines (reply VInt (HashUpdateKV_all now c k fs vs))
    (if negb (bool_decide (length fs = length vs)) then (m, VInt 0, kFailCode)
     else
       let put d := (<[k := ADict (set_fields d fs vs)]> m, VInt (Z.of_nat (length fs)), kOkCode) in
       match m !! k with
       | None => put ∅
       | Some (ADict d) => put d
       | Some _ => (m, VInt 0, kWrongTypeCode)
       end).
Proof.
  intros Hr Hfs Hvs Hsm. pose proof (all_small_fits fs Hfs) as Hf1. pose proof (all_small_fits vs Hvs) as Hf2.
  destruct Hfs as [_ Hn]. pose proof (found_spec c m k Hr) as Hf. unfold HashUpdateKV_all, ensure_object.
  case_bool_decide as El; types; [|by apply refines_intro]. destruct (m !! k) as [a|] eqn:Ek.
  - destruct Hf as (o & -> & Ho). rewrite (wrong_type o a) by done. specialize (Hsm a eq_refl).
    destruct a as [| | |x|]; types; try (by apply refines_intro). cbn in Hsm.
    destruct (repr_dict o x Ho) as (d & -> & Hd & Ex). types. subst x.
    destruct (update_all_spec fs vs d 0 Hd Hf1 Hf2 El) as (d1 & -> & Hd1 & Em); [lia|].
    cbn [reply mbind option_bind]. apply refines_intro. apply kv_put; [done|by eexists|].
    by eapply repr_with.
  - rewrite Hf. cbn [as_dict ConstructHashObjPtr vo_ptr mbind option_bind].
    destruct (@Rehashable_new_ok HTEntry (list ascii) _ _) as [Hn0 Hm0].
    destruct (update_all_spec fs vs (Rehashable_new 1%Q) 0 Hn0 Hf1 Hf2 El) as (d1 & -> & Hd1 & Em).
    { rewrite Hm0, map_size_empty. lia. }
    rewrite Hm0 in Em. cbn [reply mbind option_bind]. apply refines_intro.
    rewrite <- (insert_insert_eq m k _ (ADict ∅)). apply kv_put.
    + by apply kv_add.
    + rewrite lookup_insert_eq. by eexists.
    + by split.
Qed.

Lemma HashGetValue_refines now c m k f fd : kv_repr c m -> ds_ok fd -> ds_data fd = f ->
  (forall a, m !! k = Some a -> aval_small a) ->
  refines (reply (VStr ∘ ds_opt) (HashGetValue now c k fd))
    (on m k (VStr None) (λ a, match a with
       | ADict d => Some (m, VStr (d !! f), match d !! f with None => kKeyNotFoundCode | Some _ => kOkCode end)
       | _ => None
       end)).
Proof.
  intros Hr Hfd <- Hsm. unfold HashGetValue. typed_op OBJECT_HASH (VStr ∘ ds_opt). specialize (Hsm a Ek). destruct a as [| | |x|]; try done. cbn in Hsm. eexists. split; [done|].
  destruct (repr_dict o x Ho) as (d & -> & Hd & <-). types.
  destruct (HashDict_At_spec d fd) as (d' & r & -> & Hd' & Em & Hv); [done|unfold room; lia|done|].
  types. destruct (rmap d !! ds_data fd) as [v|].
  - destruct Hv as (s & -> & Hs). destruct (ds_val_copy s v Hs) as (s' & -> & Hs').
    cbn [reply mbind option_bind compose]. rewrite (ds_opt_val s' v Hs'). apply refines_intro.
    eapply kv_touch; [done..|]. by eapply repr_with.
  - subst r. cbn [reply mbind option_bind compose]. apply refines_intro.
    eapply kv_touch; [done..|]. by eapply repr_with.
Qed.

Lemma get_all_spec fs d : rh_ok d -> room d -> Forall fits fs ->
  exists d' ds, get_all d fs = Some (d', ds) /\ rh_ok d' /\ rmap d' = rmap d /\
    map ds_opt ds = map (λ f, rmap d !! f) fs.
Proof.
  intros Hd Hr Hf. revert d Hd Hr. induction Hf as [|f fs Hf Hfs IH]; intros d Hd Hr; cbn [get_all]; [eauto 6|].
  destruct (DynamicString_std_ok f Hf) as (fd & -> & Hfd & Ef). cbn [mbind option_bind].
  destruct (HashDict_At_spec d fd) as (d1 & r & -> & Hd1 & Em & Hv); try done. cbn [mbind option_bind].
  destruct (IH d1) as (d2 & ds & E2 & Hd2 & Em2 & Eds); [done|unfold room; by rewrite Em|].
  rewrite Ef in Hv. destruct (rmap d !! f) as [v|] eqn:Efv.
  - destruct Hv as (s & -> & Hs). destruct (ds_val_copy s v Hs) as (s' & -> & Hs').
    cbn [mbind option_bind]. rewrite E2. cbn [mbind option_bind]. eexists _, _. split; [done|].
    split; [done|]. split; [congruence|]. cbn. by rewrite (ds_opt_val s' v Hs'), Eds, Em, Efv.
  - subst r. cbn [mbind option_bind]. rewrite E2. cbn [mbind option_bind]. eexists _, _. split; [done|].
    split; [done|]. split; [congruence|]. cbn. by rewrite Eds, Em, Efv.
Qed.

Lemma HashGetValue_all_refines now c m k fs : kv_repr c m -> all_small fs ->
  (forall a, m !! k = Some a -> aval_small a) ->
  refines (reply (VStrs ∘ map ds_opt) (HashGetValue_all now c k fs))
    (on m k (VStrs []) (λ a,
       match a with ADict d => Some (m, VStrs (map (λ f, d !! f) fs), kOkCode) | _ => None end)).
Proof.
  intros Hr Hfs Hsm. unfold HashGetValue_all. typed_op OBJECT_HASH (VStrs ∘ map ds_opt). specialize (Hsm a Ek). destruct a as [| | |x|]; try done. cbn in Hsm. eexists. split; [done|].
  destruct (repr_dict o x Ho) as (d & -> & Hd & <-). types.
  destruct (get_all_spec fs d Hd) as (d' & ds & -> & Hd' & Em & Eds); [unfold room; lia|by apply all_small_fits|].
  cbn [reply mbind option_bind compose]. rewrite Eds. apply refines_intro.
  eapply kv_touch; [done..|]. by eapply repr_with.
Qed.

Lemma erase_all_spec {E A} `{!HashEntry E} `{!HashImpl E} `{!EntrySpec E A} `{!HashImplSpec E A}
  fs (d : Rehashable E) n : rh_ok d -> room d -> Forall fits fs ->
  exists d', erase_all d fs n = Some (d', (del_fields (rmap d) fs n).2) /\ rh_ok d' /\
    rmap d' = (del_fields (rmap d) fs n).1.
Proof.
  intros Hd Hr Hf. revert d n Hd Hr. induction Hf as [|f fs Hf Hfs IH]; intros d n Hd Hr; cbn [erase_all del_fields]; [eauto|].
  destruct (DynamicString_std_ok f Hf) as (fd & -> & Hfd & Ef). cbn [mbind option_bind].
  destruct (Erase_spec d fd) as (d1 & r & -> & Hd1 & Em & Er); try done. cbn [mbind option_bind].
  rewrite Ef in *. assert ((if r =? ERASED then n + 1 else n) = match rmap d !! f with Some _ => n + 1 | None => n end)
    as -> by (subst r; by destruct (rmap d !! f)).
  rewrite <- Em. apply IH; [done|]. unfold room in *. rewrite Em, map_size_delete. destruct (rmap d !! f); cbn; lia.
Qed.

Lemma HashDelField_all_refines now c m k fs : kv_repr c m -> all_small fs ->
  (forall a, m !! k = Some a -> aval_small a) ->
  refines (reply VInt (HashDelField_all now c k fs))
    (on m k (VInt 0) (λ a, match a with
       | ADict d => let '(d, n) := del_fields d fs 0 in Some (<[k := ADict d]> m, VInt n, kOkCode)
       | _ => None
       end)).
Proof.
  intros Hr Hfs Hsm. unfold HashDelField_all. typed_op OBJECT_HASH VInt. specialize (Hsm a Ek). destruct a as [| | |x|]; try done. cbn in Hsm.
  destruct (repr_dict o x Ho) as (d & -> & Hd & <-). types.
  destruct (erase_all_spec fs d 0 Hd) as (d' & -> & Hd' & Em); [unfold room; lia|by apply all_small_fits|].
  destruct (del_fields (rmap d) fs 0) as [x n]. eexists. split; [done|].
  cbn [reply mbind option_bind snd]. apply refines_intro. apply kv_put; [done|by eexists|]. by eapply repr_with.
Qed.

Lemma HashExistField_refines now c m k f fd : kv_repr c m -> ds_ok fd -> ds_data fd = f ->
  refines (reply VBool (HashExistField now c k fd))
    (on m k (VBool false) (λ a,
       match a with ADict d => Some (m, VBool (bool_decide (is_Some (d !! f))), kOkCode) | _ => None end)).
Proof.
  intros Hr Hfd <-. unfold HashExistField. typed_op OBJECT_HASH VBool. destruct a as [| | |x|]; try done. eexists. split; [done|].
  destruct (repr_dict o x Ho) as (d & -> & Hd & <-). types. rewrite CheckExists_spec by done.
  cbn [reply mbind option_bind]. apply refines_intro. by eapply kv_touch.
Qed.

(** The entries of a container, up to their order. *)
Lemma emap_to_list {E A} `{!HashEntry E} `{!EntrySpec E A} (l : list E) : NoDup (kb <$> l) ->
  map_to_list (emap l) ≡ₚ (λ e, (kb e, entry_val e)) <$> l.
Proof. intros Hn. apply map_to_list_to_map. by apply emap_nodup. Qed.

Lemma HashGetAllFields_refines now c m k : kv_repr c m -> (forall a, m !! k = Some a -> aval_small a) ->
  refines (reply (VBag ∘ map ds_data) (HashGetAllFields now c k))
    (on m k (VBag []) (λ a,
       match a with ADict d => Some (m, VBag (map_to_list d).*1, kOkCode) | _ => None end)).
Proof.
  intros Hr Hsm. unfold HashGetAllFields. typed_op OBJECT_HASH (VBag ∘ map ds_data). specialize (Hsm a Ek). destruct a as [| | |x|]; try done. cbn in Hsm. eexists. split; [done|].
  destruct (repr_dict o x Ho) as (d & -> & Hd & <-). types.
  rewrite AllKeys_rspec by (done || (unfold room; lia)). cbn [reply mbind option_bind compose].
  apply refines_sim; [by eapply kv_touch|]. cbn. unfold rmap. rewrite (emap_to_list (rents d) (rh_nodup d Hd)).
  rewrite <- list_fmap_compose. by rewrite map_map.
Qed.

Lemma HashGetAllValues_refines now c m k : kv_repr c m -> (forall a, m !! k = Some a -> aval_small a) ->
  refines (reply (VBag ∘ map ds_data) (HashGetAllValues now c k))
    (on m k (VBag []) (λ a,
       match a with ADict d => Some (m, VBag (map_to_list d).*2, kOkCode) | _ => None end)).
Proof.
  intros Hr Hsm. unfold HashGetAllValues. typed_op OBJECT_HASH (VBag ∘ map ds_data). specialize (Hsm a Ek). destruct a as [| | |x|]; try done. cbn in Hsm. eexists. split; [done|].
  destruct (repr_dict o x Ho) as (d & -> & Hd & <-). types.
  rewrite HashDict_AllValues_spec by (done || (unfold room; lia)). cbn [reply mbind option_bind compose].
  apply refines_sim; [by eapply kv_touch|]. cbn. unfold rmap. rewrite (emap_to_list (rents d) (rh_nodup d Hd)).
  rewrite <- list_fmap_compose. by rewrite map_map.
Qed.

Lemma HashLen_refines now c m k : kv_repr c m -> (forall a, m !! k = Some a -> aval_small a) ->
  refines (reply VInt (HashLen now c k))
    (on m k (VInt 0) (λ a,
       match a with ADict d => Some (m, VInt (Z.of_nat (size d)), kOkCode) | _ => None end)).
Proof.
  intros Hr Hsm. unfold HashLen. typed_op OBJECT_HASH VInt. specialize (Hsm a Ek). destruct a as [| | |x|]; try done. cbn in Hsm. eexists. split; [done|].
  destruct (repr_dict o x Ho) as (d & -> & Hd & <-). types.
  rewrite Count_spec by (done || (unfold room; lia)). cbn [reply mbind option_bind].
  apply refines_intro. by eapply kv_touch.
Qed.

(** ** Sets *)

Lemma insert_all_spec ms s n : rh_ok s -> Forall fits ms -> Z.of_nat (size (rmap s) + length ms) < 2 ^ 61 ->
  exists s', insert_all s ms n = Some (s', (add_members (dom (rmap s)) ms n).2) /\ rh_ok s' /\
    dom (rmap s') = (add_members (dom (rmap s)) ms n).1.
Proof.
  intros Hs Hf. revert s n Hs. induction Hf as [|x ms Hx Hms IH]; intros s n Hs Hl; cbn [insert_all add_members]; [eauto|].
  destruct (DynamicString_std_val x Hx) as (xd & -> & Hxd & Ex). cbn [mbind option_bind].
  destruct (HashSet_Insert_spec s xd) as (s1 & r & -> & Hs1 & Em & Er); try done.
  { unfold room. lia. }
  cbn [mbind option_bind length] in *. rewrite Ex in *.
  assert ((if r =? NEW_ADDED then n + 1 else n) = if decide (x ∈ dom (rmap s)) then n else n + 1) as ->.
  { subst r. destruct (rmap s !! x) eqn:E.
    - by rewrite decide_True by (by eapply elem_of_dom_2).
    - by rewrite decide_False by (by apply not_elem_of_dom). }
  replace ({[x]} ∪ dom (rmap s)) with (dom (rmap s1)) by (rewrite Em; apply dom_insert_L).
  apply IH; [done|]. rewrite Em, map_size_insert. destruct (rmap s !! x); cbn; lia.
Qed.

Lemma dom_size {A} (m : gmap (list ascii) A) : size (dom m) = size m.
Proof. apply size_dom. Qed.

Lemma SetAddItem_all_refines now c m k ms : kv_repr c m -> all_small ms ->
  (forall a, m !! k = Some a -> aval_small a) ->
  refines (reply VInt (SetAddItem_all now c k ms))
    (let put s := let '(s, n) := add_members s ms 0 in (<[k := ASet s]> m, VInt n, kOkCode) in
     match m !! k with
     | None => put ∅
     | Some (ASet s) => put s
     | Some _ => (m, VInt 0, kWrongTypeCode)
     end).
Proof.
  intros Hr Hms Hsm. pose proof (all_small_fits ms Hms) as Hf1. destruct Hms as [_ Hn].
  pose proof (found_spec c m k Hr) as Hf. unfold SetAddItem_all, ensure_object. destruct (m !! k) as [a|] eqn:Ek.
  - destruct Hf as (o & -> & Ho). rewrite (wrong_type o a) by done. specialize (Hsm a eq_refl).
    destruct a as [| | | |x]; types; try (by apply refines_intro). cbn in Hsm.
    destruct (repr_set o x Ho) as (s & -> & Hs & <-). types. rewrite dom_size in Hsm.
    destruct (insert_all_spec ms s 0 Hs Hf1) as (s1 & -> & Hs1 & Em); [lia|].
    destruct (add_members (dom (rmap s)) ms 0) as [x n].
    cbn [reply mbind option_bind snd]. apply refines_intro. apply kv_put; [done|by eexists|].
    by eapply repr_with.
  - rewrite Hf. cbn [as_set ConstructSetObjPtr vo_ptr mbind option_bind].
    destruct (@Rehashable_new_ok HSEntry () _ _) as [Hn0 Hm0].
    destruct (insert_all_spec ms (Rehashable_new 1%Q) 0 Hn0 Hf1) as (s1 & -> & Hs1 & Em).
    { rewrite Hm0, map_size_empty. lia. }
    rewrite Hm0, dom_empty_L in *. destruct (add_members ∅ ms 0) as [x n].
    cbn [reply mbind option_bind snd]. apply refines_intro.
    rewrite <- (insert_insert_eq m k _ (ASet ∅)). apply kv_put.
    + apply kv_add; [done|done|]. split; [done|]. split; [done|]. by rewrite Hm0, dom_empty_L.
    + rewrite lookup_insert_eq. by eexists.
    + by split.
Qed.

Lemma CheckExists_member (s : HashSet) xd : rh_ok s -> ds_ok xd ->
  Rehashable_CheckExists s xd = Some (bool_decide (ds_data xd ∈ dom (rmap s))).
Proof.
  intros Hs Hx. rewrite CheckExists_spec by done. f_equal. apply bool_decide_ext. by rewrite elem_of_dom.
Qed.

Lemma SetIsMember_refines now c m k x xd : kv_repr c m -> ds_ok xd -> ds_data xd = x ->
  refines (reply VBool (SetIsMember now c k xd))
    (on m k (VBool false) (λ a,
       match a with ASet s => Some (m, VBool (bool_decide (x ∈ s)), kOkCode) | _ => None end)).
Proof.
  intros Hr Hxd <-. unfold SetIsMember. typed_op OBJECT_SET VBool.
  destruct a as [| | | |x]; try done. eexists. split; [done|].
  destruct (repr_set o x Ho) as (s & -> & Hs & <-). types. rewrite CheckExists_member by done.
  cbn [reply mbind option_bind]. apply refines_intro. by eapply kv_touch.
Qed.

Lemma members_exist_spec ms s : rh_ok s -> Forall fits ms ->
  members_exist s ms = Some (map (λ x, bool_decide (x ∈ dom (rmap s))) ms).
Proof.
  intros Hs Hf. induction Hf as [|x ms Hx Hms IH]; [done|]. cbn [members_exist map].
  destruct (DynamicString_std_ok x Hx) as (xd & -> & Hxd & Ex). cbn [mbind option_bind].
  rewrite CheckExists_member by done. cbn [mbind option_bind]. rewrite IH. cbn [mbind option_bind]. by rewrite Ex.
Qed.

Lemma SetMIsMember_refines now c m k ms : kv_repr c m -> all_small ms ->
  refines (reply VBools (SetMIsMember now c k ms))
    (match m !! k with
     | None => (m, VBools (replicate (length ms) false), kKeyNotFoundCode)
     | Some (ASet s) => (m, VBools (map (λ x, bool_decide (x ∈ s)) ms), kOkCode)
     | Some _ => (m, VBools [], kWrongTypeCode)
     end).
Proof.
  intros Hr Hms. pose proof (found_spec c m k Hr) as Hf. unfold SetMIsMember, found.
  destruct (m !! k) as [a|] eqn:Ek; [|rewrite Hf; by apply refines_intro].
  destruct Hf as (o & -> & Ho). rewrite (wrong_type o a) by done.
  destruct a as [| | | |x]; types; try (by apply refines_intro).
  destruct (repr_set o x Ho) as (s & -> & Hs & <-). types.
  rewrite members_exist_spec by (done || by apply all_small_fits). cbn [reply mbind option_bind].
  apply refines_intro. by eapply kv_touch.
Qed.

(** Deleting keys from a map deletes them from its domain. *)
Lemma del_members_dom {A} (items : list (list ascii)) (m : gmap (list ascii) A) (n : Z) :
  del_members (dom m) items n = (dom (del_fields m items n).1, (del_fields m items n).2).
Proof.
  revert m n. induction items as [|i items IH]; intros m n; [done|]. cbn [del_members del_fields].
  rewrite <- dom_delete_L, <- IH. f_equal. destruct (m !! i) eqn:E.
  - by rewrite decide_True by (by eapply elem_of_dom_2).
  - by rewrite decide_False by (by apply not_elem_of_dom).
Qed.

Lemma SetRemoveMembers_refines now c m k ms : kv_repr c m -> all_small ms ->
  (forall a, m !! k = Some a -> aval_small a) ->
  refines (reply VInt (SetRemoveMembers now c k ms))
    (on m k (VInt 0) (λ a, match a with
       | ASet s => let '(s, n) := del_members s ms 0 in Some (<[k := ASet s]> m, VInt n, kOkCode)
       | _ => None
       end)).
Proof.
  intros Hr Hms Hsm. unfold SetRemoveMembers. typed_op OBJECT_SET VInt.
  specialize (Hsm a Ek). destruct a as [| | | |x]; try done. cbn in Hsm.
  destruct (repr_set o x Ho) as (s & -> & Hs & <-). types. rewrite dom_size in Hsm.
  destruct (erase_all_spec ms s 0 Hs) as (s' & -> & Hs' & Em); [unfold room; lia|by apply all_small_fits|].
  rewrite del_members_dom. destruct (del_fields (rmap s) ms 0) as [x n]. cbn in Em. subst x. eexists. split; [done|].
  cbn [reply mbind option_bind snd]. apply refines_intro. apply kv_put; [done|by eexists|]. by eapply repr_with.
Qed.

Lemma SetGetMembers_refines now c m k : kv_repr c m -> (forall a, m !! k = Some a -> aval_small a) ->
  refines (reply (VBag ∘ map ds_data) (SetGetMembers now c k))
    (on m k (VBag []) (λ a,
       match a with ASet s => Some (m, VBag (elements s), kOkCode) | _ => None end)).
Proof.
  intros Hr Hsm. unfold SetGetMembers. typed_op OBJECT_SET (VBag ∘ map ds_data).
  specialize (Hsm a Ek). destruct a as [| | | |x]; try done. cbn in Hsm. eexists. split; [done|].
  destruct (repr_set o x Ho) as (s & -> & Hs & <-). types. rewrite dom_size in Hsm.
  rewrite AllKeys_rspec by (done || (unfold room; lia)). cbn [reply mbind option_bind compose].
  apply refines_sim; [by eapply kv_touch|]. cbn. apply NoDup_Permutation.
  - rewrite map_map. exact (rh_nodup s Hs).
  - apply NoDup_elements.
  - intros x. rewrite elem_of_elements, elem_of_dom, map_map. unfold rmap.
    destruct (emap (rents s) !! x) eqn:E.
    + split; [by eexists|]. intros _. apply emap_lookup in E as (e & He & <- & _); [|apply (rh_nodup s Hs)].
      by apply list_elem_of_fmap_2.
    + apply emap_None in E. split; [done|by intros [? ?]].
Qed.

Lemma SetGetMemberCount_refines now c m k : kv_repr c m -> (forall a, m !! k = Some a -> aval_small a) ->
  refines (reply VInt (SetGetMemberCount now c k))
    (on m k (VInt 0) (λ a,
       match a with ASet s => Some (m, VInt (Z.of_nat (size s)), kOkCode) | _ => None end)).
Proof.
  intros Hr Hsm. unfold SetGetMemberCount. typed_op OBJECT_SET VInt.
  specialize (Hsm a Ek). destruct a as [| | | |x]; try done. cbn in Hsm. eexists. split; [done|].
  destruct (repr_set o x Ho) as (s & -> & Hs & <-). types. rewrite dom_size in *.
  rewrite Count_spec by (done || (unfold room; lia)). cbn [reply mbind option_bind].
  apply refines_intro. by eapply kv_touch.
Qed.
