(* ===== verification/KVStore.v ===== *)
(** * KVStore: theorems about the key space

    Sequences of operations on a [KVContainer] refine the abstract store; refused
    operations change nothing; what eviction removes and what it reports. *)

From S2P Require Import Prelude Encoding Numerals Str Hash HashFacts DList DListFacts Core CoreSpec CoreFacts.
From Stdlib Require Import QArith.
From stdpp Require Import list fin_maps.

Local Open Scope Z_scope.

(** ** Refinement *)

(** One operation. *)
Lemma kv_exec_refines now c m o : kv_repr c m -> op_ok m o -> refines (kv_exec now c o) (kv_spec m o).
Proof.
  intros Hr [Ha Hs]. destruct o; cbn [op_key args_ok] in *; cbn [kv_exec kv_spec].
  - destruct (SetInt_refines now c m (Key_std key) n Hr Ha) as [Hr' Eb].
    destruct (SetInt now c (Key_std key) n) as [c' b]. cbn in *. subst b. by apply refines_intro.
  - by apply IncrIntBy_refines.
  - by apply DecrIntBy_refines.
  - destruct (SetString_refines now c m (Key_std key) val Hr (small_fits _ Ha)) as (c' & -> & Hr').
    by apply refines_intro.
  - by apply StrLen_refines.
  - by apply Get_refines.
  - destruct (kv_Delete_repr c m (Key_std key) Hr) as [Hr' Eb].
    destruct (kv_Delete c (Key_std key)) as [c' b]. cbn in *. subst b. by apply refines_intro.
  - unfold KeyExists. replace (bool_decide (is_Some (kv_find c (Key_std key))))
      with (bool_decide (is_Some (m !! Key_std key))); [by apply refines_intro|].
    apply bool_decide_ext. pose proof (kr_find c m Hr (Key_std key)) as H. inversion H; [split; intros _; by eexists|done].
  - unfold QueryObjectType. pose proof (found_spec c m (Key_std key) Hr) as Hf.
    destruct (m !! Key_std key) as [a|]; [destruct Hf as (o & -> & [-> _])|rewrite Hf]; by apply refines_intro.
  - by apply Append_refines.
  - by apply ListPushAux_all_refines.
  - by apply ListPopAux_refines.
  - by apply ListLen_refines.
  - by apply ListItemAtIndex_refines.
  - destruct Ha as [Hi Hv]. apply ListSetItemAtIndex_refines; auto. by apply small_fits.
  - destruct Ha as [Hf Hv]. by apply HashUpdateKV_all_refines.
  - destruct (DynamicString_std_ok field (small_fits _ Ha)) as (fd & -> & Hfd & Ef). by apply HashGetValue_refines.
  - by apply HashGetValue_all_refines.
  - by apply HashDelField_all_refines.
  - destruct (DynamicString_std_ok field (small_fits _ Ha)) as (fd & -> & Hfd & Ef). by apply HashExistField_refines.
  - by apply HashGetAllFields_refines.
  - by apply HashGetAllValues_refines.
  - by apply HashLen_refines.
  - by apply SetAddItem_all_refines.
  - destruct (DynamicString_std_ok member (small_fits _ Ha)) as (fd & -> & Hfd & Ef). by apply SetIsMember_refines.
  - by apply SetMIsMember_refines.
  - by apply SetRemoveMembers_refines.
  - by apply SetGetMembers_refines.
  - by apply SetGetMemberCount_refines.
Qed.

(** Several operations, each with its clock reading. *)
Fixpoint kv_run (c : KVContainer) (ops : list (Z * kv_op)) : option (KVContainer * list (kv_reply * Z)) :=
  match ops with
  | [] => Some (c, [])
  | (now, o) :: ops =>
      '(c, r, e) ← kv_exec now c o;
      '(c, rs) ← kv_run c ops;
      Some (c, (r, e) :: rs)
  end.

Fixpoint kv_spec_run (m : astore) (ops : list (Z * kv_op)) : astore * list (kv_reply * Z) :=
  match ops with
  | [] => (m, [])
  | (_, o) :: ops =>
      let '(m, r, e) := kv_spec m o in
      let '(m, rs) := kv_spec_run m ops in
      (m, (r, e) :: rs)
  end.

(** Every operation meets its bounds on the store it runs on. *)
Fixpoint ops_ok (m : astore) (ops : list (Z * kv_op)) : Prop :=
  match ops with
  | [] => True
  | (_, o) :: ops => op_ok m o /\ ops_ok (kv_spec m o).1.1 ops
  end.

Definition sim (x y : kv_reply * Z) : Prop := reply_sim x.1 y.1 /\ x.2 = y.2.

Lemma kv_run_refines ops c m : kv_repr c m -> ops_ok m ops ->
  exists c' rs, kv_run c ops = Some (c', rs) /\ kv_repr c' (kv_spec_run m ops).1 /\
    Forall2 sim rs (kv_spec_run m ops).2.
Proof.
  revert c m. induction ops as [|[now o] ops IH]; intros c m Hr Ho; cbn [kv_run kv_spec_run].
  { exists c, []. split; [done|]. by split. }
  destruct Ho as [Ho Hos]. destruct (kv_exec_refines now c m o Hr Ho) as (c1 & x & -> & Hx & Hr1).
  destruct (kv_spec m o) as [[m1 y] e]. cbn [fst snd mbind option_bind] in *.
  destruct (IH c1 m1 Hr1 Hos) as (c2 & rs & -> & Hr2 & Hrs). cbn [mbind option_bind].
  destruct (kv_spec_run m1 ops) as [m2 ys]. cbn [fst snd] in *.
  eexists _, _. split; [done|]. split; [done|]. constructor; [|done]. by split.
Qed.

(** C1. From an empty container, every sequence of key, integer, string, list,
    hash and set operations runs without undefined behaviour and gives the replies
    and error codes of the abstract store (listings of hashes and sets up to
    their order); afterwards the container represents the abstract store: type
    tags agree with the payloads, every key is in the bucket of its hash, and the
    key pool lists each key once. *)
Theorem KVContainer_refines_store (ops : list (Z * kv_op)) : ops_ok ∅ ops ->
  exists c rs, kv_run KVContainer_new ops = Some (c, rs) /\
    kv_repr c (kv_spec_run ∅ ops).1 /\ Forall2 sim rs (kv_spec_run ∅ ops).2.
Proof. intros Ho. apply kv_run_refines; [apply KVContainer_new_repr|done]. Qed.

Lemma KVContainer_refines_store_witness :
  exists c rs, kv_run KVContainer_new [(1, OSetInt (bs "a") 7); (2, OIncrIntBy (bs "a") 1); (3, OListLen (bs "a"))] = Some (c, rs) /\
    kv_repr c (kv_spec_run ∅ [(1, OSetInt (bs "a") 7); (2, OIncrIntBy (bs "a") 1); (3, OListLen (bs "a"))]).1 /\
    Forall2 sim rs (kv_spec_run ∅ [(1, OSetInt (bs "a") 7); (2, OIncrIntBy (bs "a") 1); (3, OListLen (bs "a"))]).2.
Proof.
  apply KVContainer_refines_store. split; [|split; [|split; [|done]]].
  - split; [unfold args_ok, in_i64, INT64_MIN, INT64_MAX; lia|]. intros a H. by rewrite lookup_empty in H.
  - split; [unfold args_ok, INT64_MAX; lia|]. intros a H. cbn in H. injection H as <-. done.
  - split; [done|]. intros a H. cbn in H. injection H as <-. done.
Defined.

(** An operation refused for a wrong type leaves the container exactly as it
    was, down to the visit times, whatever state the container is in. *)
Lemma wrong_type_changes_nothing now c o c' r :
  kv_exec now c o = Some (c', r, kWrongTypeCode) -> c' = c.
Proof.
  destruct o; cbn [kv_exec]; unfold reply, SetInt, IncrIntBy, DecrIntBy, SetString, StrLen, Get, kv_Delete,
    kv_Append, ListPushAux_all, push_target, ListPopAux, ListLen, ListItemAtIndex, ListSetItemAtIndex,
    HashUpdateKV_all, HashGetValue, HashGetValue_all, HashDelField_all, HashExistField,
    HashGetAllFields, HashGetAllValues, HashLen, SetAddItem_all, SetIsMember, SetMIsMember, SetRemoveMembers,
    SetGetMembers, SetGetMemberCount, typed, found, ensure_object; intros H.
  all: repeat first [progress simplify_option_eq | case_match]; try done.
Qed.

Lemma wrong_type_changes_nothing_witness :
  exists c c' r, kv_exec 1 c (OListLen (bs "a")) = Some (c', r, kWrongTypeCode) /\ c' = c.
Proof.
  set (c := (SetInt 0 KVContainer_new (bs "a") 5).1).
  exists c, c, (VInt 0). assert (kv_exec 1 c (OListLen (bs "a")) = Some (c, VInt 0, kWrongTypeCode)) as H.
  { vm_compute. reflexivity. }
  split; [exact H|]. exact (wrong_type_changes_nothing 1 c (OListLen (bs "a")) c (VInt 0) H).
Defined.

(** [StrLen] on a list, hash or set does not report the wrong type: it
    returns 0 and leaves [errcode] at whatever the caller had put there. *)
Lemma StrLen_keeps_errcode now c m key e a : kv_repr c m -> m !! Key_std key = Some a ->
  (forall n, a <> AInt n) -> (forall s, a <> AStr s) ->
  StrLen now c (Key_std key) e = Some (c, 0, e).
Proof.
  intros Hr Ha Hi Hs. pose proof (found_spec c m (Key_std key) Hr) as Hf. rewrite Ha in Hf.
  destruct Hf as (o & Hf & [Ht _]). unfold StrLen, found. rewrite Hf, Ht.
  destruct a as [n|s| | |]; [by destruct (Hi n)|by destruct (Hs s)|done..].
Qed.

Lemma StrLen_keeps_errcode_witness :
  exists c m, kv_repr c m /\ m !! Key_std (bs "l") = Some (AList [bs "x"]) /\
    StrLen 2 c (Key_std (bs "l")) 0 = Some (c, 0, 0).
Proof.
  destruct (kv_exec_refines 1 KVContainer_new ∅ (OPush true (bs "l") [bs "x"])) as (c & x & _ & _ & Hr).
  - apply KVContainer_new_repr.
  - split; [split; [repeat constructor; unfold small; cbn; lia|cbn; lia]|].
    intros a H. by rewrite lookup_empty in H.
  - cbn [kv_spec] in Hr. rewrite lookup_empty in Hr. cbn [fst snd rev app] in Hr.
    exists c, (<[Key_std (bs "l") := AList [bs "x"]]> ∅). split; [exact Hr|].
    split; [apply lookup_insert_eq|].
    apply (StrLen_keeps_errcode 2 c _ (bs "l") 0 (AList [bs "x"]) Hr); [apply lookup_insert_eq|done|done].
Defined.

(** ** Ranges *)

Lemma range_bounds_spec l b e : in_i32 b -> in_i32 e -> Z.of_nat (length l) < 2 ^ 30 ->
  0 <= range_start l b e -> range_start l b e <= norm_index l e ->
  range_bounds (Z.of_nat (length l)) b e = Some (Some (range_start l b e, norm_index l e)).
Proof.
  unfold range_start, norm_index, range_bounds, in_i32, INT32_MIN, INT32_MAX. intros Hb He Hl.
  destruct (Z.ltb_spec b 0); destruct (Z.ltb_spec e 0);
    rewrite ?chk32_some by (unfold in_i32, INT32_MIN, INT32_MAX; lia); cbn [mbind option_bind];
    repeat match goal with |- context [?x <? ?y] => destruct (Z.ltb_spec x y) end; cbn; intros; done || lia.
Qed.

Lemma range_bounds_empty l b e : in_i32 b -> in_i32 e -> Z.of_nat (length l) < 2 ^ 30 ->
  l = [] \/ norm_index l e < 0 \/ norm_index l e < range_start l b e ->
  exists r, range_bounds (Z.of_nat (length l)) b e = Some r /\
    match r with None => True | Some (b', e') => l = [] \/ e' < b' end.
Proof.
  unfold range_start, norm_index, range_bounds, in_i32, INT32_MIN, INT32_MAX. intros Hb He Hl Hem.
  destruct (Z.ltb_spec b 0); destruct (Z.ltb_spec e 0);
    rewrite ?chk32_some by (unfold in_i32, INT32_MIN, INT32_MAX; lia); cbn [mbind option_bind];
    (eexists; split; [reflexivity|]);
    repeat match goal with |- context [?x <? ?y] => destruct (Z.ltb_spec x y) end; cbn;
    revert Hem; repeat match goal with |- context [?x <? ?y] => destruct (Z.ltb_spec x y) end; cbn;
    intros [->|[?|?]]; (done || (left; done) || (right; lia) || (cbn in *; lia)).
Qed.

Lemma ListRange_spec now c m key l b e : kv_repr c m -> m !! Key_std key = Some (AList l) ->
  Z.of_nat (length l) < 2 ^ 30 -> in_i32 b -> in_i32 e ->
  0 <= range_start l b e < Z.of_nat (length l) -> range_start l b e <= norm_index l e ->
  exists c' ds, ListRange now c (Key_std key) b e = Some (c', ds, kOkCode) /\ kv_repr c' m /\
    Forall2 ds_val ds
      (let lo := Z.to_nat (range_start l b e) in
       let hi := Nat.min (Z.to_nat (norm_index l e)) (length l - 1) in
       take (hi - lo + 1) (drop lo l)).
Proof.
  intros Hr Hk Hl Hb He Hlo Hle. unfold ListRange.
  pose proof (typed_spec c m (Key_std key) OBJECT_LIST (@nil DynamicString)) as HT.
  specialize (HT (λ o, l ← as_list o; bounds ← range_bounds (i32 (DList_Length l)) b e;
    match bounds with
    | None => Some (c, [], kOkCode)
    | Some (begin, end') => ds ← RangeAsDynaStringVector_range l begin end';
        Some (put c (Key_std key) (with_lv_time now o), ds, kOkCode)
    end) Hr). rewrite Hk in HT. destruct HT as (o & Ho & ->). cbn [atype Z.eqb Pos.eqb OBJECT_LIST].
  destruct (repr_list o l Ho) as (d & -> & Hd). cbn [mbind option_bind]. rewrite (repr_length d l Hd).
  rewrite i32_small by (unfold in_i32, INT32_MIN, INT32_MAX; lia). rewrite range_bounds_spec by (done || lia).
  cbn [mbind option_bind]. unfold RangeAsDynaStringVector_range.
  set (lo := Z.to_nat (range_start l b e)). set (hi := Nat.min (Z.to_nat (norm_index l e)) (length l - 1)).
  replace (range_start l b e) with (Z.of_nat lo) by lia.
  rewrite (range_ptrs_clip d l lo) by (done || (unfold INT32_MAX; lia)). fold hi.
  destruct (range_ptrs_spec d l lo hi Hd) as (ds & -> & Hds); [lia|unfold INT32_MAX; lia|]. cbn [mbind option_bind].
  assert (forall ds s, Forall2 ds_val ds s ->
    exists ds', mapM (DynamicString_copy always_ok) ds = Some ds' /\ Forall2 ds_val ds' s) as Hcopy.
  { clear. intros ds s H. induction H as [|x y ds s Hx _ (ds' & E & Em)]; [by exists []|].
    destruct (ds_val_copy x y Hx) as (x' & Ex & Hx'). exists (x' :: ds'). cbn. rewrite Ex. cbn. rewrite E. cbn.
    split; [done|]. by constructor. }
  destruct (Hcopy ds _ Hds) as (ds' & -> & Em). cbn [mbind option_bind]. eexists _, ds'. split; [done|].
  split; [|done]. by eapply kv_touch.
Qed.

(** A range that is empty, or one of an empty list, is answered with nothing. *)
Lemma ListRange_empty now c m key l b e : kv_repr c m -> m !! Key_std key = Some (AList l) ->
  Z.of_nat (length l) < 2 ^ 30 -> in_i32 b -> in_i32 e ->
  l = [] \/ norm_index l e < 0 \/ norm_index l e < range_start l b e ->
  exists c', ListRange now c (Key_std key) b e = Some (c', [], kOkCode) /\ kv_repr c' m.
Proof.
  intros Hr Hk Hl Hb He Hem. unfold ListRange.
  pose proof (typed_spec c m (Key_std key) OBJECT_LIST (@nil DynamicString)) as HT.
  specialize (HT (λ o, l ← as_list o; bounds ← range_bounds (i32 (DList_Length l)) b e;
    match bounds with
    | None => Some (c, [], kOkCode)
    | Some (begin, end') => ds ← RangeAsDynaStringVector_range l begin end';
        Some (put c (Key_std key) (with_lv_time now o), ds, kOkCode)
    end) Hr). rewrite Hk in HT. destruct HT as (o & Ho & ->). cbn [atype Z.eqb Pos.eqb OBJECT_LIST].
  destruct (repr_list o l Ho) as (d & -> & Hd). cbn [mbind option_bind]. rewrite (repr_length d l Hd).
  rewrite i32_small by (unfold in_i32, INT32_MIN, INT32_MAX; lia).
  destruct (range_bounds_empty l b e Hb He Hl Hem) as (r & -> & Hr0). cbn [mbind option_bind].
  destruct r as [[b' e']|]; [|by eexists].
  unfold RangeAsDynaStringVector_range, range_ptrs.
  replace (DList_Empty d || (b' >? e')) with true.
  - cbn. eexists. split; [done|]. by eapply kv_touch.
  - symmetry. apply orb_true_iff. destruct Hr0 as [->|Hlt]; [left|right; rewrite Z.gtb_ltb; by apply Z.ltb_lt].
    unfold DList_Empty. pose proof (repr_length d [] Hd) as E. unfold DList_Length in E. by rewrite E.
Qed.

Lemma vals_data ds s : Forall2 ds_val ds s -> map ds_data ds = s.
Proof. induction 1 as [|x y ds s Hx _ IH]; [done|]. cbn. by rewrite (ds_val_data x y Hx), IH. Qed.

(** [ListRange] with indices that may count from the end returns the
    elements from the first index to the last one inclusive, clipped to the list,
    and leaves the store as it is, provided the range begins inside the list. *)
Lemma ListRange_elements now c m key l b e : kv_repr c m -> m !! Key_std key = Some (AList l) ->
  Z.of_nat (length l) < 2 ^ 30 -> in_i32 b -> in_i32 e ->
  0 <= range_start l b e < Z.of_nat (length l) -> range_start l b e <= norm_index l e ->
  exists c' ds, ListRange now c (Key_std key) b e = Some (c', ds, kOkCode) /\ kv_repr c' m /\
    map ds_data ds =
      (let lo := Z.to_nat (range_start l b e) in
       let hi := Nat.min (Z.to_nat (norm_index l e)) (length l - 1) in
       take (hi - lo + 1) (drop lo l)).
Proof.
  intros Hr Hk Hl Hb He Hlo Hle.
  destruct (ListRange_spec now c m key l b e Hr Hk Hl Hb He Hlo Hle) as (c' & ds & E & Hr' & Hds).
  exists c', ds. split; [done|]. split; [done|]. by apply vals_data.
Qed.

Lemma ListRange_elements_witness :
  exists c m c' ds, kv_repr c m /\ ListRange 2 c (Key_std (bs "l")) (-1) 5 = Some (c', ds, kOkCode) /\
    map ds_data ds = [bs "y"].
Proof.
  destruct (kv_exec_refines 1 KVContainer_new ∅ (OPush false (bs "l") [bs "x"; bs "y"])) as (c & x & _ & _ & Hr).
  - apply KVContainer_new_repr.
  - split; [split; [repeat constructor; unfold small; cbn; lia|cbn; lia]|].
    intros a H. by rewrite lookup_empty in H.
  - cbn [kv_spec] in Hr. rewrite lookup_empty in Hr. cbn [fst snd app] in Hr.
    destruct (ListRange_elements 2 c _ (bs "l") [bs "x"; bs "y"] (-1) 5 Hr) as (c' & ds & H1 & H2 & H3);
      [vm_compute; reflexivity|vm_compute; reflexivity|split; vm_compute; discriminate
      |split; vm_compute; discriminate|split; vm_compute; [discriminate|reflexivity]|vm_compute; discriminate|].
    eexists c, _, c', ds. split; [exact Hr|]. split; [exact H1|exact H3].
Defined.

(** A range that begins past the end of a list, or before its start and ends
    at 0, is not answered with an empty result: on the list made by one right push
    the program follows a null pointer. *)
Lemma ListRange_undefined_outside :
  exists c, RightPush 1 KVContainer_new (bs "l") [bs "a"] = Some (c, 1, kOkCode) /\
    ListRange 2 c (Key_std (bs "l")) 1 1 = None /\ ListRange 2 c (Key_std (bs "l")) (-2) 0 = None.
Proof.
  destruct (RightPush 1 KVContainer_new (bs "l") [bs "a"]) as [[[c n] e]|] eqn:E; [|by vm_compute in E].
  exists c. vm_compute in E. injection E as <- <- <-. split; [reflexivity|].
  split; vm_compute; reflexivity.
Qed.

(** ** Eviction *)

Lemma pool_position c m i k : kv_repr c m -> keys_pool_ c !! i = Some k -> is_Some (m !! k).
Proof. intros Hr Hi. apply (kr_pool c m Hr). by eapply list_elem_of_lookup_2. Qed.

Lemma filter_absent (l : list (list ascii)) k : k ∉ l -> filter (λ x, x <> k) l = l.
Proof.
  induction l as [|y l IH]; [done|]. rewrite not_elem_of_cons. intros [Hy Hl].
  rewrite filter_cons_True by congruence. by rewrite IH.
Qed.

Lemma filter_ne_lookup (l : list (list ascii)) i k : NoDup l -> l !! i = Some k ->
  filter (λ x, x <> k) l = take i l ++ drop (S i) l.
Proof.
  intros Hn Hi. rewrite <- (take_drop_middle l i k Hi) at 1.
  rewrite <- (take_drop_middle l i k Hi) in Hn. apply NoDup_app in Hn as (_ & Hd & Hn).
  apply NoDup_cons in Hn as [Hk _].
  rewrite filter_app, filter_cons_False by (intros H; by apply H).
  rewrite !filter_absent; [done|done|]. intros Hx. apply (Hd k Hx). left.
Qed.

(** Random eviction deletes one key and names another: when the drawn key is
    not the last of the pool, the key reported as evicted is its successor in the
    pool, which is still in the container. The caller logs a deletion of it. *)
Lemma KeyEvictionRandom_reports_survivor c m i k k' : kv_repr c m ->
  keys_pool_ c !! i = Some k -> keys_pool_ c !! S i = Some k' ->
  exists c', KeyEvictionRandom c 1 [i] = Some (c', [k']) /\
    kv_repr c' (delete k m) /\ k' <> k /\ is_Some (delete k m !! k').
Proof.
  intros Hr Hi Hi'. destruct (kr_pool c m Hr) as [Hn _].
  assert (k' <> k) as Hne by (intros ->; pose proof (NoDup_lookup _ _ _ _ Hn Hi Hi'); lia).
  pose proof (lookup_lt_Some _ _ _ Hi). unfold KeyEvictionRandom.
  replace (length (keys_pool_ c) `min` 1)%nat with 1%nat by lia. cbn [take evict_random].
  rewrite Hi. cbn [mbind option_bind].
  destruct (kv_Delete_repr c m k Hr) as [Hr' Eb]. pose proof (pool_position c m i k Hr Hi) as Hk.
  rewrite bool_decide_true in Eb by done.
  assert (keys_pool_ (kv_Delete c k).1 !! i = Some k') as Hp.
  { unfold kv_Delete in *. destruct (kv_find c k); [|done]. cbn [fst keys_pool_].
    rewrite (filter_ne_lookup _ i k Hn Hi). rewrite lookup_app_r by (rewrite length_take; lia).
    rewrite length_take, Nat.min_l by lia. rewrite lookup_drop. by replace (S i + (i - i))%nat with (S i) by lia. }
  destruct (kv_Delete c k) as [c' b]. cbn in Eb, Hr', Hp. subst b. rewrite Hp. cbn [mbind option_bind].
  exists c'. split; [done|]. split; [done|]. split; [done|]. rewrite lookup_delete_ne by done.
  by eapply pool_position.
Qed.

Lemma KeyEvictionRandom_reports_survivor_witness :
  exists c m c', kv_repr c m /\ KeyEvictionRandom c 1 [0%nat] = Some (c', [bs "b"]) /\
    is_Some (delete (bs "a") m !! bs "b").
Proof.
  set (c := (SetInt 0 (SetInt 0 KVContainer_new (bs "a") 1).1 (bs "b") 2).1).
  assert (kv_repr c (<[bs "b" := AInt 2]> (<[bs "a" := AInt 1]> ∅))) as Hr.
  { unfold c. apply SetInt_refines; [apply SetInt_refines; [apply KVContainer_new_repr|]|];
      unfold in_i64, INT64_MIN, INT64_MAX; lia. }
  destruct (KeyEvictionRandom_reports_survivor c _ 0 (bs "a") (bs "b") Hr) as (c' & H1 & _ & _ & H2);
    [vm_compute; reflexivity|vm_compute; reflexivity|].
  eexists c, _, c'. split; [exact Hr|]. split; [exact H1|exact H2].
Defined.

(** The candidates are distinct keys of the pool, every drawn key among them. *)
Lemma candidates_spec c draws cs : candidates c draws = Some cs ->
  forall k, k ∈ cs <-> exists i, i ∈ draws /\ keys_pool_ c !! i = Some k.
Proof.
  unfold candidates. assert (forall draws acc cs,
    foldl (λ acc idx, acc ← acc; key ← keys_pool_ c !! idx; Some (if decide (key ∈ acc) then acc else acc ++ [key]))
      (Some acc) draws = Some cs ->
    forall k, k ∈ cs <-> k ∈ acc \/ exists i, i ∈ draws /\ keys_pool_ c !! i = Some k) as H.
  { clear draws cs. induction draws as [|i draws IH]; intros acc cs; cbn.
    - intros [= <-] k. split; [by left|]. intros [?|(i & Hi & _)]; [done|by apply elem_of_nil in Hi].
    - destruct (keys_pool_ c !! i) as [ki|] eqn:Ei; cbn.
      2: { assert (forall l, foldl (λ acc idx, acc ← acc; key ← keys_pool_ c !! idx;
              Some (if decide (key ∈ acc) then acc else acc ++ [key])) None l = None) as Hnone
             by (induction l; done). by rewrite Hnone. }
      intros Hc k. rewrite (IH _ _ Hc k). setoid_rewrite elem_of_cons. case_decide; set_solver. }
  intros Hc k. rewrite (H draws [] cs Hc k). set_solver.
Qed.

Lemma min_lv_spec c ks best min : min_lv c best ks = Some min ->
  (min = best \/ min ∈ ks) /\
  forall k t, (k = best \/ k ∈ ks) -> lv_time c k = Some t -> exists tm, lv_time c min = Some tm /\ tm <= t.
Proof.
  revert best. induction ks as [|k ks IH]; intros best; cbn.
  - intros [= <-]. split; [by left|]. intros k t [->|H] Ht; [eauto with lia|by apply elem_of_nil in H].
  - destruct (lv_time c k) as [t|] eqn:Et; [|done]. destruct (lv_time c best) as [tb|] eqn:Eb; [|done]. cbn.
    intros Hm. destruct (IH _ Hm) as [Hin Hmin]. split; [destruct (t <? tb); set_solver|].
    intros k' t' Hk' Ht'. rewrite elem_of_cons in Hk'.
    destruct (Z.ltb_spec t tb) as [Hlt|Hge].
    + destruct Hk' as [->|[->|Hk']].
      * destruct (Hmin k t) as (tm & -> & Hle); [by left|done|]. exists tm. split; [done|]. simplify_eq. lia.
      * apply (Hmin k t'); [by left|done].
      * apply (Hmin k' t'); [by right|done].
    + destruct Hk' as [->|[->|Hk']].
      * apply (Hmin best t'); [by left|done].
      * destruct (Hmin best tb) as (tm & -> & Hle); [by left|done|]. exists tm. split; [done|]. simplify_eq. lia.
      * apply (Hmin k' t'); [by right|done].
Qed.

(** A round of approximate LRU eviction deletes exactly the key it reports,
    that key was drawn, and no drawn key was visited earlier. *)
Lemma KeyEvictionLruHelper_least_recent c m draws c' ks : kv_repr c m ->
  KeyEvictionLruHelper c draws = Some (c', ks) -> keys_pool_ c <> [] -> take 10 draws <> [] ->
  exists k, ks = [k] /\ kv_repr c' (delete k m) /\
    (exists i, i ∈ take 10 draws /\ keys_pool_ c !! i = Some k) /\
    forall i k' t, i ∈ take 10 draws -> keys_pool_ c !! i = Some k' -> lv_time c k' = Some t ->
      exists tm, lv_time c k = Some tm /\ tm <= t.
Proof.
  intros Hr H Hp Hd. unfold KeyEvictionLruHelper in H. destruct (keys_pool_ c) as [|k0 pool] eqn:Ep; [done|].
  rewrite <- Ep. clear Hp.
  destruct (candidates c (take 10 draws)) as [cs|] eqn:Ec; [|done]. cbn [mbind option_bind] in H.
  pose proof (candidates_spec c _ cs Ec) as Hcs. destruct cs as [|b cs].
  { destruct (take 10 draws) as [|i l] eqn:Ed; [done|]. exfalso.
    unfold candidates in Ec. destruct (keys_pool_ c !! i) as [ki|] eqn:Ei.
    - assert (ki ∈ []) as Hin by (apply Hcs; exists i; split; [left|done]). by apply elem_of_nil in Hin.
    - cbn in Ec. rewrite Ei in Ec. cbn in Ec. clear -Ec. induction l; [done|]. cbn in Ec. auto. }
  destruct (min_lv c b cs) as [k|] eqn:Em; [|done]. cbn [mbind option_bind] in H.
  destruct (min_lv_spec c cs b k Em) as [Hin Hmin].
  assert (exists i, i ∈ take 10 draws /\ keys_pool_ c !! i = Some k) as Hdrawn by (apply Hcs; set_solver).
  destruct (kv_Delete_repr c m k Hr) as [Hr' Eb].
  destruct Hdrawn as (i & Hi & Hk). rewrite bool_decide_true in Eb by (by eapply pool_position).
  destruct (kv_Delete c k) as [c1 b1]. cbn in Eb, Hr'. subst b1. simplify_eq.
  exists k. split; [done|]. split; [done|]. split; [by exists i|].
  intros j k' t Hj Hk' Ht. apply (Hmin k' t); [|done].
  assert (k' ∈ b :: cs) as Hin' by (apply Hcs; by exists j). by apply elem_of_cons in Hin'.
Qed.

Lemma KeyEvictionLruHelper_least_recent_witness :
  exists c m c' ks, kv_repr c m /\ KeyEvictionLruHelper c [1; 0]%nat = Some (c', ks) /\
    exists k, ks = [k] /\ kv_repr c' (delete k m).
Proof.
  set (c := (SetInt 3 (SetInt 1 KVContainer_new (bs "a") 1).1 (bs "b") 2).1).
  assert (kv_repr c (<[bs "b" := AInt 2]> (<[bs "a" := AInt 1]> ∅))) as Hr.
  { unfold c. apply SetInt_refines; [apply SetInt_refines; [apply KVContainer_new_repr|]|];
      unfold in_i64, INT64_MIN, INT64_MAX; lia. }
  assert (exists c' ks, KeyEvictionLruHelper c [1; 0]%nat = Some (c', ks)) as (c' & ks & H).
  { eexists _, _. vm_compute. reflexivity. }
  destruct (KeyEvictionLruHelper_least_recent c _ [1; 0]%nat c' ks Hr H) as (k & H1 & H2 & _);
    [vm_compute; discriminate|discriminate|].
  eexists c, _, c', ks. split; [exact Hr|]. split; [exact H|]. exists k. split; [exact H1|exact H2].
Defined.

(** [KeyEvictionLru] does not stop at the number of keys asked for: as long
    as the 25 ms have not passed, a call for any positive number of keys ends only
    when the pool is empty. *)
Lemma KeyEvictionLru_ignores_number c num start rounds c' ks : 0 < num ->
  Forall (λ r, u64 (r.2 - start) <= LRU_EVICTION_TIME_LIMIT_MS) rounds ->
  KeyEvictionLru c num start rounds = Some (c', ks) -> keys_pool_ c' = [].
Proof.
  intros Hn Ht. unfold KeyEvictionLru. revert c ks. induction Ht as [|[draws now] rounds Hr Ht IH]; intros c ks; cbn [evict_lru];
    rewrite (proj2 (Z.ltb_lt 0 num) Hn); cbn [negb]; rewrite orb_false_r; case_bool_decide as Ep.
  - by intros [= <- _].
  - done.
  - by intros [= <- _].
  - destruct (KeyEvictionLruHelper c draws) as [[c1 k1]|]; [|done]. cbn [mbind option_bind] in *. cbn in Hr.
    rewrite Z.gtb_ltb, (proj2 (Z.ltb_ge _ _)) by done.
    destruct (evict_lru c1 num start 0 rounds) as [[c2 k2]|] eqn:E2; [|done]. cbn. intros [= <- _].
    by eapply IH.
Qed.

Lemma KeyEvictionLru_ignores_number_witness :
  exists c' ks, KeyEvictionLru (SetInt 3 (SetInt 1 KVContainer_new (bs "a") 1).1 (bs "b") 2).1 1 0
    [([0%nat], 5); ([0%nat], 6)] = Some (c', ks) /\ keys_pool_ c' = [].
Proof.
  set (c := (SetInt 3 (SetInt 1 KVContainer_new (bs "a") 1).1 (bs "b") 2).1).
  assert (exists c' ks, KeyEvictionLru c 1 0 [([0%nat], 5); ([0%nat], 6)] = Some (c', ks)) as (c' & ks & H).
  { eexists _, _. vm_compute. reflexivity. }
  exists c', ks. split; [exact H|].
  apply (KeyEvictionLru_ignores_number c 1 0 [([0%nat], 5); ([0%nat], 6)] c' ks); [lia| |exact H].
  repeat constructor; vm_compute; discriminate.
Defined.
