(* ===== verification/Buffer.v ===== *)
(** * Buffer: the byte buffer of a connection (src/net/buffer.h, buffer.cpp)

    [std::vector<char> data_] is a list of bytes whose length is both its size
    and its capacity (every vector of the class is made with its final size);
    [p_reader_] and [p_writer_] are [size_t]. An access outside the block, or a
    copy between overlapping regions with [memcpy], makes an operation [None]
    (undefined behaviour). *)

From S2P Require Import Prelude Numerals Str.

Local Open Scope Z_scope.

Record Buffer := mkBuffer {
  data_ : list ascii;
  p_reader_ : Z;
  p_writer_ : Z
}.

#[export] Instance Buffer_eq_dec : EqDecision Buffer.
Proof. solve_decision. Defined.

Definition CRLF : list ascii := ["013"; "010"]%char.

(** [Buffer(size_t init_bufsize = 64)]. *)
Definition Buffer_new (init_bufsize : Z) : Buffer :=
  mkBuffer (replicate (Z.to_nat init_bufsize) NUL) 0 0.

Definition Capacity (b : Buffer) : Z := Z.of_nat (length (data_ b)).
Definition BeginReadIdx (b : Buffer) : Z := p_reader_ b.
Definition BeginWriteIdx (b : Buffer) : Z := p_writer_ b.
Definition WritableBytes (b : Buffer) : Z := u64 (Capacity b - p_writer_ b).
Definition ReadableBytes (b : Buffer) : Z := u64 (p_writer_ b - p_reader_ b).
Definition PrependableBytes (b : Buffer) : Z := p_reader_ b.

(** The [len] bytes of a block from offset [off], as a copy reads them. *)
Definition mem_read (mem : list ascii) (off len : Z) : option (list ascii) :=
  if decide (0 <= off /\ 0 <= len /\ off + len <= Z.of_nat (length mem))
  then Some (take (Z.to_nat len) (drop (Z.to_nat off) mem)) else None.

(** A write of [src] at offset [off]. *)
Definition mem_write (mem : list ascii) (off : Z) (src : list ascii) : option (list ascii) :=
  if decide (0 <= off) then memcpy mem (Z.to_nat off) src else None.

(** [std::string(BeginRead() + index, len)]. *)
Definition read_at (b : Buffer) (index len : Z) : option (list ascii) :=
  mem_read (data_ b) (p_reader_ b + index) len.

Definition ReadableAsString (b : Buffer) : option (list ascii) :=
  read_at b 0 (ReadableBytes b).

(** [ToFile]: the file opened for appending, and what is unread. *)
Definition ToFile (b : Buffer) (file : option (list ascii)) : option (list ascii) :=
  s ← read_at b 0 (ReadableBytes b);
  Some (default [] file ++ s).

Definition ReadableAsDynaString (b : Buffer) : option DynamicString :=
  s ← read_at b 0 (ReadableBytes b);
  DynamicString_chars always_ok (Some s) (u32 (ReadableBytes b)).

(** ** Writing *)

(** [memcpy(data, data + p_reader_, n)] is defined when the two regions are
    disjoint (or nothing is copied). *)
Definition MoveReadableToHead (b : Buffer) : option Buffer :=
  let n := ReadableBytes b in
  src ← mem_read (data_ b) (p_reader_ b) n;
  if decide (n = 0 \/ n <= p_reader_ b) then
    d ← mem_write (data_ b) 0 src;
    let can_free := PrependableBytes b in
    d ← mem_write d (p_writer_ b - can_free) (replicate (Z.to_nat can_free) NUL);
    Some (mkBuffer d 0 (u64 (p_writer_ b - can_free)))
  else None.

Definition EnsureBytesForWrite (b : Buffer) (n : Z) : option Buffer :=
  if WritableBytes b <? n then
    let cur_free_space := u64 (PrependableBytes b + WritableBytes b) in
    if cur_free_space >=? n then MoveReadableToHead b
    else
      let size := u64 (p_writer_ b + n + 2) in
      if size >? INT64_MAX then None        (* std::length_error *)
      else
        let r := ReadableBytes b in
        src ← mem_read (data_ b) (p_reader_ b) r;
        new_place ← mem_write (replicate (Z.to_nat size) NUL) 0 src;
        Some (mkBuffer new_place 0 r)
  else Some b.

(** [Append(const char *value, int len)]. *)
Definition buf_Append (b : Buffer) (value : list ascii) (len : Z) : option Buffer :=
  b ← EnsureBytesForWrite b (u64 len);
  src ← mem_read value 0 (u64 len);
  d ← mem_write (data_ b) (p_writer_ b) src;
  Some (mkBuffer d (p_reader_ b) (u64 (p_writer_ b + len))).

(** [Append(const std::string &)]: the size is converted to [int]. *)
Definition buf_Append_std (b : Buffer) (value : list ascii) : option Buffer :=
  buf_Append b value (i32 (Z.of_nat (length value))).

Definition buf_Reset (b : Buffer) : Buffer :=
  mkBuffer (replicate (length (data_ b)) NUL) 0 0.

(** ** Moving the read index *)

Definition ReaderIdxForward (b : Buffer) (len : Z) : Buffer :=
  let len := Z.min len (ReadableBytes b) in
  mkBuffer (data_ b) (u64 (p_reader_ b + len)) (p_writer_ b).

Definition ReaderIdxBackward (b : Buffer) (len : Z) : Buffer :=
  let len := Z.min len (PrependableBytes b) in
  mkBuffer (data_ b) (u64 (p_reader_ b - len)) (p_writer_ b).

(** ** Reading *)

Definition starts_with (delim s : list ascii) : bool :=
  bool_decide (take (length delim) s = delim).

(** [std::search(s.begin(), s.end(), delim, delim + strlen(delim))] as an offset;
    [None] is [s.end()]. *)
Fixpoint search (delim s : list ascii) : option nat :=
  if starts_with delim s then (if decide (s = []) then None else Some O)
  else match s with [] => None | _ :: s => S <$> search delim s end.

(** The bytes between [data_.begin() + p_reader_] and [data_.begin() + p_writer_]. *)
Definition readable_range (b : Buffer) : option (list ascii) :=
  mem_read (data_ b) (p_reader_ b) (p_writer_ b - p_reader_ b).

Definition FindCRLFInReadable (b : Buffer) : option Z :=
  s ← readable_range b;
  Some (match search CRLF s with None => -1 | Some off => i32 (Z.of_nat off) end).

Definition ReadStdStringAndForward (b : Buffer) (len : Z) : option (list ascii * Buffer) :=
  if len >? ReadableBytes b then Some ([], b)
  else
    ans ← read_at b 0 len;
    Some (ans, ReaderIdxForward b len).

Definition ReadStdStringAndForwardTill (b : Buffer) (delim : list ascii)
    : option (list ascii * Buffer) :=
  s ← readable_range b;
  match search delim s with
  | None => Some ([], b)
  | Some off =>
      let offset := Z.of_nat off in
      ans ← read_at b 0 offset;
      Some (ans, ReaderIdxForward b (offset + Z.of_nat (length delim)))
  end.

Definition ReadStdString (b : Buffer) (len : Z) : option (list ascii) :=
  if len >? ReadableBytes b then Some [] else read_at b 0 len.

Definition ReadStdStringFrom (b : Buffer) (index len : Z) : option (list ascii) :=
  if index >=? ReadableBytes b then Some []
  else
    let len := Z.min len (u64 (ReadableBytes b - index)) in
    read_at b index len.

Definition ReadableCharacterAt (b : Buffer) (index : Z) : option ascii :=
  let index := Z.min index (u64 (ReadableBytes b - 1)) in
  data_ b !! Z.to_nat (u64 (BeginReadIdx b + index)).

Definition ReadDynaStringAndForward (b : Buffer) (len : Z) : option (DynamicString * Buffer) :=
  if len >? ReadableBytes b then Some (ds_null, b)
  else
    s ← read_at b 0 len;
    ans ← DynamicString_chars always_ok (Some s) (u32 len);
    Some (ans, ReaderIdxForward b len).

Definition ReadDynaString (b : Buffer) (len : Z) : option DynamicString :=
  if len >? ReadableBytes b then Some ds_null
  else
    s ← read_at b 0 len;
    DynamicString_chars always_ok (Some s) (u32 len).

Definition ReadAndForwardTill (b : Buffer) (delim : list ascii)
    : option (DynamicString * Buffer) :=
  s ← readable_range b;
  match search delim s with
  | None => Some (ds_null, b)
  | Some off =>
      let offset := Z.of_nat off in
      s ← read_at b 0 offset;
      ans ← DynamicString_chars always_ok (Some s) (u32 offset);
      Some (ans, ReaderIdxForward b (offset + Z.of_nat (length delim)))
  end.

(** The block [strtoll(BeginRead() + index, &p_end, 10)] scans: it runs to the
    end of [data_], not to [p_writer_]. *)
Definition block_from (b : Buffer) (index : Z) : list ascii :=
  drop (Z.to_nat (p_reader_ b + index)) (data_ b).

(** The number and [step]. *)
Definition ReadLong (b : Buffer) : option (Z * Z) :=
  '(num, n, _) ← strtoll_mem (block_from b 0);
  Some (num, Z.of_nat n).

Definition ReadLongAndForward (b : Buffer) : option (Z * Z * Buffer) :=
  '(num, n, _) ← strtoll_mem (block_from b 0);
  let step := Z.of_nat n in
  Some (num, step, ReaderIdxForward b step).

Definition ReadLongFrom (b : Buffer) (index : Z) : option (Z * Z) :=
  if index >=? ReadableBytes b then Some (0, 0)
  else
    '(num, n, _) ← strtoll_mem (block_from b index);
    Some (num, Z.of_nat n).

(** ** Representation

    A buffer holds the readable bytes [R]: consumed bytes before them, and only
    zero bytes after them, [k] of them. *)

Definition buf_parts (b : Buffer) (pre R : list ascii) (k : nat) : Prop :=
  data_ b = pre ++ R ++ replicate k NUL /\
  p_reader_ b = Z.of_nat (length pre) /\
  p_writer_ b = Z.of_nat (length pre + length R) /\
  Z.of_nat (length (data_ b)) <= INT64_MAX.

Definition buf_repr (b : Buffer) (R : list ascii) : Prop :=
  exists pre k, buf_parts b pre R k.

Lemma buf_parts_sizes b pre R k : buf_parts b pre R k ->
  Capacity b = Z.of_nat (length pre + length R + k) /\
  ReadableBytes b = Z.of_nat (length R) /\ WritableBytes b = Z.of_nat k /\
  PrependableBytes b = Z.of_nat (length pre) /\
  Z.of_nat (length pre + length R + k) <= INT64_MAX.
Proof.
  intros (Hd & Hr & Hw & Hb). unfold Capacity, ReadableBytes, WritableBytes, PrependableBytes, Capacity.
  rewrite Hd, !length_app, length_replicate in *. rewrite Hr, Hw.
  unfold INT64_MAX in *.
  repeat split; try lia; (rewrite u64_small; [lia|unfold in_u64, UINT64_MAX; lia]).
Qed.

Lemma buf_repr_readable b R : buf_repr b R -> ReadableBytes b = Z.of_nat (length R).
Proof. intros (pre & k & H). by apply buf_parts_sizes in H as (_ & ? & _). Qed.

Lemma mem_read_app (pre s post : list ascii) :
  mem_read (pre ++ s ++ post) (Z.of_nat (length pre)) (Z.of_nat (length s)) = Some s.
Proof.
  unfold mem_read. rewrite decide_True by (rewrite !length_app; lia).
  rewrite !Nat2Z.id, drop_app_length, take_app_length. done.
Qed.

Lemma read_at_repr b R index len : buf_repr b R ->
  0 <= index -> 0 <= len -> index + len <= Z.of_nat (length R) ->
  read_at b index len = Some (take (Z.to_nat len) (drop (Z.to_nat index) R)).
Proof.
  intros (pre & k & Hp) Hi Hl Hle. pose proof Hp as (Hd & Hr & _ & _).
  unfold read_at. rewrite Hd, Hr.
  set (i := Z.to_nat index). set (n := Z.to_nat len).
  replace (pre ++ R ++ replicate k NUL)
    with ((pre ++ take i R) ++ take n (drop i R) ++ drop n (drop i R) ++ replicate k NUL).
  2:{ rewrite <- !app_assoc. f_equal. rewrite (app_assoc (take n _)), take_drop.
      by rewrite (app_assoc (take i R)), take_drop. }
  replace (Z.of_nat (length pre) + index) with (Z.of_nat (length (pre ++ take i R)))
    by (rewrite length_app, length_take; lia).
  replace len with (Z.of_nat (length (take n (drop i R)))) at 1
    by (rewrite length_take, length_drop; lia).
  by rewrite mem_read_app.
Qed.

(** [ToFile] appends the unread bytes and keeps them. *)
Lemma ToFile_appends b R file : buf_repr b R -> ToFile b file = Some (default [] file ++ R).
Proof.
  intros Hb. unfold ToFile. rewrite (buf_repr_readable b R Hb).
  rewrite (read_at_repr b R) by (done || lia). cbn. by rewrite Nat2Z.id, drop_0, take_ge by lia.
Qed.

Lemma readable_range_repr b R : buf_repr b R -> readable_range b = Some R.
Proof.
  intros (pre & k & (Hd & Hr & Hw & _)). unfold readable_range. rewrite Hd, Hr, Hw.
  replace (Z.of_nat (length pre + length R) - Z.of_nat (length pre)) with (Z.of_nat (length R)) by lia.
  apply mem_read_app.
Qed.

Lemma ReadStdString_repr b R len : buf_repr b R -> 0 <= len ->
  ReadStdString b len =
    Some (if decide (len <= Z.of_nat (length R)) then take (Z.to_nat len) R else []).
Proof.
  intros Hb Hl. unfold ReadStdString. rewrite (buf_repr_readable _ _ Hb).
  destruct (Z.gtb_spec len (Z.of_nat (length R))); [by rewrite decide_False by lia|].
  rewrite decide_True by lia. rewrite (read_at_repr _ R) by (done || lia). by rewrite drop_0.
Qed.

Lemma buf_repr_bound b R : buf_repr b R -> Z.of_nat (length R) <= INT64_MAX.
Proof. intros (pre & k & H). apply buf_parts_sizes in H. lia. Qed.

Lemma ReadStdStringFrom_repr b R index len : buf_repr b R -> 0 <= index -> 0 <= len ->
  ReadStdStringFrom b index len = Some (take (Z.to_nat len) (drop (Z.to_nat index) R)).
Proof.
  intros Hb Hi Hl. unfold ReadStdStringFrom. rewrite (buf_repr_readable _ _ Hb).
  destruct (Z.geb_spec index (Z.of_nat (length R))).
  - rewrite drop_ge by lia. by rewrite take_nil.
  - pose proof (buf_repr_bound _ _ Hb).
    rewrite u64_small by (unfold in_u64, UINT64_MAX, INT64_MAX in *; lia).
    rewrite (read_at_repr _ R) by (done || lia). f_equal.
    destruct (Z.le_gt_cases len (Z.of_nat (length R) - index)); [by rewrite Z.min_l by lia|].
    rewrite Z.min_r by lia. rewrite !take_ge by (rewrite length_drop; lia). done.
Qed.

Lemma ReadableCharacterAt_repr b R index : buf_repr b R ->
  0 <= index < Z.of_nat (length R) -> ReadableCharacterAt b index = R !! Z.to_nat index.
Proof.
  intros (pre & k & Hp) Hi. pose proof (buf_parts_sizes _ _ _ _ Hp) as (_ & HR & _ & _ & ?).
  destruct Hp as (Hd & Hr & _ & _). unfold ReadableCharacterAt, BeginReadIdx.
  rewrite HR, Hd, Hr. unfold INT64_MAX in *.
  rewrite (u64_small (Z.of_nat (length R) - 1)) by (unfold in_u64, UINT64_MAX; lia).
  rewrite Z.min_l by lia. rewrite u64_small by (unfold in_u64, UINT64_MAX; lia).
  rewrite lookup_app_r by lia. rewrite lookup_app_l by lia. f_equal. lia.
Qed.

Lemma ReaderIdxForward_repr b R len : buf_repr b R -> 0 <= len ->
  buf_repr (ReaderIdxForward b len) (drop (Z.to_nat len) R).
Proof.
  intros (pre & k & Hp) Hl. pose proof (buf_parts_sizes _ _ _ _ Hp) as (_ & HR & _ & _ & ?).
  destruct Hp as (Hd & Hr & Hw & Hb).
  exists (pre ++ take (Z.to_nat len) R), k. unfold ReaderIdxForward, buf_parts. cbn.
  rewrite HR. repeat split; [| | |done].
  - rewrite Hd, <- !app_assoc. f_equal. by rewrite (app_assoc (take _ R)), take_drop.
  - unfold INT64_MAX in *.
    rewrite Hr, length_app, length_take, u64_small by (unfold in_u64, UINT64_MAX; lia). lia.
  - rewrite Hw, length_app, length_take, length_drop. lia.
Qed.

Lemma buf_Reset_repr b R : buf_repr b R -> buf_repr (buf_Reset b) [].
Proof.
  intros (pre & k & (_ & _ & _ & Hb)). exists [], (length (data_ b)).
  unfold buf_parts, buf_Reset. cbn. rewrite length_replicate. done.
Qed.

Lemma Buffer_new_repr n : 0 <= n <= INT64_MAX -> buf_repr (Buffer_new n) [].
Proof.
  intros Hn. exists [], (Z.to_nat n). unfold buf_parts, Buffer_new. cbn. rewrite length_replicate.
  repeat split; lia.
Qed.

Lemma mem_write_app (pre old post src : list ascii) : length old = length src ->
  mem_write (pre ++ old ++ post) (Z.of_nat (length pre)) src = Some (pre ++ src ++ post).
Proof.
  intros Hl. unfold mem_write. rewrite decide_True by lia. rewrite Nat2Z.id.
  unfold memcpy. rewrite decide_True by (rewrite !length_app; lia).
  rewrite take_app_length, <- Hl. do 3 f_equal.
  rewrite app_assoc. by rewrite drop_app_length' by (rewrite length_app; lia).
Qed.

(** Compaction, when [memcpy] is allowed. *)
Lemma MoveReadableToHead_parts b pre R k : buf_parts b pre R k ->
  (length R <= length pre)%nat ->
  exists b', MoveReadableToHead b = Some b' /\ buf_parts b' [] R (length pre + k).
Proof.
  intros Hp Hle. pose proof (buf_parts_sizes _ _ _ _ Hp) as (_ & HR & _ & HP & ?).
  destruct Hp as (Hd & Hr & Hw & Hb). unfold MoveReadableToHead.
  rewrite HR, HP, Hd, Hr, Hw, mem_read_app. cbn. rewrite decide_True by lia.
  rewrite <- (take_drop (length R) pre), <- app_assoc.
  set (p1 := take (length R) pre). set (p2 := drop (length R) pre).
  assert (length p1 = length R) as L1 by (unfold p1; rewrite length_take; lia).
  assert (length p1 + length p2 = length pre)%nat as L2
    by (unfold p1, p2; rewrite length_take, length_drop; lia).
  pose proof (mem_write_app [] p1 (p2 ++ R ++ replicate k NUL) R L1) as W. cbn in W.
  change (Z.of_nat 0) with 0 in W. rewrite W. cbn.
  replace (length (p1 ++ p2)) with (length pre) by (rewrite length_app; lia).
  replace (Z.of_nat (length pre + length R) - Z.of_nat (length pre)) with (Z.of_nat (length R)) by lia.
  rewrite (app_assoc p2).
  pose proof (mem_write_app R (p2 ++ R) (replicate k NUL) (replicate (length pre) NUL)) as W2.
  rewrite Nat2Z.id, W2 by (rewrite length_app, length_replicate; lia). cbn.
  eexists. split; [done|]. unfold buf_parts. cbn. rewrite replicate_add.
  unfold INT64_MAX in *.
  repeat split; [rewrite u64_small by (unfold in_u64, UINT64_MAX; lia); lia|].
  rewrite !length_app, !length_replicate. lia.
Qed.

(** Growing throws the consumed bytes away. *)
Lemma grow_parts b pre R k n : buf_parts b pre R k ->
  Z.of_nat (length pre + length R + n + 2) <= INT64_MAX -> (length pre + k < n)%nat ->
  exists b', EnsureBytesForWrite b (Z.of_nat n) = Some b' /\
    buf_parts b' [] R (length pre + n + 2).
Proof.
  intros Hp Hn Hk. pose proof (buf_parts_sizes _ _ _ _ Hp) as (_ & HR & HW & HP & ?).
  destruct Hp as (Hd & Hr & Hw & Hb). unfold EnsureBytesForWrite. unfold INT64_MAX in *.
  rewrite HW, HP, HR, Hw, Hr, Hd.
  rewrite !u64_small by (unfold in_u64, UINT64_MAX; lia).
  destruct (Z.ltb_spec (Z.of_nat k) (Z.of_nat n)); [|lia].
  destruct (Z.geb_spec (Z.of_nat (length pre) + Z.of_nat k) (Z.of_nat n)); [lia|].
  case_if; [lia|]. rewrite mem_read_app. cbn.
  replace (Z.to_nat (Z.of_nat (length pre + length R) + Z.of_nat n + 2))
    with (length R + (length pre + n + 2))%nat by lia.
  rewrite replicate_add.
  pose proof (mem_write_app [] (replicate (length R) NUL) (replicate (length pre + n + 2) NUL) R) as W.
  cbn [app length] in W. change (Z.of_nat 0) with 0 in W.
  rewrite W by apply length_replicate. cbn.
  eexists. split; [done|]. unfold buf_parts. cbn.
  repeat split. rewrite length_app, length_replicate. unfold INT64_MAX. lia.
Qed.

(** [memcpy] moves the readable bytes onto themselves when they must be moved
    and there are more of them than consumed bytes. *)
Definition overlaps (b : Buffer) (n : Z) : bool :=
  (WritableBytes b <? n) && (n <=? PrependableBytes b + WritableBytes b) &&
  (PrependableBytes b <? ReadableBytes b).

Lemma EnsureBytesForWrite_parts b R n : buf_repr b R ->
  overlaps b (Z.of_nat n) = false -> Capacity b + Z.of_nat n + 2 <= INT64_MAX ->
  exists b' pre k, EnsureBytesForWrite b (Z.of_nat n) = Some b' /\ buf_parts b' pre R k /\
    (n <= k)%nat /\ Capacity b' <= Capacity b + Z.of_nat n + 2.
Proof.
  intros (pre & k & Hp) Ho Hc. pose proof (buf_parts_sizes _ _ _ _ Hp) as (HC & HR & HW & HP & ?).
  unfold overlaps in Ho. rewrite HC, HW, HP, HR in *.
  destruct (decide (n <= k)%nat) as [Hk|Hk].
  { exists b, pre, k. unfold EnsureBytesForWrite. rewrite HW.
    destruct (Z.ltb_spec (Z.of_nat k) (Z.of_nat n)); [lia|]. split_and!; [done..|]. lia. }
  destruct (decide (n <= length pre + k)%nat) as [Hf|Hf].
  - assert (length R <= length pre)%nat as Hle.
    { rewrite andb_false_iff, andb_false_iff, !Z.ltb_ge, Z.leb_gt in Ho. lia. }
    destruct (MoveReadableToHead_parts _ _ _ _ Hp Hle) as (b' & E & Hp').
    exists b', [], (length pre + k)%nat. unfold EnsureBytesForWrite. rewrite HW, HP.
    rewrite u64_small by (unfold in_u64, UINT64_MAX, INT64_MAX in *; lia).
    destruct (Z.ltb_spec (Z.of_nat k) (Z.of_nat n)); [|lia].
    destruct (Z.geb_spec (Z.of_nat (length pre) + Z.of_nat k) (Z.of_nat n)); [|lia].
    split_and!; [done..|lia|]. apply buf_parts_sizes in Hp' as (-> & _). cbn. lia.
  - destruct (grow_parts _ _ _ _ n Hp) as (b' & E & Hp'); [lia..|].
    exists b', [], (length pre + n + 2)%nat. split_and!; [done..|lia|].
    apply buf_parts_sizes in Hp' as (-> & _). cbn. lia.
Qed.

Lemma buf_Append_std_repr b R v : buf_repr b R -> fits v ->
  overlaps b (Z.of_nat (length v)) = false ->
  Capacity b + Z.of_nat (length v) + 2 <= INT64_MAX ->
  exists b', buf_Append_std b v = Some b' /\ buf_repr b' (R ++ v) /\
    Capacity b' <= Capacity b + Z.of_nat (length v) + 2.
Proof.
  unfold fits. intros Hb Hv Ho Hc.
  destruct (EnsureBytesForWrite_parts _ _ _ Hb Ho Hc) as (b1 & pre & k & E & Hp & Hk & HC).
  pose proof (buf_parts_sizes _ _ _ _ Hp) as (_ & _ & _ & _ & ?).
  destruct Hp as (Hd & Hr & Hw & Hb1). unfold buf_Append_std, buf_Append. unfold INT64_MAX in *.
  rewrite i32_small by (unfold in_i32, INT32_MIN, INT32_MAX; lia).
  rewrite (u64_small (Z.of_nat (length v))) by (unfold in_u64, UINT64_MAX; lia).
  rewrite E. cbn. pose proof (mem_read_app [] v []) as M. cbn in M. change (Z.of_nat 0) with 0 in M.
  rewrite app_nil_r in M. rewrite M. cbn.
  rewrite Hd, Hw, app_assoc, <- length_app.
  replace k with (length v + (k - length v))%nat by lia. rewrite replicate_add.
  rewrite mem_write_app by apply length_replicate. cbn.
  eexists. split; [done|]. split.
  - exists pre, (k - length v)%nat. unfold buf_parts. cbn.
    rewrite <- !app_assoc. split; [done|]. split; [done|].
    rewrite !length_app, length_replicate. unfold INT64_MAX.
    split; [rewrite u64_small by (unfold in_u64, UINT64_MAX; lia)|]; lia.
  - unfold Capacity in *. cbn. rewrite Hd in HC. rewrite !length_app, !length_replicate in *. lia.
Qed.

(** The complement: when the regions overlap the append is undefined. *)
Lemma buf_Append_std_overlap b R v : buf_repr b R -> fits v ->
  overlaps b (Z.of_nat (length v)) = true -> buf_Append_std b v = None.
Proof.
  unfold fits. intros (pre & k & Hp) Hv Ho. pose proof (buf_parts_sizes _ _ _ _ Hp) as (_ & HR & HW & HP & ?).
  destruct Hp as (Hd & Hr & Hw & Hb). unfold buf_Append_std, buf_Append, EnsureBytesForWrite.
  unfold overlaps in Ho. bools. rewrite HW, HP, HR in *. unfold INT64_MAX in *.
  rewrite i32_small by (unfold in_i32, INT32_MIN, INT32_MAX; lia).
  rewrite !u64_small by (unfold in_u64, UINT64_MAX; lia).
  destruct (Z.ltb_spec (Z.of_nat k) (Z.of_nat (length v))); [|lia].
  destruct (Z.geb_spec (Z.of_nat (length pre) + Z.of_nat k) (Z.of_nat (length v))); [|lia].
  unfold MoveReadableToHead. rewrite HR, Hd, Hr, mem_read_app. cbn.
  by rewrite decide_False by lia.
Qed.

Lemma read_forward_repr b R len : buf_repr b R -> 0 <= len ->
  ReadStdStringAndForward b len =
    Some (if decide (len <= Z.of_nat (length R))
          then (take (Z.to_nat len) R, ReaderIdxForward b len) else ([], b)).
Proof.
  intros Hb Hl. unfold ReadStdStringAndForward. rewrite (buf_repr_readable _ _ Hb).
  destruct (Z.gtb_spec len (Z.of_nat (length R))); [by rewrite decide_False by lia|].
  rewrite decide_True by lia. rewrite (read_at_repr _ R) by (done || lia). by rewrite drop_0.
Qed.

(** ** Searching *)

Lemma starts_with_spec delim s : starts_with delim s = true <-> exists t, s = delim ++ t.
Proof.
  unfold starts_with. rewrite bool_decide_eq_true. split.
  - intros E. exists (drop (length delim) s). by rewrite <- E at 1; rewrite take_drop.
  - intros [t ->]. apply take_app_length.
Qed.

(** [search] finds the first occurrence. *)
Lemma search_Some delim s n : delim <> [] ->
  search delim s = Some n <->
  (exists t, s = take n s ++ delim ++ t) /\
  forall m, (m < n)%nat -> starts_with delim (drop m s) = false.
Proof.
  intros Hd. revert n. induction s as [|c s IH]; intros n.
  { cbn. split; [|intros [[t E] _]; rewrite take_nil in E; by destruct delim].
    destruct (starts_with delim []); done. }
  cbn [search]. destruct (starts_with delim (c :: s)) eqn:E.
  - rewrite decide_False by done. split.
    + intros [= <-]. split; [by apply starts_with_spec in E|]. lia.
    + intros [_ Hmin]. destruct n as [|n]; [done|].
      specialize (Hmin O ltac:(lia)). cbn in Hmin. congruence.
  - split.
    + intros (n' & HS & ->)%fmap_Some. apply IH in HS as [[t Ht] Hmin]. split.
      * exists t. cbn. by rewrite Ht at 1.
      * intros [|m] Hm; [done|]. cbn. apply Hmin. lia.
    + intros [[t Ht] Hmin]. destruct n as [|n].
      * exfalso. assert (starts_with delim (c :: s) = true); [|congruence].
        apply starts_with_spec. by exists t.
      * rewrite (proj2 (IH n)); [done|]. split.
        { exists t. cbn in Ht. by injection Ht. }
        intros m Hm. apply (Hmin (S m)). lia.
Qed.

Lemma search_None delim s : delim <> [] ->
  search delim s = None <-> forall m, starts_with delim (drop m s) = false.
Proof.
  intros Hd. induction s as [|c s IH].
  { cbn. assert (starts_with delim [] = false) as E by (by destruct delim).
    rewrite E. split; [|done]. intros _ m. by rewrite drop_nil. }
  cbn [search]. destruct (starts_with delim (c :: s)) eqn:E.
  - rewrite decide_False by done. split; [done|]. intros H. specialize (H O). cbn in H. congruence.
  - rewrite fmap_None, IH. split.
    + intros H [|m]; [done|apply H].
    + intros H m. apply (H (S m)).
Qed.

Lemma search_bound delim s n : delim <> [] -> search delim s = Some n ->
  (n + length delim <= length s)%nat.
Proof.
  intros Hd [[t E] _]%search_Some; [|done]. apply (f_equal length) in E.
  rewrite !length_app, length_take in E. assert (0 < length delim)%nat by (destruct delim; cbn; [done|lia]). lia.
Qed.

Lemma read_till_repr b R delim : buf_repr b R -> delim <> [] ->
  ReadStdStringAndForwardTill b delim =
    Some (match search delim R with
          | None => ([], b)
          | Some n => (take n R, ReaderIdxForward b (Z.of_nat (n + length delim)))
          end).
Proof.
  intros Hb Hd. unfold ReadStdStringAndForwardTill. rewrite (readable_range_repr _ _ Hb). cbn.
  destruct (search delim R) as [n|] eqn:E; [|done].
  pose proof (search_bound _ _ _ Hd E).
  rewrite (read_at_repr _ R) by (done || lia). cbn. rewrite Nat2Z.id, drop_0. by rewrite Nat2Z.inj_add.
Qed.

(** ** Numbers *)

Lemma block_from_repr b pre R k index : buf_parts b pre R k ->
  0 <= index <= Z.of_nat (length R) ->
  block_from b index = drop (Z.to_nat index) R ++ replicate k NUL.
Proof.
  intros (Hd & Hr & _ & _) Hi. unfold block_from. rewrite Hd, Hr.
  rewrite drop_app_ge by lia. rewrite drop_app_le by lia. do 2 f_equal. lia.
Qed.

(** Digits that a non-digit or a spare byte of the block follows are read to
    their end, and to the number they print when they print one. *)
Lemma ReadLongFrom_digits b R index ds t : buf_repr b R -> 0 <= index ->
  drop (Z.to_nat index) R = ds ++ t -> ds <> [] -> Forall (λ c, is_digit c = true) ds ->
  match t with c :: _ => is_digit c = false | [] => 0 < WritableBytes b end ->
  exists v, ReadLongFrom b index = Some (v, Z.of_nat (length ds)) /\
    forall z, in_i64 z -> ds = to_string z -> v = z.
Proof.
  intros (pre & k & Hp) Hi Hdrop Hne Hds Ht.
  pose proof (buf_parts_sizes _ _ _ _ Hp) as (_ & HR & HW & _ & ?).
  assert (Z.to_nat index < length R)%nat as Hlt.
  { apply (f_equal length) in Hdrop. rewrite length_drop, length_app in Hdrop.
    destruct ds; [done|]. cbn in Hdrop. lia. }
  unfold ReadLongFrom. rewrite HR. destruct (Z.geb_spec index (Z.of_nat (length R))); [lia|].
  rewrite (block_from_repr _ _ _ _ _ Hp) by lia. rewrite Hdrop, <- app_assoc.
  set (tl := t ++ replicate k NUL).
  assert (match tl with c :: _ => is_digit c = false | [] => True end /\ tl <> []) as [Htl Hnil].
  { unfold tl. destruct t; [|done]. cbn. rewrite HW in Ht. by destruct k; [lia|]. }
  pose proof (scan_digits_only ds tl Hne Hds Htl) as Hsc.
  unfold strtoll_mem. rewrite Hsc. cbn [sc_end]. rewrite decide_True.
  2:{ rewrite length_app. destruct tl; [done|]. cbn. lia. }
  unfold strtoll at 1. rewrite Hsc. cbn [sc_digits sc_neg sc_end]. rewrite decide_False by done.
  set (res := if _ >? _ then _ else _).
  assert (exists v e, res = (v, length ds, e) /\ strtoll (ds ++ tl) = (v, length ds, e))
    as (v & e & Er & Es).
  { unfold res, strtoll. rewrite Hsc. cbn [sc_digits sc_neg sc_end]. rewrite decide_False by done.
    repeat case_if; eauto. }
  rewrite Er. cbn. eexists. split; [done|]. intros z Hz ->.
  pose proof (strtoll_to_string z tl Hz Htl) as [E _]. congruence.
Qed.

Lemma ReadLongFrom_end b R index : buf_repr b R -> Z.of_nat (length R) <= index ->
  ReadLongFrom b index = Some (0, 0).
Proof.
  intros Hb Hi. unfold ReadLongFrom. rewrite (buf_repr_readable _ _ Hb).
  by destruct (Z.geb_spec index (Z.of_nat (length R))); [|lia].
Qed.

(** ** The buffer as a queue of bytes *)

Inductive buf_op :=
| BAppend (v : list ascii)
| BForward (len : Z)
| BRead (len : Z)
| BReadTill (delim : list ascii)
| BFindCRLF
| BReset.

(** What an operation returns: bytes, an offset, or nothing. *)
Inductive buf_reply := RBytes (s : list ascii) | ROffset (z : Z) | RNone.

Definition buf_exec (b : Buffer) (o : buf_op) : option (buf_reply * Buffer) :=
  match o with
  | BAppend v => b' ← buf_Append_std b v; Some (RNone, b')
  | BForward len => Some (RNone, ReaderIdxForward b len)
  | BRead len => '(s, b') ← ReadStdStringAndForward b len; Some (RBytes s, b')
  | BReadTill delim => '(s, b') ← ReadStdStringAndForwardTill b delim; Some (RBytes s, b')
  | BFindCRLF => z ← FindCRLFInReadable b; Some (ROffset z, b)
  | BReset => Some (RNone, buf_Reset b)
  end.

Definition queue_step (R : list ascii) (o : buf_op) : buf_reply * list ascii :=
  match o with
  | BAppend v => (RNone, R ++ v)
  | BForward len => (RNone, drop (Z.to_nat len) R)
  | BRead len =>
      if decide (len <= Z.of_nat (length R)) then (RBytes (take (Z.to_nat len) R), drop (Z.to_nat len) R)
      else (RBytes [], R)
  | BReadTill delim =>
      match search delim R with
      | Some n => (RBytes (take n R), drop (n + length delim) R)
      | None => (RBytes [], R)
      end
  | BFindCRLF =>
      (ROffset (match search CRLF R with Some n => Z.of_nat n | None => -1 end), R)
  | BReset => (RNone, [])
  end.

(** The sizes the platform allows, and no overlapping copy. *)
Definition buf_op_ok (b : Buffer) (o : buf_op) : Prop :=
  match o with
  | BAppend v => fits v /\ overlaps b (Z.of_nat (length v)) = false /\
      Capacity b + Z.of_nat (length v) + 2 <= INT64_MAX
  | BForward len | BRead len => 0 <= len
  | BReadTill delim => delim <> []
  | BFindCRLF => ReadableBytes b <= INT32_MAX
  | BReset => True
  end.

Fixpoint buf_run (b : Buffer) (ops : list buf_op) : option (list buf_reply * Buffer) :=
  match ops with
  | [] => Some ([], b)
  | o :: ops =>
      '(r, b) ← buf_exec b o;
      '(rs, b) ← buf_run b ops;
      Some (r :: rs, b)
  end.

Fixpoint queue_run (R : list ascii) (ops : list buf_op) : list buf_reply * list ascii :=
  match ops with
  | [] => ([], R)
  | o :: ops =>
      let '(r, R) := queue_step R o in
      let '(rs, R) := queue_run R ops in
      (r :: rs, R)
  end.

Fixpoint buf_ops_ok (b : Buffer) (ops : list buf_op) : Prop :=
  match ops with
  | [] => True
  | o :: ops => buf_op_ok b o /\
      match buf_exec b o with Some (_, b) => buf_ops_ok b ops | None => True end
  end.

Lemma buf_exec_refines b R o : buf_repr b R -> buf_op_ok b o ->
  exists b', buf_exec b o = Some (fst (queue_step R o), b') /\ buf_repr b' (snd (queue_step R o)).
Proof.
  intros Hb Ho. destruct o as [v|len|len|delim| |]; cbn in Ho |- *.
  - destruct Ho as (? & ? & ?).
    destruct (buf_Append_std_repr b R v) as (b' & -> & ? & _); [done..|]. by exists b'.
  - eexists. split; [done|]. by apply ReaderIdxForward_repr.
  - rewrite (read_forward_repr _ _ _ Hb) by done. case_decide; cbn; eexists; (split; [done|]); [|done].
    by apply ReaderIdxForward_repr.
  - rewrite (read_till_repr _ _ _ Hb) by done. destruct (search delim R) as [n|]; cbn;
      eexists; (split; [done|]); [|done].
    pose proof (ReaderIdxForward_repr b R (Z.of_nat (n + length delim)) Hb ltac:(lia)) as Hf.
    by rewrite Nat2Z.id in Hf.
  - unfold FindCRLFInReadable. rewrite (readable_range_repr _ _ Hb). cbn. eexists. split; [|done].
    rewrite (buf_repr_readable _ _ Hb) in Ho. destruct (search CRLF R) as [n|] eqn:E; [|done].
    pose proof (search_bound CRLF R n ltac:(done) E).
    by rewrite i32_small by (unfold in_i32, INT32_MIN, INT32_MAX in *; lia).
  - eexists. split; [done|]. by eapply buf_Reset_repr.
Qed.

(** C23. The buffer of a connection is a queue of bytes: from a fresh buffer, any sequence of
    appends, reads, searches, index moves and resets returns what the same sequence returns on
    the plain list of unread bytes, whatever compaction and reallocation happen inside, as long
    as no append compacts overlapping regions ([overlaps]: the [memcpy] of src/net/buffer.h:46
    is then undefined, [Append_overlapping_copy]) and sizes fit in their C++ types. *)
Theorem Buffer_refines_queue (n : Z) (ops : list buf_op) :
  0 <= n <= INT64_MAX -> buf_ops_ok (Buffer_new n) ops ->
  exists b', buf_run (Buffer_new n) ops = Some (fst (queue_run [] ops), b') /\
    buf_repr b' (snd (queue_run [] ops)).
Proof.
  intros Hn. generalize (Buffer_new_repr n Hn). generalize (Buffer_new n), (@nil ascii).
  induction ops as [|o ops IH]; intros b R Hb Hok; cbn; [eauto|].
  destruct Hok as [Ho Hok]. destruct (buf_exec_refines b R o Hb Ho) as (b1 & E & Hb1).
  rewrite E in Hok |- *. cbn. destruct (queue_step R o) as [r R1]. cbn in *.
  destruct (IH b1 R1 Hb1 Hok) as (b2 & -> & Hb2). cbn.
  destruct (queue_run R1 ops) as [rs R2]. cbn in *. eauto.
Qed.

Definition buf_demo : list buf_op :=
  [BAppend (bs "GET key" ++ CRLF ++ bs "abc"); BReadTill CRLF; BFindCRLF; BAppend (bs "defgh");
   BRead 5; BReset; BAppend (bs "0123456789abcdef")].

Lemma Buffer_refines_queue_witness :
  exists b', buf_run (Buffer_new 16) buf_demo =
      Some ([RNone; RBytes (bs "GET key"); ROffset (-1); RNone; RBytes (bs "abcde"); RNone; RNone], b') /\
    buf_repr b' (bs "0123456789abcdef").
Proof.
  apply (Buffer_refines_queue 16 buf_demo); [unfold INT64_MAX; lia|].
  unfold buf_demo. cbn [buf_ops_ok].
  repeat first [ split; [vm_compute; intuition congruence|]
               | progress (match goal with |- context [buf_exec ?b ?o] =>
                   let r := eval vm_compute in (buf_exec b o) in
                   replace (buf_exec b o) with r by (vm_compute; reflexivity) end) ].
  exact I.
Defined.

(** Compaction copies the unread bytes to the front with [memcpy]; when an
    append needs the consumed bytes' space and there are more unread than
    consumed bytes, source and destination overlap and the append is
    undefined. *)
Lemma Append_overlapping_copy (b : Buffer) (R v : list ascii) :
  buf_repr b R -> fits v ->
  WritableBytes b < Z.of_nat (length v) <= PrependableBytes b + WritableBytes b ->
  PrependableBytes b < ReadableBytes b ->
  buf_Append_std b v = None.
Proof.
  intros Hb Hv Hn Hp. eapply buf_Append_std_overlap; [done..|].
  unfold overlaps. rewrite !andb_true_iff, !Z.ltb_lt, Z.leb_le. lia.
Qed.

Lemma Append_overlapping_copy_witness :
  buf_Append_std (ReaderIdxForward (mkBuffer (bs "abcdefgh") 0 8) 2) (bs "xy") = None.
Proof.
  apply (Append_overlapping_copy _ (bs "cdefgh")).
  - exists (bs "ab"), O. by vm_compute.
  - by vm_compute.
  - by vm_compute.
  - by vm_compute.
Defined.
