(* ===== verification/Protocol.v ===== *)
(** * Protocol: requests on the wire (src/net/protocol.cpp, CommandCache of net.h)

    [TryParseFromBuffer] is the parser the server runs on the read buffer of a
    connection each time bytes arrive; [CommandCache::ToProtocolString] prints a
    command in the same format (the append-only file is made of it). [None] is
    undefined behaviour: a number scan that runs past the end of the block. *)

From S2P Require Import Prelude Numerals Str Buffer.

Local Open Scope Z_scope.

(** ** CommandCache *)

Record CommandCache := mkCache {
  inited : bool;
  argc : Z;                      (* size_t *)
  argv : list (list ascii)       (* std::vector<std::string> *)
}.

#[export] Instance CommandCache_eq_dec : EqDecision CommandCache.
Proof. solve_decision. Defined.

Definition cache_Clear : CommandCache := mkCache false 0 [].

(** [operator<<] and [ToString]. *)
Fixpoint print_argv (l : list (list ascii)) : list ascii :=
  match l with
  | [] => []
  | [a] => a ++ ["010"%char]
  | a :: l => a ++ [" "%char] ++ print_argv l
  end.

Definition cache_ToString (c : CommandCache) : list ascii := print_argv (argv c).

Definition print_item (item : list ascii) : list ascii :=
  if decide (item = []) then bs "$0" ++ CRLF ++ CRLF
  else bs "$" ++ to_string (Z.of_nat (length item)) ++ CRLF ++ item ++ CRLF.

Definition ToProtocolString (c : CommandCache) : list ascii :=
  bs "*" ++ to_string (argc c) ++ CRLF ++ concat (print_item <$> argv c).

(** [FromProtocolString] is a stub in the source: it returns an empty cache. *)
Definition FromProtocolString (protostr : list ascii) : CommandCache := mkCache false 0 [].

(** ** The parser of a request *)

(** What a call leaves: the result, the flag [err], the buffer and the cache. *)
Record parsed := mkParsed { ret : bool; err : bool; pbuf : Buffer; pcache : CommandCache }.

(** [if (cond) err = true; cache.Clear(); return false;] *)
Definition reject (b : Buffer) (e cond : bool) : option (parsed + CommandCache * Z) :=
  Some (inl (mkParsed false (if cond then true else e) b cache_Clear)).

(** The loop over the arguments: an early return, or the cache and [cur_idx]
    after the last argument. *)
Fixpoint parse_args (fuel : nat) (buffer : Buffer) (cache : CommandCache) (e : bool)
    (cur_idx n_para : Z) : option (parsed + CommandCache * Z) :=
  if n_para <=? 0 then Some (inr (cache, cur_idx))
  else match fuel with
  | O => None
  | S fuel =>
      if cur_idx >=? ReadableBytes buffer then Some (inl (mkParsed false e buffer cache))
      else
      c ← ReadableCharacterAt buffer cur_idx;
      if negb (Ascii.eqb c "$") then reject buffer e (ReadableBytes buffer >? cur_idx)
      else
      let cur_idx := u64 (cur_idx + 1) in
      '(next_arg_len, step) ← ReadLongFrom buffer cur_idx;
      if step =? 0 then reject buffer e (u64 (ReadableBytes buffer - cur_idx) >? 0)
      else
      let cur_idx := u64 (cur_idx + step) in
      crlf ← ReadStdStringFrom buffer cur_idx 2;
      if bool_decide (crlf <> CRLF) then reject buffer e (u64 (ReadableBytes buffer - cur_idx) >=? 2)
      else
      let cur_idx := u64 (cur_idx + 2) in
      arg ← ReadStdStringFrom buffer cur_idx (u64 next_arg_len);
      let cache := mkCache (inited cache) (argc cache) (argv cache ++ [arg]) in
      if negb (Z.of_nat (length arg) =? u64 next_arg_len)
      then reject buffer e (u64 (ReadableBytes buffer - cur_idx) >=? u64 next_arg_len)
      else
      let cur_idx := u64 (cur_idx + next_arg_len) in
      crlf ← ReadStdStringFrom buffer cur_idx 2;
      if bool_decide (crlf <> CRLF) then reject buffer e (u64 (ReadableBytes buffer - cur_idx) >=? 2)
      else
      let cur_idx := u64 (cur_idx + 2) in
      parse_args fuel buffer cache e cur_idx (n_para - 1)
  end.

(** Each round of the loop consumes at least one byte, so the number of readable
    bytes bounds the number of rounds. *)
Definition TryParseFromBuffer (buffer : Buffer) (cache : CommandCache) (e : bool) : option parsed :=
  if ReadableBytes buffer <=? 0 then Some (mkParsed false e buffer cache)
  else
  head ← ReadStdString buffer 1;
  if bool_decide (head <> bs "*") then
    Some (mkParsed false (if ReadableBytes buffer >=? 1 then true else e) (buf_Reset buffer) cache)
  else
  let cur_idx := 1 in
  '(n_para, step) ← ReadLongFrom buffer cur_idx;
  if step =? 0 then
    Some (mkParsed false (if ReadableBytes buffer >? 0 then true else e) buffer cache_Clear)
  else
  let cache := mkCache (inited cache) (u64 n_para) (argv cache) in
  let cur_idx := u64 (cur_idx + step) in
  crlf ← ReadStdStringFrom buffer cur_idx 2;
  if bool_decide (crlf <> CRLF) then
    Some (mkParsed false (if u64 (ReadableBytes buffer - cur_idx) >=? 2 then true else e)
            buffer cache_Clear)
  else
  let cur_idx := u64 (cur_idx + 2) in
  res ← parse_args (S (Z.to_nat (ReadableBytes buffer))) buffer cache e cur_idx n_para;
  match res with
  | inl early => Some early
  | inr (cache, cur_idx) =>
      let cache := mkCache true (argc cache) (argv cache) in
      if negb (argc cache =? Z.of_nat (length (argv cache)))
      then Some (mkParsed false e buffer cache_Clear)
      else Some (mkParsed true e (ReaderIdxForward buffer cur_idx) cache)
  end.

(** ** The line-based parser *)

(** [AuxiliaryReadProc]: what a round of its loop does. *)
Inductive aux_step := AuxBreak (b : Buffer) | AuxFail (b : Buffer) | AuxNext (b : Buffer) (arg : list ascii).

Definition AuxiliaryReadProcCleanup (b : Buffer) (c : CommandCache) : Buffer * CommandCache :=
  (buf_Reset b, cache_Clear).

Definition aux_round (b : Buffer) : option aux_step :=
  '(line, b) ← ReadAndForwardTill b CRLF;
  if ds_Empty line then Some (AuxBreak b)
  else
    c ← ds_data line !! Z.to_nat (ds_index line 0);
    if negb (Ascii.eqb c "$") then Some (AuxFail b)
    else
    let '(v, _, _) := strtoll (c_str (drop 1 (ds_data line))) in
    let arg_len := u64 v in
    if ReadableBytes b <? u64 (arg_len + 2)
    then Some (AuxBreak (ReaderIdxBackward b (u64 (ds_len line + 2))))
    else
      '(arg, b) ← ReadStdStringAndForward b arg_len;
      crlf ← ReadStdString b 2;
      if bool_decide (crlf <> CRLF) then Some (AuxFail b)
      else Some (AuxNext (ReaderIdxForward b 2) arg).

Fixpoint AuxiliaryReadProc (fuel : nat) (b : Buffer) (c : CommandCache)
    : option (bool * Buffer * CommandCache) :=
  if (ReadableBytes b >? 0) && (argc c >? Z.of_nat (length (argv c))) then
    match fuel with
    | O => None
    | S fuel =>
        r ← aux_round b;
        match r with
        | AuxBreak b => Some (true, b, c)
        | AuxFail b => let '(b, c) := AuxiliaryReadProcCleanup b c in Some (false, b, c)
        | AuxNext b arg => AuxiliaryReadProc fuel b (mkCache (inited c) (argc c) (argv c ++ [arg]))
        end
    end
  else Some (true, b, c).

(** ** One argument *)

Lemma print_item_eq item :
  print_item item = "$"%char :: to_string (Z.of_nat (length item)) ++ CRLF ++ item ++ CRLF.
Proof. unfold print_item. case_decide; [by subst|done]. Qed.

Lemma drop_app_at {A} (R x y : list A) (i : Z) : 0 <= i ->
  drop (Z.to_nat i) R = x ++ y -> drop (Z.to_nat (i + Z.of_nat (length x))) R = y.
Proof.
  intros Hi E. rewrite Z2Nat.inj_add, Nat2Z.id, <- drop_drop, E by lia. apply drop_app_length.
Qed.

Lemma drop_app_bound {A} (R x y : list A) (i : Z) : 0 <= i -> x <> [] ->
  drop (Z.to_nat i) R = x ++ y -> i + Z.of_nat (length x) <= Z.of_nat (length R).
Proof.
  intros Hi Hx E. apply (f_equal length) in E. rewrite length_drop, length_app in E.
  destruct x; [done|]. cbn in *. lia.
Qed.

Lemma drop_end_bound {A} (R x : list A) (i : Z) : 0 <= i -> x <> [] ->
  drop (Z.to_nat i) R = x -> i + Z.of_nat (length x) = Z.of_nat (length R).
Proof. intros Hi Hx E. apply (f_equal length) in E. rewrite length_drop in E.
  destruct x; [done|]. cbn in *. lia.
Qed.

(** The decimal length of an argument. *)
Lemma len_digits (n : nat) : Z.of_nat n <= INT64_MAX ->
  to_string (Z.of_nat n) <> [] /\ Forall (λ c, is_digit c = true) (to_string (Z.of_nat n)) /\
  in_i64 (Z.of_nat n).
Proof.
  intros Hn. assert (in_i64 (Z.of_nat n)) as Hi by (unfold in_i64, INT64_MIN, INT64_MAX in *; lia).
  destruct (to_string_digits _ (or_introl Hi)) as (ds & Hne & Hds & _ & _ & E).
  destruct (Z.ltb_spec (Z.of_nat n) 0); [lia|]. by rewrite E.
Qed.

(** Where the buffer holds more bytes, the character at an index below its end. *)
Lemma char_at b R i c t : buf_repr b R -> 0 <= i -> drop (Z.to_nat i) R = c :: t ->
  (i >=? ReadableBytes b) = false /\ ReadableCharacterAt b i = Some c.
Proof.
  intros Hb Hi E. pose proof (drop_app_bound R [c] t i Hi ltac:(done) E). cbn in *.
  rewrite (buf_repr_readable _ _ Hb). split; [destruct (Z.geb_spec i (Z.of_nat (length R))); [lia|done]|].
  rewrite (ReadableCharacterAt_repr _ _ _ Hb) by lia.
  rewrite <- (Nat.add_0_r (Z.to_nat i)), <- lookup_drop, E. done.
Qed.

Lemma read_from_app b R i x y : buf_repr b R -> drop (Z.to_nat i) R = x ++ y -> 0 <= i ->
  ReadStdStringFrom b i (Z.of_nat (length x)) = Some x.
Proof.
  intros Hb E Hi. rewrite (ReadStdStringFrom_repr _ R), E by (done || lia).
  by rewrite Nat2Z.id, take_app_length.
Qed.

Lemma read_crlf b R i y : buf_repr b R -> drop (Z.to_nat i) R = CRLF ++ y -> 0 <= i ->
  ReadStdStringFrom b i 2 = Some CRLF.
Proof. apply (read_from_app b R i CRLF y). Qed.

(** Remove the conversions to [size_t] of values known to be in range. *)
Ltac u64s :=
  repeat match goal with
  | |- context [u64 ?z] => rewrite (u64_small z) by (unfold in_u64, UINT64_MAX, INT64_MAX in *; lia)
  end.

Lemma parse_args_item fuel b R cache e i n a t :
  buf_repr b R -> 0 <= i -> drop (Z.to_nat i) R = print_item a ++ t -> 0 < n ->
  parse_args (S fuel) b cache e i n =
  parse_args fuel b (mkCache (inited cache) (argc cache) (argv cache ++ [a])) e
    (i + Z.of_nat (length (print_item a))) (n - 1).
Proof.
  intros Hb Hi E Hn. pose proof (buf_repr_bound _ _ Hb).
  assert (print_item a <> []) as Hpn by (by rewrite print_item_eq).
  pose proof (drop_app_bound _ _ _ _ Hi Hpn E) as Hlen. rewrite print_item_eq in *.
  set (ds := to_string (Z.of_nat (length a))) in *.
  cbn [length] in Hlen |- *. rewrite !length_app in Hlen |- *. change (length CRLF) with 2%nat in *.
  destruct (len_digits (length a)) as (Hne & Hds & Hin); [unfold INT64_MAX in *; lia|]. fold ds in Hne, Hds.
  destruct (char_at _ _ _ _ _ Hb Hi E) as [Eg Ec].
  cbn [parse_args]. destruct (Z.leb_spec n 0); [lia|]. rewrite Eg, Ec. cbn [mbind option_bind negb].
  change (Ascii.eqb "$" "$") with true. cbn [negb]. unfold INT64_MAX in *. u64s.
  change ("$"%char :: ?x) with (["$"%char] ++ x) in E. rewrite <- !app_assoc in E.
  apply drop_app_at in E; [|done]. cbn [length] in E. change (Z.of_nat 1) with 1 in E.
  destruct (ReadLongFrom_digits b R (i + 1) ds _ Hb ltac:(lia) E Hne Hds) as (v & -> & Hv); [done|].
  cbn [mbind option_bind]. rewrite (Hv _ Hin eq_refl). clear Hv v.
  assert (length ds <> O) by (destruct ds; done).
  destruct (Z.eqb_spec (Z.of_nat (length ds)) 0); [lia|].
  apply drop_app_at in E; [|lia]. u64s.
  rewrite (read_crlf _ _ _ _ Hb E) by lia. cbn [mbind option_bind].
  rewrite bool_decide_false by tauto.
  apply drop_app_at in E; [|lia]. change (Z.of_nat (length CRLF)) with 2 in E. u64s.
  rewrite (read_from_app _ _ _ _ _ Hb E) by lia. cbn [mbind option_bind].
  rewrite Z.eqb_refl. cbn [negb].
  apply drop_app_at in E; [|lia]. u64s.
  rewrite (read_crlf _ _ _ _ Hb E) by lia. cbn [mbind option_bind].
  rewrite bool_decide_false by tauto. u64s.
  f_equal. lia.
Qed.

(** ** A complete request *)

Lemma length_items l : (length l <= length (concat (print_item <$> l)))%nat.
Proof.
  induction l as [|a l IH]; [done|]. cbn [fmap list_fmap concat length].
  rewrite length_app, print_item_eq. cbn [length]. lia.
Qed.

Lemma parse_args_skip b R e l : buf_repr b R -> forall fuel cache i n t, 0 <= i ->
  drop (Z.to_nat i) R = concat (print_item <$> l) ++ t -> Z.of_nat (length l) <= n ->
  parse_args (length l + fuel) b cache e i n =
  parse_args fuel b (mkCache (inited cache) (argc cache) (argv cache ++ l)) e
    (i + Z.of_nat (length (concat (print_item <$> l)))) (n - Z.of_nat (length l)).
Proof.
  intros Hb. induction l as [|a l IH]; intros fuel cache i n t Hi E Hn.
  { cbn. rewrite app_nil_r, Z.add_0_r, Z.sub_0_r. by destruct cache. }
  change (fmap print_item (a :: l)) with (print_item a :: (print_item <$> l)) in *.
  cbn [concat] in *. rewrite <- app_assoc in E. cbn [length] in Hn |- *. cbn [Nat.add].
  rewrite (parse_args_item _ _ R _ _ _ _ a _ Hb Hi E) by lia.
  rewrite (IH _ _ _ _ t); [|lia|by eapply drop_app_at|lia].
  cbn [inited argc argv]. rewrite <- app_assoc, length_app. cbn [app]. f_equal; lia.
Qed.

Lemma parse_args_all b R e l fuel cache i t : buf_repr b R -> 0 <= i ->
  drop (Z.to_nat i) R = concat (print_item <$> l) ++ t -> (length l <= fuel)%nat ->
  parse_args fuel b cache e i (Z.of_nat (length l)) =
  Some (inr (mkCache (inited cache) (argc cache) (argv cache ++ l),
             i + Z.of_nat (length (concat (print_item <$> l))))).
Proof.
  intros Hb Hi E Hf. replace fuel with (length l + (fuel - length l))%nat by lia.
  rewrite (parse_args_skip b R e l Hb _ _ _ _ t) by (done || lia). rewrite Z.sub_diag.
  by destruct (fuel - length l)%nat.
Qed.

Lemma TryParse_header b R cache e n rest : buf_repr b R ->
  R = "*"%char :: to_string (Z.of_nat n) ++ CRLF ++ rest ->
  Z.of_nat n <= INT64_MAX ->
  let i := Z.of_nat (3 + length (to_string (Z.of_nat n))) in
  drop (Z.to_nat i) R = rest /\
  TryParseFromBuffer b cache e =
    (res ← parse_args (S (length R)) b (mkCache (inited cache) (Z.of_nat n) (argv cache)) e i (Z.of_nat n);
     match res with
     | inl early => Some early
     | inr (cache, cur_idx) =>
         if negb (argc cache =? Z.of_nat (length (argv cache)))
         then Some (mkParsed false e b cache_Clear)
         else Some (mkParsed true e (ReaderIdxForward b cur_idx) (mkCache true (argc cache) (argv cache)))
     end).
Proof.
  intros Hb HR Hn. pose proof (buf_repr_bound _ _ Hb) as Hbd.
  destruct (len_digits n Hn) as (Hne & Hds & Hin).
  set (ds := to_string (Z.of_nat n)) in *.
  assert (length R = 3 + length ds + length rest)%nat as HL
    by (rewrite HR; cbn; rewrite length_app; cbn; lia).
  split.
  { rewrite Nat2Z.id, HR, app_assoc. cbn [drop Nat.add].
    by rewrite drop_app_length' by (rewrite length_app; cbn; lia). }
  unfold TryParseFromBuffer. rewrite (ReadStdString_repr _ R), (buf_repr_readable _ _ Hb) by (done || lia).
  destruct (Z.leb_spec (Z.of_nat (length R)) 0); [lia|]. rewrite decide_True by lia.
  cbn [mbind option_bind]. rewrite bool_decide_false by (rewrite HR; cbn; tauto).
  assert (drop (Z.to_nat 1) R = ds ++ CRLF ++ rest) as E by by rewrite HR.
  destruct (ReadLongFrom_digits b R 1 ds _ Hb ltac:(lia) E Hne Hds) as (v & -> & Hv); [done|].
  cbn [mbind option_bind]. rewrite (Hv _ Hin eq_refl). clear Hv v.
  assert (length ds <> O) by (destruct ds; done).
  destruct (Z.eqb_spec (Z.of_nat (length ds)) 0); [lia|].
  unfold INT64_MAX in *. u64s. apply drop_app_at in E; [|lia].
  rewrite (read_crlf _ _ _ _ Hb E) by lia. cbn [mbind option_bind].
  rewrite bool_decide_false by tauto. u64s. rewrite Nat2Z.id.
  replace (1 + Z.of_nat (length ds) + 2) with (Z.of_nat (3 + length ds)) by lia. done.
Qed.

(** The cache a request with these arguments fills. *)
Definition request (args : list (list ascii)) : CommandCache :=
  mkCache true (Z.of_nat (length args)) args.

(** The parser on a printed command followed by anything. *)
Lemma TryParse_request b args rest e :
  buf_repr b (ToProtocolString (request args) ++ rest) ->
  exists b', TryParseFromBuffer b cache_Clear e = Some (mkParsed true e b' (request args)) /\
    buf_repr b' rest.
Proof.
  intros Hb. pose proof (buf_repr_bound _ _ Hb) as Hbd.
  assert (ToProtocolString (request args) ++ rest =
          "*"%char :: to_string (Z.of_nat (length args)) ++ CRLF ++ concat (print_item <$> args) ++ rest)
    as HR by (unfold ToProtocolString; cbn; by rewrite <- !app_assoc).
  pose proof (length_items args) as Hli.
  assert (Z.of_nat (length args) <= INT64_MAX) as Hn.
  { rewrite HR in Hbd. cbn [length] in Hbd. rewrite !length_app in Hbd. lia. }
  destruct (TryParse_header b _ cache_Clear e _ _ Hb HR Hn) as [Hd ->].
  rewrite (parse_args_all b _ e args _ _ _ rest Hb); [|lia|done|].
  2:{ rewrite HR. cbn [length]. rewrite !length_app. lia. }
  cbn [mbind option_bind inited argc argv cache_Clear app]. rewrite Z.eqb_refl. cbn [negb].
  eexists. split; [done|]. apply (drop_app_at _ _ rest) in Hd; [|lia]. rewrite <- Hd.
  apply ReaderIdxForward_repr; [done|lia].
Qed.

(** C14. Print, then parse: when the unread bytes start with a printed command,
    followed by anything (the next pipelined request, part of one, garbage), the
    parser returns exactly that command, consumes exactly its bytes and reports
    no error. *)
Theorem TryParse_ToProtocolString (b : Buffer) (args : list (list ascii)) (rest : list ascii) (e : bool) :
  buf_repr b (ToProtocolString (request args) ++ rest) ->
  exists b', TryParseFromBuffer b cache_Clear e = Some (mkParsed true e b' (request args)) /\
    buf_repr b' rest.
Proof. apply TryParse_request. Qed.

Definition set_request : list (list ascii) := [bs "set"; bs ""; bs "a b"].

Lemma TryParse_ToProtocolString_witness :
  exists b', TryParseFromBuffer
      (mkBuffer (ToProtocolString (request set_request) ++ bs "*1") 0 30) cache_Clear false =
    Some (mkParsed true false b' (request set_request)) /\ buf_repr b' (bs "*1").
Proof.
  apply (TryParse_ToProtocolString _ set_request (bs "*1")).
  exists [], O. vm_compute. repeat split; congruence.
Defined.

(** ** A request cut anywhere *)

Lemma read_no_crlf b R i : buf_repr b R -> 0 <= i <= Z.of_nat (length R) ->
  Z.of_nat (length R) - i < 2 ->
  exists s, ReadStdStringFrom b i 2 = Some s /\ s <> CRLF /\
    (u64 (ReadableBytes b - i) >=? 2) = false.
Proof.
  intros Hb Hi Hs. pose proof (buf_repr_bound _ _ Hb). unfold INT64_MAX in *.
  eexists. split; [by apply ReadStdStringFrom_repr; [done|lia..]|]. split.
  - intros E. apply (f_equal length) in E. rewrite length_take, length_drop in E.
    change (length CRLF) with 2%nat in E. lia.
  - rewrite (buf_repr_readable _ _ Hb). u64s.
    destruct (Z.geb_spec (Z.of_nat (length R) - i) 2); [lia|done].
Qed.

Lemma length_pos {A} (l : list A) : l <> [] -> (0 < length l)%nat.
Proof. destruct l; [done|cbn; lia]. Qed.

(** Two ways a list can be cut by a prefix. *)
Lemma app_cut {A} (l q x y : list A) : x ++ y = l ++ q ->
  (exists k, k <> [] /\ x = l ++ k) \/ (exists k, l = x ++ k /\ y = k ++ q).
Proof.
  intros E. apply app_eq_inv in E as [(k & -> & ->)|(k & -> & ->)].
  - destruct k as [|c k]; [right; exists []; by rewrite !app_nil_r|left; by exists (c :: k)].
  - right. by exists k.
Qed.

(** The rest of an argument after its length line. *)
Lemma cut_body b R i a r3 q e : buf_repr b R -> 0 <= i -> drop (Z.to_nat i) R = r3 ->
  i + Z.of_nat (length r3) = Z.of_nat (length R) -> a ++ CRLF = r3 ++ q -> q <> [] ->
  Z.of_nat (length a) <= INT64_MAX ->
  (arg ← ReadStdStringFrom b i (Z.of_nat (length a));
   if negb (Z.of_nat (length arg) =? Z.of_nat (length a))
   then reject b e (u64 (ReadableBytes b - i) >=? Z.of_nat (length a))
   else
     crlf ← ReadStdStringFrom b (u64 (i + Z.of_nat (length a))) 2;
     if bool_decide (crlf <> CRLF)
     then reject b e (u64 (ReadableBytes b - u64 (i + Z.of_nat (length a))) >=? 2)
     else None) = reject b e false.
Proof.
  intros Hb Hi Hd Hl E Hq Ha. pose proof (buf_repr_bound _ _ Hb). unfold INT64_MAX in *.
  pose proof (length_pos _ Hq). rewrite (ReadStdStringFrom_repr b R i), Hd, Nat2Z.id by (done || lia).
  cbn [mbind option_bind]. destruct (app_cut _ _ _ _ E) as [(k & Hk & ->)|(k & -> & Ek)].
  - pose proof (length_pos _ Hk). rewrite length_app in *. rewrite take_ge by lia.
    destruct (Z.eqb_spec (Z.of_nat (length r3)) (Z.of_nat (length r3 + length k))); [lia|].
    cbn [negb]. rewrite (buf_repr_readable _ _ Hb). u64s.
    destruct (Z.geb_spec (Z.of_nat (length R) - i) (Z.of_nat (length r3 + length k))); [lia|done].
  - rewrite length_app in *. rewrite take_app_length, Z.eqb_refl. cbn [negb]. u64s.
    apply (f_equal length) in Ek. rewrite length_app in Ek. change (length CRLF) with 2%nat in Ek.
    destruct (read_no_crlf b R (i + Z.of_nat (length a)) Hb) as (s & -> & Hs & Eu); [lia..|].
    cbn [mbind option_bind]. by rewrite bool_decide_true, Eu.
Qed.

Lemma parse_args_cut fuel b R cache e i n a rem q :
  buf_repr b R -> 0 < WritableBytes b -> 0 <= i -> drop (Z.to_nat i) R = rem -> rem <> [] ->
  print_item a = rem ++ q -> q <> [] -> Z.of_nat (length a) <= INT64_MAX -> 0 < n ->
  parse_args (S fuel) b cache e i n = reject b e false.
Proof.
  intros Hb Hw Hi Hd Hrem E Hq Ha Hn. pose proof (buf_repr_bound _ _ Hb) as Hbd.
  pose proof (drop_end_bound _ _ _ Hi Hrem Hd) as Hl.
  destruct (len_digits (length a) Ha) as (Hne & Hds & Hin).
  rewrite print_item_eq in E. set (ds := to_string (Z.of_nat (length a))) in *.
  destruct rem as [|c r1]; [done|]. injection E as <- E. cbn [length] in Hl.
  destruct (char_at _ _ _ _ _ Hb Hi Hd) as [Eg Ec].
  cbn [parse_args]. destruct (Z.leb_spec n 0); [lia|]. rewrite Eg, Ec. cbn [mbind option_bind].
  change (Ascii.eqb "$" "$") with true. cbn [negb]. unfold INT64_MAX in *. u64s.
  change ("$"%char :: r1) with (["$"%char] ++ r1) in Hd. apply drop_app_at in Hd; [|done].
  change (Z.of_nat (length ["$"%char])) with 1 in Hd.
  assert (r1 = [] \/ (exists k, r1 <> [] /\ ds = r1 ++ k) \/
          exists r2, r1 = ds ++ r2 /\ r2 <> [] /\ CRLF ++ a ++ CRLF = r2 ++ q) as [->|[(k & Hr & Ek)|(r2 & -> & Hr2 & E2)]].
  { destruct (app_cut _ _ _ _ E) as [(k & Hk & Ek)|([|c r2] & Ek & E2)].
    - destruct r1; [by left|]. right; left. by exists k.
    - rewrite app_nil_r in Ek. right; left. exists []. rewrite app_nil_r, Ek. done.
    - right; right. by exists (c :: r2). }
  - (* the cut is just after '$' *)
    rewrite (ReadLongFrom_end _ _ _ Hb) by (cbn in Hl; lia). cbn [mbind option_bind].
    change (0 =? 0) with true. cbn iota. rewrite (buf_repr_readable _ _ Hb).
    replace (Z.of_nat (length R) - (i + 1)) with 0 by (cbn in Hl; lia). done.
  - (* inside or just after the digits *)
    rewrite Ek in Hds. apply Forall_app in Hds as [Hds _].
    rewrite <- (app_nil_r r1) in Hd. pose proof (length_pos _ Hr).
    destruct (ReadLongFrom_digits b R (i + 1) r1 [] Hb ltac:(lia) Hd Hr Hds Hw) as (v & -> & _).
    cbn [mbind option_bind]. destruct (Z.eqb_spec (Z.of_nat (length r1)) 0); [lia|]. u64s.
    destruct (read_no_crlf b R (i + 1 + Z.of_nat (length r1)) Hb) as (s & -> & Hs & Eu); [lia..|].
    cbn [mbind option_bind]. by rewrite bool_decide_true, Eu.
  - (* after the digits *)
    destruct (ReadLongFrom_digits b R (i + 1) ds r2 Hb ltac:(lia) Hd Hne Hds) as (v & -> & Hv).
    { destruct r2; [done|]. by injection E2 as <- _. }
    cbn [mbind option_bind]. rewrite (Hv _ Hin eq_refl). clear Hv v. pose proof (length_pos _ Hne).
    rewrite length_app in Hl. pose proof (length_pos _ Hr2).
    destruct (Z.eqb_spec (Z.of_nat (length ds)) 0); [lia|]. u64s. apply drop_app_at in Hd; [|lia].
    destruct (app_cut _ _ _ _ E2) as [(k & Hk & Ek)|(r3 & -> & E3)].
    + pose proof (length_pos _ Hk). apply (f_equal length) in Ek. rewrite length_app in Ek.
      change (length CRLF) with 2%nat in Ek.
      destruct (read_no_crlf b R (i + 1 + Z.of_nat (length ds)) Hb) as (s & -> & Hs & Eu); [lia..|].
      cbn [mbind option_bind]. by rewrite bool_decide_true, Eu.
    + rewrite (read_crlf _ _ _ _ Hb Hd) by lia. cbn [mbind option_bind].
      rewrite bool_decide_false by tauto. apply drop_app_at in Hd; [|lia].
      rewrite length_app in Hl. change (length CRLF) with 2%nat in *.
      change (Z.of_nat 2) with 2 in Hd. u64s.
      pose proof (cut_body b R (i + 1 + Z.of_nat (length ds) + 2) a r3 q e Hb ltac:(lia) Hd ltac:(lia) E3 Hq Ha) as C.
      revert C. u64s. destruct (ReadStdStringFrom b _ (Z.of_nat (length a))) as [arg|]; [|done].
      cbn [mbind option_bind]. destruct (negb _); [done|].
      destruct (ReadStdStringFrom b _ 2) as [s|]; [|done]. cbn [mbind option_bind].
      destruct (bool_decide _); [done|unfold reject; discriminate].
Qed.

Lemma parse_args_prefix b R e q l : buf_repr b R -> 0 < WritableBytes b ->
  Forall (λ a : list ascii, Z.of_nat (length a) <= INT64_MAX) l -> q <> [] ->
  forall fuel cache i rem, (length rem < fuel)%nat -> 0 <= i <= Z.of_nat (length R) ->
  drop (Z.to_nat i) R = rem -> concat (print_item <$> l) = rem ++ q ->
  exists c, parse_args fuel b cache e i (Z.of_nat (length l)) = Some (inl (mkParsed false e b c)) /\
    (c = cache_Clear \/
     exists l1 l2, l = l1 ++ l2 /\ l2 <> [] /\ rem = concat (print_item <$> l1) /\
       c = mkCache (inited cache) (argc cache) (argv cache ++ l1)).
Proof.
  intros Hb Hw Hl Hq. induction Hl as [|a l Ha Hl IH]; intros fuel cache i rem Hf Hi Hd E.
  { cbn in E. symmetry in E. apply app_nil in E as [_ ?]. done. }
  destruct fuel as [|fuel]; [lia|].
  change (fmap print_item (a :: l)) with (print_item a :: (print_item <$> l)) in E.
  cbn [concat] in E. destruct (app_cut _ _ _ _ E) as [(k & Hk & Ek)|(k & Ek & E')].
  - destruct (decide (rem = [])) as [->|Hrem].
    + exists cache. split.
      * cbn [parse_args]. destruct (Z.leb_spec (Z.of_nat (length (a :: l))) 0); [cbn in *; lia|].
        rewrite (buf_repr_readable _ _ Hb). apply (f_equal length) in Hd. rewrite length_drop in Hd.
        cbn in Hd. destruct (Z.geb_spec i (Z.of_nat (length R))); [done|lia].
      * right. exists [], (a :: l). rewrite app_nil_r. by destruct cache.
    + exists cache_Clear. split; [|by left].
      apply (parse_args_cut fuel b R cache e i _ a rem k); first [done|cbn; lia].
  - rewrite Ek in Hd. rewrite (parse_args_item _ _ R _ _ _ _ a k Hb) by (done || cbn; lia).
    replace (Z.of_nat (length (a :: l)) - 1) with (Z.of_nat (length l)) by (cbn; lia).
    pose proof (drop_app_bound R (print_item a) k i ltac:(lia) ltac:(by rewrite print_item_eq) Hd).
    destruct (IH fuel (mkCache (inited cache) (argc cache) (argv cache ++ [a]))
                (i + Z.of_nat (length (print_item a))) k) as (c & -> & Hc);
      [|lia|by apply drop_app_at; [lia|]|done|].
    { rewrite Ek, print_item_eq in Hf. cbn in Hf. rewrite length_app in Hf. lia. }
    exists c. split; [done|]. destruct Hc as [?|(l1 & l2 & -> & ? & -> & ->)]; [by left|].
    right. exists (a :: l1), l2. rewrite Ek. cbn. by rewrite <- app_assoc.
Qed.

(** The header line cut short. *)
Lemma TryParse_cut_header b R e cache n q : buf_repr b R -> 0 < WritableBytes b ->
  Z.of_nat n <= INT64_MAX -> (2 <= length R)%nat -> q <> [] ->
  "*"%char :: to_string (Z.of_nat n) ++ CRLF = R ++ q ->
  TryParseFromBuffer b cache e = Some (mkParsed false e b cache_Clear).
Proof.
  intros Hb Hw Hn H2 Hq E. pose proof (buf_repr_bound _ _ Hb) as Hbd. unfold INT64_MAX in Hbd.
  destruct (len_digits n Hn) as (Hne & Hds & _). set (ds := to_string (Z.of_nat n)) in *.
  destruct R as [|c r1] eqn:HR; [cbn in H2; lia|]. injection E as <- E. rewrite <- HR in *.
  assert (length R = S (length r1)) as HL by by rewrite HR.
  unfold TryParseFromBuffer. rewrite (ReadStdString_repr _ R), (buf_repr_readable _ _ Hb) by (done || lia).
  destruct (Z.leb_spec (Z.of_nat (length R)) 0); [lia|]. rewrite decide_True by lia.
  cbn [mbind option_bind]. rewrite bool_decide_false by (rewrite HR; cbn; tauto).
  assert (exists d1 r2, r1 = d1 ++ r2 /\ d1 <> [] /\ Forall (λ c, is_digit c = true) d1 /\
          (length r2 < 2)%nat /\ match r2 with c :: _ => is_digit c = false | [] => True end)
    as (d1 & r2 & Hr & Hd1 & Hdig & Hr2 & Hc).
  { destruct (app_cut _ _ _ _ E) as [(k & Hk & Ek)|(k & -> & Ek)].
    - exists r1, []. rewrite app_nil_r. rewrite Ek, Forall_app in Hds.
      split_and!; [done| |tauto|cbn; lia|done]. intros ->. cbn in HL. lia.
    - exists ds, k. pose proof (length_pos _ Hq). pose proof (f_equal length Ek) as El.
      rewrite length_app in El. change (length CRLF) with 2%nat in El.
      split_and!; [done..|lia|]. destruct k; [done|]. by injection Ek as <- _. }
  assert (drop (Z.to_nat 1) R = d1 ++ r2) as Hd by by rewrite HR, <- Hr.
  assert (length R = S (length d1 + length r2)) as HL2 by (rewrite HL, Hr, length_app; lia).
  destruct (ReadLongFrom_digits b R 1 d1 r2 Hb ltac:(lia) Hd Hd1 Hdig) as (v & -> & _);
    [by destruct r2|].
  cbn [mbind option_bind]. pose proof (length_pos _ Hd1).
  destruct (Z.eqb_spec (Z.of_nat (length d1)) 0); [lia|]. u64s.
  destruct (read_no_crlf b R (1 + Z.of_nat (length d1)) Hb) as (s & -> & Hs & Eu); [lia..|].
  cbn [mbind option_bind]. rewrite bool_decide_true by done.
  revert Eu. rewrite (buf_repr_readable _ _ Hb). u64s. by intros ->.
Qed.

Definition header (n : nat) : list ascii := "*"%char :: to_string (Z.of_nat n) ++ CRLF.

Lemma ToProtocolString_request args :
  ToProtocolString (request args) = header (length args) ++ concat (print_item <$> args).
Proof. unfold ToProtocolString, header. cbn. by rewrite <- app_assoc. Qed.

Lemma items_small args : Z.of_nat (length (ToProtocolString (request args))) <= INT64_MAX ->
  Forall (λ a : list ascii, Z.of_nat (length a) <= INT64_MAX) args /\
  Z.of_nat (length args) <= INT64_MAX.
Proof.
  rewrite ToProtocolString_request, length_app. intros H. pose proof (length_items args).
  split; [|lia]. apply Forall_forall. intros a (l1 & l2 & ->)%list_elem_of_In%list_elem_of_split.
  rewrite fmap_app, concat_app in H. cbn [fmap list_fmap concat] in H.
  rewrite !length_app, print_item_eq in H. cbn [length] in H. rewrite !length_app in H. lia.
Qed.

(** C32. A request that arrives in pieces: whatever the point at which it is cut
    (two bytes or more having arrived, and the block not being full), the parser
    reports no error, executes nothing and leaves the bytes in place. The cache is
    cleared, except when the cut falls exactly between two arguments: then the
    arguments parsed so far stay in it. *)
Theorem TryParse_partial (b : Buffer) (args : list (list ascii)) (p q : list ascii) (e : bool) :
  buf_repr b p -> 0 < WritableBytes b ->
  ToProtocolString (request args) = p ++ q -> q <> [] -> (2 <= length p)%nat ->
  Z.of_nat (length (p ++ q)) <= INT64_MAX ->
  exists c, TryParseFromBuffer b cache_Clear e = Some (mkParsed false e b c) /\
    (c = cache_Clear \/
     exists l1 l2, args = l1 ++ l2 /\ l2 <> [] /\
       p = header (length args) ++ concat (print_item <$> l1) /\
       c = mkCache false (Z.of_nat (length args)) l1).
Proof.
  intros Hb Hw E Hq H2 Hn. rewrite <- E in Hn. destruct (items_small _ Hn) as [Hall Hlen].
  rewrite ToProtocolString_request in E. destruct (app_cut _ _ _ _ E) as [(k & Hk & Ek)|(k & -> & Ek)].
  { exists cache_Clear. split; [|by left]. by eapply TryParse_cut_header. }
  assert (header (length args) ++ k = "*"%char :: to_string (Z.of_nat (length args)) ++ CRLF ++ k)
    as HR by (unfold header; cbn; by rewrite <- app_assoc).
  destruct (TryParse_header b _ cache_Clear e _ _ Hb HR Hlen) as [Hd ->].
  destruct (parse_args_prefix b _ e q args Hb Hw Hall Hq (S (length (header (length args) ++ k)))
              (mkCache (inited cache_Clear) (Z.of_nat (length args)) (argv cache_Clear))
              (Z.of_nat (3 + length (to_string (Z.of_nat (length args))))) k ltac:(rewrite length_app; lia)
              ltac:(split; [apply Nat2Z.is_nonneg|]; rewrite HR; cbn; rewrite !length_app; cbn; lia)
              Hd Ek) as (c & -> & Hc).
  exists c. split; [done|]. destruct Hc as [?|(l1 & l2 & Hl & Hl2 & -> & ->)]; [by left|].
  right. by exists l1, l2.
Qed.

(** A request of two arguments cut between them. *)
Definition first_half : list ascii := header 2 ++ print_item (bs "get").
Definition second_half : list ascii := print_item (bs "key").

Lemma TryParse_partial_witness :
  exists c, TryParseFromBuffer (mkBuffer (first_half ++ [NUL]) 0 13) cache_Clear false =
      Some (mkParsed false false (mkBuffer (first_half ++ [NUL]) 0 13) c) /\
    (c = cache_Clear \/
     exists l1 l2, [bs "get"; bs "key"] = l1 ++ l2 /\ l2 <> [] /\
       first_half = header 2 ++ concat (print_item <$> l1) /\ c = mkCache false 2 l1).
Proof.
  apply (TryParse_partial _ [bs "get"; bs "key"] first_half second_half).
  - exists [], 1%nat. vm_compute. repeat split; congruence.
  - by vm_compute.
  - by vm_compute.
  - done.
  - vm_compute. lia.
  - vm_compute. congruence.
Defined.

(** After a cut between two arguments the request is lost for this round:
    when the missing bytes arrive, the parser meets the arguments left in the
    cache, counts too many, and returns without executing the (now complete)
    request and without an error; it stays in the buffer until still more bytes
    arrive. *)
Lemma TryParse_boundary_stalls (b1 b2 : Buffer) (l1 l2 : list (list ascii)) (e : bool) :
  buf_repr b1 (header (length (l1 ++ l2)) ++ concat (print_item <$> l1)) ->
  buf_repr b2 (ToProtocolString (request (l1 ++ l2))) ->
  0 < WritableBytes b1 -> l1 <> [] -> l2 <> [] ->
  exists c, TryParseFromBuffer b1 cache_Clear e = Some (mkParsed false e b1 c) /\
    TryParseFromBuffer b2 c e = Some (mkParsed false e b2 cache_Clear) /\
    ToProtocolString (request (l1 ++ l2)) =
      (header (length (l1 ++ l2)) ++ concat (print_item <$> l1)) ++ concat (print_item <$> l2).
Proof.
  intros Hb1 Hb2 Hw Hl1 Hl2. rewrite ToProtocolString_request, fmap_app, concat_app in *.
  set (args := l1 ++ l2) in *. set (P := concat (print_item <$> l1)) in *.
  pose proof (buf_repr_bound _ _ Hb2) as Hbd2. pose proof (length_items l1). pose proof (length_items l2).
  assert (length args = length l1 + length l2)%nat as Hla by apply length_app.
  pose proof (length_pos _ Hl1). pose proof (length_pos _ Hl2). fold P in H.
  assert (Z.of_nat (length args) <= INT64_MAX) as Hn by (rewrite !length_app in Hbd2; lia).
  exists (mkCache false (Z.of_nat (length args)) l1). split_and!; [| |by rewrite app_assoc].
  - assert (header (length args) ++ P = "*"%char :: to_string (Z.of_nat (length args)) ++ CRLF ++ P)
      as HR by (unfold header; cbn; by rewrite <- app_assoc).
    destruct (TryParse_header b1 _ cache_Clear e _ _ Hb1 HR Hn) as [Hd ->].
    set (f := S (length _)).
    replace f with (length l1 + S (f - S (length l1)))%nat
      by (unfold f; rewrite length_app; lia).
    rewrite (parse_args_skip b1 _ e l1 Hb1 _ _ _ _ []); [|lia|by rewrite app_nil_r|lia].
    cbn [parse_args]. case_if; [lia|]. rewrite (buf_repr_readable _ _ Hb1), HR. fold P.
    cbn [length]. rewrite !length_app. change (length CRLF) with 2%nat.
    case_if; [done|lia].
  - assert (header (length args) ++ P ++ concat (print_item <$> l2) =
            "*"%char :: to_string (Z.of_nat (length args)) ++ CRLF ++ concat (print_item <$> args) ++ [])
      as HR by (unfold header, args; cbn; by rewrite app_nil_r, fmap_app, concat_app, <- !app_assoc).
    destruct (TryParse_header b2 _ (mkCache false (Z.of_nat (length args)) l1) e _ _ Hb2 HR Hn) as [Hd ->].
    rewrite (parse_args_all b2 _ e args _ _ _ [] Hb2); [|lia|done|].
    2:{ rewrite !length_app. lia. }
    cbn [mbind option_bind inited argc argv].
    destruct (Z.eqb_spec (Z.of_nat (length args)) (Z.of_nat (length (l1 ++ args)))); [|done].
    rewrite length_app in *. lia.
Qed.

Lemma TryParse_boundary_stalls_witness :
  exists c, TryParseFromBuffer (mkBuffer (first_half ++ [NUL]) 0 13) cache_Clear false =
      Some (mkParsed false false (mkBuffer (first_half ++ [NUL]) 0 13) c) /\
    TryParseFromBuffer (mkBuffer (first_half ++ second_half) 0 22) c false =
      Some (mkParsed false false (mkBuffer (first_half ++ second_half) 0 22) cache_Clear) /\
    ToProtocolString (request [bs "get"; bs "key"]) = first_half ++ second_half.
Proof.
  apply (TryParse_boundary_stalls _ _ [bs "get"] [bs "key"]).
  - exists [], 1%nat. vm_compute. repeat split; congruence.
  - exists [], O. vm_compute. repeat split; congruence.
  - by vm_compute.
  - done.
  - done.
Defined.

(** ** Arbitrary bytes *)

Lemma count_while_nul p s t : p NUL = false ->
  (count_while p (s ++ NUL :: t) <= length s)%nat.
Proof. intros Hp. induction s as [|c s IH]; cbn; [by rewrite Hp|]. destruct (p c); lia. Qed.

(** A number scan stops at a zero byte. *)
Lemma scan_number_nul s t : (sc_end (scan_number (s ++ NUL :: t)) <= length s)%nat.
Proof.
  unfold scan_number. set (sp := count_while is_space _).
  pose proof (count_while_nul is_space s t eq_refl) as Hsp. fold sp in Hsp.
  rewrite drop_app_le by done. destruct (drop sp s) as [|c s'] eqn:Hs.
  - cbn. change (is_digit NUL) with false. cbn. lia.
  - assert (length s = sp + S (length s'))%nat as HL.
    { apply (f_equal length) in Hs. rewrite length_drop in Hs. cbn in Hs. lia. }
    cbn [app]. set (x := match c :: s' ++ NUL :: t with
              | "-"%char :: _ => (true, 1%nat) | "+"%char :: _ => (false, 1%nat) | _ => (false, O) end).
    assert (x = (true, 1%nat) \/ x = (false, 1%nat) \/ x = (false, O)) as Hx.
    { unfold x. destruct c as [[] [] [] [] [] [] [] []]; tauto. }
    destruct Hx as [->|[->| ->]]; cbn [sc_end drop]; rewrite ?drop_0.
    + pose proof (count_while_nul is_digit s' t eq_refl). lia.
    + pose proof (count_while_nul is_digit s' t eq_refl). lia.
    + pose proof (count_while_nul is_digit (c :: s') t eq_refl) as Hd. cbn [app length] in Hd. lia.
Qed.

Lemma strtoll_end mem v n x : strtoll mem = (v, n, x) -> (n <= sc_end (scan_number mem))%nat.
Proof. unfold strtoll. repeat case_if; intros [= <- <- <-]; lia. Qed.

Lemma ReadLongFrom_total b R i : buf_repr b R -> 0 < WritableBytes b -> 0 <= i ->
  exists v n, ReadLongFrom b i = Some (v, n) /\ 0 <= n /\ in_i64 v /\
    (n <> 0 -> i + n <= Z.of_nat (length R)).
Proof.
  intros Hb Hw Hi. destruct (decide (Z.of_nat (length R) <= i)) as [Hge|Hlt].
  { rewrite (ReadLongFrom_end _ _ _ Hb Hge). exists 0, 0.
    split_and!; [done..|lia|unfold in_i64, INT64_MIN, INT64_MAX; lia|lia]. }
  pose proof Hb as (pre & k & Hp). pose proof (buf_parts_sizes _ _ _ _ Hp) as (_ & HR & HW & _ & _).
  unfold ReadLongFrom. rewrite HR. destruct (Z.geb_spec i (Z.of_nat (length R))); [lia|].
  rewrite (block_from_repr _ _ _ _ _ Hp) by lia.
  destruct k as [|k]; [lia|]. cbn [replicate]. set (s := drop (Z.to_nat i) R).
  assert (length s = length R - Z.to_nat i)%nat as Hs by apply length_drop.
  pose proof (scan_number_nul s (replicate k NUL)) as Hsc.
  unfold strtoll_mem. rewrite decide_True by (rewrite length_app; cbn; lia).
  destruct (strtoll _) as [[v n] x] eqn:E. cbn. exists v, (Z.of_nat n).
  pose proof (strtoll_end _ _ _ _ E). split_and!; [done|lia|by eapply strtoll_range|lia].
Qed.

Lemma read_crlf_bound b R i s : buf_repr b R -> 0 <= i ->
  ReadStdStringFrom b i 2 = Some s -> s = CRLF -> i + 2 <= Z.of_nat (length R).
Proof.
  intros Hb Hi E ->. rewrite (ReadStdStringFrom_repr _ R) in E by (done || lia).
  injection E as E. apply (f_equal length) in E. rewrite length_take, length_drop in E.
  change (length CRLF) with 2%nat in E. lia.
Qed.

(** From any position the loop ends with an early return that keeps the buffer
    and has result [false], or past the last argument. *)
Definition args_done (b : Buffer) (R : list ascii) (i : Z) (res : parsed + CommandCache * Z) : Prop :=
  match res with
  | inl p => pbuf p = b /\ ret p = false
  | inr (_, j) => i <= j <= Z.of_nat (length R)
  end.

Lemma reject_done b R i e x : exists res, reject b e x = Some res /\ args_done b R i res.
Proof. eexists. by split. Qed.

Lemma parse_args_total b R e : buf_repr b R -> 0 < WritableBytes b ->
  forall fuel cache i n, 0 <= i <= Z.of_nat (length R) -> Z.of_nat (length R) - i < Z.of_nat fuel ->
  exists res, parse_args fuel b cache e i n = Some res /\ args_done b R i res.
Proof.
  intros Hb Hw. pose proof (buf_repr_bound _ _ Hb) as Hbd. unfold INT64_MAX in Hbd.
  induction fuel as [|fuel IH]; intros cache i n Hi Hf; [lia|]. cbn [parse_args].
  case_if; [eexists; split; [done|cbn; lia]|]. rewrite (buf_repr_readable _ _ Hb).
  destruct (Z.geb_spec i (Z.of_nat (length R))); [by eexists; split|].
  rewrite (ReadableCharacterAt_repr _ _ _ Hb) by lia.
  destruct (lookup_lt_is_Some_2 R (Z.to_nat i) ltac:(lia)) as [c ->]. cbn [mbind option_bind].
  destruct (negb _); [apply reject_done|]. u64s.
  destruct (ReadLongFrom_total b R (i + 1) Hb Hw ltac:(lia)) as (v & st & -> & Hst & Hv & Hbound).
  cbn [mbind option_bind]. destruct (Z.eqb_spec st 0); [apply reject_done|].
  specialize (Hbound ltac:(done)). u64s.
  destruct (ReadStdStringFrom b (i + 1 + st) 2) as [s|] eqn:E1;
    [|rewrite (ReadStdStringFrom_repr _ R) in E1 by (done || lia); done].
  cbn [mbind option_bind]. case_bool_decide as Hs; [apply reject_done|].
  apply (read_crlf_bound b R) in E1; [|done|lia|done]. u64s.
  pose proof (u64_range v) as Hu. unfold in_u64 in Hu.
  rewrite (ReadStdStringFrom_repr b R (i + 1 + st + 2)) by (done || lia). cbn [mbind option_bind].
  set (arg := take _ _). destruct (Z.eqb_spec (Z.of_nat (length arg)) (u64 v)) as [Ea|]; [|apply reject_done].
  cbn [negb].
  assert (0 <= v /\ i + 1 + st + 2 + v <= Z.of_nat (length R)) as [Hv0 Hvl].
  { assert (Z.of_nat (length arg) <= Z.of_nat (length R) - (i + 1 + st + 2))
      by (unfold arg; rewrite length_take, length_drop; lia).
    unfold in_i64, INT64_MIN, INT64_MAX in Hv. destruct (Z.le_gt_cases 0 v).
    - rewrite u64_small in Ea by (unfold in_u64, UINT64_MAX; lia). lia.
    - exfalso. unfold u64, uwrap in Ea. rewrite <- (Z.mod_add v 1 (2 ^ 64)), Z.mod_small in Ea by lia. lia. }
  u64s.
  destruct (ReadStdStringFrom b (i + 1 + st + 2 + v) 2) as [s2|] eqn:E2;
    [|rewrite (ReadStdStringFrom_repr _ R) in E2 by (done || lia); done].
  cbn [mbind option_bind]. case_bool_decide as Hs2; [apply reject_done|].
  apply (read_crlf_bound b R) in E2; [|done|lia|done]. u64s.
  destruct (IH (mkCache (inited cache) (argc cache) (argv cache ++ [arg]))
              (i + 1 + st + 2 + v + 2) (n - 1)) as (res & -> & Hres); [lia..|].
  exists res. split; [done|]. destruct res as [?|[? j]]; cbn in *; [done|lia].
Qed.

(** What every call guarantees of the buffer that held [R]. *)
Definition parse_outcome (R : list ascii) (p : parsed) : Prop :=
  exists k, buf_repr (pbuf p) (drop k R) /\
    (ret p = true -> (4 <= k <= length R)%nat /\ inited (pcache p) = true /\
       argc (pcache p) = Z.of_nat (length (argv (pcache p)))).

(** C16. The parser on arbitrary bytes, whatever a client sends and whatever the
    cache holds: as long as the block has a spare byte, it reads nothing outside
    the block and terminates; the unread bytes are left, dropped or, on success,
    shortened by at least four bytes, and a successful call delivers a cache
    whose [argc] is the number of arguments. *)
Theorem TryParse_total (b : Buffer) (R : list ascii) (cache : CommandCache) (e : bool) :
  buf_repr b R -> 0 < WritableBytes b ->
  exists p, TryParseFromBuffer b cache e = Some p /\ parse_outcome R p.
Proof.
  intros Hb Hw. pose proof (buf_repr_bound _ _ Hb) as Hbd. unfold INT64_MAX in Hbd.
  assert (forall e' c, exists p, Some (mkParsed false e' b c) = Some p /\ parse_outcome R p) as Hkeep.
  { intros e' c. eexists. split; [done|]. by exists O. }
  unfold TryParseFromBuffer. rewrite (buf_repr_readable _ _ Hb).
  destruct (Z.leb_spec (Z.of_nat (length R)) 0); [apply Hkeep|].
  rewrite (ReadStdString_repr _ R) by (done || lia). rewrite decide_True by lia. cbn [mbind option_bind].
  case_bool_decide.
  { eexists. split; [done|]. exists (length R). rewrite drop_all. split; [by eapply buf_Reset_repr|done]. }
  destruct (ReadLongFrom_total b R 1 Hb Hw ltac:(lia)) as (v & st & -> & Hst & Hv & Hbound).
  cbn [mbind option_bind]. destruct (Z.eqb_spec st 0); [apply Hkeep|].
  specialize (Hbound ltac:(done)). u64s.
  destruct (ReadStdStringFrom b (1 + st) 2) as [s|] eqn:E1;
    [|rewrite (ReadStdStringFrom_repr _ R) in E1 by (done || lia); done].
  cbn [mbind option_bind]. case_bool_decide as Hs; [apply Hkeep|].
  apply (read_crlf_bound b R) in E1; [|done|lia|done]. u64s. rewrite Nat2Z.id.
  destruct (parse_args_total b R e Hb Hw (S (length R))
              (mkCache (inited cache) (u64 v) (argv cache)) (1 + st + 2) v) as (res & -> & Hres); [lia..|].
  cbn [mbind option_bind]. destruct res as [p|[c j]]; cbn in Hres.
  - destruct Hres as [<- Hret]. eexists. split; [done|]. exists O. by rewrite Hret.
  - cbn [argc argv]. destruct (Z.eqb_spec (argc c) (Z.of_nat (length (argv c)))); [|apply Hkeep].
    eexists. split; [done|]. exists (Z.to_nat j). split; [apply ReaderIdxForward_repr; [done|lia]|].
    intros _. cbn. split_and!; [lia|lia|done..].
Qed.

Lemma TryParse_total_witness :
  exists p, TryParseFromBuffer (mkBuffer (bs "*2junk" ++ [NUL]) 0 6) cache_Clear false = Some p /\
    parse_outcome (bs "*2junk") p.
Proof.
  apply TryParse_total; [|by vm_compute].
  exists [], 1%nat. vm_compute. repeat split; congruence.
Defined.
