(* ===== verification/Server.v ===== *)
(** * Server: sessions and their I/O (src/net/server.cpp, Session of net.h, the
    read and write loops of net/utils.cpp)

    The answers of the kernel to [read] and [send] are inputs of the model; the
    command engine is a parameter ([HandleCommand]), and the theorems about the
    read handler are proved for every engine. *)

From S2P Require Import Prelude Numerals Str Buffer Protocol.

Local Open Scope Z_scope.

(** ** Socket loops *)

(** What [read] answers: some bytes, [0], or [-1] with [EINTR] or another error. *)
Inductive read_answer := RdData (s : list ascii) | RdClosed | RdEintr | RdAgain.

(** [ReadToBuf]: [bytes_read] is the last answer of the kernel and the offset the
    next one is stored at. A list of answers that ends early ends in [EAGAIN]. An
    answer longer than what was asked for is not a kernel answer; no bytes are the
    answer [0]. *)
Fixpoint read_to_buf (answers : list read_answer) (buf : list ascii)
    (bytes_read total_read len : Z) : option (Z * list ascii) :=
  if total_read <? len then
    match answers with
    | [] => Some (total_read, buf)
    | RdData [] :: _ | RdClosed :: _ => Some (total_read, buf)
    | RdData s :: answers =>
        if Z.of_nat (length s) >? len - total_read then None
        else
          buf ← mem_write buf bytes_read s;
          read_to_buf answers buf (Z.of_nat (length s)) (total_read + Z.of_nat (length s)) len
    | RdEintr :: answers => read_to_buf answers buf (-1) total_read len
    | RdAgain :: _ => Some (total_read, buf)
    end
  else Some (total_read, buf).

Definition ReadToBuf (answers : list read_answer) (len : Z) : option (Z * list ascii) :=
  read_to_buf answers (replicate (Z.to_nat len) NUL) 0 0 len.

(** What [send] answers: how many bytes it took, or an error. *)
Inductive send_answer := SdSent (n : Z) | SdEintr | SdAgain.

(** [WriteFromBuf]: the result and the bytes put on the wire. *)
Fixpoint write_from_buf (answers : list send_answer) (buf : list ascii)
    (bytes_written total_written len : Z) (wire : list ascii) : option (Z * list ascii) :=
  if total_written <? len then
    match answers with
    | [] => Some (total_written, wire)
    | SdSent n :: answers =>
        if (n <? 0) || (n >? len - total_written) then None
        else
          sent ← mem_read buf bytes_written n;
          write_from_buf answers buf n (total_written + n) len (wire ++ sent)
    | SdEintr :: answers => write_from_buf answers buf (-1) total_written len wire
    | SdAgain :: _ => Some (total_written, wire)
    end
  else Some (total_written, wire).

Definition WriteFromBuf (answers : list send_answer) (buf : list ascii) (len : Z)
    : option (Z * list ascii) :=
  write_from_buf answers buf 0 0 len [].

(** ** Sessions *)

Definition EPOLLIN : Z := 1.
Definition EPOLLOUT : Z := 4.
Definition NET_READ_BUF_SIZE : Z := 1024 * 64.

Definition SESSION_MODE_REGULAR : Z := 1.
Definition SESSION_MODE_PUBSUB : Z := 2.

Record Session := mkSession {
  read_buf : Buffer;
  write_buf : Buffer;
  cache : CommandCache;
  mask : Z;
  watched : bool;
  subscribed_channels : list (list ascii);   (* a set, in its order of iteration *)
  modes : Z
}.

Definition set_read_buf (b : Buffer) (s : Session) : Session :=
  mkSession b (write_buf s) (cache s) (mask s) (watched s) (subscribed_channels s) (modes s).
Definition set_write_buf (b : Buffer) (s : Session) : Session :=
  mkSession (read_buf s) b (cache s) (mask s) (watched s) (subscribed_channels s) (modes s).
Definition set_cache (c : CommandCache) (s : Session) : Session :=
  mkSession (read_buf s) (write_buf s) c (mask s) (watched s) (subscribed_channels s) (modes s).
Definition set_mask (m : Z) (s : Session) : Session :=
  mkSession (read_buf s) (write_buf s) (cache s) m (watched s) (subscribed_channels s) (modes s).
Definition set_watched (w : bool) (s : Session) : Session :=
  mkSession (read_buf s) (write_buf s) (cache s) (mask s) w (subscribed_channels s) (modes s).

Definition set_channels (l : list (list ascii)) (s : Session) : Session :=
  mkSession (read_buf s) (write_buf s) (cache s) (mask s) (watched s) l (modes s).
Definition set_modes (m : Z) (s : Session) : Session :=
  mkSession (read_buf s) (write_buf s) (cache s) (mask s) (watched s) (subscribed_channels s) m.

Definition SetPubSubMode (s : Session) : Session := set_modes (Z.lor (modes s) SESSION_MODE_PUBSUB) s.
Definition UnsetPubSubMode (s : Session) : Session := set_modes (Z.ldiff (modes s) SESSION_MODE_PUBSUB) s.

Definition SetRead (s : Session) : Session := set_mask EPOLLIN s.
Definition SetWrite (s : Session) : Session := set_mask (Z.lor (mask s) EPOLLOUT) s.

(** A session is known by its name; [interest] is what the kernel watches. *)
Record Server := mkServer {
  sessions_ : gmap (list ascii) Session;
  subscription_sessions_ : gmap (list ascii) (list (list ascii));
  interest : gmap (list ascii) Z
}.

Definition put_session (sv : Server) (name : list ascii) (s : Session) : Server :=
  mkServer (<[name := s]> (sessions_ sv)) (subscription_sessions_ sv) (interest sv).

(** [Epoller::AttachSession] with a kernel that accepts the request; it is also
    [ModifySession]. *)
Definition AttachSession (sv : Server) (name : list ascii) (s : Session) : Server :=
  mkServer (<[name := set_watched true s]> (sessions_ sv)) (subscription_sessions_ sv)
    (<[name := mask s]> (interest sv)).

Definition ModifySession := AttachSession.

(** ** Subscriptions *)

Definition AddSessionToSubscription (sv : Server) (chan name : list ascii) : bool * Server :=
  if decide (is_Some (sessions_ sv !! name)) then
    (true, mkServer (sessions_ sv)
             (<[chan := default [] (subscription_sessions_ sv !! chan) ++ [name]]>
                (subscription_sessions_ sv)) (interest sv))
  else (false, sv).

Definition RemoveSessionFromSubscription (sv : Server) (chan name : list ascii) : Server :=
  mkServer (sessions_ sv)
    (<[chan := filter (λ n, n <> name) (default [] (subscription_sessions_ sv !! chan))]>
       (subscription_sessions_ sv)) (interest sv).

Definition HasSubscriptionChannel (sv : Server) (chan : list ascii) : bool :=
  bool_decide (is_Some (subscription_sessions_ sv !! chan)).

(** Closing a descriptor takes it out of the kernel's interest list; erasing the
    session drops it from the map. *)
Definition drop_session (sv : Server) (name : list ascii) : Server :=
  mkServer (delete name (sessions_ sv)) (subscription_sessions_ sv) (delete name (interest sv)).

(** ** Handlers *)

Definition FillErrorMsg (b : Buffer) (errtype msg : list ascii) : option Buffer :=
  buf_Append_std b (bs "-" ++ errtype ++ bs " " ++ msg ++ CRLF).

Definition unidentified : list ascii := bs "unidentified request" ++ CRLF.

Definition AuxiliaryReadProcParseErrorHandling (sv : Server) (name : list ascii) : option Server :=
  s ← sessions_ sv !! name;
  wb ← FillErrorMsg (write_buf s) (bs "WRONGREQ") unidentified;
  Some (ModifySession sv name (SetWrite (set_write_buf wb s))).

Section Handlers.

Context {E : Type}.
(** The engine: it gets the parsed command and may change the sessions (the
    publish and subscribe commands do). *)
Variable HandleCommand : E -> Server -> list ascii -> CommandCache -> option (E * Server * list ascii).

(** [while (TryParseFromBuffer(buffer, cache, err) && !err)]. *)
Fixpoint read_loop (fuel : nat) (e : E) (sv : Server) (name : list ascii) (er : bool)
    : option (E * Server * bool) :=
  match fuel with
  | O => None
  | S fuel =>
      s ← sessions_ sv !! name;
      p ← TryParseFromBuffer (read_buf s) (cache s) er;
      let sv := put_session sv name (set_cache (pcache p) (set_read_buf (pbuf p) s)) in
      if ret p && negb (err p) then
        '(e, sv, handle_result) ← HandleCommand e sv name (pcache p);
        s ← sessions_ sv !! name;
        wb ← buf_Append_std (write_buf s) handle_result;
        read_loop fuel e (put_session sv name (set_cache cache_Clear (set_write_buf wb s))) name (err p)
      else Some (e, sv, err p)
  end.

(** [ReadProc] once [ReadToBuf] has stored [nbytes] bytes in [buf]. A successful parse
    consumes bytes, so their number bounds the rounds. *)
Definition ReadProc_bytes (e : E) (sv : Server) (name buf : list ascii) (nbytes : Z) : option (E * Server * bool) :=
  s ← sessions_ sv !! name;
  rb ← buf_Append (read_buf s) buf nbytes;
  let sv := put_session sv name (set_read_buf rb s) in
  '(e, sv, er) ← read_loop (S (Z.to_nat (ReadableBytes rb))) e sv name false;
  s ← sessions_ sv !! name;
  let sv := ModifySession sv name (SetWrite s) in
  if er : bool then
    sv ← AuxiliaryReadProcParseErrorHandling sv name;
    Some (e, sv, false)
  else Some (e, sv, false).

(** [ReadProc], with the answers of the kernel to its reads. *)
Definition ReadProc (e : E) (sv : Server) (name : list ascii) (answers : list read_answer) : option (E * Server * bool) :=
  s ← sessions_ sv !! name;
  '(nbytes, buf) ← ReadToBuf answers NET_READ_BUF_SIZE;
  if nbytes =? 0 then
    let sv := foldl (λ sv chan, RemoveSessionFromSubscription sv chan name) sv (subscribed_channels s) in
    Some (e, drop_session sv name, true)
  else ReadProc_bytes e sv name buf nbytes.

End Handlers.

(** [WriteProc]: the server, [closed] and the bytes sent. *)
Definition WriteProc (sv : Server) (name : list ascii) (answers : list send_answer)
    : option (Server * bool * list ascii) :=
  s ← sessions_ sv !! name;
  let buffer := write_buf s in
  if ReadableBytes buffer <=? 0 then Some (ModifySession sv name (SetRead s), false, [])
  else
    let readable_bytes := ReadableBytes buffer in
    '(nbytes, wire) ← WriteFromBuf answers (drop (Z.to_nat (p_reader_ buffer)) (data_ buffer)) (i32 readable_bytes);
    let '(sv, s) :=
      if u64 nbytes >? 0 then
        if u64 nbytes =? readable_bytes then
          let s := SetRead s in
          (ModifySession sv name s, set_write_buf (buf_Reset buffer) (set_watched true s))
        else (sv, set_write_buf (ReaderIdxForward buffer (u64 nbytes)) s)
      else (sv, s) in
    let sv := put_session sv name s in
    if (nbytes =? 0) && negb (ReadableBytes (write_buf s) =? 0)
    then Some (drop_session sv name, true, wire)
    else Some (sv, false, wire).

(** ** Theorems: the socket loops *)

Lemma mem_write_fresh (n : nat) (s : list ascii) (k : nat) : (length s <= k)%nat ->
  forall done, length done = n ->
  mem_write (done ++ replicate k NUL) (Z.of_nat n) s = Some (done ++ s ++ replicate (k - length s) NUL).
Proof.
  intros Hs done <-. replace k with (length s + (k - length s))%nat at 1 by lia.
  rewrite replicate_add. apply mem_write_app, length_replicate.
Qed.

(** The kernel has no more. *)
Definition stops (answers : list read_answer) : bool :=
  match answers with [] | RdClosed :: _ | RdAgain :: _ => true | _ => false end.

Lemma read_stops rest buf off total len : stops rest = true -> read_to_buf rest buf off total len = Some (total, buf).
Proof. intros H. destruct rest as [|[] rest]; try done; cbn [read_to_buf]; by case_if. Qed.

(** A piece of at least one byte. *)
Lemma read_piece s answers buf off total len : s <> [] -> total + Z.of_nat (length s) <= len ->
  read_to_buf (RdData s :: answers) buf off total len =
  (buf ← mem_write buf off s; read_to_buf answers buf (Z.of_nat (length s)) (total + Z.of_nat (length s)) len).
Proof.
  intros Hs Hl. pose proof (length_pos _ Hs). cbn [read_to_buf]. destruct (Z.ltb_spec total len); [|lia].
  destruct s as [|c s]; [done|]. by destruct (Z.gtb_spec (Z.of_nat (length (c :: s))) (len - total)); [lia|].
Qed.

(** The first piece, and the first two. *)
Lemma read_one s rest (len : nat) : s <> [] -> (length s <= len)%nat ->
  ReadToBuf (RdData s :: rest) (Z.of_nat len) =
  read_to_buf rest (s ++ replicate (len - length s) NUL) (Z.of_nat (length s)) (Z.of_nat (length s)) (Z.of_nat len).
Proof.
  intros Hs Hlen. unfold ReadToBuf. rewrite Nat2Z.id, read_piece by (done || lia).
  pose proof (mem_write_fresh 0 s len ltac:(lia) [] eq_refl) as W. change (Z.of_nat 0) with 0 in W. cbn [app] in W. by rewrite W.
Qed.

Lemma read_two s1 s2 rest (len : nat) : s1 <> [] -> s2 <> [] -> (length s1 + length s2 <= len)%nat ->
  ReadToBuf (RdData s1 :: RdData s2 :: rest) (Z.of_nat len) =
  read_to_buf rest (s1 ++ s2 ++ replicate (len - length s1 - length s2) NUL)
    (Z.of_nat (length s2)) (Z.of_nat (length s1 + length s2)) (Z.of_nat len).
Proof.
  intros H1 H2 Hlen. rewrite read_one, read_piece by (done || lia).
  rewrite (mem_write_fresh (length s1) s2 (len - length s1)) by (done || lia). cbn [mbind option_bind]. f_equal. lia.
Qed.

(** [ReadToBuf] stores what the socket delivers, in order, when the kernel
    delivers it in one or two pieces before it has no more. *)
Lemma ReadToBuf_two_pieces (s1 s2 : list ascii) (len : nat) :
  s1 <> [] -> s2 <> [] -> (length s1 + length s2 < len)%nat ->
  ReadToBuf [RdData s1; RdData s2; RdAgain] (Z.of_nat len) =
  Some (Z.of_nat (length s1 + length s2),
        s1 ++ s2 ++ replicate (len - length s1 - length s2) NUL).
Proof.
  intros H1 H2 Hlen. rewrite read_two by (done || lia). cbn [read_to_buf]. by case_if.
Qed.

Lemma ReadToBuf_two_pieces_witness :
  ReadToBuf [RdData (bs "ab"); RdData (bs "cde"); RdAgain] (Z.of_nat 8) =
  Some (5, bs "abcde" ++ replicate 3 NUL).
Proof. apply (ReadToBuf_two_pieces (bs "ab") (bs "cde") 8); [done..|cbn; lia]. Defined.

(** With a third piece it does not: the offset of a piece is the length of
    the previous piece instead of the total, so the third piece overwrites the
    first bytes and the last byte of the reported length is never written (it
    is the zero of [memset]), whatever the socket delivered. *)
Lemma ReadToBuf_third_piece_misplaced (s1 s2 s3 : list ascii) (len : nat) :
  s1 <> [] -> s2 <> [] -> s3 <> [] -> (length s1 + length s2 + length s3 < len)%nat ->
  exists buf, ReadToBuf [RdData s1; RdData s2; RdData s3; RdAgain] (Z.of_nat len) =
      Some (Z.of_nat (length s1 + length s2 + length s3), buf) /\
    buf !! (length s1 + length s2 + length s3 - 1)%nat = Some NUL.
Proof.
  intros H1 H2 H3 Hlen. pose proof (length_pos _ H1). pose proof (length_pos _ H3).
  rewrite read_two by (done || lia). set (tot := Z.of_nat (length s1 + length s2)).
  rewrite read_piece by (done || unfold tot; lia).
  set (m := s1 ++ s2 ++ _). assert (length m = len) as Hm
    by (unfold m; rewrite !length_app, length_replicate; lia).
  unfold mem_write. rewrite decide_True, Nat2Z.id by lia.
  rewrite memcpy_some by lia. cbn [mbind option_bind].
  eexists. split; [rewrite read_stops by done; do 2 f_equal; unfold tot; lia|].
  rewrite lookup_app_r by (rewrite length_take; lia). rewrite length_take, Hm.
  rewrite lookup_app_r by lia. rewrite lookup_drop. unfold m.
  rewrite lookup_app_r by lia. rewrite lookup_app_r by lia. apply lookup_replicate. split; [done|lia].
Qed.

Lemma ReadToBuf_third_piece_misplaced_witness :
  exists buf, ReadToBuf [RdData (bs "ab"); RdData (bs "c"); RdData (bs "de"); RdAgain] (Z.of_nat 8) =
    Some (5, buf) /\ buf !! 4%nat = Some NUL.
Proof. apply (ReadToBuf_third_piece_misplaced (bs "ab") (bs "c") (bs "de") 8); [done..|cbn; lia]. Defined.

(** The event's bytes come in one piece, or in two; more pieces are misplaced, see above. *)
Definition fills (p : list ascii) (rest : list read_answer) : option (list ascii) :=
  if (Z.of_nat (length p) <=? NET_READ_BUF_SIZE) && stops rest then Some p else None.

Definition delivered (answers : list read_answer) : option (list ascii) :=
  match answers with
  | RdData ((_ :: _) as s1) :: RdData ((_ :: _) as s2) :: rest => fills (s1 ++ s2) rest
  | RdData ((_ :: _) as s) :: rest => fills s rest
  | _ => None
  end.

Lemma fills_inv p rest q : fills p rest = Some q -> q = p /\ Z.of_nat (length p) <= NET_READ_BUF_SIZE /\ stops rest = true.
Proof.
  unfold fills. destruct (Z.leb_spec (Z.of_nat (length p)) NET_READ_BUF_SIZE); cbn [andb]; [|done].
  destruct (stops rest); [|done]. by intros [= ->].
Qed.

Lemma ReadToBuf_delivered answers p : delivered answers = Some p ->
  p <> [] /\ Z.of_nat (length p) <= NET_READ_BUF_SIZE /\
  exists k, ReadToBuf answers NET_READ_BUF_SIZE = Some (Z.of_nat (length p), p ++ replicate k NUL).
Proof.
  intros H. assert (NET_READ_BUF_SIZE = Z.of_nat (Z.to_nat NET_READ_BUF_SIZE)) as E by (unfold NET_READ_BUF_SIZE; lia).
  set (N := Z.to_nat NET_READ_BUF_SIZE) in *. clearbody N.
  assert (forall s rest, s <> [] -> fills s rest = Some p -> p <> [] /\ Z.of_nat (length p) <= NET_READ_BUF_SIZE /\
    exists k, ReadToBuf (RdData s :: rest) NET_READ_BUF_SIZE = Some (Z.of_nat (length p), p ++ replicate k NUL)) as H1.
  { intros s rest Hs Hf. apply fills_inv in Hf as (-> & Hl & Hst). split; [done|]. split; [done|].
    exists (N - length s)%nat. rewrite E, read_one by (done || lia). by apply read_stops. }
  destruct answers as [|[[|c1 s1]| | |] answers]; try done.
  destruct answers as [|[[|c2 s2]| | |] rest]; try (by apply H1). cbn [delivered] in H.
  apply fills_inv in H as (-> & Hl & Hst). split; [done|]. split; [done|]. rewrite length_app in Hl.
  exists (N - length (c1 :: s1) - length (c2 :: s2))%nat. rewrite E, read_two by (done || lia).
  rewrite <- app_assoc, length_app. by apply read_stops.
Qed.

(** ** Theorems: the read handler *)

Lemma buf_Append_prefix b p q : Z.of_nat (length p) <= INT64_MAX ->
  buf_Append b (p ++ q) (Z.of_nat (length p)) = buf_Append b p (Z.of_nat (length p)).
Proof.
  intros H. unfold buf_Append. rewrite u64_small by (unfold in_u64, UINT64_MAX, INT64_MAX in *; lia).
  destruct (EnsureBytesForWrite b _) as [b1|]; [|done]. cbn [mbind option_bind]. unfold mem_read.
  rewrite !decide_True by (rewrite ?length_app; lia). cbn [Z.to_nat]. rewrite Nat2Z.id, !drop_0, take_app_length.
  by rewrite firstn_all.
Qed.

(** What was delivered is what the handler works on. *)
Lemma ReadProc_delivered {E} H (e : E) sv name answers p : delivered answers = Some p ->
  ReadProc H e sv name answers = ReadProc_bytes H e sv name p (Z.of_nat (length p)).
Proof.
  intros Hd. destruct (ReadToBuf_delivered answers p Hd) as (Hne & Hl & k & Er). pose proof (length_pos _ Hne).
  unfold ReadProc, ReadProc_bytes. destruct (sessions_ sv !! name) as [s|]; [|done]. cbn [mbind option_bind].
  rewrite Er. cbn [mbind option_bind]. destruct (Z.eqb_spec (Z.of_nat (length p)) 0); [lia|].
  rewrite buf_Append_prefix by (unfold NET_READ_BUF_SIZE, INT64_MAX in *; lia). done.
Qed.

(** Nothing could be read. *)
Lemma ReadProc_hangup {E} H (e : E) sv name answers s : stops answers = true -> sessions_ sv !! name = Some s ->
  ReadProc H e sv name answers =
    Some (e, drop_session (foldl (λ sv chan, RemoveSessionFromSubscription sv chan name) sv (subscribed_channels s)) name, true).
Proof. intros Hst Hs. unfold ReadProc, ReadToBuf. rewrite Hs, read_stops by done. done. Qed.


Definition wire_of (cmds : list (list (list ascii))) : list ascii :=
  concat ((λ args, ToProtocolString (request args)) <$> cmds).

Lemma wire_of_length cmds : (length cmds <= length (wire_of cmds))%nat.
Proof.
  unfold wire_of. induction cmds as [|args cmds IH]; [done|]. cbn [fmap list_fmap concat length].
  rewrite length_app, ToProtocolString_request, length_app. unfold header. cbn [length]. lia.
Qed.

(** What a session holds between two events: unread bytes, unsent bytes and a
    clear cache. *)
Definition session_holds (s : Session) (R W : list ascii) : Prop :=
  buf_repr (read_buf s) R /\ buf_repr (write_buf s) W /\ cache s = cache_Clear.

Section Loop.

Context {E : Type}.
Variable HandleCommand : E -> Server -> list ascii -> CommandCache -> option (E * Server * list ascii).
Variable name : list ascii.

(** The commands executed one after the other by an engine that leaves the
    sessions alone: the last state and the replies. *)
Inductive runs : E -> list (list (list ascii)) -> E -> list (list ascii) -> Prop :=
  | runs_nil e : runs e [] e []
  | runs_cons e args e1 reply cmds e2 replies :
      (forall sv, HandleCommand e sv name (request args) = Some (e1, sv, reply)) ->
      runs e1 cmds e2 replies -> runs e (args :: cmds) e2 (reply :: replies).

Lemma read_loop_all e cmds e' replies : runs e cmds e' replies -> forall fuel sv s W,
  sessions_ sv !! name = Some s -> session_holds s (wire_of cmds) W ->
  buf_ops_ok (write_buf s) (BAppend <$> replies) -> (length cmds < fuel)%nat ->
  exists sv' s', read_loop HandleCommand fuel e sv name false = Some (e', sv', false) /\
    sv' = put_session sv name s' /\ session_holds s' [] (W ++ concat replies) /\ mask s' = mask s.
Proof.
  intros Hrun. induction Hrun as [e|e args e1 reply cmds e2 replies Hh Hrun IH];
    intros fuel sv s W Hs (Hr & Hwb & Hc) Hok Hf;
    (destruct fuel as [|fuel]; [lia|]); cbn [read_loop]; rewrite Hs; cbn [mbind option_bind].
  - unfold TryParseFromBuffer. rewrite (buf_repr_readable _ _ Hr). cbn.
    eexists _, _. split; [done|]. split; [done|]. rewrite app_nil_r. by destruct s.
  - rewrite Hc. destruct (TryParse_request (read_buf s) args (wire_of cmds) false) as (b' & -> & Hb');
      [exact Hr|].
    cbn [mbind option_bind ret err pbuf pcache andb negb]. rewrite Hh.
    cbn [mbind option_bind]. cbn [sessions_ put_session]. rewrite lookup_insert_eq.
    cbn [mbind option_bind write_buf set_cache set_read_buf].
    cbn [fmap list_fmap buf_ops_ok] in Hok. destruct Hok as [Hop Hok].
    destruct (buf_exec_refines (write_buf s) W (BAppend reply) Hwb Hop) as (wb & Ewb & Hwb').
    rewrite Ewb in Hok. cbn in Ewb. destruct (buf_Append_std (write_buf s) reply) as [wb'|]; [|done].
    injection Ewb as ->. cbn [mbind option_bind queue_step snd] in *.
    set (s1 := set_cache cache_Clear _).
    destruct (IH fuel (put_session (put_session sv name (set_cache (request args) (set_read_buf b' s))) name s1)
                s1 (W ++ reply)) as (sv' & s' & E' & -> & Hh' & Hm).
    + cbn. by rewrite lookup_insert_eq.
    + unfold s1. done.
    + done.
    + cbn in Hf. lia.
    + eexists _, s'. split; [exact E'|].
      split; [unfold put_session; cbn; by rewrite !insert_insert_eq|].
      split; [|done]. cbn [concat]. by rewrite app_assoc.
Qed.

Lemma ReadProc_runs e cmds e' replies sv s W : runs e cmds e' replies ->
  sessions_ sv !! name = Some s -> session_holds s [] W -> cmds <> [] ->
  buf_op_ok (read_buf s) (BAppend (wire_of cmds)) -> buf_ops_ok (write_buf s) (BAppend <$> replies) ->
  forall answers, delivered answers = Some (wire_of cmds) ->
  exists sv' s', ReadProc HandleCommand e sv name answers = Some (e', sv', false) /\
    sessions_ sv' = <[name := s']> (sessions_ sv) /\
    session_holds s' [] (W ++ concat replies) /\
    interest sv' !! name = Some (Z.lor (mask s) EPOLLOUT) /\
    subscription_sessions_ sv' = subscription_sessions_ sv.
Proof.
  intros Hrun Hs (Hr & Hw & Hc) Hne Hop Hok answers Hd. pose proof (wire_of_length cmds) as Hlen.
  rewrite (ReadProc_delivered _ _ _ _ _ _ Hd). unfold ReadProc_bytes. rewrite Hs. cbn [mbind option_bind].
  destruct (buf_exec_refines _ _ _ Hr Hop) as (rb & Erb & Hrb). cbn in Erb, Hrb.
  destruct Hop as (Hfit & _). unfold buf_Append_std, fits in *.
  rewrite i32_small in Erb by (unfold in_i32, INT32_MIN, INT32_MAX; lia).
  destruct (buf_Append _ _ _) as [rb'|]; [|done]. injection Erb as ->. cbn [mbind option_bind].
  destruct (read_loop_all e cmds e' replies Hrun (S (Z.to_nat (ReadableBytes rb)))
              (put_session sv name (set_read_buf rb s)) (set_read_buf rb s) W)
    as (sv' & s' & -> & -> & Hh & Hm).
  - cbn. by rewrite lookup_insert_eq.
  - done.
  - done.
  - rewrite (buf_repr_readable _ _ Hrb). lia.
  - cbn [mbind option_bind sessions_ put_session]. rewrite lookup_insert_eq. cbn [mbind option_bind].
    eexists _, _. split; [done|]. cbn. rewrite !insert_insert_eq, lookup_insert_eq, Hm.
    split; [done|]. split; [exact Hh|done].
Qed.

End Loop.

Section Pipeline.

Context {E : Type}.
Variable HandleCommand : E -> Server -> list ascii -> CommandCache -> option (E * Server * list ascii).
(** A command that works on the data only: it leaves the sessions alone. *)
Variable h : E -> list (list ascii) -> E * list ascii.
Hypothesis HandleCommand_h : forall e sv name args,
  HandleCommand e sv name (request args) = Some (fst (h e args), sv, snd (h e args)).

(** The commands executed in order: the last state and the replies. *)
Fixpoint run_commands (e : E) (cmds : list (list (list ascii))) : E * list (list ascii) :=
  match cmds with
  | [] => (e, [])
  | args :: cmds =>
      let '(e, reply) := h e args in
      let '(e, replies) := run_commands e cmds in
      (e, reply :: replies)
  end.

Lemma run_commands_runs name cmds : forall e,
  runs HandleCommand name e cmds (fst (run_commands e cmds)) (snd (run_commands e cmds)).
Proof.
  induction cmds as [|args cmds IH]; intros e; cbn [run_commands]; [constructor|].
  pose proof (λ sv, HandleCommand_h e sv name args) as Hh. destruct (h e args) as [e1 reply].
  specialize (IH e1). destruct (run_commands e1 cmds) as [e2 replies]. by econstructor.
Qed.

(** Pipelined requests: when the bytes that arrive on an idle connection, in one piece
    or two, are any number of complete requests, the read handler executes all of them, in
    order, on the engine, puts all their replies in order behind what is still
    to be sent, consumes all the bytes, asks for the write event, and leaves
    every other session and all subscriptions as they were. *)
Lemma ReadProc_pipelined (e : E) (sv : Server) (name : list ascii) (s : Session)
    (W : list ascii) (cmds : list (list (list ascii))) :
  sessions_ sv !! name = Some s -> session_holds s [] W -> cmds <> [] ->
  buf_op_ok (read_buf s) (BAppend (wire_of cmds)) ->
  buf_ops_ok (write_buf s) (BAppend <$> snd (run_commands e cmds)) ->
  forall answers, delivered answers = Some (wire_of cmds) ->
  exists sv' s', ReadProc HandleCommand e sv name answers =
      Some (fst (run_commands e cmds), sv', false) /\
    sessions_ sv' = <[name := s']> (sessions_ sv) /\
    session_holds s' [] (W ++ concat (snd (run_commands e cmds))) /\
    interest sv' !! name = Some (Z.lor (mask s) EPOLLOUT) /\
    subscription_sessions_ sv' = subscription_sessions_ sv.
Proof. intros. by apply (ReadProc_runs _ _ _ _ _ _ _ _ _ (run_commands_runs name cmds e)). Qed.

End Pipeline.

(** An engine that counts commands and echoes the first word. *)
Definition echo (n : nat) (args : list (list ascii)) : nat * list ascii :=
  (S n, bs "+" ++ default [] (args !! O) ++ CRLF).

Definition echo_command (n : nat) (sv : Server) (name : list ascii) (c : CommandCache)
    : option (nat * Server * list ascii) :=
  Some (fst (echo n (argv c)), sv, snd (echo n (argv c))).

Definition idle_session : Session :=
  mkSession (Buffer_new 64) (Buffer_new 64) cache_Clear EPOLLIN true [] SESSION_MODE_REGULAR.

Definition one_session : Server := mkServer {[ bs "c1" := idle_session ]} ∅ {[ bs "c1" := EPOLLIN ]}.

Lemma ReadProc_pipelined_witness :
  exists sv' s', ReadProc echo_command O one_session (bs "c1") [RdData (wire_of [[bs "ping"]]); RdData (wire_of [[bs "get"; bs "k"]])] =
      Some (2%nat, sv', false) /\
    sessions_ sv' = <[bs "c1" := s']> (sessions_ one_session) /\
    session_holds s' [] (bs "+ping" ++ CRLF ++ bs "+get" ++ CRLF) /\
    interest sv' !! bs "c1" = Some 5 /\
    subscription_sessions_ sv' = ∅.
Proof.
  apply (ReadProc_pipelined echo_command echo (λ _ _ _ _, eq_refl) O one_session (bs "c1") idle_session []
           [[bs "ping"]; [bs "get"; bs "k"]]).
  - by vm_compute.
  - split; [|split; [|done]]; apply Buffer_new_repr; unfold INT64_MAX; lia.
  - done.
  - vm_compute. intuition congruence.
  - vm_compute. intuition congruence.
  - reflexivity.
Defined.

(** End of stream, or an error: the read handler forgets the session. It is no longer
    among the sessions nor watched by the kernel, no channel it had subscribed
    to lists it any more, and the other sessions are untouched. *)
Lemma ReadProc_close {E : Type} HandleCommand (e : E) (sv : Server) (name : list ascii) (s : Session) (answers : list read_answer) :
  sessions_ sv !! name = Some s -> stops answers = true ->
  exists sv', ReadProc HandleCommand e sv name answers = Some (e, sv', true) /\
    sessions_ sv' = delete name (sessions_ sv) /\ interest sv' = delete name (interest sv) /\
    forall chan, chan ∈ subscribed_channels s ->
      name ∉ default [] (subscription_sessions_ sv' !! chan).
Proof.
  intros Hs Hst. rewrite (ReadProc_hangup _ e sv name answers s Hst Hs).
  eexists. split; [done|]. set (chans := subscribed_channels s). clearbody chans. clear Hs.
  revert sv. induction chans as [|c chans IH] using rev_ind; intros sv; cbn.
  { split; [done|]. split; [done|]. intros chan H. by apply not_elem_of_nil in H. }
  rewrite foldl_app. cbn. destruct (IH sv) as (IHs & IHi & IHc). cbn in *.
  split; [done|]. split; [done|]. intros chan Hin.
  destruct (decide (chan = c)) as [->|Hc].
  - rewrite lookup_insert_eq. cbn. rewrite list_elem_of_filter. tauto.
  - rewrite lookup_insert_ne by done. apply IHc. apply elem_of_app in Hin as [?|Hin]; [done|].
    apply list_elem_of_singleton in Hin. congruence.
Qed.

Definition subscribed_session : Session :=
  mkSession (Buffer_new 64) (Buffer_new 64) cache_Clear EPOLLIN true [bs "news"] SESSION_MODE_REGULAR.

Definition two_subscribers : Server :=
  mkServer {[ bs "c1" := subscribed_session ]} {[ bs "news" := [bs "c1"; bs "c2"] ]} {[ bs "c1" := EPOLLIN ]}.

Lemma ReadProc_close_witness :
  exists sv', ReadProc echo_command O two_subscribers (bs "c1") [RdClosed] = Some (O, sv', true) /\
    sessions_ sv' = delete (bs "c1") (sessions_ two_subscribers) /\
    interest sv' = delete (bs "c1") (interest two_subscribers) /\
    forall chan, chan ∈ subscribed_channels subscribed_session ->
      bs "c1" ∉ default [] (subscription_sessions_ sv' !! chan).
Proof. by apply (ReadProc_close echo_command O two_subscribers (bs "c1") subscribed_session [RdClosed]). Defined.

(** ** Theorems: the write handler *)

Lemma block_read b R n : buf_repr b R -> 0 <= n <= Z.of_nat (length R) ->
  mem_read (drop (Z.to_nat (p_reader_ b)) (data_ b)) 0 n = Some (take (Z.to_nat n) R).
Proof.
  intros (pre & k & (Hd & Hr & _ & _)) Hn. rewrite Hd, Hr, Nat2Z.id, drop_app_length.
  unfold mem_read. rewrite decide_True by (rewrite length_app; lia).
  cbn [drop Z.to_nat]. by rewrite drop_0, take_app_le by lia.
Qed.

Lemma WriteProc_some (sv : Server) (name : list ascii) (s : Session) (W : list ascii) (n : Z) :
  sessions_ sv !! name = Some s -> buf_repr (write_buf s) W ->
  0 < n <= Z.of_nat (length W) -> Z.of_nat (length W) <= INT32_MAX ->
  exists wb, buf_repr wb (drop (Z.to_nat n) W) /\
    WriteProc sv name [SdSent n; SdAgain] =
      Some (if decide (n = Z.of_nat (length W))
            then put_session (ModifySession sv name (SetRead s)) name (set_write_buf wb (set_watched true (SetRead s)))
            else put_session sv name (set_write_buf wb s), false, take (Z.to_nat n) W).
Proof.
  intros Hs Hb Hn Hm. unfold WriteProc. rewrite Hs. cbn [mbind option_bind].
  rewrite (buf_repr_readable _ _ Hb). destruct (Z.leb_spec (Z.of_nat (length W)) 0); [lia|].
  rewrite i32_small by (unfold in_i32, INT32_MIN, INT32_MAX in *; lia).
  assert (WriteFromBuf [SdSent n; SdAgain] (drop (Z.to_nat (p_reader_ (write_buf s))) (data_ (write_buf s)))
            (Z.of_nat (length W)) = Some (n, take (Z.to_nat n) W)) as ->.
  { unfold WriteFromBuf. cbn [write_from_buf]. destruct (Z.ltb_spec 0 (Z.of_nat (length W))); [|lia].
    destruct (Z.ltb_spec n 0); [lia|]. destruct (Z.gtb_spec n (Z.of_nat (length W) - 0)); [lia|].
    cbn [orb]. rewrite (block_read _ W) by (done || lia). cbn. by case_if. }
  cbn [mbind option_bind]. unfold INT32_MAX in *.
  rewrite u64_small by (unfold in_u64, UINT64_MAX; lia).
  destruct (Z.gtb_spec n 0); [|lia]. destruct (Z.eqb_spec n 0); [lia|].
  destruct (Z.eqb_spec n (Z.of_nat (length W))) as [->|Hne]; cbn [andb].
  - eexists. rewrite (decide_True (P := Z.of_nat (length W) = Z.of_nat (length W))) by done. split; [|done].
    rewrite Nat2Z.id, drop_all. by eapply buf_Reset_repr.
  - eexists. rewrite decide_False by done. split; [|done]. apply ReaderIdxForward_repr; [done|lia].
Qed.

(** The write handler, when the kernel takes [n] of the bytes to be sent:
    exactly the first [n] bytes go out and exactly the others stay; the write
    event is dropped if and only if nothing is left. *)
Lemma WriteProc_sends (sv : Server) (name : list ascii) (s : Session) (W : list ascii) (n : Z) :
  sessions_ sv !! name = Some s -> buf_repr (write_buf s) W ->
  0 < n <= Z.of_nat (length W) -> Z.of_nat (length W) <= INT32_MAX ->
  exists sv' s', WriteProc sv name [SdSent n; SdAgain] = Some (sv', false, take (Z.to_nat n) W) /\
    sessions_ sv' = <[name := s']> (sessions_ sv) /\
    buf_repr (write_buf s') (drop (Z.to_nat n) W) /\
    mask s' = (if decide (n = Z.of_nat (length W)) then EPOLLIN else mask s).
Proof.
  intros Hs Hb Hn Hm. destruct (WriteProc_some sv name s W n Hs Hb Hn Hm) as (wb & Hwb & ->).
  destruct (decide _); (eexists _, _; split; [done|]; cbn; rewrite ?insert_insert_eq; split; [done|by split]).
Qed.

Definition replying_session : Session :=
  mkSession (Buffer_new 8) (mkBuffer (bs "+OK" ++ [NUL]) 0 3) cache_Clear 5 true [] SESSION_MODE_REGULAR.

Lemma WriteProc_sends_witness :
  exists sv' s', WriteProc (put_session one_session (bs "c1") replying_session) (bs "c1") [SdSent 2; SdAgain] =
      Some (sv', false, bs "+O") /\
    sessions_ sv' = <[bs "c1" := s']> (sessions_ (put_session one_session (bs "c1") replying_session)) /\
    buf_repr (write_buf s') (bs "K") /\ mask s' = 5.
Proof.
  apply (WriteProc_sends _ (bs "c1") replying_session (bs "+OK") 2).
  - by vm_compute.
  - exists [], 1%nat. vm_compute. repeat split; congruence.
  - cbn. lia.
  - vm_compute. congruence.
Defined.
