(* ===== verification/TimeEvent.v ===== *)
(** * TimeEvent: timers (src/net/time_event.h, time_event.cpp)

    The callbacks run by the event loop are opaque: firing an event is recorded
    as its identifier in a log. A reading of the clock is an argument; the
    readings taken while events are rescheduled come in a list. *)

From S2P Require Import Prelude.
From stdpp Require Import list.

Local Open Scope Z_scope.

Record TimeEvent := mkTev {
  tev_id : Z;          (* long *)
  tev_when : Z;        (* uint64_t, ms *)
  tev_interval : Z;    (* uint64_t, ms *)
  tev_count : Z        (* int; negative means unlimited *)
}.

Definition AddMillSecToNowMillSec (now milliseconds : Z) : Z := u64 (now + milliseconds).

Definition TimeEvent_new (now id interval count : Z) : TimeEvent :=
  mkTev id (AddMillSecToNowMillSec now interval) interval count.

Definition FireForever (t : TimeEvent) : bool := tev_count t <? 0.
Definition CanFire (t : TimeEvent) : bool := (tev_count t >? 0) || (tev_count t <? 0).
Definition CannotFire (t : TimeEvent) : bool := tev_count t =? 0.
Definition Consume (t : TimeEvent) : TimeEvent :=
  mkTev (tev_id t) (tev_when t) (tev_interval t) (tev_count t - 1).
Definition with_when (w : Z) (t : TimeEvent) : TimeEvent :=
  mkTev (tev_id t) w (tev_interval t) (tev_count t).

Record TimeEventHolder := mkHolder {
  event_list_ : list TimeEvent;
  sTimeEventId : Z
}.

Definition TimeEventHolder_new : TimeEventHolder := mkHolder [] 0.

(** ** Operations *)

Definition CreateTimeEvent (now : Z) (h : TimeEventHolder) (interval count : Z)
    : TimeEventHolder * TimeEvent :=
  let id := sTimeEventId h + 1 in
  let tev := TimeEvent_new now id interval count in
  (mkHolder (tev :: event_list_ h) id, tev).

Fixpoint update_event (now id interval count : Z) (l : list TimeEvent) : option (list TimeEvent) :=
  match l with
  | [] => None
  | ev :: l =>
      if tev_id ev =? id
      then Some (mkTev (tev_id ev) (AddMillSecToNowMillSec now interval) interval count :: l)
      else cons ev <$> update_event now id interval count l
  end.

Definition UpdateTimeEvent (now : Z) (h : TimeEventHolder) (id interval count : Z)
    : TimeEventHolder * bool :=
  match update_event now id interval count (event_list_ h) with
  | Some l => (mkHolder l (sTimeEventId h), true)
  | None => (h, false)
  end.

Fixpoint remove_event (id : Z) (l : list TimeEvent) : option (list TimeEvent) :=
  match l with
  | [] => None
  | ev :: l => if tev_id ev =? id then Some l else cons ev <$> remove_event id l
  end.

Definition RemoveTimeEvent (h : TimeEventHolder) (tev_id : Z) : TimeEventHolder * bool :=
  match remove_event tev_id (event_list_ h) with
  | Some l => (mkHolder l (sTimeEventId h), true)
  | None => (h, false)
  end.

Fixpoint nearest (now min_diff : Z) (tev : option TimeEvent) (l : list TimeEvent) : option TimeEvent :=
  match l with
  | [] => tev
  | it :: l =>
      if CannotFire it then nearest now min_diff tev l
      else
        let diff := u64 (tev_when it - now) in
        if min_diff >? diff then nearest now diff (Some it) l else nearest now min_diff tev l
  end.

Definition FindNearestTimeEvent (h : TimeEventHolder) (now : Z) : option TimeEvent :=
  nearest now INT64_MAX None (event_list_ h).

Definition HowLongTillNextFired (h : TimeEventHolder) (now : Z) : Z :=
  match FindNearestTimeEvent h now with
  | None => 50
  | Some tev => u64 (tev_when tev - now)
  end.

(** One event of the loop of [HandleFiredTimeEvent]: what replaces it in the list
    (nothing when it is freed) and whether its callback ran. [later] is the clock
    when it is rescheduled. *)
Definition handle_event (now later : Z) (ev : TimeEvent) : option TimeEvent * bool :=
  let executed := (tev_when ev <=? now) && CanFire ev in
  let ev := if executed && negb (FireForever ev) then Consume ev else ev in
  if CannotFire ev then (None, executed)
  else (Some (if executed then with_when (AddMillSecToNowMillSec later (tev_interval ev)) ev else ev), executed).

(** The loop: [clock] gives the readings in order of rescheduling ([now] once they
    are used up). The result is the list and the identifiers of the callbacks run. *)
Fixpoint handle_events (now : Z) (clock : list Z) (l : list TimeEvent) : list TimeEvent * list Z :=
  match l with
  | [] => ([], [])
  | ev :: l =>
      let later := default now (head clock) in
      let '(kept, executed) := handle_event now later ev in
      let clock := if executed && bool_decide (is_Some kept) then tail clock else clock in
      let '(rest, fired) := handle_events now clock l in
      (match kept with Some ev => ev :: rest | None => rest end,
       if executed : bool then tev_id ev :: fired else fired)
  end.

(** [HandleFiredTimeEvent]: the holder, the callbacks run, and their number. *)
Definition HandleFiredTimeEvent (now : Z) (clock : list Z) (h : TimeEventHolder)
    : TimeEventHolder * list Z * Z :=
  let '(l, fired) := handle_events now clock (event_list_ h) in
  (mkHolder l (sTimeEventId h), fired, i32 (Z.of_nat (length fired))).

(** ** Identifiers

    Identifiers are issued once: they are distinct and at most the counter. *)

Definition ids (l : list TimeEvent) : list Z := tev_id <$> l.

Definition holder_ok (h : TimeEventHolder) : Prop :=
  NoDup (ids (event_list_ h)) /\ Forall (λ i, i <= sTimeEventId h) (ids (event_list_ h)).

Lemma handle_event_id now later ev ev' x : handle_event now later ev = (Some ev', x) -> tev_id ev' = tev_id ev.
Proof.
  unfold handle_event. intros H. repeat case_match; simplify_eq; done.
Qed.

(** Handling keeps the order of the events, adds none, and runs each callback at
    most once. *)
Lemma handle_events_ids now clock l l' fired : handle_events now clock l = (l', fired) ->
  ids l' `sublist_of` ids l /\ fired `sublist_of` ids l.
Proof.
  revert clock l' fired. induction l as [|ev l IH]; intros clock l' fired; cbn.
  { intros [= <- <-]. by split. }
  destruct (handle_event now _ ev) as [kept x] eqn:Hk.
  destruct (handle_events _ _ l) as [rest fd] eqn:Hr. apply IH in Hr as [H1 H2].
  intros [= <- <-]. split.
  - destruct kept as [ev'|]; [|by constructor]. cbn.
    rewrite (handle_event_id _ _ _ _ _ Hk). by constructor.
  - destruct x; by constructor.
Qed.

Lemma holder_ok_handle now clock h : holder_ok h -> holder_ok (HandleFiredTimeEvent now clock h).1.1.
Proof.
  intros [Hnd Hle]. unfold HandleFiredTimeEvent, holder_ok.
  destruct (handle_events now clock (event_list_ h)) as [l fired] eqn:E. cbn.
  apply handle_events_ids in E as [Hs _]. split; [by eapply sublist_NoDup|].
  rewrite Forall_forall in Hle |- *. intros i Hi. apply Hle.
  by eapply elem_of_sublist.
Qed.

Lemma holder_ok_create now h interval count : holder_ok h ->
  holder_ok (CreateTimeEvent now h interval count).1.
Proof.
  intros [Hnd Hle]. unfold holder_ok. cbn. rewrite Forall_forall in Hle. split.
  - constructor; [|done]. intros Hin. apply Hle in Hin. lia.
  - constructor; [lia|]. apply Forall_forall. intros i Hi. apply Hle in Hi. lia.
Qed.

(** ** One-shot events *)

(** An event whose time has not come is left alone. *)
Lemma handle_events_early now clock l l' fired ev : handle_events now clock l = (l', fired) ->
  NoDup (ids l) -> ev ∈ l -> tev_count ev = 1 -> now < tev_when ev -> ev ∈ l' /\ tev_id ev ∉ fired.
Proof.
  revert clock l' fired. induction l as [|e l IH]; intros clock l' fired; cbn.
  { intros _ _ H. by apply not_elem_of_nil in H. }
  destruct (handle_event now _ e) as [kept x] eqn:Hk.
  destruct (handle_events _ _ l) as [rest fd] eqn:Hr. intros [= <- <-] Hnd Hin Hc Hw.
  apply NoDup_cons in Hnd as [Hni Hnd]. apply elem_of_cons in Hin as [->|Hin].
  - unfold handle_event in Hk. destruct (Z.leb_spec (tev_when e) now); [lia|].
    unfold CannotFire in Hk. cbn in Hk. rewrite Hc in Hk. cbn in Hk. injection Hk as <- <-.
    split; [by left|]. apply handle_events_ids in Hr as [_ Hs].
    intros Hf. apply Hni. by eapply elem_of_sublist.
  - destruct (IH _ _ _ Hr Hnd Hin Hc Hw) as [H1 H2]. split.
    + destruct kept; [by right|done].
    + destruct x; [|done]. rewrite not_elem_of_cons. split; [|done].
      intros E. apply Hni. rewrite <- E. by apply list_elem_of_fmap_2.
Qed.

(** An event whose time has come runs once and is gone. *)
Lemma handle_events_due now clock l l' fired ev : handle_events now clock l = (l', fired) ->
  NoDup (ids l) -> ev ∈ l -> tev_count ev = 1 -> tev_when ev <= now ->
  tev_id ev ∈ fired /\ tev_id ev ∉ ids l'.
Proof.
  revert clock l' fired. induction l as [|e l IH]; intros clock l' fired; cbn.
  { intros _ _ H. by apply not_elem_of_nil in H. }
  destruct (handle_event now _ e) as [kept x] eqn:Hk.
  destruct (handle_events _ _ l) as [rest fd] eqn:Hr. intros [= <- <-] Hnd Hin Hc Hw.
  apply NoDup_cons in Hnd as [Hni Hnd]. apply elem_of_cons in Hin as [->|Hin].
  - unfold handle_event, CanFire, FireForever in Hk. destruct (Z.leb_spec (tev_when e) now); [|lia].
    rewrite Hc in Hk. cbn in Hk. unfold CannotFire, Consume in Hk. cbn in Hk. rewrite Hc in Hk. cbn in Hk.
    injection Hk as <- <-. split; [by left|]. apply handle_events_ids in Hr as [Hs _].
    intros Hf. apply Hni. by eapply elem_of_sublist.
  - destruct (IH _ _ _ Hr Hnd Hin Hc Hw) as [H1 H2]. split; [destruct x; [by right|done]|].
    destruct kept as [e'|]; [|done]. cbn. rewrite (handle_event_id _ _ _ _ _ Hk), not_elem_of_cons.
    split; [|done]. intros E. apply Hni. rewrite <- E. by apply list_elem_of_fmap_2.
Qed.

(** Rounds of the event loop: each has a clock reading and the later readings. *)
Fixpoint handle_rounds (rounds : list (Z * list Z)) (h : TimeEventHolder) : TimeEventHolder * list Z :=
  match rounds with
  | [] => (h, [])
  | (now, clock) :: rounds =>
      let '(h, fired, _) := HandleFiredTimeEvent now clock h in
      let '(h, log) := handle_rounds rounds h in
      (h, fired ++ log)
  end.

Lemma absent_stays rounds : forall h i, i ∉ ids (event_list_ h) ->
  i ∉ (handle_rounds rounds h).2 /\ i ∉ ids (event_list_ (handle_rounds rounds h).1).
Proof.
  induction rounds as [|[now clock] rounds IH]; intros h i Hi; cbn.
  { split; [apply not_elem_of_nil|done]. }
  unfold HandleFiredTimeEvent. destruct (handle_events now clock (event_list_ h)) as [l fired] eqn:E.
  apply handle_events_ids in E as [H1 H2].
  destruct (IH (mkHolder l (sTimeEventId h)) i) as [I1 I2].
  { cbn. intros Hin. apply Hi. by eapply elem_of_sublist. }
  destruct (handle_rounds rounds _) as [h' log]. cbn in *. split; [|done].
  rewrite elem_of_app. intros [Hin|Hin]; [|done]. apply Hi. by eapply elem_of_sublist.
Qed.

Definition occurrences (i : Z) (log : list Z) : nat := length (filter (λ j, j = i) log).

Lemma occurrences_app i a b : occurrences i (a ++ b) = (occurrences i a + occurrences i b)%nat.
Proof. unfold occurrences. by rewrite filter_app, length_app. Qed.

Lemma occurrences_absent i log : i ∉ log -> occurrences i log = O.
Proof.
  intros Hi. unfold occurrences. induction log as [|j log IH]; [done|].
  rewrite not_elem_of_cons in Hi. rewrite filter_cons_False by naive_solver. tauto.
Qed.

Lemma occurrences_once i log : NoDup log -> i ∈ log -> occurrences i log = 1%nat.
Proof.
  intros Hnd. induction Hnd as [|j log Hj Hnd IH]; intros Hi; [by apply not_elem_of_nil in Hi|].
  apply elem_of_cons in Hi as [->|Hi].
  - unfold occurrences. rewrite filter_cons_True by done. cbn. f_equal. by apply occurrences_absent.
  - unfold occurrences in *. rewrite filter_cons_False by (intros ->; done). tauto.
Qed.

(** A timer for one firing (as every key expiry is): over any number of rounds
    of the event loop, at whatever clock readings, its callback runs exactly once
    if some round comes at or after its time, and not at all otherwise; once it
    has run the event is gone, and until then it stays unchanged. *)
Lemma one_shot_fires_once (h : TimeEventHolder) (ev : TimeEvent) (rounds : list (Z * list Z)) :
  holder_ok h -> ev ∈ event_list_ h -> tev_count ev = 1 ->
  let '(h', log) := handle_rounds rounds h in
  if decide (Exists (λ r, tev_when ev <= r.1) rounds)
  then occurrences (tev_id ev) log = 1%nat /\ tev_id ev ∉ ids (event_list_ h')
  else occurrences (tev_id ev) log = O /\ ev ∈ event_list_ h'.
Proof.
  intros Hok Hin Hc. revert h Hok Hin.
  induction rounds as [|[now clock] rounds IH]; intros h Hok Hin.
  { cbn [handle_rounds]. rewrite decide_False by (intros H; by inversion H). done. }
  cbn [handle_rounds]. pose proof (holder_ok_handle now clock h Hok) as Hok'. revert Hok'.
  unfold HandleFiredTimeEvent. destruct (handle_events now clock (event_list_ h)) as [l fired] eqn:E.
  cbn [fst]. intros Hok'. pose proof (handle_events_ids _ _ _ _ _ E) as [_ Hsub].
  assert (NoDup fired) as Hnd by (eapply sublist_NoDup; [apply Hok|done]).
  destruct (decide (tev_when ev <= now)) as [Hdue|Hdue].
  - destruct (handle_events_due _ _ _ _ _ _ E (proj1 Hok) Hin Hc Hdue) as [H1 H2].
    destruct (absent_stays rounds (mkHolder l (sTimeEventId h)) (tev_id ev) H2) as [H3 H4].
    destruct (handle_rounds rounds _) as [h' log]. cbn in H3, H4. rewrite decide_True by (by left).
    by rewrite occurrences_app, (occurrences_once _ _ Hnd H1), (occurrences_absent _ _ H3).
  - destruct (handle_events_early _ _ _ _ _ _ E (proj1 Hok) Hin Hc ltac:(lia)) as [H1 H2].
    specialize (IH (mkHolder l (sTimeEventId h)) Hok' H1).
    destruct (handle_rounds rounds _) as [h' log]. 
    rewrite occurrences_app, (occurrences_absent _ _ H2). cbn [Nat.add].
    destruct (decide (Exists _ rounds)) as [He|He].
    + rewrite decide_True by (by right). done.
    + rewrite decide_False; [done|]. intros H. apply Exists_cons in H as [?|?]; done.
Qed.

Definition two_timers : TimeEventHolder :=
  (CreateTimeEvent 0 (CreateTimeEvent 0 TimeEventHolder_new 100 1).1 40 (-1)).1.

Lemma one_shot_fires_once_witness :
  let '(h', log) := handle_rounds [(50, [50]); (120, [120]); (130, [])] two_timers in
  occurrences 1 log = 1%nat /\ 1 ∉ ids (event_list_ h').
Proof.
  assert (holder_ok two_timers) as Hok.
  { unfold two_timers. apply holder_ok_create, holder_ok_create. split; constructor. }
  exact (one_shot_fires_once two_timers (mkTev 1 100 100 1) [(50, [50]); (120, [120]); (130, [])]
           Hok ltac:(right; left) eq_refl).
Defined.

(** ** How long the loop sleeps *)

(** Live events whose time is not past. *)
Definition upcoming (now : Z) (t : TimeEvent) : Prop := tev_count t <> 0 /\ now <= tev_when t.

#[export] Instance upcoming_dec now t : Decision (upcoming now t).
Proof. unfold upcoming. apply _. Defined.

Lemma diff_upcoming now w : 0 <= now < 2 ^ 62 -> 0 <= w < 2 ^ 62 ->
  if decide (now <= w) then u64 (w - now) = w - now /\ u64 (w - now) < INT64_MAX
  else INT64_MAX <= u64 (w - now).
Proof.
  intros Hn Hw. case_decide.
  - rewrite u64_small by (unfold in_u64, UINT64_MAX; lia). unfold INT64_MAX. lia.
  - unfold u64, uwrap. rewrite <- (Z.mod_add (w - now) 1 (2 ^ 64)), Z.mod_small by lia.
    unfold INT64_MAX. lia.
Qed.

(** The running minimum: the candidate [tev] is at distance [m]. *)
Definition best (now m : Z) (tev : option TimeEvent) : Prop :=
  match tev with
  | Some t => upcoming now t /\ m = tev_when t - now
  | None => m = INT64_MAX
  end.

Lemma nearest_spec now l m tev : 0 <= now < 2 ^ 62 ->
  Forall (λ t, 0 <= tev_when t < 2 ^ 62) l -> best now m tev -> m <= INT64_MAX ->
  exists m', best now m' (nearest now m tev l) /\ m' <= m /\
    (forall t, t ∈ l -> upcoming now t -> m' <= tev_when t - now) /\
    (nearest now m tev l = tev \/ exists t, t ∈ l /\ nearest now m tev l = Some t).
Proof.
  intros Hn Hl. revert m tev. induction Hl as [|t l Ht Hl IH]; intros m tev Hb Hm; cbn.
  { exists m. split_and!; [done|lia| |by left]. intros t H. by apply not_elem_of_nil in H. }
  pose proof (diff_upcoming now (tev_when t) Hn Ht) as Hd.
  unfold CannotFire. destruct (Z.eqb_spec (tev_count t) 0) as [Hc|Hc]; [|destruct (Z.gtb_spec m (u64 (tev_when t - now))) as [Hg|Hg]].
  - destruct (IH m tev Hb Hm) as (m' & H1 & H2 & H3 & H4). exists m'. split_and!; [done..| |].
    + intros t' [->|Hin]%elem_of_cons Hu; [by destruct Hu|auto].
    + destruct H4 as [?|(t' & ? & ?)]; [by left|]. right. exists t'. split; [by right|done].
  - case_decide; [|lia]. destruct Hd as [Hd _].
    destruct (IH (u64 (tev_when t - now)) (Some t)) as (m' & H1 & H2 & H3 & H4); [by rewrite Hd|lia|].
    exists m'. split_and!; [done|lia| |].
    + intros t' [->|Hin]%elem_of_cons Hu; [lia|auto].
    + right. destruct H4 as [->|(t' & ? & ->)]; [exists t; split; [by left|done]|].
      exists t'. split; [by right|done].
  - destruct (IH m tev Hb Hm) as (m' & H1 & H2 & H3 & H4). exists m'. split_and!; [done..| |].
    + intros t' [->|Hin]%elem_of_cons Hu; [|auto]. destruct Hu as [_ Hu].
      rewrite decide_True in Hd by done. lia.
    + destruct H4 as [?|(t' & ? & ?)]; [by left|]. right. exists t'. split; [by right|done].
Qed.

(** The time the event loop sleeps: the distance to the nearest live event
    that is not overdue, and 50 ms when there is none. In particular an overdue
    event does not shorten the sleep: its distance wraps around, and the loop
    sleeps until the next event or 50 ms before it is served. *)
Lemma HowLongTillNextFired_spec (h : TimeEventHolder) (now : Z) :
  0 <= now < 2 ^ 62 -> Forall (λ t, 0 <= tev_when t < 2 ^ 62) (event_list_ h) ->
  (Forall (λ t, ~ upcoming now t) (event_list_ h) /\ HowLongTillNextFired h now = 50) \/
  exists t, t ∈ event_list_ h /\ upcoming now t /\ HowLongTillNextFired h now = tev_when t - now /\
    forall t', t' ∈ event_list_ h -> upcoming now t' -> tev_when t <= tev_when t'.
Proof.
  intros Hn Hl. unfold HowLongTillNextFired, FindNearestTimeEvent.
  destruct (nearest_spec now (event_list_ h) INT64_MAX None Hn Hl eq_refl ltac:(lia))
    as (m & Hb & _ & Hmin & Hsrc).
  destruct (nearest now INT64_MAX None (event_list_ h)) as [t|].
  - right. destruct Hsrc as [?|(t' & Hin & [= <-])]; [done|]. destruct Hb as [Hu ->].
    exists t. split_and!; [done..| |].
    + rewrite Forall_forall in Hl. specialize (Hl t Hin). destruct Hu as [_ Hu].
      apply u64_small. unfold in_u64, UINT64_MAX. lia.
    + intros t' Hin' Hu'. specialize (Hmin t' Hin' Hu'). lia.
  - left. cbn in Hb. subst m. split; [|done]. rewrite Forall_forall in Hl |- *.
    intros t Hin Hu. specialize (Hmin t Hin Hu). specialize (Hl t Hin). unfold INT64_MAX in Hmin.
    destruct Hu. lia.
Qed.

Lemma HowLongTillNextFired_spec_witness :
  (Forall (λ t, ~ upcoming 200 t) (event_list_ two_timers) /\ HowLongTillNextFired two_timers 200 = 50) \/
  exists t, t ∈ event_list_ two_timers /\ upcoming 200 t /\ HowLongTillNextFired two_timers 200 = tev_when t - 200 /\
    forall t', t' ∈ event_list_ two_timers -> upcoming 200 t' -> tev_when t <= tev_when t'.
Proof.
  apply (HowLongTillNextFired_spec two_timers 200); [lia|].
  repeat constructor; vm_compute; congruence.
Defined.
