(* ===== verification/Lkvdb.v ===== *)
(** * Lkvdb: the binary snapshot (src/lkvdb.h, lkvdb.cpp, Snapshot of core.cpp)

    [Snapshot] writes the key space as bytes, [LiteKVSave] puts a header before
    them, [LiteKVLoad] reads them back into a container. The file is the list of
    its bytes; [cursor] and [remain] are the rest of that list. The clock read
    while one entry is loaded is one argument. [None] is undefined behaviour, or
    a key with a NUL byte, which no snapshot contains. *)

From S2P Require Import Prelude Encoding Numerals Str Hash DList Core TimeEvent.
From Stdlib Require Import QArith.
From stdpp Require Import list fin_maps.

Local Open Scope Z_scope.

Definition LKVDB_ITEM_START_FLAG : ascii := byte_of_Z 255.
Definition LKVDB_ITEM_END_FLAG : ascii := byte_of_Z 254.

(** [snprintf("%s%04d", LKVDB_MAGIC_NUMBER, LKVDB_VERSION)]. *)
Definition magic_header : list ascii := bs "LITEKV0001".

(** ** Saving *)

(** One entry of [Snapshot]. [expires] is the [sExpiresMap] of core.cpp (the map
    is [static] in core.h: every source file has its own), as the time [when] of
    the event. *)
Definition snapshot_entry (expires : gmap (list ascii) Z) (key : list ascii) (value : ValueObject)
    : option (list ascii) :=
  let entry_buf := [LKVDB_ITEM_START_FLAG; byte_of_Z (vo_type value)] in
  entry_buf ←
    match expires !! c_str key with
    | Some when =>
        timestamp_buf ← EncodeFixed64BitInteger when (Some (replicate 8 NUL));
        timestamp_buf ← timestamp_buf;
        Some (entry_buf ++ [byte_of_Z 1] ++ timestamp_buf)
    | None => Some (entry_buf ++ [byte_of_Z 0])
    end;
  '(_, entry_buf) ← ss_Serialize (Some key) entry_buf;
  '(_, entry_buf) ← vo_Serialize value entry_buf;
  Some (entry_buf ++ [LKVDB_ITEM_END_FLAG]).

Fixpoint snapshot_entries (expires : gmap (list ascii) Z) (items : list (list ascii * ValueObject))
    : option (list ascii) :=
  match items with
  | [] => Some []
  | (key, value) :: items =>
      e ← snapshot_entry expires key value;
      rest ← snapshot_entries expires items;
      Some (e ++ rest)
  end.

(** The items in the order the loops visit them. *)
Definition all_items (c : KVContainer) : list (list ascii * ValueObject) :=
  b ← bucket_ c; map_to_list b.

Definition Snapshot (expires : gmap (list ascii) Z) (c : KVContainer) : option (list ascii) :=
  let entry_cnt := NumItems c in
  len_buf ← EncodeFixed64BitInteger entry_cnt (Some (replicate 8 NUL));
  len_buf ← len_buf;
  entries ← snapshot_entries expires (all_items c);
  Some (len_buf ++ entries).

(** The contents of the file [LiteKVSave] writes. *)
Definition LiteKVSave (buf : list ascii) : list ascii := magic_header ++ buf.

(** ** Decoding *)

(** [DecodeInteger]: the value and the rest. It stops by itself after ten bytes. *)
Fixpoint decode_integer (fuel : nat) (cursor : list ascii) (shift i valen : Z) : Z * list ascii :=
  match fuel with
  | O => (valen, cursor)
  | S fuel =>
      if (shift <=? 63) && (i <? 10) then
        match cursor with
        | [] => (valen, cursor)
        | c :: cursor =>
            let byte := Z_of_byte c in
            if Z.testbit byte 7 then
              decode_integer fuel cursor (u32 (shift + 7)) (u8 (i + 1))
                (Z.lor valen (u64 (Z.shiftl (Z.land byte 127) shift)))
            else (Z.lor valen (u64 (Z.shiftl byte shift)), cursor)
        end
      else (valen, cursor)
  end.

Definition DecodeInteger (cursor : list ascii) : Z * list ascii := decode_integer 10 cursor 0 0 0.

Definition DecodeStdString (cursor : list ascii) : list ascii * list ascii :=
  let '(str_len, cursor) := DecodeInteger cursor in
  if (str_len =? 0) || (Z.of_nat (length cursor) <? str_len) then ([], cursor)
  else (take (Z.to_nat str_len) cursor, drop (Z.to_nat str_len) cursor).

(** [DecodeStaticString]: the contents of the [StaticString]. *)
Definition DecodeStaticString (cursor : list ascii) : list ascii * list ascii :=
  let '(str_len, cursor) := DecodeInteger cursor in
  if (str_len =? 0) || (Z.of_nat (length cursor) <? str_len) then ([], cursor)
  else (take (Z.to_nat str_len) cursor, drop (Z.to_nat str_len) cursor).

(** The loops over [count] elements. An element that is not empty takes at least
    one byte, so the number of bytes left bounds the rounds. *)
Fixpoint decode_list (fuel : nat) (i count : Z) (cursor : list ascii) (ans : DList)
    : option (DList * list ascii) :=
  if i <? count then
    match fuel with
    | O => None
    | S fuel =>
        let '(elem, cursor) := DecodeStdString cursor in
        if decide (elem = []) then Some (ans, cursor)
        else ans ← PushRight ans elem; decode_list fuel (i + 1) count cursor ans
    end
  else Some (ans, cursor).

Definition DecodeDList (cursor : list ascii) : option (DList * list ascii) :=
  let '(count, cursor) := DecodeInteger cursor in
  decode_list (S (length cursor)) 0 count cursor DList_new.

Fixpoint decode_dict (fuel : nat) (i count : Z) (cursor : list ascii) (ans : HashDict)
    : option (HashDict * list ascii) :=
  if i <? count then
    match fuel with
    | O => None
    | S fuel =>
        let '(key, cursor) := DecodeStdString cursor in
        if decide (key = []) then Some (ans, cursor)
        else
          let '(value, cursor) := DecodeStdString cursor in
          if decide (value = []) then Some (ans, cursor)
          else
            k ← DynamicString_std always_ok key;
            v ← DynamicString_std always_ok value;
            '(ans, _) ← HashDict_Update ans k v;
            decode_dict fuel (i + 1) count cursor ans
    end
  else Some (ans, cursor).

Definition DecodeHashDict (cursor : list ascii) : option (HashDict * list ascii) :=
  let '(count, cursor) := DecodeInteger cursor in
  decode_dict (S (length cursor)) 0 count cursor (Rehashable_new 1%Q).

Fixpoint decode_set (fuel : nat) (i count : Z) (cursor : list ascii) (ans : HashSet)
    : option (HashSet * list ascii) :=
  if i <? count then
    match fuel with
    | O => None
    | S fuel =>
        let '(elem, cursor) := DecodeStdString cursor in
        if decide (elem = []) then Some (ans, cursor)
        else
          x ← DynamicString_std always_ok elem;
          '(ans, _) ← HashSet_Insert ans x;
          decode_set fuel (i + 1) count cursor ans
    end
  else Some (ans, cursor).

Definition DecodeHashSet (cursor : list ascii) : option (HashSet * list ascii) :=
  let '(count, cursor) := DecodeInteger cursor in
  decode_set (S (length cursor)) 0 count cursor (Rehashable_new 1%Q).

(** ** Loading *)

(** The container, the timers of the event loop, and the [sExpiresMap] of
    lkvdb.cpp. *)
Record load_state := mkLoad {
  ld_kv : KVContainer;
  ld_timers : TimeEventHolder;
  ld_expires : gmap (list ascii) TimeEvent
}.

Definition AddTimerEventToKey (now : Z) (st : load_state) (std_key : list ascii) (interval : Z) : load_state :=
  let '(h, tev) := CreateTimeEvent now (ld_timers st) interval 1 in
  mkLoad (ld_kv st) h (<[std_key := tev]> (ld_expires st)).

(** A decoded value and the loop that stores it under the key. *)
Inductive item_value :=
  | IvInt (val : Z)
  | IvStr (str : list ascii)
  | IvList (li : DList)
  | IvHash (hd : HashDict)
  | IvSet (hs : HashSet).

Definition decode_value (type : Z) (cursor : list ascii) : option (item_value * list ascii) :=
  if type =? OBJECT_INT then
    let '(val, cursor) := DecodeInteger cursor in Some (IvInt (i64 val), cursor)
  else if type =? OBJECT_STRING then
    let '(str, cursor) := DecodeStdString cursor in Some (IvStr str, cursor)
  else if type =? OBJECT_LIST then
    '(li, cursor) ← DecodeDList cursor; Some (IvList li, cursor)
  else if type =? OBJECT_HASH then
    '(hd, cursor) ← DecodeHashDict cursor; Some (IvHash hd, cursor)
  else
    '(hs, cursor) ← DecodeHashSet cursor; Some (IvSet hs, cursor).

Fixpoint push_items (now : Z) (c : KVContainer) (key : list ascii) (items : list (list ascii))
    : option KVContainer :=
  match items with
  | [] => Some c
  | item :: items => '(c, _, _) ← ListPushAux now c key item false; push_items now c key items
  end.

Fixpoint update_items (now : Z) (c : KVContainer) (key : list ascii) (items : list HTEntry)
    : option KVContainer :=
  match items with
  | [] => Some c
  | item :: items =>
      '(c, _, _) ← HashUpdateKV now c key (ht_key item) (ht_value item); update_items now c key items
  end.

Fixpoint add_items (now : Z) (c : KVContainer) (key : list ascii) (items : list HSEntry)
    : option KVContainer :=
  match items with
  | [] => Some c
  | item :: items => '(c, _, _) ← SetAddItem now c key (hs_key item); add_items now c key items
  end.

Definition store_value (now : Z) (c : KVContainer) (key : list ascii) (v : item_value) : option KVContainer :=
  match v with
  | IvInt val => Some (SetInt now c key val).1
  | IvStr str => '(c, _) ← SetString now c key str; Some c
  | IvList li => items ← RangeAsStdStringVector li; push_items now c key items
  | IvHash hd => items ← Rehashable_AllEntries hd; update_items now c key items
  | IvSet hs => items ← Rehashable_AllEntries hs; add_items now c key items
  end.

(** The eight bytes at [cursor] as a [uint64_t] ([CHECK_REMAIN_BYTES(8)]). *)
Definition read_u64 (cursor : list ascii) : option (Z * list ascii) :=
  if (length cursor <? 8)%nat then None else Some (le_value (take 8 cursor), drop 8 cursor).

(** The flags before the key: type, expiration flag and timestamp, and the rest;
    [None] when the format is not recognized. *)
Definition read_flags (cursor : list ascii) : option (Z * bool * Z * list ascii) :=
  match cursor with
  | start_flag :: type :: expire_flag :: cursor =>
      if negb (Ascii.eqb start_flag LKVDB_ITEM_START_FLAG) then None
      else
        let type := schar type in
        if negb ((type =? OBJECT_INT) || (type =? OBJECT_STRING) || (type =? OBJECT_LIST)
                 || (type =? OBJECT_HASH) || (type =? OBJECT_SET)) then None
        else if Ascii.eqb expire_flag NUL then Some (type, false, 0, cursor)
        else '(exp_timestamp, cursor) ← read_u64 cursor; Some (type, true, exp_timestamp, cursor)
  | _ => None
  end.

(** One round of the loop: the state, whether it goes on, and the rest. *)
Definition load_entry (now : Z) (cursor : list ascii) (st : load_state)
    : option (load_state * bool * list ascii) :=
  match read_flags cursor with
  | None => Some (st, false, cursor)
  | Some (type, expire_flag, exp_timestamp, cursor) =>
      let '(key, cursor) := DecodeStaticString cursor in
      if decide (NUL ∈ key) then None
      else
        let interval := u64 (exp_timestamp - now) in
        '(v, cursor) ← decode_value type cursor;
        st ←
          (if (expire_flag && (exp_timestamp >? now)) || negb expire_flag then
             c ← store_value now (ld_kv st) key v;
             let st := mkLoad c (ld_timers st) (ld_expires st) in
             Some (if expire_flag then AddTimerEventToKey now st key interval else st)
           else Some st);
        match cursor with
        | [] => Some (st, false, cursor)
        | end_flag :: cursor => Some (st, Ascii.eqb end_flag LKVDB_ITEM_END_FLAG, cursor)
        end
  end.

(** The loop over [len] entries; every entry takes at least one byte. [clock idx]
    is the time at which entry [idx] is loaded. The result tells whether the
    whole file was recognized. *)
Fixpoint load_entries (fuel : nat) (clock : Z -> Z) (idx len : Z) (cursor : list ascii) (st : load_state)
    : option (load_state * bool) :=
  if idx <=? len then
    match fuel with
    | O => None
    | S fuel =>
        '(st, ok, cursor) ← load_entry (clock idx) cursor st;
        if ok : bool then load_entries fuel clock (idx + 1) len cursor st else Some (st, false)
    end
  else Some (st, true).

Definition LiteKVLoad (clock : Z -> Z) (file : list ascii) (st : load_state) : option (load_state * bool) :=
  if (length file <? 10)%nat then Some (st, false)
  else if negb (bool_decide (take 6 file = bs "LITEKV")) then Some (st, false)
  else
    match read_u64 (drop 10 file) with
    | None => Some (st, false)
    | Some (len, cursor) => load_entries (S (length cursor)) clock 1 len cursor st
    end.
