(* ===== verification/LkvdbFacts.v ===== *)
(** * LkvdbFacts: saving and loading give back the store

    The bytes of a snapshot in terms of the abstract store, the decoders on those
    bytes, and the round trip through a file. *)

From S2P Require Import Prelude Encoding Numerals Str Hash HashFacts DList DListFacts.
From S2P Require Import Core CoreSpec CoreFacts TimeEvent Lkvdb.
From Stdlib Require Import QArith.
From stdpp Require Import list fin_maps.

Local Open Scope Z_scope.

(** ** Integers and strings *)

Lemma decode_integer_varint n v rest k value :
  (0 < n)%nat -> Z.of_nat n + k = 10 -> 0 <= k -> 0 <= v < 2 ^ (64 - 7 * k) ->
  decode_integer n (varint_digits n v ++ rest) (7 * k) k value =
    (Z.lor value (Z.shiftl v (7 * k)), rest).
Proof.
  revert v k value. induction n as [|n IH]; intros v k value Hn Hk Hk0 Hv; [lia|].
  cbn [decode_integer varint_digits].
  destruct (Z.leb_spec (7 * k) 63); [|lia]. destruct (Z.ltb_spec k 10); [|lia]. cbn [andb].
  destruct (v >=? 128) eqn:E; bools; cbn [app].
  - rewrite digit_value by lia. pose proof (Z.mod_pos_bound v 128 ltac:(lia)).
    rewrite testbit7_high, land_127 by lia.
    assert (k < 9).
    { destruct (decide (k = 9)) as [->|]; [|lia]. change (2 ^ (64 - 7 * 9)) with 2 in Hv. lia. }
    destruct n as [|n]; [lia|].
    replace (u32 (7 * k + 7)) with (7 * (k + 1)) by (rewrite u32_small; unfold in_u32; lia).
    rewrite u8_small by lia.
    rewrite IH; [|lia|lia|lia|split; [apply Z.div_pos; lia|]].
    + rewrite <- (shiftl_digits v (7 * k)), Z.lor_assoc by lia. do 3 f_equal; [|lia].
      rewrite shiftl_u64; [done|lia|lia|].
      apply Z.lt_le_trans with (2 ^ 7); [lia|]. apply Z.pow_le_mono_r; lia.
    + replace (64 - 7 * (k + 1)) with (64 - 7 * k - 7) by lia. apply div_128_bound; lia.
  - rewrite last_digit_value by lia. rewrite testbit7_low by lia.
    rewrite shiftl_u64 by lia. done.
Qed.

Lemma DecodeInteger_varint v rest : in_u64 v -> DecodeInteger (varint v ++ rest) = (v, rest).
Proof.
  intros Hv. unfold DecodeInteger, varint.
  pose proof (decode_integer_varint 10 v rest 0 0) as H. change (7 * 0) with 0 in H. rewrite H; [|lia..|].
  - by rewrite Z.shiftl_0_r, Z.lor_0_l.
  - unfold in_u64, UINT64_MAX in Hv. change (2 ^ (64 - 0)) with (2 ^ 64). lia.
Qed.

(** A string on disk: its length, then its bytes. *)
Definition enc_str (s : list ascii) : list ascii := varint (Z.of_nat (length s)) ++ s.

Lemma DecodeStdString_enc s rest : fits s -> DecodeStdString (enc_str s ++ rest) = (s, rest).
Proof.
  unfold fits. intros Hs. unfold DecodeStdString, enc_str. rewrite <- app_assoc.
  rewrite DecodeInteger_varint by (unfold in_u64, UINT64_MAX; lia).
  destruct (Z.eqb_spec (Z.of_nat (length s)) 0) as [E|E]; cbn [orb].
  { destruct s; [done|cbn in E; lia]. }
  rewrite length_app. destruct (Z.ltb_spec (Z.of_nat (length s + length rest)) (Z.of_nat (length s))); [lia|].
  by rewrite Nat2Z.id, take_app_length, drop_app_length.
Qed.

Lemma DecodeStaticString_enc s rest : fits s -> DecodeStaticString (enc_str s ++ rest) = (s, rest).
Proof. apply DecodeStdString_enc. Qed.

Lemma ds_Serialize_enc d s buf : ds_repr d s -> fits s -> exists n, ds_Serialize d buf = Some (n, buf ++ enc_str s).
Proof.
  intros Hd Hs. unfold ds_Serialize. rewrite (ds_data_repr d s Hd), (ds_repr_len d s Hd).
  by apply SerializeCharBuf_spec.
Qed.

Lemma serialize_all_enc ds ss buf : Forall2 ds_repr ds ss -> Forall fits ss ->
  serialize_all ds buf = Some (buf ++ concat (enc_str <$> ss)).
Proof.
  intros H. revert buf. induction H as [|d s ds ss Hd Hds IH]; intros buf Hf; cbn.
  { by rewrite app_nil_r. }
  apply Forall_cons in Hf as [Hs Hf]. destruct (ds_Serialize_enc d s buf Hd Hs) as [n ->]. cbn.
  rewrite IH by done. by rewrite <- app_assoc.
Qed.

Lemma serialize_count_enc n buf : in_u64 n -> serialize_count n buf = Some (buf ++ varint n).
Proof.
  intros Hn. unfold serialize_count. rewrite EncodeVarUnsignedInt64_varint by (done || (cbn; lia)). cbn.
  by rewrite Nat2Z.id, take_app_length.
Qed.

(** ** Values on disk *)

(** Elements the format can hold: the decoders take an empty string for the end. *)
Definition item_ok (x : list ascii) : Prop := x <> [] /\ fits x.

(** Values the format can hold: the same for empty containers, which are written
    as nothing at all. *)
Definition dumpable (a : aval) : Prop :=
  match a with
  | AInt _ => True
  | AStr s => fits s
  | AList l => l <> [] /\ Forall item_ok l /\ Z.of_nat (length l) < 2 ^ 60
  | ADict d => d <> ∅ /\ map_Forall (λ k v, item_ok k /\ item_ok v) d /\ Z.of_nat (size d) < 2 ^ 60
  | ASet s => s <> ∅ /\ set_Forall item_ok s /\ Z.of_nat (size s) < 2 ^ 60
  end.

Definition enc_pair (kv : list ascii * list ascii) : list ascii := enc_str kv.1 ++ enc_str kv.2.

(** The bytes of a value; hashes and sets in some order. *)
Definition value_enc (a : aval) (enc : list ascii) : Prop :=
  match a with
  | AInt n => enc = varint (u64 n)
  | AStr s => enc = enc_str s
  | AList l => enc = varint (Z.of_nat (length l)) ++ concat (enc_str <$> l)
  | ADict d => exists kvs, NoDup kvs.*1 /\ list_to_map kvs = d /\
      enc = varint (Z.of_nat (length kvs)) ++ concat (enc_pair <$> kvs)
  | ASet s => exists xs, NoDup xs /\ list_to_set xs = s /\
      enc = varint (Z.of_nat (length xs)) ++ concat (enc_str <$> xs)
  end.

Lemma rents_entry_ok {E A} `{!HashEntry E} `{!EntrySpec E A} (d : Rehashable E) e :
  rh_ok d -> e ∈ rents d -> entry_ok e.
Proof.
  intros Hd. destruct (rh_state d Hd) as (cur & Ec & Hc & Hb). unfold rents. rewrite Ec. cbn.
  rewrite elem_of_app. intros [H|H]; [by apply (hash_entry_ok cur)|].
  destruct (backup_ht_ d) as [b|]; cbn in H; [|by apply not_elem_of_nil in H].
  by apply (hash_entry_ok b), H; apply Hb.
Qed.

Lemma rmap_dom {E A} `{!HashEntry E} `{!EntrySpec E A} (d : Rehashable E) :
  dom (rmap d) = list_to_set (kb <$> rents d).
Proof.
  apply set_eq. intros x. rewrite elem_of_list_to_set, elem_of_dom.
  rewrite <- (not_eq_None_Some (rmap d !! x)). unfold rmap. rewrite (emap_None (rents d) x).
  destruct (decide (x ∈ kb <$> rents d)); tauto.
Qed.

Lemma DList_Serialize_enc d l buf : dl_repr d l -> l <> [] -> Forall fits l -> Z.of_nat (length l) < 2 ^ 60 ->
  exists n, DList_Serialize d buf = Some (n, buf ++ varint (Z.of_nat (length l)) ++ concat (enc_str <$> l)).
Proof.
  intros Hd Hl Hf Hn. unfold DList_Serialize, DList_Empty. fold (DList_Length d). rewrite (repr_length d l Hd).
  destruct (Z.eqb_spec (Z.of_nat (length l)) 0) as [E|_]; [destruct l; [done|cbn in E; lia]|].
  rewrite serialize_count_enc by (unfold in_u64, UINT64_MAX; lia). cbn [mbind option_bind].
  destruct (all_elems_repr d l Hd Hl) as (ds & -> & Hds). cbn [mbind option_bind].
  rewrite (serialize_all_enc ds l) by (done || (eapply Forall2_impl; [done|by intros ? ? []])).
  cbn [mbind option_bind]. rewrite <- app_assoc. by eexists.
Qed.

Lemma dict_entries_enc (es : list HTEntry) : (forall e, e ∈ es -> entry_ok e) ->
  Forall2 ds_repr (e ← es; [ht_key e; ht_value e]) (e ← es; [kb e; entry_val e]).
Proof.
  intros H. induction es as [|e es IH]; [constructor|]. cbn.
  destruct (H e ltac:(by left)) as [[Hk _] [Hv _]]. constructor; [done|]. constructor; [done|].
  apply IH. intros e' He'. apply H. by right.
Qed.

Lemma dict_concat_enc (es : list HTEntry) :
  concat (enc_str <$> (e ← es; [kb e; entry_val e])) = concat (enc_pair <$> ((λ e, (kb e, entry_val e)) <$> es)).
Proof.
  induction es as [|e es IH]; [done|]. rewrite bind_cons, fmap_app, concat_app, IH, !fmap_cons.
  cbn [concat fmap list_fmap]. by rewrite app_nil_r.
Qed.

Lemma HashDict_Serialize_enc (d : HashDict) m buf : rh_ok d -> rmap d = m -> dumpable (ADict m) ->
  exists n enc, HashDict_Serialize d buf = Some (n, buf ++ enc) /\ value_enc (ADict m) enc.
Proof.
  intros Hd <- (Hne & Hall & Hs). assert (room d) as Hr by (unfold room; lia).
  unfold HashDict_Serialize. rewrite (Count_zero d Hd Hr).
  pose proof (rh_size d Hd) as Hsz. pose proof (rh_nodup d Hd) as Hnd.
  destruct (Z.eqb_spec (Z.of_nat (length (rents d))) 0) as [E|_].
  { exfalso. apply Hne. apply map_size_empty_iff. lia. }
  rewrite serialize_count_enc by (unfold in_u64, UINT64_MAX; lia). cbn [mbind option_bind].
  rewrite (AllEntries_rspec d Hd Hr). cbn [mbind option_bind].
  rewrite (serialize_all_enc _ (e ← rents d; [kb e; entry_val e])).
  - cbn [mbind option_bind]. eexists _, _. rewrite <- app_assoc. split; [done|].
    exists ((λ e, (kb e, entry_val e)) <$> rents d). split; [by apply emap_nodup|]. split; [done|].
    rewrite length_fmap. f_equal. apply dict_concat_enc.
  - apply dict_entries_enc. intros e. by apply rents_entry_ok.
  - apply Forall_forall. intros x (e & Hx & He)%list_elem_of_bind.
    assert (rmap d !! kb e = Some (entry_val e)) as Hl by (apply emap_lookup; [done|eauto]).
    destruct (Hall _ _ Hl) as [[_ H1] [_ H2]]. set_solver.
Qed.

Lemma HashSet_Serialize_enc (d : HashSet) s buf : rh_ok d -> dom (rmap d) = s -> dumpable (ASet s) ->
  exists n enc, HashSet_Serialize d buf = Some (n, buf ++ enc) /\ value_enc (ASet s) enc.
Proof.
  intros Hd <- (Hne & Hall & Hs). rewrite size_dom in Hs. assert (room d) as Hr by (unfold room; lia).
  unfold HashSet_Serialize. rewrite (Count_zero d Hd Hr).
  pose proof (rh_size d Hd) as Hsz. pose proof (rh_nodup d Hd) as Hnd.
  destruct (Z.eqb_spec (Z.of_nat (length (rents d))) 0) as [E|_].
  { exfalso. apply Hne. apply dom_empty_iff_L, map_size_empty_iff. lia. }
  rewrite serialize_count_enc by (unfold in_u64, UINT64_MAX; lia). cbn [mbind option_bind].
  rewrite (AllEntries_rspec d Hd Hr). cbn [mbind option_bind].
  pose proof (rmap_dom d) as Edom.
  rewrite (serialize_all_enc _ (kb <$> rents d)).
  - cbn [mbind option_bind]. eexists _, _. rewrite <- app_assoc. split; [done|].
    exists (kb <$> rents d). split; [done|]. split; [done|]. by rewrite length_fmap.
  - assert (forall e, e ∈ rents d -> entry_ok e) as He by (intros e; by apply rents_entry_ok).
    clear -He. induction (rents d) as [|e es IH]; cbn; constructor; [apply (He e); by left|].
    apply IH. intros e' H. apply He. by right.
  - apply Forall_forall. intros x Hx. apply Hall. rewrite Edom. by apply elem_of_list_to_set.
Qed.

Lemma ToInt64_repr o n : vo_repr o (AInt n) -> ToInt64 o = Some n.
Proof. intros Ho. destruct (repr_int o n Ho) as (Ht & Hp & _). unfold ToInt64. by rewrite Ht, Hp. Qed.

Lemma vo_Serialize_enc o a buf : vo_repr o a -> dumpable a ->
  exists n enc, vo_Serialize o buf = Some (n, buf ++ enc) /\ value_enc a enc.
Proof.
  intros Ho Ha. unfold vo_Serialize. pose proof Ho as [-> Hp].
  destruct a as [v|s|l|d|s]; types; cbn [dumpable ptr_repr] in Ha, Hp.
  - rewrite (ToInt64_repr o v Ho). unfold EncodeVarSignedInt64. cbn [mbind option_bind].
    rewrite EncodeVarUnsignedInt64_varint by (apply u64_range || (cbn; lia)). cbn [mbind option_bind].
    rewrite Nat2Z.id, take_app_length. by eexists _, _.
  - destruct (vo_ptr o); try done. destruct (ds_Serialize_enc _ s buf (proj1 Hp) Ha) as [n ->].
    by eexists _, _.
  - destruct (vo_ptr o); try done. destruct Ha as (Hl & Hi & Hn).
    destruct (DList_Serialize_enc _ l buf Hp Hl) as [n ->]; [|done|by eexists _, _].
    eapply Forall_impl; [done|]. by intros ? [].
  - destruct (repr_dict o d Ho) as (h & -> & Hh & Em). cbn [mbind option_bind].
    destruct (HashDict_Serialize_enc h d buf Hh Em Ha) as (n & enc & -> & He). by eexists _, _.
  - destruct (repr_set o s Ho) as (h & -> & Hh & Em). cbn [mbind option_bind].
    destruct (HashSet_Serialize_enc h s buf Hh Em Ha) as (n & enc & -> & He). by eexists _, _.
Qed.

(** ** The decoders on values *)

(** A decoded value stands for an abstract one. *)
Definition iv_repr (v : item_value) (a : aval) : Prop :=
  match v, a with
  | IvInt n, AInt n' => n = n' /\ in_i64 n
  | IvStr s, AStr s' => s = s' /\ fits s
  | IvList d, AList l => dl_repr d l /\ Forall fits l
  | IvHash d, ADict m => rh_ok d /\ rmap d = m /\ map_Forall (λ _ v, fits v) m
  | IvSet d, ASet s => rh_ok d /\ dom (rmap d) = s
  | _, _ => False
  end.

Lemma list_to_map_union_insert {A} (k : list ascii) (x : A) (kvs : list (list ascii * A)) (m : gmap (list ascii) A) : k ∉ kvs.*1 ->
  list_to_map kvs ∪ <[k:=x]> m = list_to_map ((k, x) :: kvs) ∪ m.
Proof.
  intros Hk. cbn [list_to_map foldr fst snd]. rewrite <- insert_union_r by (by apply not_elem_of_list_to_map_1).
  by rewrite insert_union_l.
Qed.

Lemma enc_str_length s : (0 < length (enc_str s))%nat.
Proof. unfold enc_str. rewrite length_app. pose proof (varint_length (Z.of_nat (length s))). lia. Qed.

Lemma decode_list_enc l fuel i count rest d s : dl_repr d s -> Forall item_ok l ->
  Z.of_nat (length s + length l) < 2 ^ 63 -> count = i + Z.of_nat (length l) -> (length l <= fuel)%nat ->
  exists d', decode_list fuel i count (concat (enc_str <$> l) ++ rest) d = Some (d', rest) /\ dl_repr d' (s ++ l).
Proof.
  intros Hd Hl. revert fuel i d s Hd. induction Hl as [|x l [Hx Hf] Hl IH]; intros fuel i d s Hd Hs -> Hn; cbn in Hn, Hs.
  - exists d. rewrite app_nil_r. destruct fuel; cbn; by rewrite (proj2 (Z.ltb_ge _ _)) by lia.
  - destruct fuel as [|fuel]; [lia|]. cbn [decode_list length fmap list_fmap concat].
    rewrite (proj2 (Z.ltb_lt _ _)) by lia. rewrite <- app_assoc, DecodeStdString_enc by done.
    rewrite decide_False by done. destruct (PushRight_repr d s x Hd Hf) as (d1 & -> & Hd1); [lia|].
    cbn [mbind option_bind]. destruct (IH fuel (i + 1) d1 (s ++ [x]) Hd1) as (d2 & E & Hd2); [|cbn [length]; lia|lia|].
    { rewrite length_app. cbn. lia. }
    rewrite <- app_assoc in Hd2. eauto.
Qed.

Lemma decode_dict_enc kvs fuel i count rest (d : HashDict) : rh_ok d ->
  Forall (λ kv, item_ok kv.1 /\ item_ok kv.2) kvs ->
  Z.of_nat (size (rmap d) + length kvs) < 2 ^ 61 -> count = i + Z.of_nat (length kvs) ->
  (length kvs <= fuel)%nat -> NoDup kvs.*1 ->
  exists d', decode_dict fuel i count (concat (enc_pair <$> kvs) ++ rest) d = Some (d', rest) /\
    rh_ok d' /\ rmap d' = list_to_map kvs ∪ rmap d.
Proof.
  intros Hd Hl. revert fuel i d Hd.
  induction Hl as [|[k v] kvs [[Hk Fk] [Hv Fv]] Hl IH]; intros fuel i d Hd Hs -> Hn Hnd; cbn in Hn, Hs.
  - exists d. cbn [list_to_map foldr]. rewrite (left_id_L ∅ (∪)).
    destruct fuel; cbn; by rewrite (proj2 (Z.ltb_ge _ _)) by lia.
  - cbn [fst snd] in Hk, Hv, Fk, Fv. destruct fuel as [|fuel]; [lia|]. cbn [decode_dict length fmap list_fmap concat enc_pair fst snd].
    rewrite (proj2 (Z.ltb_lt _ _)) by lia. unfold enc_pair at 1. cbn [fst snd].
    rewrite <- !app_assoc, DecodeStdString_enc by done.
    rewrite decide_False, DecodeStdString_enc, decide_False by done.
    destruct (DynamicString_std_val k Fk) as (kd & -> & Hkd & Ek). destruct (DynamicString_std_val v Fv) as (vd & -> & Hvd & Ev).
    cbn [mbind option_bind]. apply NoDup_cons in Hnd as [Hk1 Hnd].
    destruct (HashDict_Update_spec d kd vd) as (d1 & r & -> & Hd1 & Em & _); try done; [unfold room; lia|by rewrite Ev|].
    rewrite Ek, Ev in Em. cbn [mbind option_bind].
    destruct (IH fuel (i + 1) d1 Hd1) as (d2 & E & Hd2 & Em2); [|cbn [length]; lia|lia|done|].
    + rewrite Em, map_size_insert. destruct (rmap d !! k); cbn; lia.
    + exists d2. split; [done|]. split; [done|]. rewrite Em2, Em. by apply list_to_map_union_insert.
Qed.

Lemma decode_set_enc xs fuel i count rest (d : HashSet) : rh_ok d -> Forall item_ok xs ->
  Z.of_nat (size (rmap d) + length xs) < 2 ^ 61 -> count = i + Z.of_nat (length xs) -> (length xs <= fuel)%nat ->
  exists d', decode_set fuel i count (concat (enc_str <$> xs) ++ rest) d = Some (d', rest) /\
    rh_ok d' /\ dom (rmap d') = list_to_set xs ∪ dom (rmap d).
Proof.
  intros Hd Hl. revert fuel i d Hd. induction Hl as [|x l [Hx Hf] Hl IH]; intros fuel i d Hd Hs -> Hn; cbn in Hn, Hs.
  - exists d. cbn [list_to_set]. rewrite (left_id_L ∅ (∪)). destruct fuel; cbn; by rewrite (proj2 (Z.ltb_ge _ _)) by lia.
  - destruct fuel as [|fuel]; [lia|]. cbn [decode_set length fmap list_fmap concat].
    rewrite (proj2 (Z.ltb_lt _ _)) by lia. rewrite <- app_assoc, DecodeStdString_enc by done.
    rewrite decide_False by done. destruct (DynamicString_std_val x Hf) as (xd & -> & Hxd & Ex).
    cbn [mbind option_bind].
    destruct (HashSet_Insert_spec d xd) as (d1 & r & -> & Hd1 & Em & _); try done; [unfold room; lia|].
    rewrite Ex in Em. cbn [mbind option_bind].
    destruct (IH fuel (i + 1) d1 Hd1) as (d2 & E & Hd2 & Em2); [|cbn [length]; lia|lia|].
    + rewrite Em, map_size_insert. destruct (rmap d !! x); cbn; lia.
    + exists d2. split; [done|]. split; [done|]. rewrite Em2, Em, dom_insert_L. set_solver.
Qed.

Lemma length_concat_enc {A} (f : A -> list ascii) (l : list A) rest : (forall x, (0 < length (f x))%nat) ->
  (length l <= length (concat (f <$> l) ++ rest))%nat.
Proof.
  intros Hf. induction l as [|x l IH]; cbn; [lia|]. rewrite <- app_assoc, length_app. pose proof (Hf x). lia.
Qed.

Lemma DecodeDList_enc l rest : Forall item_ok l -> Z.of_nat (length l) < 2 ^ 60 ->
  exists d, DecodeDList (varint (Z.of_nat (length l)) ++ concat (enc_str <$> l) ++ rest) = Some (d, rest) /\ dl_repr d l.
Proof.
  intros Hl Hn. unfold DecodeDList. rewrite DecodeInteger_varint by (unfold in_u64, UINT64_MAX; lia).
  apply (decode_list_enc l _ 0 _ rest DList_new []); [apply DList_new_repr|done|cbn; lia|lia|].
  apply Nat.le_le_succ_r, length_concat_enc, enc_str_length.
Qed.

Lemma DecodeHashDict_enc kvs rest : Forall (λ kv, item_ok kv.1 /\ item_ok kv.2) kvs -> NoDup kvs.*1 ->
  Z.of_nat (length kvs) < 2 ^ 60 ->
  exists d, DecodeHashDict (varint (Z.of_nat (length kvs)) ++ concat (enc_pair <$> kvs) ++ rest) = Some (d, rest) /\
    rh_ok d /\ rmap d = list_to_map kvs.
Proof.
  intros Hl Hnd Hn. unfold DecodeHashDict. rewrite DecodeInteger_varint by (unfold in_u64, UINT64_MAX; lia).
  destruct (@Rehashable_new_ok HTEntry (list ascii) _ _) as [Hn0 Hm0].
  destruct (decode_dict_enc kvs (S (length (concat (enc_pair <$> kvs) ++ rest))) 0 (Z.of_nat (length kvs)) rest
              (Rehashable_new 1%Q)) as (d & E & Hd & Em); try done.
  - rewrite Hm0, map_size_empty. lia.
  - apply Nat.le_le_succ_r, length_concat_enc. intros [k v]. unfold enc_pair. rewrite length_app.
    pose proof (enc_str_length k). cbn [fst snd]. lia.
  - exists d. split; [done|]. split; [done|]. by rewrite Em, Hm0, (right_id_L ∅ (∪)).
Qed.

Lemma DecodeHashSet_enc xs rest : Forall item_ok xs -> Z.of_nat (length xs) < 2 ^ 60 ->
  exists d, DecodeHashSet (varint (Z.of_nat (length xs)) ++ concat (enc_str <$> xs) ++ rest) = Some (d, rest) /\
    rh_ok d /\ dom (rmap d) = list_to_set xs.
Proof.
  intros Hl Hn. unfold DecodeHashSet. rewrite DecodeInteger_varint by (unfold in_u64, UINT64_MAX; lia).
  destruct (@Rehashable_new_ok HSEntry () _ _) as [Hn0 Hm0].
  destruct (decode_set_enc xs (S (length (concat (enc_str <$> xs) ++ rest))) 0 (Z.of_nat (length xs)) rest
              (Rehashable_new 1%Q)) as (d & E & Hd & Em); try done.
  - rewrite Hm0, map_size_empty. lia.
  - apply Nat.le_le_succ_r, length_concat_enc, enc_str_length.
  - exists d. split; [done|]. split; [done|]. by rewrite Em, Hm0, dom_empty_L, (right_id_L ∅ (∪)).
Qed.

Lemma decode_value_enc a enc rest : value_enc a enc -> dumpable a -> (forall n, a = AInt n -> in_i64 n) ->
  exists v, decode_value (atype a) (enc ++ rest) = Some (v, rest) /\ iv_repr v a.
Proof.
  intros He Ha Hi. unfold decode_value. destruct a as [n|s|l|d|s]; types; cbn [value_enc dumpable] in He, Ha.
  - subst enc. rewrite DecodeInteger_varint by apply u64_range. eexists. split; [done|].
    specialize (Hi n eq_refl). cbn. by rewrite i64_u64.
  - subst enc. rewrite DecodeStdString_enc by done. by eexists.
  - destruct Ha as (_ & Ha & Hn). subst enc. rewrite <- app_assoc.
    destruct (DecodeDList_enc l rest Ha Hn) as (d & -> & Hd). eexists. split; [done|]. split; [done|].
    eapply Forall_impl; [done|]. by intros ? [].
  - destruct He as (kvs & Hnd & <- & ->), Ha as (_ & Ha & Hn). rewrite <- app_assoc.
    destruct (DecodeHashDict_enc kvs rest) as (d & -> & Hd & Em); [|done| |].
    + apply Forall_forall. intros [k v] Hkv. apply Ha. by apply elem_of_list_to_map_1.
    + by rewrite map_size_list_to_map in Hn.
    + eexists. split; [done|]. split; [done|]. split; [done|]. intros k v Hk. by destruct (Ha k v Hk) as [_ []].
  - destruct He as (xs & Hnd & <- & ->), Ha as (_ & Ha & Hn). rewrite <- app_assoc.
    destruct (DecodeHashSet_enc xs rest) as (d & -> & Hd & Em).
    + apply Forall_forall. intros x Hx. apply Ha. by apply elem_of_list_to_set.
    + by rewrite size_list_to_set in Hn.
    + by eexists.
Qed.

(** ** Storing a value under a new key *)

Lemma ListPushAux_right now c m k l x : kv_repr c m ->
  m !! k = Some (AList l) \/ m !! k = None /\ l = [] -> fits x -> Z.of_nat (length l) < 2 ^ 63 ->
  exists c', ListPushAux now c k x false = Some (c', true, kOkCode) /\ kv_repr c' (<[k := AList (l ++ [x])]> m).
Proof.
  intros Hr Hk Hx Hl. pose proof (found_spec c m k Hr) as Hf. unfold ListPushAux, push_target.
  destruct Hk as [Hk|[Hk ->]]; rewrite Hk in Hf.
  - destruct Hf as (o & -> & Ho). rewrite (wrong_type o (AList l)) by done. types.
    destruct (repr_list o l Ho) as (d & -> & Hd). types.
    destruct (PushRight_repr d l x Hd Hx Hl) as (d1 & E & Hd1). unfold push1. rewrite E. types.
    eexists. split; [done|]. apply kv_put; [done|by eexists|]. by eapply repr_with.
  - rewrite Hf. cbn [as_list ConstructDListObjPtr vo_ptr mbind option_bind].
    destruct (PushRight_repr DList_new [] x DList_new_repr Hx Hl) as (d1 & E & Hd1). unfold push1. rewrite E. types.
    eexists. split; [done|]. rewrite <- (insert_insert_eq m k _ (AList [])). apply kv_put.
    + apply kv_add; [done|done|]. split; [done|]. apply DList_new_repr.
    + rewrite lookup_insert_eq. by eexists.
    + by split.
Qed.

Lemma push_items_repr now items c m k l : kv_repr c m -> m !! k = Some (AList l) ->
  Forall fits items -> Z.of_nat (length l + length items) < 2 ^ 63 ->
  exists c', push_items now c k items = Some c' /\ kv_repr c' (<[k := AList (l ++ items)]> m).
Proof.
  intros Hr Hk Hi. revert c m l Hr Hk. induction Hi as [|x items Hx Hi IH]; intros c m l Hr Hk Hn; cbn [push_items length] in *.
  - exists c. split; [done|]. by rewrite app_nil_r, insert_id.
  - destruct (ListPushAux_right now c m k l x) as (c1 & -> & Hr1); [done|by left|done|lia|]. cbn [mbind option_bind].
    destruct (IH c1 _ (l ++ [x]) Hr1) as (c2 & E & Hr2); [apply lookup_insert_eq|rewrite length_app; cbn; lia|].
    rewrite insert_insert_eq, <- app_assoc in Hr2. eauto.
Qed.

Lemma HashUpdateKV_repr now c m k y fd vd : kv_repr c m ->
  m !! k = Some (ADict y) \/ m !! k = None /\ y = ∅ -> val_ok fd -> val_ok vd -> fits (ds_data vd) ->
  Z.of_nat (size y) < 2 ^ 61 ->
  exists c', HashUpdateKV now c k fd vd = Some (c', true, kOkCode) /\
    kv_repr c' (<[k := ADict (<[ds_data fd := ds_data vd]> y)]> m).
Proof.
  intros Hr Hk Hf Hv Fv Hs. pose proof (found_spec c m k Hr) as Hfd. unfold HashUpdateKV.
  destruct Hk as [Hk|[Hk ->]]; rewrite Hk in Hfd.
  - destruct Hfd as (o & -> & Ho). rewrite (wrong_type o (ADict y)) by done. types.
    destruct (repr_dict o y Ho) as (d & -> & Hd & <-). types.
    destruct (HashDict_Update_spec d fd vd) as (d1 & r & -> & Hd1 & Em & Er); try done. types.
    assert ((r =? UNDEFINED) = false) as -> by (subst r; by destruct (rmap d !! _)).
    eexists. split; [done|]. apply kv_put; [done|by eexists|]. by eapply repr_with.
  - rewrite Hfd. cbn [as_dict ConstructHashObjPtr vo_ptr mbind option_bind].
    destruct (@Rehashable_new_ok HTEntry (list ascii) _ _) as [Hn0 Hm0].
    destruct (HashDict_Update_spec (Rehashable_new 1%Q) fd vd) as (d1 & r & -> & Hd1 & Em & Er); try done.
    rewrite Hm0 in Em. types. eexists. split; [done|]. apply kv_add; [done|done|]. by split.
Qed.

Lemma update_items_repr now es c m k y : kv_repr c m -> m !! k = Some (ADict y) ->
  (forall e, e ∈ es -> entry_ok e /\ fits (entry_val e)) -> NoDup (kb <$> es) ->
  Z.of_nat (size y + length es) < 2 ^ 61 ->
  exists c', update_items now c k es = Some c' /\
    kv_repr c' (<[k := ADict (list_to_map ((λ e : HTEntry, (kb e, entry_val e)) <$> es) ∪ y)]> m).
Proof.
  revert c m y. induction es as [|e es IH]; intros c m y Hr Hk He Hnd Hn; cbn [update_items length] in *.
  - exists c. split; [done|]. cbn [fmap list_fmap list_to_map foldr]. by rewrite (left_id_L ∅ (∪)), insert_id.
  - destruct (He e) as [[Hkd Hvd] Hfv]; [by left|]. rewrite fmap_cons in Hnd. apply NoDup_cons in Hnd as [Hke Hnd].
    destruct (HashUpdateKV_repr now c m k y (ht_key e) (ht_value e)) as (c1 & -> & Hr1); [done|by left|done..|lia|].
    cbn [mbind option_bind]. edestruct (IH c1) as (c2 & E & Hr2); [exact Hr1|..].
    + apply lookup_insert_eq.
    + intros e' He'. apply He. by right.
    + done.
    + rewrite map_size_insert. destruct (y !! _); cbn; lia.
    + exists c2. split; [done|]. rewrite insert_insert_eq, list_to_map_union_insert in Hr2; [done|].
      by rewrite fst_pairs.
Qed.

Lemma SetAddItem_repr now c m k y xd : kv_repr c m ->
  m !! k = Some (ASet y) \/ m !! k = None /\ y = ∅ -> val_ok xd -> Z.of_nat (size y) < 2 ^ 61 ->
  exists c' b e, SetAddItem now c k xd = Some (c', b, e) /\ kv_repr c' (<[k := ASet ({[ds_data xd]} ∪ y)]> m).
Proof.
  intros Hr Hk Hx Hs. pose proof (found_spec c m k Hr) as Hfd. unfold SetAddItem.
  destruct Hk as [Hk|[Hk ->]]; rewrite Hk in Hfd.
  - destruct Hfd as (o & -> & Ho). rewrite (wrong_type o (ASet y)) by done. types.
    destruct (repr_set o y Ho) as (d & -> & Hd & <-). types. rewrite dom_size in Hs.
    destruct (HashSet_Insert_spec d xd) as (d1 & r & -> & Hd1 & Em & _); try done. types.
    assert (kv_repr (put c k (with_lv_time now (with_ptr (PSet d1) o)))
              (<[k := ASet ({[ds_data xd]} ∪ dom (rmap d))]> m)) as Hput.
    { apply kv_put; [done|by eexists|]. eapply repr_with; [done|done|]. split; [done|].
      by rewrite Em, dom_insert_L. }
    destruct ((r =? EXISTED) || (r =? UNDEFINED)); eauto 6.
  - rewrite Hfd. cbn [as_set ConstructSetObjPtr vo_ptr mbind option_bind].
    destruct (@Rehashable_new_ok HSEntry () _ _) as [Hn0 Hm0].
    destruct (HashSet_Insert_spec (Rehashable_new 1%Q) xd) as (d1 & r & -> & Hd1 & Em & _); try done.
    rewrite Hm0 in Em. types. eexists _, _, _. split; [done|]. apply kv_add; [done|done|].
    split; [done|]. split; [done|]. by rewrite Em, dom_insert_L, dom_empty_L.
Qed.

Lemma add_items_repr now es c m k y : kv_repr c m -> m !! k = Some (ASet y) ->
  (forall e, e ∈ es -> entry_ok e) -> Z.of_nat (size y + length es) < 2 ^ 61 ->
  exists c', add_items now c k es = Some c' /\
    kv_repr c' (<[k := ASet (list_to_set ((kb : HSEntry -> list ascii) <$> es) ∪ y)]> m).
Proof.
  revert c m y. induction es as [|e es IH]; intros c m y Hr Hk He Hn; cbn [add_items length] in *.
  - exists c. split; [done|]. cbn [fmap list_fmap list_to_set]. by rewrite (left_id_L ∅ (∪)), insert_id.
  - destruct (SetAddItem_repr now c m k y (hs_key e)) as (c1 & b & r & -> & Hr1);
      [done|by left|by apply (He e); left|lia|].
    cbn [mbind option_bind]. edestruct (IH c1) as (c2 & E & Hr2); [exact Hr1|..].
    + apply lookup_insert_eq.
    + intros e' He'. apply He. by right.
    + pose proof (size_union_alt {[ds_data (hs_key e)]} y) as Hu.
      pose proof (subseteq_size (y ∖ {[ds_data (hs_key e)]}) y ltac:(set_solver)). rewrite size_singleton in Hu. lia.
    + exists c2. split; [done|]. rewrite insert_insert_eq in Hr2. cbn [fmap list_fmap list_to_set].
      by replace ({[kb e]} ∪ list_to_set (kb <$> es) ∪ y)
        with (list_to_set (kb <$> es) ∪ ({[ds_data (hs_key e)]} ∪ y)) by set_solver.
Qed.

Lemma rents_cons {E A} `{!HashEntry E} `{!EntrySpec E A} (d : Rehashable E) :
  rh_ok d -> rmap d <> ∅ -> exists e es, rents d = e :: es.
Proof.
  intros Hd Hne. pose proof (rh_size d Hd) as Hs. destruct (rents d) as [|e es]; [|eauto].
  exfalso. by apply Hne, map_size_empty_iff.
Qed.

Lemma store_value_repr now c m k v a : kv_repr c m -> m !! k = None -> iv_repr v a -> dumpable a ->
  exists c', store_value now c k v = Some c' /\ kv_repr c' (<[k := a]> m).
Proof.
  intros Hr Hk Hv Ha. destruct v as [n|s|li|hd|hs], a as [n'|s'|l|d|s']; cbn [iv_repr dumpable] in Hv, Ha; try done;
    cbn [store_value].
  - destruct Hv as [<- Hn]. eexists. split; [done|]. by apply SetInt_refines.
  - destruct Hv as [<- Hs]. destruct (SetString_refines now c m k s Hr Hs) as (c' & -> & Hc'). by eexists.
  - destruct Hv as [Hli Hl], Ha as (Hne & _ & Hn). rewrite (RangeAsStdStringVector_repr li l Hli). cbn [mbind option_bind].
    destruct Hl as [|x l Hx Hl]; [done|]. cbn [push_items length] in *.
    destruct (ListPushAux_right now c m k [] x) as (c1 & -> & Hr1); [done|by right|done|cbn; lia|]. cbn [mbind option_bind].
    destruct (push_items_repr now l c1 _ k [x] Hr1) as (c2 & E & Hr2); [apply lookup_insert_eq|done|cbn; lia|].
    rewrite insert_insert_eq in Hr2. eauto.
  - destruct Hv as (Hd & <- & Hf), Ha as (Hne & _ & Hn). pose proof (rh_size hd Hd) as Hsz.
    pose proof (rh_nodup hd Hd) as Hnd. rewrite AllEntries_rspec by (done || (unfold room; lia)). cbn [mbind option_bind].
    assert (forall e, e ∈ rents hd -> entry_ok e /\ fits (entry_val e)) as He.
    { intros e Hin. split; [by eapply rents_entry_ok|]. eapply Hf. apply emap_lookup; eauto. }
    change (rmap hd) with (emap (rents hd)) in *. destruct (rents_cons hd Hd Hne) as (e & es & Er).
    rewrite Er in *. cbn [update_items length] in *. destruct (He e) as [[Hkd Hvd] Hfv]; [by left|].
    rewrite fmap_cons in Hnd. apply NoDup_cons in Hnd as [Hke Hnd].
    destruct (HashUpdateKV_repr now c m k ∅ (ht_key e) (ht_value e)) as (c1 & -> & Hr1); [done|by right|done..|].
    cbn [mbind option_bind]. edestruct (update_items_repr now es c1) as (c2 & E & Hr2); [exact Hr1|apply lookup_insert_eq|..].
    + intros e' He'. apply He. by right.
    + done.
    + rewrite insert_empty, map_size_singleton. lia.
    + exists c2. split; [done|]. rewrite insert_insert_eq, list_to_map_union_insert in Hr2 by (by rewrite fst_pairs).
      by rewrite (right_id_L ∅ (∪)) in Hr2.
  - destruct Hv as (Hd & <-), Ha as (Hne & _ & Hn). rewrite dom_size in Hn. pose proof (rh_size hs Hd) as Hsz.
    rewrite AllEntries_rspec by (done || (unfold room; lia)). cbn [mbind option_bind].
    assert (forall e, e ∈ rents hs -> entry_ok e) as He by (intros e Hin; by eapply rents_entry_ok).
    rewrite rmap_dom in *. destruct (rents_cons hs Hd) as (e & es & Er).
    { intros E0. apply Hne. by rewrite <- rmap_dom, E0, dom_empty_L. }
    rewrite Er in *. cbn [add_items length] in *.
    destruct (SetAddItem_repr now c m k ∅ (hs_key e)) as (c1 & b & r & -> & Hr1); [done|by right|by apply (He e); left|done|].
    cbn [mbind option_bind]. edestruct (add_items_repr now es c1) as (c2 & E & Hr2); [exact Hr1|apply lookup_insert_eq|..].
    + intros e' He'. apply He. by right.
    + rewrite (right_id_L ∅ (∪)), size_singleton. lia.
    + exists c2. split; [done|]. rewrite insert_insert_eq, (right_id_L ∅ (∪)), (comm_L (∪)) in Hr2. done.
Qed.

(** ** The items of a container *)

Section items.
Context {V : Type}.
Implicit Types (bs : list (gmap (list ascii) V)).

Lemma bucket_items_elem bs k v : (k, v) ∈ (b ← bs; map_to_list b) <-> exists i b, bs !! i = Some b /\ b !! k = Some v.
Proof.
  rewrite list_elem_of_bind. split.
  - intros (b & Hkv & Hb). apply list_elem_of_lookup in Hb as [i Hi]. apply elem_of_map_to_list in Hkv. eauto.
  - intros (i & b & Hi & Hk). exists b. split; [by apply elem_of_map_to_list|]. by eapply list_elem_of_lookup_2.
Qed.

(** Keys that are only in the bucket of their hash are listed once. *)
Lemma bucket_items_nodup bs off (h : list ascii -> nat) :
  (forall i b k, bs !! i = Some b -> is_Some (b !! k) -> (off + i)%nat = h k) ->
  NoDup (b ← bs; map_to_list b).*1.
Proof.
  revert off. induction bs as [|b bs IH]; intros off Hh; [constructor|].
  rewrite bind_cons, fmap_app. apply NoDup_app. split; [apply NoDup_fst_map_to_list|]. split.
  - intros k Hk Hk'. apply list_elem_of_fmap in Hk as ([k1 v1] & -> & H1), Hk' as ([k2 v2] & E & H2).
    cbn in E. subst k2. apply elem_of_map_to_list in H1. apply bucket_items_elem in H2 as (i & b' & Hi & Hb').
    pose proof (Hh 0%nat b k1 eq_refl ltac:(by eexists)). pose proof (Hh (S i) b' k1 Hi ltac:(by eexists)). cbn in *. lia.
  - apply (IH (S off)). intros i b' k Hi Hk. rewrite <- (Hh (S i) b' k Hi Hk). lia.
Qed.

Lemma bucket_items_count bs n : 0 <= n -> n + Z.of_nat (length (b ← bs; map_to_list b)) <= UINT64_MAX ->
  foldl (λ cnt b, u64 (cnt + Z.of_nat (size b))) n bs = n + Z.of_nat (length (b ← bs; map_to_list b)).
Proof.
  revert n. induction bs as [|b bs IH]; intros n Hn Hl; [cbn; lia|].
  rewrite bind_cons, length_app, length_map_to_list in *. cbn [foldl].
  rewrite u64_small by (unfold in_u64; lia). rewrite IH; lia.
Qed.
End items.

Lemma all_items_find c m k o : kv_repr c m -> (k, o) ∈ all_items c <-> kv_find c k = Some o.
Proof.
  intros Hr. unfold all_items. rewrite bucket_items_elem. unfold kv_find, GetBucket. split.
  - intros (i & b & Hi & Hb). pose proof (kr_home c m Hr i b k Hi ltac:(by eexists)) as ->. by rewrite Hi.
  - intros Hk. destruct (bucket_ c !! bucket_idx k) as [b|] eqn:E; [eauto|]. cbn in Hk. by rewrite lookup_empty in Hk.
Qed.

(** The items of a container, as keys and abstract values. *)
Lemma all_items_repr c m : kv_repr c m -> exists L, list_to_map L = m /\ NoDup L.*1 /\ length L = size m /\
  Forall2 (λ ko ka, ko.1 = ka.1 /\ vo_repr ko.2 ka.2) (all_items c) L.
Proof.
  intros Hr. set (f := λ ko : list ascii * ValueObject, (ko.1, default (AInt 0) (m !! ko.1))).
  assert ((f <$> all_items c).*1 = (all_items c).*1) as Ef by (by rewrite <- list_fmap_compose).
  assert (NoDup (all_items c).*1) as Hnd by (apply (bucket_items_nodup (bucket_ c) 0 bucket_idx), (kr_home c m Hr)).
  assert (list_to_map (f <$> all_items c) = m) as Em.
  { apply map_eq. intros k. pose proof (kr_find c m Hr k) as Hf. destruct (kv_find c k) as [o|] eqn:Eo; inversion Hf; subst.
    - apply elem_of_list_to_map_1; [by rewrite Ef|]. apply list_elem_of_fmap. exists (k, o). split.
      + unfold f. cbn. by match goal with H : Some _ = m !! k |- _ => rewrite <- H end.
      + by apply (all_items_find c m).
    - apply not_elem_of_list_to_map_1. rewrite Ef. intros ([k' o] & -> & Hin)%list_elem_of_fmap.
      apply (all_items_find c m) in Hin; [|done]. cbn [fst] in Eo. congruence. }
  exists (f <$> all_items c). split; [done|]. split; [by rewrite Ef|]. split.
  - rewrite <- Em, map_size_list_to_map; [done|by rewrite Ef].
  - apply Forall2_fmap_r, Forall_Forall2_diag, Forall_forall. intros [k o] Hin. split; [done|].
    apply (all_items_find c m) in Hin; [|done]. destruct (repr_find c m k o Hr Hin) as (a & Ha & Ho). cbn. by rewrite Ha.
Qed.

Lemma NumItems_repr c m : kv_repr c m -> Z.of_nat (size m) <= UINT64_MAX -> NumItems c = Z.of_nat (size m).
Proof.
  intros Hr Hs. destruct (all_items_repr c m Hr) as (L & _ & _ & Hl & HF). apply Forall2_length in HF.
  unfold NumItems. rewrite bucket_items_count; fold (all_items c); lia.
Qed.

(** ** Entries *)

Section entries.
Context (expires : gmap (list ascii) Z) (now : Z).
Context (Hexp : map_Forall (λ _ w, in_u64 w) expires).

Definition expire_bytes (k : list ascii) : list ascii :=
  match expires !! k with Some w => byte_of_Z 1 :: le_bytes w | None => [byte_of_Z 0] end.

(** An entry of the file. *)
Definition entry_bytes (k : list ascii) (a : aval) (enc : list ascii) : list ascii :=
  [LKVDB_ITEM_START_FLAG; byte_of_Z (atype a)] ++ expire_bytes k ++ enc_str k ++ enc ++ [LKVDB_ITEM_END_FLAG].

Definition key_ok (k : list ascii) : Prop := NUL ∉ k /\ fits k.

Lemma fixed_bytes v : EncodeFixed64BitInteger v (Some (replicate 8 NUL)) = Some (Some (le_bytes v)).
Proof. cbn [EncodeFixed64BitInteger]. by rewrite memcpy_some by (cbn; lia). Qed.

Lemma entry_tail k o a pre : key_ok k -> vo_repr o a -> dumpable a ->
  exists enc, value_enc a enc /\
    ('(_, buf) ← ss_Serialize (Some k) pre; '(_, buf) ← vo_Serialize o buf; Some (buf ++ [LKVDB_ITEM_END_FLAG]))
    = Some (pre ++ enc_str k ++ enc ++ [LKVDB_ITEM_END_FLAG]).
Proof.
  intros [Hk Fk] Ho Ha. unfold ss_Serialize, ss_Length. cbn [default from_option]. unfold id.
  destruct (SerializeCharBuf_spec k pre Fk) as [n1 ->]. cbn [mbind option_bind].
  edestruct (vo_Serialize_enc o a) as (n2 & enc & -> & He); [done..|]. exists enc. split; [done|].
  cbn [mbind option_bind]. unfold enc_str. by rewrite <- !app_assoc.
Qed.

Lemma snapshot_entry_enc k o a : key_ok k -> vo_repr o a -> dumpable a ->
  exists enc, snapshot_entry expires k o = Some (entry_bytes k a enc) /\ value_enc a enc.
Proof.
  intros Hk Ho Ha. unfold snapshot_entry, entry_bytes, expire_bytes. cbv zeta.
  rewrite c_str_no_nul by apply Hk. pose proof Ho as [-> _].
  destruct (expires !! k) as [w|]; [rewrite fixed_bytes|]; cbn [mbind option_bind];
    (edestruct (entry_tail k o a) as (enc & He & ->); [done..|]); exists enc; (split; [|done]); by rewrite <- ?app_assoc.
Qed.

Lemma read_u64_bytes w cursor : in_u64 w -> read_u64 (le_bytes w ++ cursor) = Some (w, cursor).
Proof.
  intros Hw. unfold read_u64. rewrite length_app, le_bytes_length, (proj2 (Nat.ltb_ge _ _)) by lia.
  rewrite (take_app_length' (le_bytes w) _ 8), (drop_app_length' (le_bytes w) _ 8) by done.
  by rewrite le_value_le_bytes, u64_small.
Qed.

Lemma read_flags_bytes k a cursor :
  read_flags (LKVDB_ITEM_START_FLAG :: byte_of_Z (atype a) :: expire_bytes k ++ cursor) =
    Some (atype a, bool_decide (is_Some (expires !! k)), default 0 (expires !! k), cursor).
Proof.
  unfold expire_bytes. pose proof (Hexp k) as Hk. destruct (expires !! k) as [w|]; cbn [app].
  - specialize (Hk w eq_refl). assert (forall n, read_u64 (le_bytes w ++ cursor) = n ->
      read_flags (LKVDB_ITEM_START_FLAG :: byte_of_Z (atype a) :: byte_of_Z 1 :: le_bytes w ++ cursor) =
      '(t, cursor) ← n; Some (atype a, true, t, cursor)) as E by (intros n <-; by destruct a).
    rewrite (E _ (read_u64_bytes w cursor Hk)). by rewrite bool_decide_true by done.
  - rewrite bool_decide_false by (by intros [? ?]). by destruct a.
Qed.

(** Whether the entry of a key is skipped when it is loaded. *)
Definition expired (k : list ascii) : bool :=
  match expires !! k with Some w => w <=? now | None => false end.

(** The expiration times loaded. *)
Definition whens (st : load_state) : gmap (list ascii) Z := tev_when <$> ld_expires st.

Definition next_whens (k : list ascii) (e : gmap (list ascii) Z) : gmap (list ascii) Z :=
  match expires !! k with Some w => if w <=? now then e else <[k:=w]> e | None => e end.

Lemma AddTimerEventToKey_whens st k w : in_u64 w ->
  whens (AddTimerEventToKey now st k (u64 (w - now))) = <[k:=w]> (whens st).
Proof.
  intros Hw. unfold whens, AddTimerEventToKey. cbn. rewrite fmap_insert. f_equal. cbn.
  unfold AddMillSecToNowMillSec, u64, uwrap. rewrite Zplus_mod_idemp_r.
  replace (now + (w - now)) with w by lia. apply Z.mod_small. unfold in_u64, UINT64_MAX in Hw. lia.
Qed.

Lemma load_entry_spec st m k a enc rest : kv_repr (ld_kv st) m -> m !! k = None -> key_ok k -> dumpable a ->
  (forall n, a = AInt n -> in_i64 n) -> value_enc a enc ->
  exists st', load_entry now (entry_bytes k a enc ++ rest) st = Some (st', true, rest) /\
    kv_repr (ld_kv st') (if expired k then m else <[k:=a]> m) /\ whens st' = next_whens k (whens st).
Proof.
  intros Hr Hk [Hn Fk] Ha Hi He. unfold load_entry, entry_bytes. rewrite <- !app_assoc. cbn [app].
  rewrite read_flags_bytes, DecodeStaticString_enc, decide_False by done.
  destruct (decode_value_enc a enc (LKVDB_ITEM_END_FLAG :: rest) He Ha Hi) as (v & -> & Hv).
  cbn [mbind option_bind]. destruct (store_value_repr now (ld_kv st) m k v a Hr Hk Hv Ha) as (c' & Es & Hc').
  unfold expired, next_whens. pose proof (Hexp k) as Hw. destruct (expires !! k) as [w|].
  - rewrite bool_decide_true by done. cbn [default from_option andb negb orb]. unfold id. rewrite orb_false_r.
    specialize (Hw w eq_refl). rewrite Z.gtb_ltb. destruct (Z.ltb_spec now w), (Z.leb_spec w now); try lia.
    + rewrite Es. cbn [mbind option_bind]. eexists. split; [done|]. split; [done|].
      by apply (AddTimerEventToKey_whens (mkLoad c' (ld_timers st) (ld_expires st))).
    + cbn [mbind option_bind]. by eexists.
  - rewrite bool_decide_false by (by intros [? ?]). cbn [andb negb orb]. rewrite Es. cbn [mbind option_bind]. by eexists.
Qed.

(** The store and the times after the entries of [L]. *)
Fixpoint loaded (L : list (list ascii * aval)) (m : astore) : astore :=
  match L with [] => m | (k, a) :: L => loaded L (if expired k then m else <[k:=a]> m) end.

Fixpoint loaded_whens (L : list (list ascii * aval)) (e : gmap (list ascii) Z) : gmap (list ascii) Z :=
  match L with [] => e | (k, _) :: L => loaded_whens L (next_whens k e) end.

Definition int_ok (a : aval) : Prop := forall n, a = AInt n -> in_i64 n.

Lemma load_entries_spec L encs fuel idx len st m :
  Forall2 (λ ka e, exists enc, e = entry_bytes ka.1 ka.2 enc /\ value_enc ka.2 enc) L encs ->
  Forall (λ ka, key_ok ka.1 /\ dumpable ka.2 /\ int_ok ka.2) L -> NoDup L.*1 ->
  kv_repr (ld_kv st) m -> (forall k, k ∈ L.*1 -> m !! k = None) ->
  len = idx - 1 + Z.of_nat (length L) -> (length L <= fuel)%nat ->
  exists st', load_entries fuel (λ _, now) idx len (concat encs) st = Some (st', true) /\
    kv_repr (ld_kv st') (loaded L m) /\ whens st' = loaded_whens L (whens st).
Proof.
  intros HF. revert fuel idx st m.
  induction HF as [|[k a] e L encs (enc & -> & He) HF IH]; intros fuel idx st m HL Hnd Hr Hfr -> Hn; cbn [length] in *.
  - exists st. destruct fuel; cbn [load_entries]; by rewrite (proj2 (Z.leb_gt _ _)) by lia.
  - apply Forall_cons in HL as [(Hk & Ha & Hi) HL]. apply NoDup_cons in Hnd as [Hk' Hnd].
    destruct fuel as [|fuel]; [lia|]. cbn [load_entries concat loaded loaded_whens fst snd].
    rewrite (proj2 (Z.leb_le _ _)) by lia.
    destruct (load_entry_spec st m k a enc (concat encs)) as (st1 & -> & Hr1 & Hw1); try done.
    { apply Hfr. by left. }
    cbn [mbind option_bind]. rewrite <- Hw1. apply IH; [done..| |lia|lia].
    intros k1 Hk1. assert (m !! k1 = None) by (apply Hfr; by right). destruct (expired k); [done|].
    rewrite lookup_insert_ne; [done|]. intros ->. done.
Qed.

Lemma loaded_lookup L m k : NoDup L.*1 ->
  loaded L m !! k =
    match (list_to_map L : astore) !! k with Some a => if expired k then m !! k else Some a | None => m !! k end.
Proof.
  revert m. induction L as [|[k1 a] L IH]; intros m Hnd; [done|]. apply NoDup_cons in Hnd as [Hk Hnd].
  cbn [loaded list_to_map foldr fst snd]. rewrite IH by done. destruct (decide (k1 = k)) as [->|Hne].
  - rewrite (not_elem_of_list_to_map_1 L k) by done. rewrite lookup_insert_eq.
    destruct (expired k); [done|]. by rewrite lookup_insert_eq.
  - rewrite lookup_insert_ne by done. destruct (expired k1); [done|]. by rewrite lookup_insert_ne.
Qed.

Lemma loaded_whens_lookup L e k : NoDup L.*1 ->
  loaded_whens L e !! k =
    match (list_to_map L : astore) !! k with
    | Some _ => if expired k then e !! k else match expires !! k with Some w => Some w | None => e !! k end
    | None => e !! k
    end.
Proof.
  revert e. induction L as [|[k1 a] L IH]; intros e Hnd; [done|]. apply NoDup_cons in Hnd as [Hk Hnd].
  cbn [loaded_whens list_to_map foldr fst snd]. rewrite IH by done. destruct (decide (k1 = k)) as [->|Hne].
  - rewrite (not_elem_of_list_to_map_1 L k) by done. rewrite lookup_insert_eq. unfold next_whens, expired.
    destruct (expires !! k) as [w|]; [|done]. destruct (w <=? now); [done|]. by rewrite lookup_insert_eq.
  - rewrite lookup_insert_ne by done. assert (next_whens k1 e !! k = e !! k) as ->; [|done].
    unfold next_whens. destruct (expires !! k1) as [w|]; [|done]. destruct (w <=? now); [done|]. by rewrite lookup_insert_ne.
Qed.
End entries.

(** ** The round trip *)

Lemma snapshot_entries_enc expires items L :
  Forall2 (λ ko ka, ko.1 = ka.1 /\ vo_repr ko.2 ka.2) items L ->
  Forall (λ ka, key_ok ka.1 /\ dumpable ka.2) L ->
  exists encs, snapshot_entries expires items = Some (concat encs) /\
    Forall2 (λ ka e, exists enc, e = entry_bytes expires ka.1 ka.2 enc /\ value_enc ka.2 enc) L encs.
Proof.
  intros HF. induction HF as [|[k o] [k' a] items L [E Ho] HF IH]; intros HL; [by exists []|].
  cbn in E, Ho. subst k'. apply Forall_cons in HL as [[Hk Ha] HL]. destruct (IH HL) as (encs & E & HE).
  destruct (snapshot_entry_enc expires k o a Hk Ho Ha) as (enc & E1 & H1). cbn [snapshot_entries].
  rewrite E1. cbn [mbind option_bind]. rewrite E. cbn [mbind option_bind].
  exists (entry_bytes expires k a enc :: encs). split; [done|]. constructor; [|done]. eauto.
Qed.

(** A store the snapshot format can hold, with a number of keys that fits in the
    entry count. *)
Definition store_dumpable (m : astore) : Prop :=
  map_Forall (λ k a, key_ok k /\ dumpable a) m /\ Z.of_nat (size m) <= UINT64_MAX.

Definition empty_state : load_state := mkLoad KVContainer_new TimeEventHolder_new ∅.

Lemma repr_int_ok c m k a : kv_repr c m -> m !! k = Some a -> int_ok a.
Proof.
  intros Hr Hk n ->. pose proof (found_spec c m k Hr) as Hf. rewrite Hk in Hf. destruct Hf as (o & _ & Ho).
  by destruct (repr_int o n Ho) as (_ & _ & ?).
Qed.

Lemma entry_bytes_pos expires L encs :
  Forall2 (λ ka e, exists enc, e = entry_bytes expires ka.1 ka.2 enc /\ value_enc ka.2 enc) L encs ->
  (length L <= length (concat encs))%nat.
Proof.
  intros HF. induction HF as [|ka e L encs (enc & -> & _) HF IH]; [done|]. cbn [length concat].
  rewrite length_app. cbn [entry_bytes app length]. lia.
Qed.

Lemma LiteKVLoad_entries clock n entries st : in_u64 n ->
  LiteKVLoad clock (LiteKVSave (le_bytes n ++ entries)) st = load_entries (S (length entries)) clock 1 n entries st.
Proof.
  intros Hn. unfold LiteKVLoad, LiteKVSave. rewrite (drop_app_length' magic_header _ 10) by done.
  rewrite read_u64_bytes by done. done.
Qed.

(** What is saved is loaded. *)
Lemma snapshot_loads c m expires now :
  kv_repr c m -> store_dumpable m -> map_Forall (λ _ w, in_u64 w) expires ->
  exists buf st, Snapshot expires c = Some buf /\
    LiteKVLoad (λ _, now) (LiteKVSave buf) empty_state = Some (st, true) /\
    kv_repr (ld_kv st) (filter (λ kv, expired expires now kv.1 = false) m) /\
    forall k, tev_when <$> ld_expires st !! k =
      if decide (is_Some (m !! k) /\ expired expires now k = false) then expires !! k else None.
Proof.
  intros Hr [Hm Hs] Hexp. destruct (all_items_repr c m Hr) as (L & Em & Hnd & Hl & HF).
  assert (Forall (λ ka, key_ok ka.1 /\ dumpable ka.2 /\ int_ok ka.2) L) as HL.
  { apply Forall_forall. intros [k a] Hin. apply (elem_of_list_to_map_1 L) in Hin; [|done]. rewrite Em in Hin.
    destruct (Hm k a Hin). split; [done|]. split; [done|]. by eapply repr_int_ok. }
  destruct (snapshot_entries_enc expires (all_items c) L HF) as (encs & Es & HE).
  { eapply Forall_impl; [done|]. naive_solver. }
  unfold Snapshot. rewrite (NumItems_repr c m Hr Hs), fixed_bytes, Es. cbn [mbind option_bind].
  destruct (load_entries_spec expires now Hexp L encs (S (length (concat encs))) 1 (Z.of_nat (size m)) empty_state ∅)
    as (st & Eload & Hst & Hw); try done.
  - apply KVContainer_new_repr.
  - lia.
  - apply entry_bytes_pos in HE. lia.
  - eexists _, st. split; [done|]. split.
    + by rewrite LiteKVLoad_entries by (unfold in_u64; lia).
    + split.
      * replace (filter _ m) with (loaded expires now L ∅); [done|]. apply map_eq. intros k.
        rewrite loaded_lookup, Em, map_lookup_filter, lookup_empty by done.
        destruct (m !! k) as [a|]; [|done]. cbn. destruct (expired expires now k) eqn:E; cbn; by rewrite ?E.
      * intros k. rewrite <- lookup_fmap. change (tev_when <$> ld_expires st) with (whens st).
        rewrite Hw, loaded_whens_lookup, Em by done. destruct (m !! k) as [a|].
        -- destruct (expired expires now k); [by rewrite decide_False by naive_solver|].
           rewrite decide_True by done. by destruct (expires !! k).
        -- rewrite decide_False by (by intros [[? ?] _]). done.
Qed.

(** Without expirations all of it. *)
Lemma snapshot_loads_all c m : kv_repr c m -> store_dumpable m ->
  exists buf, Snapshot ∅ c = Some buf /\ forall now, exists st,
    LiteKVLoad (λ _, now) (LiteKVSave buf) empty_state = Some (st, true) /\ kv_repr (ld_kv st) m.
Proof.
  intros Hr Hm. destruct (snapshot_loads c m ∅ 0 Hr Hm (map_Forall_empty _)) as (buf & _ & Es & _). exists buf. split; [done|].
  intros now. destruct (snapshot_loads c m ∅ now Hr Hm (map_Forall_empty _)) as (buf' & st & Es' & El & Hk & _).
  assert (buf' = buf) as -> by congruence. exists st. split; [done|]. rewrite map_filter_id in Hk; [done|].
  intros k a _. unfold expired. cbn. by rewrite lookup_empty.
Qed.

(** C17. A saved store is loaded back. The snapshot of a container whose store the format can
    hold ([store_dumpable]: no list, hash or set is empty or has an empty element,
    src/lkvdb.cpp:136, keys are C strings), written to a file and read at time [now] into an
    empty container, is recognized to its end and gives a container with the same keys and
    values, of every type, without the keys whose expiration time is past; the keys still to
    expire have a timer at the time that was saved. *)
Theorem Snapshot_Load_roundtrip c m expires now :
  kv_repr c m -> store_dumpable m -> map_Forall (λ _ w, in_u64 w) expires ->
  exists buf st, Snapshot expires c = Some buf /\
    LiteKVLoad (λ _, now) (LiteKVSave buf) empty_state = Some (st, true) /\
    kv_repr (ld_kv st) (filter (λ kv, expired expires now kv.1 = false) m) /\
    forall k, tev_when <$> ld_expires st !! k =
      if decide (is_Some (m !! k) /\ expired expires now k = false) then expires !! k else None.
Proof. apply snapshot_loads. Qed.

Lemma Snapshot_Load_roundtrip_witness : exists c m expires, kv_repr c m /\ store_dumpable m /\
  m !! bs "l" = Some (AList [bs "x"]) /\ expires !! bs "n" = Some 5 /\
  exists buf st, Snapshot expires c = Some buf /\
    LiteKVLoad (λ _, 10) (LiteKVSave buf) empty_state = Some (st, true) /\
    kv_repr (ld_kv st) (filter (λ kv, expired expires 10 kv.1 = false) m).
Proof.
  destruct (SetInt_refines 1 KVContainer_new ∅ (bs "n") (-7) KVContainer_new_repr) as [Hr1 _].
  { unfold in_i64, INT64_MIN, INT64_MAX. lia. }
  destruct (ListPushAux_right 1 _ _ (bs "l") [] (bs "x") Hr1) as (c & _ & Hr); [by right|done|done|].
  eexists c, _, {[bs "n" := 5]}. split; [exact Hr|].
  assert (store_dumpable (<[bs "l" := AList ([] ++ [bs "x"])]> (<[bs "n" := AInt (-7)]> ∅))) as Hm.
  { split; [|by vm_compute]. apply map_Forall_insert_2; [|apply map_Forall_insert_2; [|apply map_Forall_empty]].
    - split; [split; [by apply (bool_decide_unpack _)|done]|]. split; [done|]. split; [|done]. by repeat constructor.
    - split; [split; [by apply (bool_decide_unpack _)|done]|done]. }
  split; [exact Hm|]. split; [apply lookup_insert_eq|]. split; [apply lookup_insert_eq|].
  destruct (Snapshot_Load_roundtrip c _ {[bs "n" := 5]} 10 Hr Hm) as (buf & st & E1 & E2 & H3 & _).
  { apply map_Forall_singleton. unfold in_u64, UINT64_MAX. lia. }
  eauto.
Defined.

(** ** Containers without elements *)

Definition no_elements (a : aval) : Prop := a = AList [] \/ a = ADict ∅ \/ a = ASet ∅.

(** They are written as nothing, not even a count. *)
Lemma vo_Serialize_empty o a buf : vo_repr o a -> no_elements a -> exists n, vo_Serialize o buf = Some (n, buf).
Proof.
  intros Ho Ha. unfold vo_Serialize. pose proof Ho as [-> Hp]. destruct Ha as [->|[->| ->]]; types; cbn [ptr_repr] in Hp.
  - destruct (vo_ptr o) as [| |d| |]; try done. unfold DList_Serialize, DList_Empty. fold (DList_Length d).
    rewrite (repr_length d [] Hp). by eexists.
  - destruct (repr_dict o ∅ Ho) as (h & -> & Hh & Em). unfold HashDict_Serialize. cbn [mbind option_bind].
    pose proof (rh_size h Hh) as Hs. rewrite Em, map_size_empty in Hs.
    rewrite Count_zero, <- Hs; [by eexists|done|]. unfold room. by rewrite Em.
  - destruct (repr_set o ∅ Ho) as (h & -> & Hh & Em). unfold HashSet_Serialize. cbn [mbind option_bind].
    pose proof (rh_size h Hh) as Hs. apply dom_empty_iff_L in Em. rewrite Em, map_size_empty in Hs.
    rewrite Count_zero, <- Hs; [by eexists|done|]. unfold room. by rewrite Em.
Qed.

(** The end flag is read as their count, and nothing is left for the end flag. *)
Lemma decode_value_end_flag a : no_elements a -> exists v, decode_value (atype a) [LKVDB_ITEM_END_FLAG] = Some (v, []) /\
  forall now c k, store_value now c k v = Some c.
Proof.
  intros [->|[->| ->]]; eexists; (split; [by vm_compute|]); intros now c k; done.
Qed.

(** C40. A list, hash or set without elements cannot be loaded back: the snapshot of
    a store with one such key, which [hdel], [srem], [lpop] and [rpop] leave behind,
    is refused, and the key is lost. *)
Theorem Snapshot_empty_container_lost c k a now :
  kv_repr c {[k := a]} -> key_ok k -> no_elements a ->
  exists buf, Snapshot ∅ c = Some buf /\
    LiteKVLoad (λ _, now) (LiteKVSave buf) empty_state = Some (empty_state, false).
Proof.
  intros Hr [Hk Fk] Ha. destruct (all_items_repr c _ Hr) as (L & Em & Hnd & Hl & HF).
  rewrite map_size_singleton in Hl. destruct L as [|[k' a'] [|]]; try done.
  assert (k' = k /\ a' = a) as [-> ->].
  { cbn [list_to_map foldr fst snd] in Em. rewrite insert_empty in Em. split; [|].
    all: assert (({[k' := a']} : astore) !! k = Some a) as E by (rewrite Em; apply lookup_singleton_eq);
      by apply lookup_singleton_Some in E as [-> ->]. }
  inversion HF as [|[k' o] ? items ? [E Ho] HF' Eit]; subst. inversion HF'; subst. cbn in E, Ho. subst k'.
  unfold Snapshot. rewrite (NumItems_repr c _ Hr), <- Eit, map_size_singleton, fixed_bytes by (by rewrite map_size_singleton).
  cbn [mbind option_bind snapshot_entries]. unfold snapshot_entry. rewrite lookup_empty. cbn [mbind option_bind].
  unfold ss_Serialize, ss_Length. cbn [default from_option]. unfold id.
  edestruct (SerializeCharBuf_spec k) as [n1 ->]; [done|]. cbn [mbind option_bind].
  edestruct (vo_Serialize_empty o a) as [n2 ->]; [done..|]. cbn [mbind option_bind]. eexists. split; [done|].
  pose proof Ho as [-> _]. rewrite LiteKVLoad_entries by (unfold in_u64, UINT64_MAX; lia). rewrite <- !app_assoc.
  cbn [app length load_entries Z.leb Z.compare Z.of_nat Pos.of_succ_nat Pos.compare Pos.compare_cont].
  rewrite (app_assoc (varint _) k). fold (enc_str k). unfold load_entry.
  change (byte_of_Z 0 :: ?l) with (expire_bytes ∅ k ++ l).
  rewrite (read_flags_bytes ∅ (map_Forall_empty _) k a), lookup_empty.
  rewrite DecodeStaticString_enc, decide_False by done. cbn [app].
  destruct (decode_value_end_flag a Ha) as (v & -> & Hv). cbn [mbind option_bind]. rewrite Hv. done.
Qed.

Lemma Snapshot_empty_container_lost_witness : exists c, kv_repr c {[bs "h" := ADict ∅]} /\
  exists buf, Snapshot ∅ c = Some buf /\
    LiteKVLoad (λ _, 10) (LiteKVSave buf) empty_state = Some (empty_state, false).
Proof.
  assert (kv_repr (add KVContainer_new (bs "h") (ConstructHashObjPtr 1)) {[bs "h" := ADict ∅]}) as Hr.
  { rewrite <- insert_empty. apply kv_add; [apply KVContainer_new_repr|done|]. split; [done|]. apply Rehashable_new_ok. }
  eexists. split; [exact Hr|]. apply (Snapshot_empty_container_lost _ (bs "h") (ADict ∅) 10 Hr).
  - split; [by apply (bool_decide_unpack _)|done].
  - by right; left.
Defined.
