(* ===== verification/Persistence.v ===== *)
(** * Persistence: the append-only file (src/persistence.h, persistence.cpp)

    The file is the list of its bytes. Commands are put in a cache by the thread that serves
    them and written to the file by a worker thread. Here are the calls as one thread sees
    them when no other runs in between: [aof_Append], which the commands of the engine call
    one after the other, and [Flush]. AofThreads interleaves the two threads at every access
    to what they share, and shows that a call that is not interrupted does what is said here
    ([Append_alone], [Flush_alone]); everything that is said about files and restarts is
    about the interleaved accesses. [CommonOperation] reads a file back through a [Buffer]
    and the request parser. *)

From S2P Require Import Prelude Numerals Str Buffer Protocol.
From stdpp Require Import list.

Local Open Scope Z_scope.

(** ** The file and its two caches *)

Record AppendableFile := mkAof {
  location_ : list ascii;                (* the contents of the file *)
  cache_max_size_ : Z;                   (* size_t *)
  cur_caches_ : list CommandCache;
  backup_caches_ : list CommandCache;
  auto_flush_ : bool;
  stopped_ : bool
}.

Definition AppendableFile_new (file : list ascii) (cache_size : Z) (auto_flush : bool) : AppendableFile :=
  mkAof file cache_size [] [] auto_flush false.

Definition Switch (a : AppendableFile) : AppendableFile :=
  mkAof (location_ a) (cache_max_size_ a) (backup_caches_ a) (cur_caches_ a) (auto_flush_ a) (stopped_ a).

(** [Append], when the worker does nothing meanwhile: the test of the size, [Switch], and
    [push_back] on the current cache. Waking the worker up is not an effect on the data. *)
Definition aof_Append (a : AppendableFile) (cache : CommandCache) : AppendableFile :=
  let a := if Z.of_nat (length (cur_caches_ a)) >=? cache_max_size_ a then Switch a else a in
  mkAof (location_ a) (cache_max_size_ a) (cur_caches_ a ++ [cache]) (backup_caches_ a)
    (auto_flush_ a) (stopped_ a).

Definition SetAutoFlush (a : AppendableFile) (on : bool) : AppendableFile :=
  mkAof (location_ a) (cache_max_size_ a) (cur_caches_ a) (backup_caches_ a) on (stopped_ a).

(** [Flush]; [opened] is what [OpenLocationFile] answers. *)
Definition Flush (opened : bool) (a : AppendableFile) : AppendableFile :=
  if bool_decide (backup_caches_ a = []) && bool_decide (cur_caches_ a = []) then a
  else
    let a := if bool_decide (backup_caches_ a = []) then Switch a else a in
    if opened then
      mkAof (location_ a ++ concat (ToProtocolString <$> backup_caches_ a)) (cache_max_size_ a)
        (cur_caches_ a) [] (auto_flush_ a) (stopped_ a)
    else a.

(** ** Reading a file back *)

Definition RESTORE_AOF_READ_BUF_SIZE : Z := 1024 * 64.

Section CommonOperation.

(** What is done with a command; it may change it ([CommandCache &]), but the
    cache is cleared after it. *)
Context {S : Type}.
Variable whattodo : S -> CommandCache -> option S.

(** [while (TryParseFromBuffer(buffer, cache, err))]; a successful call consumes
    bytes. *)
Fixpoint drain (fuel : nat) (buffer : Buffer) (cache : CommandCache) (err0 : bool) (s : S)
    : option (Buffer * CommandCache * S) :=
  match fuel with
  | O => None
  | Datatypes.S fuel =>
      p ← TryParseFromBuffer buffer cache err0;
      if ret p then
        s ← whattodo s (pcache p);
        drain fuel (pbuf p) cache_Clear (err p) s
      else Some (pbuf p, pcache p, s)
  end.

Definition drain_all (buffer : Buffer) (cache : CommandCache) (s : S) : option (Buffer * CommandCache * S) :=
  drain (Datatypes.S (Z.to_nat (ReadableBytes buffer))) buffer cache false s.

(** The loop over what [ifs.read] delivers. *)
Fixpoint read_chunks (chunks : list (list ascii)) (buffer : Buffer) (cache : CommandCache) (s : S)
    : option (Buffer * CommandCache * S) :=
  match chunks with
  | [] => Some (buffer, cache, s)
  | buf :: chunks =>
      if bool_decide (buf = []) then Some (buffer, cache, s)
      else
        buffer ← buf_Append buffer buf (i32 (Z.of_nat (length buf)));
        '(buffer, cache, s) ← drain_all buffer cache s;
        read_chunks chunks buffer cache s
  end.

(** [CommonOperation] on a file delivered in these pieces. (The second loop's
    [err] is not initialised; the parser's result does not depend on it.) *)
Definition CommonOperation (chunks : list (list ascii)) (s : S) : option S :=
  '(buffer, cache, s) ← read_chunks chunks (Buffer_new 64) cache_Clear s;
  if ReadableBytes buffer >? 0 then
    '(_, _, s) ← drain_all buffer cache s;
    Some s
  else Some s.

End CommonOperation.

(** [ReadFromScratch()] without an engine: the commands of the file. *)
Definition ReadFromScratch (chunks : list (list ascii)) : option (list CommandCache) :=
  CommonOperation (λ ans cache, Some (ans ++ [cache])) chunks [].
