(* ===== verification/PersistenceFacts.v ===== *)
(** * PersistenceFacts: what the append-only file keeps

    The order that is lost when the caches are swapped too early, and reading a file back:
    the parser in the middle of a request, and exactly the commands of the file. *)

From S2P Require Import Prelude Numerals Str Buffer Protocol Persistence.
From stdpp Require Import list.

Local Open Scope Z_scope.

(** The bytes of a list of commands. *)
Definition print_all (cs : list CommandCache) : list ascii := concat (ToProtocolString <$> cs).

Lemma print_all_app a b : print_all (a ++ b) = print_all a ++ print_all b.
Proof. unfold print_all. by rewrite fmap_app, concat_app. Qed.

Definition cmd (args : list (list ascii)) : CommandCache := request args.
Definition set1 : CommandCache := cmd [bs "set"; bs "k"; bs "1"].
Definition set2 : CommandCache := cmd [bs "set"; bs "k"; bs "2"].

(** ** When the worker does not keep up *)

(** When the current cache fills up before the worker has emptied the other,
    the two are swapped and the older commands are the ones appended to: the
    worker then writes the newer commands first. *)
Lemma aof_reorders (a : AppendableFile) (c : CommandCache) :
  cache_max_size_ a <= Z.of_nat (length (cur_caches_ a)) -> cur_caches_ a <> [] -> backup_caches_ a <> [] ->
  location_ (Flush true (Flush true (aof_Append a c))) =
    location_ a ++ print_all (cur_caches_ a) ++ print_all (backup_caches_ a) ++ ToProtocolString c.
Proof.
  intros Hm Hc Hb. unfold aof_Append. rewrite Z.geb_leb, (proj2 (Z.leb_le _ _) Hm). unfold Flush at 2.
  cbn [Switch backup_caches_ cur_caches_ location_ cache_max_size_ auto_flush_ stopped_].
  rewrite (bool_decide_false (cur_caches_ a = [])) by done. cbn [andb].
  unfold Flush, Switch. cbn [backup_caches_ cur_caches_ location_].
  rewrite (bool_decide_true ([] = [])), bool_decide_false by (done || by destruct (backup_caches_ a)). cbn.
  rewrite fmap_app, concat_app. cbn. by rewrite app_nil_r, <- app_assoc.
Qed.

(** The last value set comes first in the file. *)
Definition set3 : CommandCache := cmd [bs "set"; bs "k"; bs "3"].

Lemma aof_reorders_witness :
  let a := aof_Append (aof_Append (AppendableFile_new [] 1 true) set1) set2 in
  location_ (Flush true (Flush true (aof_Append a set3))) = print_all [set2] ++ print_all [set1] ++ ToProtocolString set3.
Proof.
  apply (aof_reorders (aof_Append (aof_Append (AppendableFile_new [] 1 true) set1) set2) set3); [by vm_compute|done..].
Defined.

(** ** The parser in the middle of a file

    The cache a call gets may hold arguments of a request cut before. *)

(** A complete request, the cache being free of arguments. *)
Lemma TryParse_complete b args rest c e : argv c = [] ->
  buf_repr b (ToProtocolString (request args) ++ rest) ->
  exists b', TryParseFromBuffer b c e = Some (mkParsed true e b' (request args)) /\
    buf_repr b' rest /\ WritableBytes b' = WritableBytes b.
Proof.
  intros Hc Hb. pose proof (buf_repr_bound _ _ Hb) as Hbd.
  assert (ToProtocolString (request args) ++ rest =
          "*"%char :: to_string (Z.of_nat (length args)) ++ CRLF ++ concat (print_item <$> args) ++ rest)
    as HR by (unfold ToProtocolString; cbn; by rewrite <- !app_assoc).
  pose proof (length_items args) as Hli.
  assert (Z.of_nat (length args) <= INT64_MAX) as Hn.
  { rewrite HR in Hbd. cbn [length] in Hbd. rewrite !length_app in Hbd. lia. }
  destruct (TryParse_header b _ c e _ _ Hb HR Hn) as [Hd ->].
  rewrite (parse_args_all b _ e args _ _ _ rest Hb); [|lia|done|rewrite HR; cbn [length]; rewrite !length_app; lia].
  cbn [mbind option_bind inited argc argv]. rewrite Hc. cbn [app]. rewrite Z.eqb_refl. cbn [negb].
  eexists. split; [done|]. apply (drop_app_at _ _ rest) in Hd; [|lia]. rewrite <- Hd.
  split; [apply ReaderIdxForward_repr; [done|lia]|done].
Qed.

(** Left-over arguments make the count wrong: the request stays, the cache is cleared. *)
Lemma TryParse_leftover b args rest c e : argv c <> [] ->
  buf_repr b (ToProtocolString (request args) ++ rest) ->
  TryParseFromBuffer b c e = Some (mkParsed false e b cache_Clear).
Proof.
  intros Hc Hb. pose proof (buf_repr_bound _ _ Hb) as Hbd. pose proof (length_pos _ Hc).
  assert (ToProtocolString (request args) ++ rest =
          "*"%char :: to_string (Z.of_nat (length args)) ++ CRLF ++ concat (print_item <$> args) ++ rest)
    as HR by (unfold ToProtocolString; cbn; by rewrite <- !app_assoc).
  pose proof (length_items args) as Hli.
  assert (Z.of_nat (length args) <= INT64_MAX) as Hn.
  { rewrite HR in Hbd. cbn [length] in Hbd. rewrite !length_app in Hbd. lia. }
  destruct (TryParse_header b _ c e _ _ Hb HR Hn) as [Hd ->].
  rewrite (parse_args_all b _ e args _ _ _ rest Hb); [|lia|done|rewrite HR; cbn [length]; rewrite !length_app; lia].
  cbn [mbind option_bind inited argc argv]. rewrite length_app.
  by destruct (Z.eqb_spec (Z.of_nat (length args)) (Z.of_nat (length (argv c) + length args))); [lia|].
Qed.

(** A request cut short: nothing is executed and no byte is consumed. *)
Lemma TryParse_prefix b args p q c e : buf_repr b p -> 0 < WritableBytes b ->
  ToProtocolString (request args) = p ++ q -> q <> [] -> Z.of_nat (length (p ++ q)) <= INT64_MAX ->
  exists e' c', TryParseFromBuffer b c e = Some (mkParsed false e' b c') /\ (length p <> 1%nat -> e' = e).
Proof.
  intros Hb Hw E Hq Hn. destruct (decide (2 <= length p)%nat) as [H2|H2].
  - rewrite <- E in Hn. destruct (items_small _ Hn) as [Hall Hlen].
    rewrite ToProtocolString_request in E. destruct (app_cut _ _ _ _ E) as [(k & Hk & Ek)|(k & -> & Ek)].
    { exists e, cache_Clear. split; [by eapply TryParse_cut_header|done]. }
    assert (header (length args) ++ k = "*"%char :: to_string (Z.of_nat (length args)) ++ CRLF ++ k)
      as HR by (unfold header; cbn; by rewrite <- app_assoc).
    destruct (TryParse_header b _ c e _ _ Hb HR Hlen) as [Hd ->].
    destruct (parse_args_prefix b _ e q args Hb Hw Hall Hq (S (length (header (length args) ++ k)))
                (mkCache (inited c) (Z.of_nat (length args)) (argv c))
                (Z.of_nat (3 + length (to_string (Z.of_nat (length args))))) k ltac:(rewrite length_app; lia)
                ltac:(split; [apply Nat2Z.is_nonneg|]; rewrite HR; cbn; rewrite !length_app; cbn; lia)
                Hd Ek) as (c' & -> & _).
    by exists e, c'.
  - unfold TryParseFromBuffer. rewrite (buf_repr_readable _ _ Hb).
    destruct p as [|x [|y p]]; [by exists e, c| |cbn in H2; lia].
    rewrite ToProtocolString_request in E. unfold header in E. injection E as <- _. cbn [length].
    change (Z.of_nat 1 <=? 0) with false. rewrite (ReadStdString_repr _ _ _ Hb) by lia.
    cbn. rewrite (ReadLongFrom_end _ _ _ Hb) by (cbn; lia). cbn. eexists _, _. split; [done|]. by intros [].
Qed.

(** ** Reading a file back *)

(** The commands one after the other. *)
Fixpoint run_all {S : Type} (whattodo : S -> CommandCache -> option S) (s : S)
    (cmds : list (list (list ascii))) : option S :=
  match cmds with
  | [] => Some s
  | args :: cmds => s ← whattodo s (request args); run_all whattodo s cmds
  end.

Lemma run_all_app {S} (whattodo : S -> CommandCache -> option S) ds ds' s :
  run_all whattodo s (ds ++ ds') = (s' ← run_all whattodo s ds; run_all whattodo s' ds').
Proof. revert s. induction ds as [|d ds IH]; intros s; cbn [run_all app mbind option_bind]; [done|].
  destruct (whattodo s (request d)); [apply IH|done].
Qed.

Definition file_of (cmds : list (list (list ascii))) : list ascii := print_all (request <$> cmds).

Lemma file_of_cons args cmds : file_of (args :: cmds) = ToProtocolString (request args) ++ file_of cmds.
Proof. done. Qed.

(** What the buffer holds begins a request that is not complete. *)
Definition cut_request (R : list ascii) (cmds : list (list (list ascii))) : Prop :=
  exists args cmds' q, cmds = args :: cmds' /\ q <> [] /\ ToProtocolString (request args) = R ++ q.

(** Between two reads: the rest of the file is the buffer and what is still to be
    read, and arguments are left over only from a cut request. *)
Record reading (b : Buffer) (c : CommandCache) (R rest : list ascii) (cmds : list (list (list ascii))) : Prop := {
  rd_repr : buf_repr b R;
  rd_file : R ++ rest = file_of cmds;
  rd_cache : argv c = [] \/ cut_request R cmds
}.

Lemma request_nonempty args : (0 < length (ToProtocolString (request args)))%nat.
Proof. rewrite ToProtocolString_request. cbn. lia. Qed.

Lemma file_of_length cmds : (length cmds <= length (file_of cmds))%nat.
Proof.
  induction cmds as [|args cmds IH]; [done|]. rewrite file_of_cons, length_app.
  pose proof (request_nonempty args). cbn [length]. lia.
Qed.

Lemma file_of_nil cmds : file_of cmds = [] -> cmds = [].
Proof. intros E. pose proof (file_of_length cmds) as H. rewrite E in H. destruct cmds; [done|cbn in H; lia]. Qed.

(** Nothing of what the buffer holds can be executed: it is empty, or a cut
    request. *)
Definition stuck (R : list ascii) (cmds : list (list (list ascii))) : Prop := R = [] \/ cut_request R cmds.

(** The parser called again and again, the cache cleared after each request: the
    requests it finds, what it leaves, and whether it reports an error in the end. *)
Inductive parses : Buffer -> CommandCache -> list (list (list ascii)) -> Buffer -> CommandCache -> bool -> Prop :=
  | parses_stop b c b' c' er :
      TryParseFromBuffer b c false = Some (mkParsed false er b' c') -> parses b c [] b' c' er
  | parses_more b c args b1 ds b' c' er :
      TryParseFromBuffer b c false = Some (mkParsed true false b1 (request args)) ->
      parses b1 cache_Clear ds b' c' er -> parses b c (args :: ds) b' c' er.

Lemma parses_drain {S : Type} (whattodo : S -> CommandCache -> option S) b c ds b' c' er : parses b c ds b' c' er ->
  forall fuel s, (length ds < fuel)%nat ->
  drain whattodo fuel b c false s = (s' ← run_all whattodo s ds; Some (b', c', s')).
Proof.
  intros H. induction H as [b c b' c' er E|b c args b1 ds b' c' er E H IH]; intros fuel s Hf;
    (destruct fuel as [|fuel]; [lia|]); cbn [drain]; rewrite E; [done|]. cbn [mbind option_bind ret pbuf pcache err run_all].
  destruct (whattodo s (request args)) as [s'|]; [|done]. cbn [mbind option_bind]. apply IH. cbn in Hf. lia.
Qed.

(** The commands [ds] are found and the rest is left to the next read; if [full],
    nothing is left that could be executed. There is no error, unless a single byte
    is left. *)
Definition drained (full : bool) (b : Buffer) (c : CommandCache) (rest : list ascii)
    (cmds : list (list (list ascii))) : Prop :=
  exists b' c' R' ds todo er, cmds = ds ++ todo /\ reading b' c' R' rest todo /\
    (full = true -> stuck R' todo) /\ WritableBytes b' = WritableBytes b /\
    parses b c ds b' c' er /\ (length R' <> 1%nat -> er = false).

Lemma drained_stop (full : bool) b c c' e' R rest cmds :
  TryParseFromBuffer b c false = Some (mkParsed false e' b c') -> (length R <> 1%nat -> e' = false) ->
  reading b c' R rest cmds -> (full = true -> stuck R cmds) -> drained full b c rest cmds.
Proof.
  intros E He Hr Hs. exists b, c', R, [], cmds, e'. do 4 (split; [done|]). split; [by constructor|done].
Qed.

Lemma file_of_app cmds cmds' : file_of (cmds ++ cmds') = file_of cmds ++ file_of cmds'.
Proof. unfold file_of. by rewrite fmap_app, print_all_app. Qed.

Lemma cut_short {A} (R k P W : list A) : k <> [] -> P = R ++ k -> R ++ [] <> P ++ W.
Proof. intros Hk -> E. pose proof (length_pos _ Hk). apply (f_equal length) in E. rewrite !length_app in E. cbn in E. lia. Qed.

(** From a buffer whose cache has no left-over arguments. *)
Lemma drain_clear cmds : forall b c R rest,
  buf_repr b R -> R ++ rest = file_of cmds -> argv c = [] ->
  0 < WritableBytes b \/ rest = [] -> Z.of_nat (length (file_of cmds)) <= INT64_MAX ->
  drained true b c rest cmds.
Proof.
  induction cmds as [|args cmds IH]; intros b c R rest Hb E Hc Hw Hn.
  { destruct (app_nil R rest) as [[-> ->] _]; [done|].
    apply (drained_stop _ _ _ c false []); [|done|by split; [| |left]|by left].
    unfold TryParseFromBuffer. by rewrite (buf_repr_readable _ _ Hb). }
  rewrite file_of_cons in E, Hn. rewrite length_app in Hn.
  destruct (app_cut R rest _ _ (eq_sym E)) as [(k & Hk & Ek)|(k & -> & Ek)].
  - destruct Hw as [Hw| ->]; [|by destruct (cut_short R k _ (file_of cmds) Hk Ek)].
    destruct (TryParse_prefix b args R k c false Hb Hw Ek Hk) as (e' & c' & Ep & He); [rewrite <- Ek; lia|].
    assert (cut_request R (args :: cmds)) by (by exists args, cmds, k).
    eapply drained_stop; [exact Ep|exact He| |by right]. split; [done|by rewrite file_of_cons|by right].
  - destruct (TryParse_complete b args k c false Hc Hb) as (b' & Ep & Hb' & Ew).
    destruct (IH b' cache_Clear k rest) as (b2 & c2 & R2 & ds & todo & er & -> & Hr & Hs & Ew2 & Hd & He);
      [done|by rewrite Ek|done|rewrite Ew; tauto|lia|].
    exists b2, c2, R2, (args :: ds), todo, er. do 3 (split; [done|]). split; [by rewrite Ew2|]. split; [by econstructor|done].
Qed.

(** A request that is still cut. *)
Lemma drain_cut b c R rest cmds : cut_request R cmds -> buf_repr b R -> R ++ rest = file_of cmds ->
  0 < WritableBytes b \/ rest = [] -> Z.of_nat (length (file_of cmds)) <= INT64_MAX ->
  drained true b c rest cmds.
Proof.
  intros Hcut Hb E Hw Hn. pose proof Hcut as (args & cmds' & q & -> & Hq & Eq). rewrite file_of_cons in Hn.
  rewrite length_app in Hn. rewrite file_of_cons in E. destruct Hw as [Hw| ->]; [|by destruct (cut_short R q _ (file_of cmds') Hq Eq)].
  destruct (TryParse_prefix b args R q c false Hb Hw Eq Hq) as (e' & c' & Ep & He); [rewrite <- Eq; lia|].
  eapply drained_stop; [exact Ep|exact He| |by right]. split; [done|by rewrite file_of_cons|by right].
Qed.

Lemma drained_weaken full b c rest cmds : drained true b c rest cmds -> drained full b c rest cmds.
Proof.
  intros (b' & c' & R' & ds & todo & er & E & Hr & Hs & H). exists b', c', R', ds, todo, er.
  do 2 (split; [done|]). split; [intros _; by apply Hs|done].
Qed.

(** The next piece is appended to what was there. *)
Lemma drain_reading cmds b c R0 R rest :
  argv c = [] \/ cut_request R0 cmds -> (exists p, R = R0 ++ p) ->
  buf_repr b R -> R ++ rest = file_of cmds ->
  0 < WritableBytes b \/ rest = [] -> Z.of_nat (length (file_of cmds)) <= INT64_MAX ->
  drained false b c rest cmds.
Proof.
  intros Hc [p Hp] Hb E Hw Hn.
  destruct (decide (argv c = [])) as [Hc0|Hc0]; [apply drained_weaken; by eapply drain_clear|].
  destruct Hc as [?|(args & cmds' & q & -> & Hq & Eq)]; [done|].
  destruct (app_cut R rest _ _ (eq_sym E)) as [(k & Hk & Ek)|(k & -> & Ek)].
  - apply drained_weaken. apply (drain_cut _ _ R); [|done..]. by exists args, cmds', k.
  - eapply drained_stop; [by eapply TryParse_leftover|done| |done]. split; [done|done|by left].
Qed.

(** Without a new piece everything that can be is executed. *)
Lemma drain_last cmds b c R rest : reading b c R rest cmds ->
  0 < WritableBytes b \/ rest = [] -> Z.of_nat (length (file_of cmds)) <= INT64_MAX ->
  drained true b c rest cmds.
Proof.
  intros [Hb E Hc] Hw Hn. destruct Hc as [Hc|Hc]; [by eapply drain_clear|by eapply drain_cut].
Qed.

(** There are no more requests than bytes. *)
Lemma found_bytes R R' rest ds todo : R ++ rest = file_of (ds ++ todo) -> R' ++ rest = file_of todo ->
  R = file_of ds ++ R' /\ (length ds <= length R)%nat.
Proof.
  intros E E'. rewrite file_of_app, <- E', app_assoc in E. apply app_inv_tail in E. split; [done|].
  rewrite E, length_app. pose proof (file_of_length ds). lia.
Qed.

(** Every append has room and leaves a spare byte behind the ones it stores (a
    number at the very end of the block is scanned past it), except the last if the
    file then is complete: [t] is what it lacks. *)
Fixpoint room (t : list ascii) (chunks : list (list ascii)) (b : Buffer) (c : CommandCache) : Prop :=
  match chunks with
  | [] => True
  | buf :: chunks =>
      buf_op_ok b (BAppend buf) /\
      match buf_Append_std b buf with
      | None => False
      | Some b =>
          (0 < WritableBytes b \/ chunks = [] /\ t = []) /\
          match drain_all (λ _ _, Some tt) b c tt with
          | None => False
          | Some (b, c, _) => room t chunks b c
          end
      end
  end.

Lemma run_all_true ds : run_all (λ (_ : unit) _, Some tt) tt ds = Some tt.
Proof. by induction ds. Qed.

Lemma read_chunks_all chunks : forall b c R t cmds,
  Forall (λ p, p <> []) chunks -> reading b c R (concat chunks ++ t) cmds -> room t chunks b c ->
  0 < WritableBytes b \/ t = [] -> Z.of_nat (length (file_of cmds)) <= INT64_MAX ->
  exists b' c' R' ds todo, cmds = ds ++ todo /\ reading b' c' R' t todo /\ (0 < WritableBytes b' \/ t = []) /\
    forall (S : Type) (whattodo : S -> CommandCache -> option S) (s : S),
      read_chunks whattodo chunks b c s = (s' ← run_all whattodo s ds; Some (b', c', s')).
Proof.
  induction chunks as [|p chunks IH]; intros b c R t cmds Hne [Hb E Hc] Hroom Hw0 Hn.
  { exists b, c, R, [], cmds. split; [done|]. by split. }
  apply Forall_cons in Hne as [Hp Hne]. cbn [room] in Hroom. destruct Hroom as [Hop Hroom].
  destruct (buf_exec_refines _ _ _ Hb Hop) as (b1 & Eb1 & Hb1). cbn [buf_exec queue_step fst snd] in Eb1, Hb1.
  destruct (buf_Append_std b p) as [b1'|] eqn:Ea; [|done]. injection Eb1 as ->. destruct Hroom as [Hw Hroom].
  cbn [concat] in E. rewrite <- app_assoc, app_assoc in E.
  destruct (drain_reading cmds b1 c R (R ++ p) (concat chunks ++ t) Hc ltac:(by exists p) Hb1 E
             ltac:(destruct Hw as [?|[-> ->]]; [by left|by right]) Hn)
    as (b2 & c2 & R2 & ds & todo & er & -> & Hr & _ & Ew & Hd & _).
  assert (forall S whattodo s, drain_all (S := S) whattodo b1 c s = (s' ← run_all whattodo s ds; Some (b2, c2, s')))
    as Hall.
  { intros. apply (parses_drain _ _ _ _ _ _ _ Hd). rewrite (buf_repr_readable _ _ Hb1), Nat2Z.id.
    pose proof (found_bytes _ _ _ _ _ E (rd_file _ _ _ _ _ Hr)). lia. }
  rewrite Hall, run_all_true in Hroom. cbn in Hroom. rewrite file_of_app, length_app in Hn.
  destruct (IH b2 c2 R2 t todo Hne Hr Hroom) as (b3 & c3 & R3 & ds' & todo' & -> & Hr' & Hw' & Hd'); [rewrite Ew; tauto|lia|].
  exists b3, c3, R3, (ds ++ ds'), todo'. split; [by rewrite app_assoc|]. do 2 (split; [done|]).
  intros S whattodo s. cbn [read_chunks]. rewrite bool_decide_false by done.
  change (buf_Append b p _) with (buf_Append_std b p). rewrite Ea. cbn [mbind option_bind].
  rewrite Hall, run_all_app. destruct (run_all whattodo s ds) as [s'|]; [|done]. cbn [mbind option_bind]. apply Hd'.
Qed.

(** A piece the file is read in fits into a new buffer. *)
Lemma one_read_fits (p : list ascii) : Z.of_nat (length p) <= RESTORE_AOF_READ_BUF_SIZE -> buf_op_ok (Buffer_new 64) (BAppend p).
Proof.
  change RESTORE_AOF_READ_BUF_SIZE with 65536. intros H. split; [unfold fits, INT32_MAX; lia|]. split; [apply andb_false_r|].
  change (Capacity (Buffer_new 64)) with 64. unfold INT64_MAX. lia.
Qed.

(** There is always room for a complete file that is read in one piece. *)
Lemma one_piece_room (cmds : list (list (list ascii))) :
  Z.of_nat (length (file_of cmds)) <= RESTORE_AOF_READ_BUF_SIZE -> room [] [file_of cmds] (Buffer_new 64) cache_Clear.
Proof.
  intros Hn. pose proof (one_read_fits _ Hn) as Hop. change RESTORE_AOF_READ_BUF_SIZE with 65536 in Hn. cbn [room].
  assert (buf_repr (Buffer_new 64) []) as Hb by (by apply Buffer_new_repr; unfold INT64_MAX).
  destruct (buf_exec_refines _ _ _ Hb Hop) as (b1 & Eb1 & Hb1). cbn [buf_exec queue_step fst snd app] in Eb1, Hb1.
  split; [done|]. destruct (buf_Append_std _ _) as [b|]; [|done]. injection Eb1 as ->. split; [by right|].
  destruct (drain_clear cmds b1 cache_Clear (file_of cmds) []) as (b2 & c2 & R2 & ds & todo & er & E & Hr & _ & _ & Hd & _);
    [done|by rewrite app_nil_r|done|by right|unfold INT64_MAX; lia|].
  assert (drain_all (λ _ _, Some tt) b1 cache_Clear tt = (s' ← run_all (λ _ _, Some tt) tt ds; Some (b2, c2, s'))) as ->;
    [|by rewrite run_all_true].
  apply (parses_drain _ _ _ _ _ _ _ Hd). rewrite (buf_repr_readable _ _ Hb1), Nat2Z.id. subst cmds.
  pose proof (found_bytes (file_of (ds ++ todo)) R2 [] ds todo ltac:(by rewrite app_nil_r) (rd_file _ _ _ _ _ Hr)). lia.
Qed.

Lemma CommonOperation_cut {S : Type} (whattodo : S -> CommandCache -> option S) (s : S)
    (cmds : list (list (list ascii))) (chunks : list (list ascii)) (t : list ascii) :
  concat chunks ++ t = file_of cmds -> Forall (λ p, p <> []) chunks -> room t chunks (Buffer_new 64) cache_Clear ->
  Z.of_nat (length (file_of cmds)) <= INT64_MAX ->
  exists ds todo R, cmds = ds ++ todo /\ concat chunks = file_of ds ++ R /\ stuck R todo /\
    CommonOperation whattodo chunks s = run_all whattodo s ds.
Proof.
  intros E Hne Hroom Hn.
  destruct (read_chunks_all chunks (Buffer_new 64) cache_Clear [] t cmds Hne)
    as (b & c & R & ds & todo & -> & Hr & Hw & Hrun); [|done|by left|done|].
  { split; [by apply Buffer_new_repr; unfold INT64_MAX|done|by left]. }
  rewrite file_of_app, length_app in Hn.
  assert (forall R' ds' todo', todo = ds' ++ todo' -> R' ++ t = file_of todo' ->
    concat chunks = file_of (ds ++ ds') ++ R') as Hread.
  { intros R' ds' todo' -> E'. rewrite !file_of_app, <- E', !app_assoc in E. apply app_inv_tail in E.
    by rewrite file_of_app. }
  destruct (drain_last todo b c R t Hr Hw ltac:(lia)) as (b2 & c2 & R2 & ds2 & todo2 & er & -> & Hr2 & Hs & _ & Hd & _).
  unfold CommonOperation. rewrite Hrun. destruct Hr as [Hb Hf Hc].
  destruct (Z.gtb_spec (ReadableBytes b) 0) as [Hpos|Hz].
  - exists (ds ++ ds2), todo2, R2. split; [by rewrite app_assoc|]. split; [eapply Hread; [done|apply Hr2]|]. split; [by apply Hs|].
    rewrite run_all_app. destruct (run_all whattodo s ds) as [s'|]; [|done]. cbn [mbind option_bind].
    destruct (Z.gtb_spec (ReadableBytes b) 0); [|lia]. unfold drain_all.
    rewrite (parses_drain _ _ _ _ _ _ _ Hd); [by destruct (run_all whattodo s' ds2)|].
    rewrite (buf_repr_readable _ _ Hb), Nat2Z.id. pose proof (found_bytes _ _ _ _ _ Hf (rd_file _ _ _ _ _ Hr2)). lia.
  - exists ds, (ds2 ++ todo2), R. rewrite (buf_repr_readable _ _ Hb) in Hz. destruct R; [|cbn in Hz; lia].
    split; [done|]. split; [rewrite (Hread [] [] (ds2 ++ todo2)) by done; by rewrite !app_nil_r|]. split; [by left|].
    destruct (run_all whattodo s ds) as [s'|]; [|done]. cbn [mbind option_bind].
    rewrite (buf_repr_readable _ _ Hb). done.
Qed.

Lemma CommonOperation_all {S : Type} (whattodo : S -> CommandCache -> option S) (s : S)
    (cmds : list (list (list ascii))) (chunks : list (list ascii)) :
  concat chunks = file_of cmds -> Forall (λ p, p <> []) chunks -> room [] chunks (Buffer_new 64) cache_Clear ->
  Z.of_nat (length (file_of cmds)) <= INT64_MAX ->
  CommonOperation whattodo chunks s = run_all whattodo s cmds.
Proof.
  intros E Hne Hroom Hn.
  destruct (CommonOperation_cut whattodo s cmds chunks [] ltac:(by rewrite app_nil_r) Hne Hroom Hn)
    as (ds & todo & R & -> & Ec & Hs & ->). rewrite E, file_of_app in Ec. apply app_inv_head in Ec. subst R.
  destruct Hs as [Hs|(args & cmds' & q & -> & Hq & Eq)]; [by rewrite (file_of_nil todo), app_nil_r|].
  rewrite file_of_cons, <- app_assoc in Eq. apply (f_equal length) in Eq. rewrite !length_app in Eq.
  pose proof (length_pos _ Hq). lia.
Qed.

(** ** A file that lost its end and was written to again

    [header] and the first arguments of a request, and then another request: where the [$] of
    the next argument should be the parser finds a [*]. It reports an error and leaves the
    bytes where they are, each time. *)

Lemma TryParse_poisoned b n l more c e : buf_repr b (header n ++ concat (print_item <$> l) ++ "*"%char :: more) ->
  (length l < n)%nat -> Z.of_nat n <= INT64_MAX -> TryParseFromBuffer b c e = Some (mkParsed false true b cache_Clear).
Proof.
  intros Hb Hl Hn. set (R := header n ++ _) in Hb. set (t := concat (print_item <$> l) ++ "*"%char :: more) in *.
  assert (R = "*"%char :: to_string (Z.of_nat n) ++ CRLF ++ t) as HR by (unfold R, header; cbn; by rewrite <- app_assoc).
  destruct (TryParse_header b R c e n t Hb HR Hn) as [Hd ->]. pose proof (length_items l) as Hli.
  assert (length R = 3 + length (to_string (Z.of_nat n)) + length t)%nat as HL by (rewrite HR; cbn; rewrite !length_app; cbn; lia).
  set (i := Z.of_nat (3 + length (to_string (Z.of_nat n)))) in *.
  assert (length t = length (concat (print_item <$> l)) + S (length more))%nat as Ht by (unfold t; rewrite length_app; done).
  replace (S (length R)) with (length l + S (length R - length l))%nat by lia.
  rewrite (parse_args_skip b R e l Hb _ _ _ _ ("*"%char :: more)) by (done || lia).
  cbn [parse_args]. destruct (Z.leb_spec (Z.of_nat n - Z.of_nat (length l)) 0); [lia|].
  apply drop_app_at in Hd; [|lia]. assert (0 <= i + Z.of_nat (length (concat (print_item <$> l)))) as Hi by lia.
  destruct (char_at _ _ _ _ _ Hb Hi Hd) as [Eg Ec]. rewrite Eg, Ec.
  cbn [mbind option_bind]. change (negb (Ascii.eqb "*" "$")) with true. unfold reject. cbn [mbind option_bind].
  rewrite Z.geb_leb, Z.leb_gt in Eg. by rewrite Z.gtb_ltb, (proj2 (Z.ltb_lt _ _) Eg).
Qed.

Lemma parses_poisoned cmds n l more : forall b c, argv c = [] ->
  buf_repr b (file_of cmds ++ header n ++ concat (print_item <$> l) ++ "*"%char :: more) -> (length l < n)%nat ->
  Z.of_nat n <= INT64_MAX ->
  exists b', parses b c cmds b' cache_Clear true /\ buf_repr b' (header n ++ concat (print_item <$> l) ++ "*"%char :: more).
Proof.
  induction cmds as [|args cmds IH]; intros b c Hc Hb Hl Hn.
  - change (file_of []) with (@nil ascii) in Hb. cbn [app] in Hb. exists b. split; [|exact Hb]. constructor. by eapply TryParse_poisoned.
  - rewrite file_of_cons, <- app_assoc in Hb. destruct (TryParse_complete b args _ c false Hc Hb) as (b1 & Ep & Hb1 & _).
    destruct (IH b1 cache_Clear eq_refl Hb1 Hl Hn) as (b' & Hp & Hb'). exists b'. split; [by econstructor|done].
Qed.

Lemma CommonOperation_poisoned {S : Type} (whattodo : S -> CommandCache -> option S) (s : S) cmds n l more :
  let file := file_of cmds ++ header n ++ concat (print_item <$> l) ++ "*"%char :: more in
  buf_op_ok (Buffer_new 64) (BAppend file) -> (length l < n)%nat -> Z.of_nat n <= INT64_MAX ->
  CommonOperation whattodo [file] s = run_all whattodo s cmds.
Proof.
  intros file Hop Hl Hn.
  destruct (buf_exec_refines (Buffer_new 64) [] (BAppend file)) as (b & Eb & Hb); [by apply Buffer_new_repr; unfold INT64_MAX|done|].
  cbn [buf_exec queue_step fst snd app] in Eb, Hb. unfold CommonOperation. cbn [read_chunks].
  rewrite bool_decide_false by (unfold file; intros E; apply app_nil in E as [_ E]; done).
  change (buf_Append (Buffer_new 64) file _) with (buf_Append_std (Buffer_new 64) file).
  destruct (buf_Append_std (Buffer_new 64) file) as [b'|]; [|done]. injection Eb as ->. cbn [mbind option_bind].
  destruct (parses_poisoned cmds n l more b cache_Clear eq_refl Hb Hl Hn) as (b1 & Hp & Hb1).
  assert (length cmds < Datatypes.S (Z.to_nat (ReadableBytes b)))%nat as Hf.
  { rewrite (buf_repr_readable _ _ Hb), Nat2Z.id. unfold file. rewrite length_app. pose proof (file_of_length cmds). lia. }
  assert (drain_all whattodo b cache_Clear s = (s' ← run_all whattodo s cmds; Some (b1, cache_Clear, s'))) as ->
    by (by apply (parses_drain whattodo _ _ _ _ _ _ Hp)).
  destruct (run_all whattodo s cmds) as [s'|]; [|done]. cbn [mbind option_bind].
  destruct (ReadableBytes b1 >? 0); [|done]. unfold drain_all. cbn [drain].
  by rewrite (TryParse_poisoned b1 n l more cache_Clear false Hb1 Hl Hn).
Qed.

(** C22. Reading the file back is the inverse of writing it. A file of at most 64 KiB, which is
    read in one piece, and a longer one read in any pieces for which the buffer has room
    ([room]: each is appended without a [memcpy] between overlapping regions, src/net/buffer.h:46,
    and leaves a spare byte behind it, except the last), cut anywhere (in a number, between two
    arguments, so that a request that was already complete is parsed again, at the last byte):
    what is done is done with exactly the commands of the file, in their order, each once. *)
Theorem CommonOperation_replays {S : Type} (whattodo : S -> CommandCache -> option S) (s : S)
    (cmds : list (list (list ascii))) (chunks : list (list ascii)) :
  concat chunks = print_all (request <$> cmds) -> Forall (λ p, p <> []) chunks ->
  Z.of_nat (length (concat chunks)) <= RESTORE_AOF_READ_BUF_SIZE /\ length chunks = 1%nat \/
  room [] chunks (Buffer_new 64) cache_Clear -> Z.of_nat (length (concat chunks)) <= INT64_MAX ->
  CommonOperation whattodo chunks s = run_all whattodo s cmds.
Proof.
  intros E Hne Hr Hn. change (concat chunks = file_of cmds) in E. apply CommonOperation_all; [done..| |by rewrite <- E].
  destruct Hr as [[Hs H1]|Hr]; [|done]. destruct chunks as [|p []]; try done. cbn in E, Hs. rewrite app_nil_r in E, Hs. subst p.
  by apply one_piece_room.
Qed.

(** Two commands cut after the second argument of the first and in the length of
    the last one. *)
Definition two_sets : list (list (list ascii)) := [[bs "set"; bs "k"; bs "1"]; [bs "set"; bs "k"; bs "0123456789"]].
Definition cut_file : list (list ascii) :=
  let f := print_all (request <$> two_sets) in [take 20 f; take 29 (drop 20 f); drop 49 f].

Lemma CommonOperation_replays_witness : ReadFromScratch cut_file = Some (request <$> two_sets).
Proof.
  unfold ReadFromScratch. rewrite (CommonOperation_replays _ [] two_sets cut_file); [by vm_compute|..].
  - by vm_compute.
  - repeat constructor; by vm_compute.
  - right. vm_compute. intuition congruence.
  - vm_compute. congruence.
Defined.
