(* ===== verification/AofThreads.v ===== *)
(** * AofThreads: the append-only file, access by access (src/persistence.cpp, main.cpp)

    Persistence has [Append] and [Flush] as one thread sees them that is not interrupted. Here
    the two threads are interleaved at each access to what they share: the two vectors, the pointers to them,
    the file and the mutex. [Append] holds the mutex only while it swaps the caches, so that
    it can be in the middle when the worker flushes. SIGINT may come at any point of the
    serving thread; its handler deletes the file object. *)

From S2P Require Import Prelude Numerals Str Buffer Protocol Persistence PersistenceFacts.
From stdpp Require Import list.

Local Open Scope Z_scope.

(** ** What is shared *)

Inductive thread := Serving | Worker.

(** [auto_flush_] and the notifications only decide when the worker's wait ends; here it may
    end at any time. *)
Record shared := mkShared {
  sh_file : list ascii;              (* the contents of the file *)
  cache1_ : list CommandCache;
  cache2_ : list CommandCache;
  sh_cur : bool;                     (* [cur_caches_] points to [cache1_], [backup_caches_] to the other *)
  sh_max : Z;
  sh_stopped : bool;
  mtx_ : option thread               (* who holds the mutex *)
}.

Definition vec (s : shared) (v : bool) : list CommandCache := if v then cache1_ s else cache2_ s.
Definition cur (s : shared) : list CommandCache := vec s (sh_cur s).
Definition backup (s : shared) : list CommandCache := vec s (negb (sh_cur s)).

Definition set_vec (s : shared) (v : bool) (l : list CommandCache) : shared :=
  mkShared (sh_file s) (if v then l else cache1_ s) (if v then cache2_ s else l) (sh_cur s) (sh_max s) (sh_stopped s) (mtx_ s).

Definition swap (s : shared) : shared :=
  mkShared (sh_file s) (cache1_ s) (cache2_ s) (negb (sh_cur s)) (sh_max s) (sh_stopped s) (mtx_ s).

Definition set_mtx (m : option thread) (s : shared) : shared :=
  mkShared (sh_file s) (cache1_ s) (cache2_ s) (sh_cur s) (sh_max s) (sh_stopped s) m.

(** [for (item : *backup_caches_) fs_ << item.ToProtocolString()], and the flush. *)
Definition write_backup (s : shared) : shared :=
  mkShared (sh_file s ++ print_all (backup s)) (cache1_ s) (cache2_ s) (sh_cur s) (sh_max s) (sh_stopped s) (mtx_ s).

Definition stop (s : shared) : shared :=
  mkShared (sh_file s) (cache1_ s) (cache2_ s) (sh_cur s) (sh_max s) true (mtx_ s).

(** ** Where the threads are *)

(** The serving thread: outside [Append]; before the test of the size; in [Switch], before it
    has the mutex, before the swap, before it gives the mutex back; before it reads
    [cur_caches_] and before [push_back] on the vector it has read; in the destructor, before
    [join] returns (holding the mutex or not); after the destructor. *)
Inductive serving_pc :=
  | ORun
  | OSize (c : CommandCache)
  | OLock (c : CommandCache)
  | OSwap (c : CommandCache)
  | OUnlock (c : CommandCache)
  | OLoad (c : CommandCache)
  | OPush (c : CommandCache) (v : bool)
  | DJoin (held : bool)
  | DDone.

(** The worker: at the test of its loop; before it has the mutex; in [wait_for], with the mutex
    and without; in [Flush], before the tests, the swap, the writing, the clearing; before it
    gives the mutex back; out of the loop. *)
Inductive bg_pc := BLoop | BLock | BHeld | BWait | BFlush | BSwap | BWrite | BClear | BUnlock | BExit.

Record threads := mkThreads { th_mem : shared; th_worker : bg_pc; th_serving : serving_pc }.

Definition serving (o : serving_pc) : bool := match o with DJoin _ | DDone => false | _ => true end.

Definition serving_holds (o : serving_pc) : bool :=
  match o with OSwap _ | OUnlock _ => true | DJoin held => held | _ => false end.

Definition worker_holds (w : bg_pc) : bool :=
  match w with BHeld | BFlush | BSwap | BWrite | BClear | BUnlock => true | _ => false end.

(** The destructor once the worker is joined: [Switch], [Flush] and the clearing. *)
Definition close (opened : bool) (s : shared) : shared :=
  let s := swap s in
  let s :=
    if bool_decide (backup s = []) && bool_decide (cur s = []) then s
    else
      let s := if bool_decide (backup s = []) then swap s else s in
      if opened then set_vec (write_backup s) (negb (sh_cur s)) [] else s in
  set_vec (set_vec s true []) false [].

(** ** The steps *)

Inductive event :=
  | TCall (c : CommandCache)   (* [Append] is called *)
  | TServing                   (* the serving thread goes on *)
  | TSwap                      (* it swaps the caches *)
  | TPush (c : CommandCache)   (* it puts the command into a vector *)
  | TSigint                    (* SIGINT: the destructor, up to [join] *)
  | TClose (opened : bool)     (* the rest of it *)
  | TWorker                    (* the worker goes on *)
  | TWrite (opened : bool).    (* it writes *)

Inductive t_step : threads -> event -> threads -> Prop :=
  | t_call s w c : t_step (mkThreads s w ORun) (TCall c) (mkThreads s w (OSize c))
  | t_size s w c :
      t_step (mkThreads s w (OSize c)) TServing
        (mkThreads s w (if Z.of_nat (length (cur s)) >=? sh_max s then OLock c else OLoad c))
  | t_lock s w c : mtx_ s = None ->
      t_step (mkThreads s w (OLock c)) TServing (mkThreads (set_mtx (Some Serving) s) w (OSwap c))
  | t_swap s w c : t_step (mkThreads s w (OSwap c)) TSwap (mkThreads (swap s) w (OUnlock c))
  | t_unlock s w c : t_step (mkThreads s w (OUnlock c)) TServing (mkThreads (set_mtx None s) w (OLoad c))
  | t_load s w c : t_step (mkThreads s w (OLoad c)) TServing (mkThreads s w (OPush c (sh_cur s)))
  | t_push s w c v :
      t_step (mkThreads s w (OPush c v)) (TPush c) (mkThreads (set_vec s v (vec s v ++ [c])) w ORun)
  | t_sigint s w o : serving o = true ->
      t_step (mkThreads s w o) TSigint (mkThreads (stop s) w (DJoin (serving_holds o)))
  | t_close s held opened : mtx_ s = None ->
      t_step (mkThreads s BExit (DJoin held)) (TClose opened) (mkThreads (close opened s) BExit DDone)
  | t_loop s o : sh_stopped s = false -> t_step (mkThreads s BLoop o) TWorker (mkThreads s BLock o)
  | t_exit s o : sh_stopped s = true -> t_step (mkThreads s BLoop o) TWorker (mkThreads s BExit o)
  | t_block s o : mtx_ s = None ->
      t_step (mkThreads s BLock o) TWorker (mkThreads (set_mtx (Some Worker) s) BHeld o)
  | t_wait s o : t_step (mkThreads s BHeld o) TWorker (mkThreads (set_mtx None s) BWait o)
  | t_wake s o : mtx_ s = None ->
      t_step (mkThreads s BWait o) TWorker (mkThreads (set_mtx (Some Worker) s) BHeld o)
  | t_go s o : t_step (mkThreads s BHeld o) TWorker (mkThreads s BFlush o)
  | t_flush s o :
      t_step (mkThreads s BFlush o) TWorker
        (mkThreads s (if bool_decide (backup s = []) then if bool_decide (cur s = []) then BUnlock else BSwap else BWrite) o)
  | t_bswap s o : t_step (mkThreads s BSwap o) TWorker (mkThreads (swap s) BWrite o)
  | t_write s o (opened : bool) :
      t_step (mkThreads s BWrite o) (TWrite opened)
        (if opened then mkThreads (write_backup s) BClear o else mkThreads s BUnlock o)
  | t_clear s o : t_step (mkThreads s BClear o) TWorker (mkThreads (set_vec s (negb (sh_cur s)) []) BUnlock o)
  | t_bunlock s o : t_step (mkThreads s BUnlock o) TWorker (mkThreads (set_mtx None s) BLoop o).

(** Runs, and the commands they have put into a vector. *)
Inductive t_run (ok : threads -> event -> Prop) (s0 : threads) : list event -> threads -> Prop :=
  | t_nil : t_run ok s0 [] s0
  | t_snoc ls l s s' : t_run ok s0 ls s -> ok s l -> t_step s l s' -> t_run ok s0 (ls ++ [l]) s'.

Lemma t_cons (ok : threads -> event -> Prop) s l s1 ls s' : ok s l -> t_step s l s1 -> t_run ok s1 ls s' -> t_run ok s (l :: ls) s'.
Proof.
  intros Hok Hst H. induction H as [|ls l1 s2 s3 H IH Hok1 Hst1]; [by apply (t_snoc ok s [] l s s1 (t_nil ok s))|].
  change (l :: ls ++ [l1]) with ((l :: ls) ++ [l1]). by eapply t_snoc.
Qed.

Ltac walk side := repeat (eapply t_cons; [|econstructor; reflexivity|]; [cbn; side|]); apply t_nil.

Definition pushed (ls : list event) : list CommandCache := l ← ls; match l with TPush c => [c] | _ => [] end.

Definition threads_init (file : list ascii) (max : Z) : threads :=
  mkThreads (mkShared file [] [] true max false None) BLoop ORun.

(** [push_back] on the vector the worker is writing or about to clear. *)
Definition races (s : threads) : Prop :=
  match th_worker s, th_serving s with
  | BWrite, OPush _ v | BClear, OPush _ v => v = negb (sh_cur (th_mem s))
  | _, _ => False
  end.

(** No such push, and [Switch] finds one of the caches empty. *)
Definition orderly (s : threads) (l : event) : Prop :=
  match l with
  | TPush _ => ~ races s
  | TSwap => backup (th_mem s) = [] \/ cur (th_mem s) = []
  | _ => True
  end.

Definition anyhow (s : threads) (l : event) : Prop := True.

(** ** Vectors *)

Lemma vec_set s v l v' : vec (set_vec s v l) v' = if decide (v' = v) then l else vec s v'.
Proof. by destruct v, v'. Qed.

Lemma cur_swap s : cur (swap s) = backup s.
Proof. done. Qed.

Lemma backup_swap s : backup (swap s) = cur s.
Proof. unfold backup, cur. cbn. by rewrite negb_involutive. Qed.

Lemma cur_set s v l : cur (set_vec s v l) = if decide (v = sh_cur s) then l else cur s.
Proof. unfold cur. rewrite vec_set. by destruct v, s as [? ? ? []]. Qed.

Lemma backup_set s v l : backup (set_vec s v l) = if decide (v = sh_cur s) then backup s else l.
Proof. unfold backup. rewrite vec_set. by destruct v, s as [? ? ? []]. Qed.

Lemma negb_ne b : negb b <> b.
Proof. by destruct b. Qed.

(** ** Calls that are not interrupted *)

(** The file object as one thread sees it. *)
Definition as_file (auto : bool) (s : shared) : AppendableFile :=
  mkAof (sh_file s) (sh_max s) (cur s) (backup s) auto (sh_stopped s).

(** When the worker does nothing meanwhile, a call of [Append] is [aof_Append]. *)
Lemma Append_alone auto s w c : mtx_ s = None ->
  exists ls s', t_run anyhow (mkThreads s w ORun) (TCall c :: ls) (mkThreads s' w ORun) /\
    pushed ls = [c] /\ mtx_ s' = None /\ as_file auto s' = aof_Append (as_file auto s) c.
Proof.
  intros Hm. unfold aof_Append, as_file. cbn [cur_caches_ cache_max_size_].
  destruct (Z.of_nat (length (cur s)) >=? sh_max s) eqn:Eb.
  - set (s1 := set_mtx None (swap (set_mtx (Some Serving) s))).
    exists [TServing; TServing; TSwap; TServing; TServing; TPush c], (set_vec s1 (sh_cur s1) (vec s1 (sh_cur s1) ++ [c])).
    split; [|split; [done|split; [done|]]].
    + eapply t_cons; [exact I|constructor|]. eapply t_cons; [exact I|constructor|]. rewrite Eb.
      do 4 (eapply t_cons; [exact I|by constructor|]). eapply t_cons; [exact I|constructor|]. apply t_nil.
    + rewrite cur_set, backup_set, !decide_True by done. change (backup s1) with (backup (swap s)). by rewrite backup_swap.
  - exists [TServing; TServing; TPush c], (set_vec s (sh_cur s) (vec s (sh_cur s) ++ [c])).
    split; [|split; [done|split; [done|]]].
    + eapply t_cons; [exact I|constructor|]. eapply t_cons; [exact I|constructor|]. rewrite Eb.
      eapply t_cons; [exact I|by constructor|]. eapply t_cons; [exact I|constructor|]. apply t_nil.
    + rewrite cur_set, backup_set, !decide_True by done. done.
Qed.

(** So is the worker's [Flush]. *)
Lemma Flush_alone auto opened s o :
  exists ls s', t_run anyhow (mkThreads s BFlush o) ls (mkThreads s' BUnlock o) /\ pushed ls = [] /\
    as_file auto s' = Flush opened (as_file auto s).
Proof.
  assert (forall s, exists ls s', t_run anyhow (mkThreads s BWrite o) ls (mkThreads s' BUnlock o) /\ pushed ls = [] /\
    as_file auto s' = if opened then mkAof (sh_file s ++ print_all (backup s)) (sh_max s) (cur s) [] auto (sh_stopped s)
                      else as_file auto s) as Hw.
  { intros s1. destruct opened.
    - exists [TWrite true; TWorker]. eexists. split; [|split; [done|]].
      + do 2 (eapply t_cons; [exact I|constructor|]). apply t_nil.
      + unfold as_file. rewrite cur_set, backup_set, !decide_False by apply negb_ne. done.
    - exists [TWrite false], s1. split; [|done]. eapply t_cons; [exact I|constructor|]. apply t_nil. }
  unfold Flush. change (backup_caches_ (as_file auto s)) with (backup s). change (cur_caches_ (as_file auto s)) with (cur s).
  pose proof (t_flush s o) as Hst.
  case_bool_decide as Eb; [case_bool_decide as Ec|]; cbn [andb].
  - exists [TWorker], s. split; [|done]. eapply t_cons; [exact I|exact Hst|]. apply t_nil.
  - destruct (Hw (swap s)) as (ls & s' & Hrun & Hp & E). exists (TWorker :: TWorker :: ls), s'. split; [|split; [done|]].
    + eapply t_cons; [exact I|exact Hst|]. eapply t_cons; [exact I|constructor|]. exact Hrun.
    + rewrite E. unfold as_file. rewrite backup_swap, cur_swap. by destruct opened.
  - destruct (Hw s) as (ls & s' & Hrun & Hp & E). exists (TWorker :: ls), s'. split; [|split; [done|]].
    + eapply t_cons; [exact I|exact Hst|]. exact Hrun.
    + rewrite E. by destruct opened.
Qed.

(** ** The order is kept *)

(** What is still to be written of the backup: nothing once it has been written. *)
Definition pending (w : bg_pc) (s : shared) : list CommandCache := match w with BClear => [] | _ => backup s end.

(** The mutex has one holder; a vector read before the worker swapped is the backup now, and
    then the current one is empty. *)
Record sound (file0 : list ascii) (log : list CommandCache) (t : threads) : Prop := {
  so_log : exists written, sh_file (th_mem t) = file0 ++ print_all written /\
    written ++ pending (th_worker t) (th_mem t) ++ cur (th_mem t) = log;
  so_swap : th_worker t = BSwap -> backup (th_mem t) = [];
  so_stale : forall c v, th_serving t = OPush c v -> v <> sh_cur (th_mem t) ->
    cur (th_mem t) = [] /\ th_worker t <> BSwap;
  so_mtx : mtx_ (th_mem t) =
    if worker_holds (th_worker t) then Some Worker else if serving_holds (th_serving t) then Some Serving else None;
  so_excl : worker_holds (th_worker t) = true -> serving_holds (th_serving t) = false
}.

Ltac sound_case :=
  match goal with
  | H : sound _ _ _ |- _ => destruct H as [(written & Hf & Hl) Hsw Hst Hm Hex]
  end; cbn [th_mem th_worker th_serving] in *.

(** A step of the serving thread outside the vectors. *)
Lemma sound_serving file0 log s w o o' m : sound file0 log (mkThreads s w o) ->
  (forall c v, o' = OPush c v -> v = sh_cur s) ->
  (worker_holds w = true -> m = mtx_ s /\ serving_holds o' = false) ->
  (worker_holds w = false -> m = if serving_holds o' then Some Serving else None) ->
  sound file0 log (mkThreads (set_mtx m s) w o').
Proof.
  intros H Hp H1 H2. sound_case. split; cbn [th_mem th_worker th_serving mtx_ set_mtx].
  - by exists written.
  - exact Hsw.
  - intros c v E. by apply Hp in E.
  - destruct (worker_holds w); [destruct (H1 eq_refl) as [-> _]; exact Hm|by apply H2].
  - intros Hw. by apply H1.
Qed.

(** A step of the worker outside the vectors. *)
Lemma sound_worker file0 log s w w' o m : sound file0 log (mkThreads s w o) -> w <> BClear -> w' <> BClear ->
  (w' = BSwap -> backup s = [] /\ cur s <> []) ->
  m = (if worker_holds w' then Some Worker else if serving_holds o then Some Serving else None) ->
  (worker_holds w' = true -> serving_holds o = false) ->
  sound file0 log (mkThreads (set_mtx m s) w' o).
Proof.
  intros H Hw Hw' Hs Em Hh. sound_case. split; cbn [th_mem th_worker th_serving mtx_ set_mtx].
  - exists written. split; [exact Hf|]. by destruct w, w'.
  - intros E. by apply Hs.
  - intros c v E Hv. destruct (Hst c v E Hv) as [Hc _]. split; [exact Hc|]. intros Ew. by apply Hs in Ew as [_ ?].
  - exact Em.
  - exact Hh.
Qed.

Lemma set_mtx_same s : set_mtx (mtx_ s) s = s.
Proof. by destruct s. Qed.

(** Steps that leave the mutex as well. *)
Lemma sound_serving_same file0 log s w o o' : sound file0 log (mkThreads s w o) ->
  (forall c v, o' = OPush c v -> v = sh_cur s) -> serving_holds o' = serving_holds o -> sound file0 log (mkThreads s w o').
Proof.
  intros H Hp Eo. rewrite <- (set_mtx_same s). eapply sound_serving; [exact H|exact Hp| |]; intros Hw; sound_case; rewrite Eo.
  - split; [done|by apply Hex].
  - by rewrite Hm, Hw.
Qed.

Lemma sound_worker_same file0 log s w w' o : sound file0 log (mkThreads s w o) -> w <> BClear -> w' <> BClear ->
  (w' = BSwap -> backup s = [] /\ cur s <> []) -> worker_holds w' = worker_holds w -> sound file0 log (mkThreads s w' o).
Proof.
  intros H Hw Hw' Hs Ew. rewrite <- (set_mtx_same s). eapply sound_worker; [exact H|done..| |]; sound_case; by rewrite Ew.
Qed.

(** Taking and giving back the mutex. *)
Lemma sound_unlocked file0 log s w o : sound file0 log (mkThreads s w o) -> mtx_ s = None ->
  worker_holds w = false /\ serving_holds o = false.
Proof. intros H E. sound_case. rewrite E in Hm. by destruct (worker_holds w), (serving_holds o). Qed.

Lemma sound_push file0 log s w c v : sound file0 log (mkThreads s w (OPush c v)) -> ~ races (mkThreads s w (OPush c v)) ->
  sound file0 (log ++ [c]) (mkThreads (set_vec s v (vec s v ++ [c])) w ORun).
Proof.
  intros H Hr. sound_case. split; cbn [th_mem th_worker th_serving].
  - exists written. split; [exact Hf|]. rewrite <- Hl. unfold pending. rewrite cur_set, backup_set.
    destruct (decide (v = sh_cur s)) as [->|Hv].
    + destruct w; by rewrite <- !app_assoc.
    + destruct (Hst c v eq_refl Hv) as [Ec Hw]. assert (v = negb (sh_cur s)) as -> by (by destruct v, (sh_cur s)).
      unfold races in Hr. cbn in Hr. rewrite Ec, !app_nil_r. fold (backup s). destruct w; try done; by rewrite app_assoc.
  - intros Hw. rewrite backup_set. case_decide; [by apply Hsw|]. by destruct (Hst c v eq_refl ltac:(done)).
  - done.
  - exact Hm.
  - done.
Qed.

Lemma sound_swap file0 log s w c : sound file0 log (mkThreads s w (OSwap c)) -> backup s = [] \/ cur s = [] ->
  sound file0 log (mkThreads (swap s) w (OUnlock c)).
Proof.
  intros H He. sound_case. assert (worker_holds w = false) as Hw by (destruct (worker_holds w); [by specialize (Hex eq_refl)|done]).
  split; cbn [th_mem th_worker th_serving].
  - exists written. split; [exact Hf|]. rewrite <- Hl. unfold pending. destruct w; try done; rewrite backup_swap, cur_swap;
      destruct He as [-> | ->]; by rewrite ?app_nil_r.
  - by intros ->.
  - done.
  - exact Hm.
  - by rewrite Hw.
Qed.

Lemma sound_bswap file0 log s o : sound file0 log (mkThreads s BSwap o) -> sound file0 log (mkThreads (swap s) BWrite o).
Proof.
  intros H. sound_case. specialize (Hsw eq_refl). split; cbn [th_mem th_worker th_serving].
  - exists written. split; [exact Hf|]. rewrite <- Hl. cbn [pending]. rewrite backup_swap, cur_swap, Hsw. by rewrite app_nil_r.
  - done.
  - intros c v _ _. by rewrite cur_swap.
  - exact Hm.
  - exact Hex.
Qed.

Lemma sound_write file0 log s o : sound file0 log (mkThreads s BWrite o) ->
  sound file0 log (mkThreads (write_backup s) BClear o).
Proof.
  intros H. sound_case. split; cbn [th_mem th_worker th_serving].
  - exists (written ++ backup s). cbn [write_backup sh_file pending]. rewrite Hf, print_all_app, <- Hl, !app_assoc. by rewrite app_nil_r.
  - done.
  - intros c v E Hv. destruct (Hst c v E Hv) as [Hc _]. by split.
  - exact Hm.
  - exact Hex.
Qed.

Lemma sound_clear file0 log s o : sound file0 log (mkThreads s BClear o) ->
  sound file0 log (mkThreads (set_vec s (negb (sh_cur s)) []) BUnlock o).
Proof.
  intros H. sound_case. pose proof (negb_ne (sh_cur s)) as Hn.
  split; cbn [th_mem th_worker th_serving]; rewrite ?cur_set, ?backup_set, ?(decide_False (P := negb _ = _)) by done.
  - exists written. split; [exact Hf|]. exact Hl.
  - done.
  - intros c v E Hv. cbn in Hv. destruct (Hst c v E Hv) as [Hc _]. by split.
  - exact Hm.
  - exact Hex.
Qed.

Lemma sound_stop file0 log s w o : sound file0 log (mkThreads s w o) -> serving o = true ->
  sound file0 log (mkThreads (stop s) w (DJoin (serving_holds o))).
Proof. intros H _. sound_case. split; [by exists written|exact Hsw|done|exact Hm|exact Hex]. Qed.

Lemma sound_step file0 log s l s' : sound file0 log s -> orderly s l -> t_step s l s' -> th_serving s' <> DDone ->
  sound file0 (log ++ pushed [l]) s'.
Proof.
  intros H Hok Hst Hd. destruct Hst; cbn [orderly th_mem th_serving th_worker] in *; cbn [pushed mbind list_bind app];
    rewrite ?app_nil_r; try done.
  - by eapply sound_serving_same.
  - eapply sound_serving_same; [exact H| |]; by case_match.
  - destruct (sound_unlocked file0 log s w _ H) as [Hw _]; [done|]. eapply sound_serving; [exact H|done| |done]. congruence.
  - by apply sound_swap.
  - eapply sound_serving; [exact H|done| |done]. intros Hw. sound_case. by specialize (Hex Hw).
  - eapply sound_serving_same; [exact H|by intros ? ? [= _ ->]|done].
  - by apply sound_push.
  - by apply sound_stop.
  - by eapply sound_worker_same.
  - by eapply sound_worker_same.
  - destruct (sound_unlocked file0 log s _ o H) as [_ Ho]; [done|]. by eapply sound_worker.
  - eapply sound_worker; [exact H|done..| |done]. sound_case. by rewrite (Hex eq_refl).
  - destruct (sound_unlocked file0 log s _ o H) as [_ Ho]; [done|]. by eapply sound_worker.
  - by eapply sound_worker_same.
  - eapply sound_worker_same; [exact H|done|..]; repeat case_bool_decide; done.
  - by apply sound_bswap.
  - destruct opened; [by apply sound_write|]. by eapply sound_worker_same.
  - by apply sound_clear.
  - eapply sound_worker; [exact H|done..| |done]. sound_case. by rewrite (Hex eq_refl).
Qed.

Lemma sound_init file0 max : sound file0 [] (threads_init file0 max).
Proof. split; [|done..]. exists []. split; [|done]. cbn. unfold print_all. cbn. by rewrite app_nil_r. Qed.

Lemma pushed_snoc ls l : pushed (ls ++ [l]) = pushed ls ++ pushed [l].
Proof. unfold pushed. by rewrite bind_app. Qed.

Lemma step_open s l s' : t_step s l s' -> th_serving s' <> DDone -> th_serving s <> DDone.
Proof. intros Hst Hd E. destruct Hst; cbn in *; subst; try done. by destruct opened. Qed.

Lemma sound_run ok file0 log s0 ls s : (forall s l, ok s l -> orderly s l) -> sound file0 log s0 -> t_run ok s0 ls s -> th_serving s <> DDone ->
  sound file0 (log ++ pushed ls) s.
Proof.
  intros Hok H0 H. induction H as [|ls l s s' H IH Ho Hst]; intros Hd; [by rewrite app_nil_r|].
  rewrite pushed_snoc, app_assoc. eapply sound_step; [|by apply Hok|exact Hst|done]. apply IH. by eapply step_open.
Qed.

(** C25. Two threads, access by access. As long as no [push_back] falls between the worker's
    writing of that vector and its clearing, and [Switch] finds one of the caches empty, the
    bytes of the file, then the backup cache, then the current one are exactly the commands
    that [Append] has put away, in their order; also while a worker's flush or an [Append] is
    half done, and when the file could not be opened. *)
Theorem interleaved_in_order (file : list ascii) (max : Z) (ls : list event) (t : threads) :
  t_run orderly (threads_init file max) ls t -> th_serving t <> DDone ->
  exists written, sh_file (th_mem t) = file ++ print_all written /\
    written ++ pending (th_worker t) (th_mem t) ++ cur (th_mem t) = pushed ls.
Proof.
  intros H Hd. destruct (sound_run orderly file [] _ ls t ltac:(done) (sound_init file max) H Hd) as [Hl _ _ _ _]. exact Hl.
Qed.

(** ** What is not yet in the file is bounded *)

(** Besides, [Switch] finds the other cache written and cleared. *)
Definition in_time (s : threads) (l : event) : Prop :=
  orderly s l /\ match l with TSwap => backup (th_mem s) = [] | _ => True end.

(** No cache is longer than what was reserved for it, and the one that is about to be pushed
    to is shorter. *)
Record fitting (max : Z) (t : threads) : Prop := {
  fi_max : sh_max (th_mem t) = max;
  fi_vec : forall v, Z.of_nat (length (vec (th_mem t) v)) <= max;
  fi_load : forall c, th_serving t = OUnlock c \/ th_serving t = OLoad c -> Z.of_nat (length (cur (th_mem t))) < max;
  fi_push : forall c v, th_serving t = OPush c v -> Z.of_nat (length (vec (th_mem t) v)) < max
}.

(** A step that leaves the vectors and the pointers. *)
Lemma fitting_same max s s' w w' o o' : fitting max (mkThreads s w o) -> sh_max s' = sh_max s -> (forall v, vec s' v = vec s v) ->
  sh_cur s' = sh_cur s -> (forall c, o' = OUnlock c \/ o' = OLoad c -> Z.of_nat (length (cur s)) < max) ->
  (forall c v, o' = OPush c v -> Z.of_nat (length (vec s v)) < max) -> fitting max (mkThreads s' w' o').
Proof.
  intros [Hm Hv _ _] Em Ev Ec Hl Hp. cbn [th_mem th_serving] in *. split; cbn [th_mem th_serving].
  - congruence.
  - intros v. rewrite Ev. apply Hv.
  - intros c Ho. unfold cur. rewrite Ec, Ev. by eapply Hl.
  - intros c v Ho. rewrite Ev. by eapply Hp.
Qed.

Lemma fitting_worker max s s' w w' o : fitting max (mkThreads s w o) -> sh_max s' = sh_max s -> (forall v, vec s' v = vec s v) ->
  sh_cur s' = sh_cur s -> fitting max (mkThreads s' w' o).
Proof. intros H Em Ev Ec. eapply fitting_same; [exact H|done..| |]; apply H. Qed.

Lemma fitting_step file0 max log s l s' : 1 <= max -> sound file0 log s -> fitting max s -> in_time s l -> t_step s l s' ->
  th_serving s' <> DDone -> fitting max s'.
Proof.
  intros H1 Hso Hfi [_ Hok] Hst Hd. pose proof (fi_max _ _ Hfi) as Hm. pose proof (fi_vec _ _ Hfi) as Hv.
  destruct Hst as [s w c|s w c|s w c Hn|s w c|s w c|s w c|s w c v|s w o Ho|s held opened Hn|s o Hs|s o Hs|s o Hn|s o|s o Hn|s o|s o|s o|s o opened|s o|s o];
    cbn [th_mem th_serving] in *; try done; try (by eapply fitting_worker).
  - eapply fitting_same; [exact Hfi|done..| |]; intros; naive_solver.
  - eapply fitting_same; [exact Hfi|done..| |]; destruct (Z.geb_spec (Z.of_nat (length (cur s))) (sh_max s)); intros; [naive_solver|lia|naive_solver..].
  - eapply fitting_same; [exact Hfi|done..| |]; intros; naive_solver.
  - split; cbn [th_mem th_serving]; [exact Hm|exact Hv| |done]. intros c' _. rewrite cur_swap, Hok. cbn. lia.
  - eapply fitting_same; [exact Hfi|done..| |done]. intros _ _. apply (fi_load _ _ Hfi c). by left.
  - eapply fitting_same; [exact Hfi|done..| |]; [by intros ? [?|?]|]. intros c' v [= _ <-]. apply (fi_load _ _ Hfi c). by right.
  - pose proof (fi_push _ _ Hfi c v eq_refl) as Hlt. cbn [th_mem] in Hlt. split; cbn [th_mem th_serving]; [exact Hm| |by intros ? [?|?]|done].
    intros v'. rewrite vec_set. case_decide as E; [|apply Hv]. rewrite length_app. cbn [length]. lia.
  - eapply fitting_same; [exact Hfi|done..| |done]. by intros ? [?|?].
  - pose proof (so_swap _ _ _ Hso eq_refl) as Hb. cbn [th_mem] in Hb. split; cbn [th_mem th_serving]; [exact Hm|exact Hv| |apply Hfi].
    intros _ _. rewrite cur_swap, Hb. cbn. lia.
  - destruct opened; by eapply fitting_worker.
  - split; cbn [th_mem th_serving].
    + exact Hm.
    + intros v. rewrite vec_set. case_decide; [cbn; lia|apply Hv].
    + intros c Ho. rewrite cur_set, decide_False by apply negb_ne. by eapply (fi_load _ _ Hfi).
    + intros c v Ho. rewrite vec_set. case_decide; [cbn; lia|]. by eapply (fi_push _ _ Hfi).
Qed.

Lemma fitting_run file max ls t : 1 <= max -> t_run in_time (threads_init file max) ls t -> th_serving t <> DDone -> fitting max t.
Proof.
  intros H1 H. induction H as [|ls l s s' H IH Hok Hst]; intros Hd.
  - split; cbn; [done|intros []; cbn; lia|intros ? [?|?]; done|done].
  - pose proof (step_open s l s' Hst Hd) as Hd'. eapply fitting_step; [exact H1| |by apply IH|exact Hok|exact Hst|exact Hd].
    apply (sound_run in_time file [] (threads_init file max) ls s); [by intros ? ? [? _]|apply sound_init|exact H|exact Hd'].
Qed.

(** C24. What a crash can cost. The serving thread and the worker are interleaved at every access
    to what they share. Provided that no [push_back] falls between the worker's writing of that
    vector and its clearing, and that [Switch] always finds the other cache written and cleared
    (the worker keeps up), then at every moment the file holds all commands that [Append] has
    put away, in their order, except the last ones, at most twice the size of a cache; and
    neither cache is ever longer than what was reserved for it. *)
Theorem aof_ordered_and_bounded (file : list ascii) (max : Z) (ls : list event) (t : threads) :
  1 <= max -> t_run in_time (threads_init file max) ls t -> th_serving t <> DDone ->
  exists written missing, sh_file (th_mem t) = file ++ print_all written /\ written ++ missing = pushed ls /\
    Z.of_nat (length missing) <= 2 * max /\
    Z.of_nat (length (cache1_ (th_mem t))) <= max /\ Z.of_nat (length (cache2_ (th_mem t))) <= max.
Proof.
  intros H1 Hrun Hd. pose proof (fitting_run file max ls t H1 Hrun Hd) as [_ Hv _ _].
  destruct (sound_run in_time file [] _ ls t ltac:(by intros ? ? [? _]) (sound_init file max) Hrun Hd) as [(written & Hf & Hl) _ _ _ _].
  exists written, (pending (th_worker t) (th_mem t) ++ cur (th_mem t)). split; [done|]. split; [done|].
  split; [|split; [apply (Hv true)|apply (Hv false)]]. rewrite length_app.
  pose proof (Hv (sh_cur (th_mem t))). pose proof (Hv (negb (sh_cur (th_mem t)))). unfold pending, backup, cur in *.
  destruct (th_worker t); cbn [length]; lia.
Qed.

(** ** SIGINT *)

Definition opened_ok (s : threads) (l : event) : Prop := match l with TWrite b | TClose b => b = true | _ => True end.

(** A shutdown that begins while the worker waits and the serving thread does not hold the
    mutex: the worker flushes at least once, and the backup is empty when it leaves. *)
Definition closing_t (file0 : list ascii) (log : list CommandCache) (t : threads) : Prop :=
  sh_stopped (th_mem t) = true /\
  match th_serving t with
  | DJoin _ => sound file0 log t /\
      match th_worker t with
      | BUnlock | BLoop | BExit => backup (th_mem t) = []
      | BLock => False
      | _ => True
      end
  | DDone => th_worker t = BExit /\ sh_file (th_mem t) = file0 ++ print_all log
  | _ => False
  end.

Lemma close_file s : backup s = [] -> sh_file (close true s) = sh_file s ++ print_all (cur s).
Proof.
  intros E. unfold close. rewrite backup_swap, cur_swap, E. rewrite (bool_decide_true ([] = [])) by done. rewrite andb_true_r.
  case_bool_decide as Ec.
  - rewrite Ec. unfold print_all. cbn. by rewrite app_nil_r.
  - unfold set_vec, write_backup. cbn [sh_file]. by rewrite backup_swap.
Qed.

Lemma close_stopped opened s : sh_stopped (close opened s) = sh_stopped s.
Proof. unfold close. repeat case_bool_decide; by destruct opened. Qed.

Lemma closing_step file0 log s l s' : closing_t file0 log s -> opened_ok s l -> t_step s l s' -> closing_t file0 log s'.
Proof.
  intros [Hs H] Hok Hst. pose proof (step_open s l s' Hst) as Hopen. unfold closing_t in *.
  destruct (th_serving s) eqn:Eo; try done.
  - destruct H as [Hsound Hw].
    assert (th_serving s' <> DDone -> sound file0 log s') as Hnext.
    { intros Hd. rewrite <- (app_nil_r log). assert (pushed [l] = []) as <- by (destruct Hst; cbn in *; simplify_eq; done).
      eapply sound_step; [exact Hsound| |exact Hst|exact Hd]. destruct Hst; cbn in *; simplify_eq; done. }
    destruct Hst; cbn [th_mem th_worker th_serving opened_ok] in *; simplify_eq; try done; try (by split; [done|]; split; [apply Hnext|]).
    + split; [by rewrite close_stopped|]. split; [done|]. rewrite close_file by done.
      destruct Hsound as [(w & Hf & Hl) _ _ _ _]. cbn [pending th_mem th_worker] in Hf, Hl.
      rewrite Hf. rewrite Hw in Hl. rewrite <- Hl, print_all_app, <- app_assoc. done.
    + congruence.
    + split; [done|]. split; [by apply Hnext|]. by repeat case_bool_decide.
    + split; [done|]. split; [by apply Hnext|]. by rewrite backup_set, decide_False by apply negb_ne.
  - destruct H as [Hw _], Hst; cbn in *; by simplify_eq.
Qed.

Lemma closing_all file0 log s ls s' : closing_t file0 log s -> t_run opened_ok s ls s' -> closing_t file0 log s'.
Proof. intros H Hrun. induction Hrun as [|ls l s1 s2 _ IH Hok Hst]; [done|]. by eapply closing_step. Qed.

(** What the destructor leaves. *)
Lemma sigint_file (file0 : list ascii) (log : list CommandCache) (s : shared) (o : serving_pc) (ls : list event) (t : threads) :
  sound file0 log (mkThreads s BWait o) -> serving o = true ->
  t_run opened_ok (mkThreads (stop s) BWait (DJoin (serving_holds o))) ls t -> th_serving t = DDone ->
  sh_file (th_mem t) = file0 ++ print_all log.
Proof.
  intros Hs Ho Hrun Hd. assert (closing_t file0 log (mkThreads (stop s) BWait (DJoin (serving_holds o)))) as Hc.
  { split; [done|]. split; [|done]. by apply sound_stop. }
  apply (closing_all _ _ _ _ _ Hc) in Hrun as [_ H]. rewrite Hd in H. apply H.
Qed.

(** C26. Ctrl-C. When SIGINT comes while the worker waits, at any point of the serving thread,
    after a run of the two threads in which no [push_back] fell between the worker's writing of
    that vector and its clearing and [Switch] found one of the caches empty, then every run
    that gets to the end of the destructor, the file being opened each time, has written every
    command that was put away before the signal, in order, behind what the file held before: a
    command is lost only if it had not been put away yet. *)
Theorem sigint_saves (file : list ascii) (max : Z) (ls ls' : list event) (s : shared) (o : serving_pc) (t : threads) :
  t_run orderly (threads_init file max) ls (mkThreads s BWait o) -> serving o = true ->
  t_run opened_ok (mkThreads (stop s) BWait (DJoin (serving_holds o))) ls' t -> th_serving t = DDone ->
  sh_file (th_mem t) = file ++ print_all (pushed ls).
Proof.
  intros Hrun Ho. apply sigint_file; [|done].
  apply (sound_run orderly file [] _ ls _ ltac:(done) (sound_init file max) Hrun). by destruct o.
Qed.

(** If it comes inside the swap, the handler waits for a mutex that its own thread holds: the
    process hangs, and the destructor never ends. *)
Lemma sigint_hangs (file : list ascii) (max : Z) (ls ls' : list event) (s : shared) (w : bg_pc) (o : serving_pc) (t : threads) :
  t_run orderly (threads_init file max) ls (mkThreads s w o) -> serving_holds o = true -> serving o = true ->
  t_run anyhow (mkThreads (stop s) w (DJoin (serving_holds o))) ls' t -> th_serving t <> DDone.
Proof.
  intros Hrun Hh Ho Hrun'. rewrite Hh in Hrun'.
  assert (sound file (pushed ls) (mkThreads s w o)) as Hs.
  { apply (sound_run orderly file [] _ ls _ ltac:(done) (sound_init file max) Hrun). by destruct o. }
  assert (th_serving t = DJoin true /\ mtx_ (th_mem t) = Some Serving /\ worker_holds (th_worker t) = false) as [E _]; [|by rewrite E].
  induction Hrun' as [|ls1 l s1 s2 _ IH _ Hst].
  - sound_case. split; [done|]. cbn [stop mtx_]. rewrite Hm, Hh. destruct (worker_holds w); [|done]. specialize (Hex eq_refl); congruence.
  - destruct IH as (E & Em & Ew). destruct Hst; cbn in *; simplify_eq; done.
Qed.

(** ** Witnesses *)

(** One command is appended; the worker enters its wait. *)
Definition one_append : list event := [TCall set1; TServing; TServing; TPush set1; TWorker; TWorker; TWorker].

(** What a flush does, from the wait to the test of the loop. *)
Definition one_flush : list event := [TWorker; TWorker; TWorker; TWorker; TWrite true; TWorker; TWorker].

Definition mem1 (stopped : bool) : shared := mkShared [] [set1] [] true 8 stopped None.

Lemma one_append_run : t_run orderly (threads_init [] 8) one_append (mkThreads (mem1 false) BWait ORun).
Proof. walk ltac:(first [exact I | intros []]). Qed.

(** A second command is put away while the worker is in the middle of its flush: it has
    swapped the caches, so that the vector the serving thread has read is the backup. *)
Definition late_push : list event :=
  one_append ++ [TCall set2; TServing; TServing; TWorker; TWorker; TWorker; TWorker; TWrite true; TWorker; TWorker; TPush set2].

Lemma late_push_run : t_run orderly (threads_init [] 8) late_push
  (mkThreads (mkShared (print_all [set1]) [set2] [] false 8 false None) BLoop ORun).
Proof. walk ltac:(first [exact I | intros []]). Qed.

Lemma interleaved_in_order_witness : exists written,
  print_all [set1] = [] ++ print_all written /\ written ++ [set2] ++ [] = [set1; set2].
Proof. exact (interleaved_in_order [] 8 late_push _ late_push_run ltac:(done)). Defined.

(** Caches of one command: the second call of [Append] swaps them. *)
Definition two_appends : list event :=
  [TCall set1; TServing; TServing; TPush set1; TCall set2; TServing; TServing; TSwap; TServing; TServing; TPush set2].

Lemma two_appends_run : t_run in_time (threads_init [] 1) two_appends
  (mkThreads (mkShared [] [set1] [set2] false 1 false None) BLoop ORun).
Proof. walk ltac:(first [by split | by split; [intros []|] | by split; [left|]]). Qed.

Lemma aof_ordered_and_bounded_witness : exists written missing,
  ([] : list ascii) = [] ++ print_all written /\ written ++ missing = [set1; set2] /\ Z.of_nat (length missing) <= 2.
Proof.
  destruct (aof_ordered_and_bounded [] 1 two_appends _ ltac:(lia) two_appends_run ltac:(done)) as (written & missing & H1 & H2 & H3 & _).
  exists written, missing. split; [exact H1|]. split; [exact H2|exact H3].
Defined.

(** SIGINT while a second command is between the test of the size and [push_back]. *)
Lemma sigint_saves_witness : exists t,
  t_run opened_ok (mkThreads (mem1 true) BWait (DJoin false)) (one_flush ++ [TWorker; TClose true]) t /\
  sh_file (th_mem t) = print_all [set1].
Proof.
  assert (t_run orderly (threads_init [] 8) (one_append ++ [TCall set2; TServing; TServing])
    (mkThreads (mem1 false) BWait (OPush set2 true))) as H by (walk ltac:(first [exact I | intros []])).
  assert (t_run opened_ok (mkThreads (stop (mem1 false)) BWait (DJoin (serving_holds (OPush set2 true)))) (one_flush ++ [TWorker; TClose true])
    (mkThreads (mkShared (print_all [set1]) [] [] true 8 true None) BExit DDone)) as H' by (walk ltac:(first [exact I | reflexivity])).
  eexists. split; [exact H'|]. exact (sigint_saves [] 8 _ _ _ _ _ H eq_refl H' eq_refl).
Defined.

Lemma sigint_hangs_witness : exists s,
  t_run orderly (threads_init [] 1)
    [TCall set1; TServing; TServing; TPush set1; TCall set2; TServing; TServing] (mkThreads s BLoop (OSwap set2)) /\
  th_serving (mkThreads (stop s) BExit (DJoin true)) <> DDone.
Proof.
  assert (t_run orderly (threads_init [] 1)
    [TCall set1; TServing; TServing; TPush set1; TCall set2; TServing; TServing]
    (mkThreads (mkShared [] [set1] [] true 1 false (Some Serving)) BLoop (OSwap set2))) as H by (walk ltac:(first [exact I | intros []])).
  eexists. split; [exact H|].
  refine (sigint_hangs [] 1 _ [TWorker] _ _ _ _ H eq_refl eq_refl _). walk ltac:(exact I).
Defined.

(** ** What goes wrong otherwise *)

(** A [push_back] between the worker's writing and its clearing: the second command, put
    away, is neither in the file nor in a cache. *)
Lemma push_in_flush_lost : exists ls t, t_run anyhow (threads_init [] 8) ls t /\ pushed ls = [set1; set2] /\
  th_worker t = BLoop /\ th_serving t = ORun /\ sh_file (th_mem t) = print_all [set1] /\
  cur (th_mem t) = [] /\ backup (th_mem t) = [].
Proof.
  exists (one_append ++ [TCall set2; TServing; TServing; TWorker; TWorker; TWorker; TWorker; TWrite true; TPush set2; TWorker; TWorker]),
    (mkThreads (mkShared (print_all [set1]) [] [] false 8 false None) BLoop ORun).
  split; [walk ltac:(exact I)|done].
Qed.

(** ** Whatever the schedule *)

(** A push into the vector that has been written and is about to be cleared. *)
Definition late (s : threads) (l : event) : nat :=
  match l, th_worker s, th_serving s with
  | TPush _, BClear, OPush _ v => if decide (v = negb (sh_cur (th_mem s))) then 1 else 0
  | _, _, _ => 0
  end.

(** Runs with the number of such pushes. *)
Inductive t_run_late (s0 : threads) : list event -> threads -> nat -> Prop :=
  | l_nil : t_run_late s0 [] s0 0
  | l_snoc ls l s s' n : t_run_late s0 ls s n -> t_step s l s' -> t_run_late s0 (ls ++ [l]) s' (n + late s l).

Lemma late_cons s l s1 ls s' n : t_step s l s1 -> t_run_late s1 ls s' n -> t_run_late s (l :: ls) s' (late s l + n).
Proof.
  intros Hst H. induction H as [|ls l1 s2 s3 n H IH Hst1]; [rewrite Nat.add_comm; exact (l_snoc s [] l s s1 0 (l_nil s) Hst)|].
  rewrite Nat.add_assoc. change (l :: ls ++ [l1]) with ((l :: ls) ++ [l1]). by eapply l_snoc.
Qed.

Lemma late_cons_0 s l s1 ls s' : late s l = O -> t_step s l s1 -> t_run_late s1 ls s' 0 -> t_run_late s (l :: ls) s' 0.
Proof. intros E Hst H. rewrite <- E, <- (Nat.add_0_r (late s l)). by eapply late_cons. Qed.

(** The mutex has one holder. *)
Definition locked (t : threads) : Prop :=
  mtx_ (th_mem t) =
    (if worker_holds (th_worker t) then Some Worker else if serving_holds (th_serving t) then Some Serving else None) /\
  (worker_holds (th_worker t) = true -> serving_holds (th_serving t) = false).

Lemma locked_step s l s' : locked s -> t_step s l s' -> th_serving s' <> DDone -> locked s'.
Proof.
  unfold locked. intros [Hm Hex] Hst Hd.
  destruct Hst as [s w c|s w c|s w c Hn|s w c|s w c|s w c|s w c v|s w o Ho|s held opened Hn|s o Hs|s o Hs|s o Hn|s o|s o Hn|s o|s o|s o|s o opened|s o|s o];
    cbn [th_mem th_worker th_serving worker_holds serving_holds set_mtx mtx_ swap set_vec stop] in *; try done;
    try (by repeat case_match); try (destruct (worker_holds w)); try (destruct (serving_holds o));
    split; intros; first [done | congruence | by specialize (Hex eq_refl)].
Qed.

(** The first [k] commands of a backup that is about to be cleared have been written; what
    has been pushed behind them will be lost, with what already is. *)
Definition unwritten (w : bg_pc) (k : nat) (s : shared) : list CommandCache :=
  match w with BClear => drop k (backup s) | _ => backup s end.

Definition counted (file0 : list ascii) (log : list CommandCache) (n : nat) (t : threads) : Prop :=
  exists written lost k, sh_file (th_mem t) = file0 ++ print_all written /\
    written ++ unwritten (th_worker t) k (th_mem t) ++ cur (th_mem t) ++ lost ≡ₚ log /\
    (k <= length (backup (th_mem t)))%nat /\
    (length lost + match th_worker t with BClear => length (backup (th_mem t)) - k | _ => 0 end <= n)%nat.

(** Steps that leave the vectors and the file alone. *)
Lemma counted_same file0 log n s s' w w' o o' : counted file0 log n (mkThreads s w o) -> w <> BClear \/ w' = BClear -> w' <> BClear \/ w = BClear ->
  sh_file s' = sh_file s -> backup s' = backup s -> cur s' = cur s -> counted file0 log n (mkThreads s' w' o').
Proof.
  intros (written & lost & k & Hf & Hp & Hk & Hn) Hw Hw' Ef Eb Ec. exists written, lost, k. cbn [th_mem th_worker] in *.
  rewrite Ef, Eb, Ec. split; [done|]. unfold unwritten in *. rewrite Eb.
  destruct w, w'; try (by split); try (by destruct Hw as [?|?]); by destruct Hw' as [?|?].
Qed.

Lemma counted_serving file0 log n s s' w o o' : counted file0 log n (mkThreads s w o) ->
  sh_file s' = sh_file s -> backup s' = backup s -> cur s' = cur s -> counted file0 log n (mkThreads s' w o').
Proof. intros H. destruct w; (eapply counted_same; [exact H|first [by left | by right]..]). Qed.

Lemma counted_worker file0 log n s s' w w' o : counted file0 log n (mkThreads s w o) -> w <> BClear -> w' <> BClear ->
  sh_file s' = sh_file s -> backup s' = backup s -> cur s' = cur s -> counted file0 log n (mkThreads s' w' o).
Proof. intros H Hw Hw'. by eapply counted_same; [exact H|left|left]. Qed.

Lemma counted_push file0 log n s w c v : counted file0 log n (mkThreads s w (OPush c v)) ->
  counted file0 (log ++ [c]) (n + late (mkThreads s w (OPush c v)) (TPush c)) (mkThreads (set_vec s v (vec s v ++ [c])) w ORun).
Proof.
  intros (written & lost & k & Hf & Hp & Hk & Hn). exists written, lost, k. cbn [th_mem th_worker th_serving late] in *.
  split; [exact Hf|]. unfold unwritten in *. rewrite cur_set, backup_set. destruct (decide (v = sh_cur s)) as [->|Hv].
  - split; [|split; [done|lia]]. rewrite <- Hp. fold (cur s). destruct w; rewrite <- !app_assoc; solve_Permutation.
  - assert (v = negb (sh_cur s)) as -> by (by destruct v, (sh_cur s)). fold (backup s). rewrite length_app. cbn [length].
    split; [|split; [lia|]].
    + rewrite <- Hp. destruct w; rewrite ?drop_app_le by done; rewrite <- ?app_assoc; solve_Permutation.
    + rewrite decide_True by done. destruct w; lia.
Qed.

Lemma counted_swap file0 log n s w w' o o' : counted file0 log n (mkThreads s w o) -> w <> BClear -> w' <> BClear ->
  counted file0 log n (mkThreads (swap s) w' o').
Proof.
  intros (written & lost & k & Hf & Hp & Hk & Hn) Hw Hw'. exists written, lost, O. cbn [th_mem th_worker] in *.
  split; [exact Hf|]. unfold unwritten in *. split; [|split; [lia|destruct w, w'; try done; lia]].
  rewrite <- Hp. destruct w, w'; try done; rewrite backup_swap, cur_swap; solve_Permutation.
Qed.

Lemma counted_step file0 log n s l s' : locked s -> counted file0 log n s -> t_step s l s' -> th_serving s' <> DDone ->
  counted file0 (log ++ pushed [l]) (n + late s l) s'.
Proof.
  intros [Hm Hex] H Hst Hd.
  destruct Hst; cbn [pushed mbind list_bind app late th_worker th_serving]; rewrite ?app_nil_r, ?Nat.add_0_r;
    try (by eapply counted_serving); try (by eapply counted_worker).
  - eapply counted_swap; [exact H|..]; intros ->; by specialize (Hex eq_refl).
  - by apply counted_push.
  - eapply counted_worker; [exact H|done| |done..]. by repeat case_bool_decide.
  - by eapply counted_swap.
  - destruct opened; [|by eapply counted_worker].
    destruct H as (written & lost & k & Hf & Hp & Hk & Hn). exists (written ++ backup s), lost, (length (backup s)).
    cbn [th_mem th_worker unwritten] in *. change (backup (write_backup s)) with (backup s).
    change (cur (write_backup s)) with (cur s). cbn [write_backup sh_file]. rewrite Hf, print_all_app, drop_all. split; [by rewrite app_assoc|].
    split; [rewrite <- Hp; rewrite <- !app_assoc; solve_Permutation|]. split; [done|lia].
  - destruct H as (written & lost & k & Hf & Hp & Hk & Hn). exists written, (lost ++ drop k (backup s)), O.
    cbn [th_mem th_worker unwritten] in *. pose proof (negb_ne (sh_cur s)).
    rewrite backup_set, cur_set, !decide_False by done. split; [exact Hf|]. rewrite length_app, length_drop. cbn [length app].
    split; [rewrite <- Hp; solve_Permutation|]. split; [lia|lia].
Qed.

Lemma counted_run (file : list ascii) (max : Z) (ls : list event) (t : threads) (n : nat) :
  t_run_late (threads_init file max) ls t n -> th_serving t <> DDone -> locked t /\ counted file (pushed ls) n t.
Proof.
  intros Hrun Hd. induction Hrun as [|ls l s s' n Hrun IH Hst].
  - split; [done|]. exists [], [], O. split; [cbn; unfold print_all; cbn; by rewrite app_nil_r|]. split; [done|]. split; cbn; lia.
  - destruct (IH (step_open s l s' Hst Hd)) as [Hl Hc]. split; [by eapply locked_step|]. rewrite pushed_snoc. by apply counted_step.
Qed.

(** Whatever the two threads and SIGINT do, every command that was put away is in the file or
    in a cache, except at most one for every [push_back] that fell between the writing of the
    vector and its clearing. *)
Lemma only_late_pushes_lost (file : list ascii) (max : Z) (ls : list event) (t : threads) (n : nat) :
  t_run_late (threads_init file max) ls t n -> th_serving t <> DDone ->
  exists written kept lost, sh_file (th_mem t) = file ++ print_all written /\ kept ⊆+ backup (th_mem t) ++ cur (th_mem t) /\
    written ++ kept ++ lost ≡ₚ pushed ls /\ (length lost <= n)%nat.
Proof.
  intros Hrun Hd. destruct (counted_run file max ls t n Hrun Hd) as [_ (written & lost & k & Hf & Hp & Hk & Hn)].
  exists written, (unwritten (th_worker t) k (th_mem t) ++ cur (th_mem t)), lost. split; [exact Hf|]. split; [|split].
  - apply submseteq_app; [|done]. unfold unwritten. destruct (th_worker t); try done. apply sublist_submseteq, sublist_drop.
  - rewrite <- Hp. by rewrite <- !app_assoc.
  - lia.
Qed.

(** The same until the end: a shutdown that begins while the worker waits. *)
Definition closing_n (file0 : list ascii) (log : list CommandCache) (n : nat) (t : threads) : Prop :=
  sh_stopped (th_mem t) = true /\
  match th_serving t with
  | DJoin _ => locked t /\ counted file0 log n t /\
      match th_worker t with
      | BUnlock | BLoop | BExit => backup (th_mem t) = []
      | BLock => False
      | _ => True
      end
  | DDone => th_worker t = BExit /\
      exists written lost, sh_file (th_mem t) = file0 ++ print_all written /\ written ++ lost ≡ₚ log /\ (length lost <= n)%nat
  | _ => False
  end.

Lemma stop_counted file0 log n s w o o' : counted file0 log n (mkThreads s w o) -> counted file0 log n (mkThreads (stop s) w o').
Proof. intros H. by eapply counted_serving. Qed.

Lemma closing_n_step file0 log n s l s' : closing_n file0 log n s -> opened_ok s l -> t_step s l s' -> closing_n file0 log n s'.
Proof.
  intros [Hs H] Hok Hst. unfold closing_n in *. destruct (th_serving s) eqn:Eo; try done.
  - destruct H as (Hlock & Hc & Hw).
    assert (pushed [l] = [] /\ late s l = O) as [Ep El] by (destruct Hst; cbn in *; by simplify_eq).
    assert (th_serving s' <> DDone -> locked s' /\ counted file0 log n s') as Hnext.
    { intros Hd. split; [by eapply locked_step|]. pose proof (counted_step file0 log n s l s' Hlock Hc Hst Hd) as H.
      by rewrite Ep, El, app_nil_r, Nat.add_0_r in H. }
    destruct Hst; cbn [th_mem th_worker th_serving opened_ok] in *; simplify_eq; try done;
      try (by split; [done|]; destruct Hnext; [done|]; split_and!).
    + split; [by rewrite close_stopped|]. split; [done|]. destruct Hc as (written & lost & k & Hf & Hp & _ & Hn). cbn [th_mem th_worker unwritten] in *.
      exists (written ++ cur s), lost. rewrite close_file, Hf, print_all_app, app_assoc by done. split; [done|]. split; [|lia].
      rewrite <- Hp, Hw. by rewrite <- app_assoc.
    + congruence.
    + split; [done|]. destruct Hnext; [done|]. split_and!; [done..|]. by repeat case_bool_decide.
    + split; [done|]. destruct Hnext; [done|]. split_and!; [done..|]. by rewrite backup_set, decide_False by apply negb_ne.
  - destruct H as [Hw _], Hst; cbn in *; by simplify_eq.
Qed.

(** Whatever the schedule was, the commands in the file after a shutdown that begins while the
    worker waits are those put away, except at most one for every such [push_back]. *)
Lemma only_late_pushes_lost_in_the_end (file : list ascii) (max : Z) (ls ls' : list event) (n : nat) (s : shared) (o : serving_pc) (t : threads) :
  t_run_late (threads_init file max) ls (mkThreads s BWait o) n -> serving o = true ->
  t_run opened_ok (mkThreads (stop s) BWait (DJoin (serving_holds o))) ls' t -> th_serving t = DDone ->
  exists written lost, sh_file (th_mem t) = file ++ print_all written /\ written ++ lost ≡ₚ pushed ls /\ (length lost <= n)%nat.
Proof.
  intros Hrun Ho Hrun' Hd. destruct (counted_run file max ls _ n Hrun ltac:(by destruct o)) as [Hl Hc].
  assert (closing_n file (pushed ls) n (mkThreads (stop s) BWait (DJoin (serving_holds o)))) as H.
  { split; [done|]. cbn [th_serving th_worker]. split; [|split; [by eapply stop_counted|done]].
    destruct Hl as [Hm _]. split; [exact Hm|done]. }
  assert (closing_n file (pushed ls) n t) as [_ H']; [|by rewrite Hd in H'; destruct H'].
  clear Hd. induction Hrun' as [|ls1 l s1 s2 _ IH Hok Hst]; [done|]. by eapply closing_n_step.
Qed.

(** If it begins when the worker is at the test of its loop, the worker leaves without the last
    flush, and the destructor, which writes one cache only, drops the other. *)
Lemma exit_without_flush : exists ls ls' s t, t_run orderly (threads_init [] 1) ls (mkThreads s BLoop ORun) /\ pushed ls = [set1; set2] /\
  t_run opened_ok (mkThreads (stop s) BLoop (DJoin false)) ls' t /\ th_serving t = DDone /\ sh_file (th_mem t) = print_all [set2].
Proof.
  exists two_appends, [TWorker; TClose true], (mkShared [] [set1] [set2] false 1 false None),
    (mkThreads (mkShared (print_all [set2]) [] [] true 1 true None) BExit DDone).
  split; [|split; [done|split; [|done]]].
  - walk ltac:(first [exact I | intros [] | by left]).
  - walk ltac:(first [exact I | reflexivity]).
Qed.
