(* ===== verification/Commands.v ===== *)
(** * Commands: the command engine (src/net/commands.h, commands.cpp)

    One definition per handler of [sOpCommandMap], with the macros written out as
    the helpers they are, and [HandleCommand], which dispatches to them. A handler
    works on the data (the container and the append-only file), on the engine with
    its timers, or on the server; [CommandHandler] says which. What the code reads
    outside (clock, memory in use, random draws, answers of the kernel) is the
    record [Env]. [None] is undefined behaviour. *)

From S2P Require Import Prelude Numerals Str Buffer Protocol Hash DList Core TimeEvent Server Persistence.
From stdpp Require Import list fin_maps.

Local Open Scope Z_scope.

(** ** Replies *)

Definition kInt1Msg : list ascii := bs ":1" ++ CRLF.
Definition kInt0Msg : list ascii := bs ":0" ++ CRLF.
Definition kIntMinus2Msg : list ascii := bs ":-2" ++ CRLF.
Definition kIntMinus1Msg : list ascii := bs ":-1" ++ CRLF.
Definition kNilMsg : list ascii := bs "$-1" ++ CRLF.
Definition kOkMsg : list ascii := bs "+OK" ++ CRLF.
Definition kPONGMsg : list ascii := bs "+PONG" ++ CRLF.
Definition kArrayEmptyMsg : list ascii := bs "*0" ++ CRLF.
Definition kNotOkMsg : list ascii := bs "-ERROR failed" ++ CRLF.
Definition kNoSuchKeyMsg : list ascii := bs "-ERROR no such key" ++ CRLF.
Definition kWrongTypeMsg : list ascii :=
  bs "-WRONGTYPE operation to a key holding wrong type of value" ++ CRLF.
Definition kOutOfRangeMsg : list ascii := bs "-ERROR index out of range" ++ CRLF.
Definition kInvalidOpCodeMsg : list ascii := bs "-ERROR unsupported command" ++ CRLF.
Definition kInvalidIntegerMsg : list ascii := bs "-ERROR index or value is not an integer" ++ CRLF.
Definition kInt64OverflowMsg : list ascii := bs "-ERROR integer overflow" ++ CRLF.
Definition kNotSupportedYetMsg : list ascii := bs "-ERROR command not supported yet" ++ CRLF.

(** The argument is a [long]. *)
Definition PackIntReply (value : Z) : list ascii := bs ":" ++ to_string (i64 value) ++ CRLF.

Definition PackBoolReply (yes : bool) : list ascii := if yes then kInt1Msg else kInt0Msg.

Definition PackStringValueReply (value : list ascii) : list ascii :=
  bs "$" ++ to_string (Z.of_nat (length value)) ++ CRLF ++ value ++ CRLF.

Definition PackStringValueReply_ds (value : DynamicString) : list ascii :=
  bs "$" ++ to_string (ds_len value) ++ CRLF ++ ToStdString value ++ CRLF.

(** Printing a [DynamicString] on a stream stops at its first NUL. *)
Definition PackStringValueIntoStream (value : DynamicString) : list ascii :=
  if negb (ds_Null value) then bs "$" ++ to_string (ds_len value) ++ CRLF ++ ds_stream value ++ CRLF
  else kNilMsg.

Definition PackStringMsgReply (msg : list ascii) : list ascii := bs "+" ++ msg ++ CRLF.

Definition PackErrMsg (et msg : list ascii) : list ascii := bs "-" ++ et ++ bs " " ++ msg ++ CRLF.

Definition array_head (n : nat) : list ascii := bs "*" ++ to_string (Z.of_nat n) ++ CRLF.

Definition PackArrayMsg (array : list DynamicString) : list ascii :=
  array_head (length array) ++ concat (PackStringValueIntoStream <$> array).

Definition PackArrayMsg_std (array : list (list ascii)) : list ascii :=
  array_head (length array) ++ concat (PackStringValueReply <$> array).

Definition PackEmptyArrayMsg (size : nat) : list ascii := array_head size ++ concat (replicate size kNilMsg).

Definition PackIntArrayMsg (array : list Z) : list ascii :=
  array_head (length array) ++ concat ((λ elem, bs ":" ++ to_string elem ++ CRLF) <$> array).

(** ** The state *)

(** What one eviction draws, and the clock it reads. *)
Record draws := mkDraws { dr_indices : list nat; dr_start : Z; dr_rounds : list (list nat * Z) }.

Record Env := mkEnv {
  now_ms : Z;                (* the clock for visit times and timers *)
  now_sec : Z;               (* [ExpireAtCommand]'s reading *)
  log_sec : Z;               (* the reading for the logged [expireat] *)
  cur_rss_size_ : Z;         (* what [UpdateMemInfo] last measured *)
  lazy_draws : draws;        (* of the eviction in [HandleCommand] *)
  evict_draws : draws;       (* of [EvictCommand] *)
  send_answers : list (list send_answer);   (* one list for each subscriber *)
  forked : bool              (* [LiteKVBackgroundSave] *)
}.

(** The engine, the timers of its loop and the file-static [sExpiresMap] of
    commands.cpp. A [TimeEvent *] is the identifier of the event, which must be in
    the list when it is dereferenced. [callbacks] says which key the callback of a
    timer deletes; [relayed] is what [publish] has sent. *)
Record Engine := mkEngine {
  container_ : KVContainer;
  appending_ : option AppendableFile;
  tev_holder : TimeEventHolder;
  sExpiresMap : gmap (list ascii) Z;
  callbacks : gmap Z (list ascii);
  sEvictPolicy : Z;
  rss_limit : Z;   (* [(size_t)((double) MaxMemLimit() * 1024 * LruTriggerRatio())] *)
  relayed : list (list ascii * list ascii)
}.

Definition with_data (c : KVContainer) (app : option AppendableFile) (e : Engine) : Engine :=
  mkEngine c app (tev_holder e) (sExpiresMap e) (callbacks e) (sEvictPolicy e) (rss_limit e) (relayed e).

Definition with_timers (h : TimeEventHolder) (ex : gmap (list ascii) Z) (cb : gmap Z (list ascii)) (e : Engine)
  : Engine :=
  mkEngine (container_ e) (appending_ e) h ex cb (sEvictPolicy e) (rss_limit e) (relayed e).

Definition with_relayed (r : list (list ascii * list ascii)) (e : Engine) : Engine :=
  mkEngine (container_ e) (appending_ e) (tev_holder e) (sExpiresMap e) (callbacks e) (sEvictPolicy e)
    (rss_limit e) r.

Definition Engine_new (policy limit : Z) : Engine :=
  mkEngine KVContainer_new None TimeEventHolder_new ∅ ∅ policy limit [].

(** A handler of each kind. [sess] is the session the command came from; it and
    [params] are null when a file is replayed. *)
Abbreviation on_data := (option (KVContainer * option AppendableFile * list ascii)).

Inductive CommandHandler :=
  | OnData (h : Env -> KVContainer -> option AppendableFile -> CommandCache -> bool -> on_data)
  | OnEngine (h : Env -> Engine -> CommandCache -> bool -> option (Engine * list ascii))
  | OnServer (h : Env -> Server -> option (list ascii) -> CommandCache ->
      option (Server * list (list ascii * list ascii) * list ascii)).

(** ** Helpers *)

Definition CheckSyntax (cmd : CommandCache) (n_key_required n_operands_required : Z) (even : bool) : bool :=
  let len := Z.of_nat (length (argv cmd)) in
  if even && Z.odd len then false
  else if n_key_required =? 0 then len =? 1
  else if n_key_required =? 1 then
    if n_operands_required =? -1 then len >=? 3 else len =? u64 (n_operands_required + 2)
  else if n_key_required =? -1 then len >=? 2
  else if n_key_required =? -2 then len >=? 1
  else false.

(** The name is written with its quotes ([#name] of a character constant). *)
Definition wrong_args (name : list ascii) : list ascii :=
  PackErrMsg (bs "ERROR") (bs "incorrect number of arguments for '" ++ name ++ bs "' command").

Definition AddIntoAppendableDirectly (sync : bool) (appendable : option AppendableFile) (cmds : CommandCache)
  : option AppendableFile :=
  if sync then (λ a, aof_Append a cmds) <$> appendable else appendable.

Definition cmd_of (args : list (list ascii)) : CommandCache := mkCache true (Z.of_nat (length args)) args.

Section DataHandlers.

Variable env : Env.
Variable holder : KVContainer.
Variable appendable : option AppendableFile.
Variable cmds : CommandCache.
Variable sync : bool.

(** [CheckSyntaxHelper]. *)
Definition CheckSyntaxHelper (n_key n_operands : Z) (even : bool) (name : list ascii) (rest : on_data) : on_data :=
  if CheckSyntax cmds n_key n_operands even then rest else Some (holder, appendable, wrong_args name).

(** [AddIntoAppendableDirectly(cmds); return reply;]. *)
Definition logged (c : KVContainer) (reply : list ascii) : on_data :=
  Some (c, AddIntoAppendableDirectly sync appendable cmds, reply).

Definition replied (c : KVContainer) (reply : list ascii) : on_data := Some (c, appendable, reply).

(** The returns by error code; [rest] follows them. *)
Definition IfWrongTypeReturn (c : KVContainer) (errcode : Z) (rest : on_data) : on_data :=
  if errcode =? kWrongTypeCode then replied c kWrongTypeMsg else rest.
Definition IfKeyNotFoundReturn (c : KVContainer) (errcode : Z) (rest : on_data) : on_data :=
  if errcode =? kKeyNotFoundCode then replied c kNilMsg else rest.
Definition IfInt64OverflowThenReturn (c : KVContainer) (errcode : Z) (rest : on_data) : on_data :=
  if errcode =? kOverflowCode then replied c kInt64OverflowMsg else rest.
Definition IfFailReturn (c : KVContainer) (errcode : Z) (retval : list ascii) (rest : on_data) : on_data :=
  if errcode =? kFailCode then replied c retval else rest.

(** *** Generic commands *)

Definition OverviewCommand : on_data :=
  CheckSyntaxHelper 0 0 false (bs "overview")
    (strs ← Overview holder;
     array ← mapM (DynamicString_std always_ok) strs;
     replied holder (PackArrayMsg array)).

Definition NumItemsCommand : on_data :=
  CheckSyntaxHelper 0 0 false (bs "total") (replied holder (PackIntReply (NumItems holder))).

Definition PingCommand : on_data :=
  CheckSyntaxHelper 0 0 false (bs "ping") (replied holder kPONGMsg).

Definition DelCommand : on_data :=
  CheckSyntaxHelper (-1) 0 false (bs "del")
    (let '(c, n) := kv_Delete_all holder (drop 1 (argv cmds)) in logged c (PackIntReply n)).

Definition ExistsCommand : on_data :=
  CheckSyntaxHelper (-1) 0 false (bs "exists")
    (replied holder (PackIntReply (KeyExists_all holder (drop 1 (argv cmds))))).

Definition TypeCommand : on_data :=
  CheckSyntaxHelper 1 0 false (bs "type")
    (key ← argv cmds !! 1%nat;
     let obj_type := QueryObjectType_skey holder key in
     replied holder (PackStringMsgReply
       (if obj_type =? OBJECT_INT then bs "int"
        else if obj_type =? OBJECT_STRING then bs "string"
        else if obj_type =? OBJECT_LIST then bs "list"
        else if obj_type =? OBJECT_HASH then bs "hash"
        else bs "none"))).

(** *** Integers and strings *)

Definition SetCommand : on_data :=
  CheckSyntaxHelper 1 1 false (bs "set")
    (key ← argv cmds !! 1%nat;
     value ← argv cmds !! 2%nat;
     '(c, res) ← match CanConvertToInt64 value with
                 | Some val => Some (SetInt_skey (now_ms env) holder key val)
                 | None => SetString_skey (now_ms env) holder key value
                 end;
     if res : bool then logged c kOkMsg else replied c kNotOkMsg).

Definition GetCommand : on_data :=
  CheckSyntaxHelper 1 0 false (bs "get")
    (key ← argv cmds !! 1%nat;
     '(c, val, errcode) ← Get_skey (now_ms env) holder key;
     if errcode =? kOkCode then
       o ← val;
       if vo_type o =? OBJECT_INT then
         match vo_ptr o with
         | PInt intval => replied c (PackStringValueReply (to_string intval))
         | _ => None
         end
       else s ← vo_ToStdString o; replied c (PackStringValueReply s)
     else
       IfKeyNotFoundReturn c errcode (IfWrongTypeReturn c errcode (replied c kNilMsg))).

Definition IncrDecr (operation : option (KVContainer * Z * Z)) : on_data :=
  '(c, ans, errcode) ← operation;
  if errcode =? kOkCode then logged c (PackIntReply ans)
  else IfWrongTypeReturn c errcode (IfInt64OverflowThenReturn c errcode (replied c kNotOkMsg)).

Definition IncrDecrCommonHelper (operation : Z -> KVContainer -> list ascii -> option (KVContainer * Z * Z)) : on_data :=
  key ← argv cmds !! 1%nat;
  IncrDecr (operation (now_ms env) holder key).

Definition IncrDecrCommonHelper2
  (operation : Z -> KVContainer -> list ascii -> Z -> option (KVContainer * Z * Z)) : on_data :=
  key ← argv cmds !! 1%nat;
  num_str ← argv cmds !! 2%nat;
  match CanConvertToInt64 num_str with
  | None => replied holder kInvalidIntegerMsg
  | Some num =>
      if num <? 0 then replied holder kInvalidIntegerMsg
      else IncrDecr (operation (now_ms env) holder key num)
  end.

Definition IncrCommand : on_data := CheckSyntaxHelper 1 0 false (bs "incr") (IncrDecrCommonHelper IncrInt_skey).
Definition DecrCommand : on_data := CheckSyntaxHelper 1 0 false (bs "decr") (IncrDecrCommonHelper DecrInt_skey).
Definition IncrByCommand : on_data :=
  CheckSyntaxHelper 1 1 false (bs "incrby") (IncrDecrCommonHelper2 IncrIntBy_skey).
Definition DecrByCommand : on_data :=
  CheckSyntaxHelper 1 1 false (bs "decrby") (IncrDecrCommonHelper2 DecrIntBy_skey).

Definition StrlenCommand : on_data :=
  CheckSyntaxHelper 1 0 false (bs "strlen")
    (key ← argv cmds !! 1%nat;
     '(c, len, errcode) ← StrLen_skey (now_ms env) holder key 0;
     if errcode =? kOkCode then replied c (PackIntReply len)
     else IfWrongTypeReturn c errcode (replied c (PackIntReply 0))).

Definition AppendCommand : on_data :=
  CheckSyntaxHelper 1 1 false (bs "append")
    (key ← argv cmds !! 1%nat;
     value ← argv cmds !! 2%nat;
     '(c, after_len, errcode) ← Append_skey (now_ms env) holder key value;
     if errcode =? kOkCode then logged c (PackIntReply after_len)
     else IfKeyNotFoundReturn c errcode (IfWrongTypeReturn c errcode (replied c kNotOkMsg))).

Definition GetRangeCommand : on_data := replied holder kNotSupportedYetMsg.
Definition SetRangeCommand : on_data := replied holder kNotSupportedYetMsg.

(** *** Lists *)

Definition LLenCommand : on_data :=
  CheckSyntaxHelper 1 0 false (bs "llen")
    (key ← argv cmds !! 1%nat;
     '(c, list_len, errcode) ← ListLen_skey (now_ms env) holder key;
     if errcode =? kOkCode then replied c (PackIntReply list_len)
     else IfWrongTypeReturn c errcode (replied c (PackIntReply 0))).

Definition ListPopCommandCommon
  (operation : Z -> KVContainer -> list ascii -> option (KVContainer * DynamicString * Z)) : on_data :=
  key ← argv cmds !! 1%nat;
  '(c, popped, errcode) ← operation (now_ms env) holder key;
  if errcode =? kOkCode then
    if negb (ds_Empty popped) then logged c (PackStringValueReply (ToStdString popped))
    else replied c kNilMsg
  else if errcode =? kWrongTypeCode then replied c kWrongTypeMsg
  else replied c kNilMsg.

Definition LPopCommand : on_data := CheckSyntaxHelper 1 0 false (bs "lpop") (ListPopCommandCommon LeftPop_skey).
Definition RPopCommand : on_data := CheckSyntaxHelper 1 0 false (bs "rpop") (ListPopCommandCommon RightPop_skey).

Definition ListPushCommandCommon
  (operation : Z -> KVContainer -> list ascii -> list (list ascii) -> option (KVContainer * Z * Z)) : on_data :=
  key ← argv cmds !! 1%nat;
  '(c, list_len, errcode) ← operation (now_ms env) holder key (drop 2 (argv cmds));
  if errcode =? kOkCode then logged c (PackIntReply list_len)
  else if errcode =? kWrongTypeCode then replied c kWrongTypeMsg
  else replied c kNotOkMsg.

Definition LPushCommand : on_data := CheckSyntaxHelper 1 (-1) false (bs "lpush") (ListPushCommandCommon LeftPush).
Definition RPushCommand : on_data := CheckSyntaxHelper 1 (-1) false (bs "rpush") (ListPushCommandCommon RightPush).

Definition LRangeCommand : on_data :=
  CheckSyntaxHelper 1 2 false (bs "lrange")
    (key ← argv cmds !! 1%nat;
     begin ← argv cmds !! 2%nat;
     end' ← argv cmds !! 3%nat;
     match CanConvertToInt32 begin, CanConvertToInt32 end' with
     | Some begin_idx, Some end_idx =>
         '(c, ranges, errcode) ← ListRange_skey (now_ms env) holder key begin_idx end_idx;
         if errcode =? kOkCode then
           if negb (bool_decide (ranges = [])) then replied c (PackArrayMsg ranges)
           else replied c kArrayEmptyMsg
         else IfWrongTypeReturn c errcode (replied c kArrayEmptyMsg)
     | _, _ => replied holder kInvalidIntegerMsg
     end).

Definition LInsertCommand : on_data := replied holder kNotSupportedYetMsg.
Definition LRemCommand : on_data := replied holder kNotSupportedYetMsg.

Definition LSetCommand : on_data :=
  CheckSyntaxHelper 1 2 false (bs "lsetindex")
    (key ← argv cmds !! 1%nat;
     index ← argv cmds !! 2%nat;
     match CanConvertToInt32 index with
     | None => replied holder kInvalidIntegerMsg
     | Some idx =>
         value ← argv cmds !! 3%nat;
         '(c, _, errcode) ← ListSetItemAtIndex_skey (now_ms env) holder key idx value;
         if errcode =? kOkCode then logged c kOkMsg
         else if errcode =? kWrongTypeCode then replied c kWrongTypeMsg
         else if errcode =? kOutOfRangeCode then replied c kOutOfRangeMsg
         else if errcode =? kKeyNotFoundCode then replied c kNoSuchKeyMsg
         else replied c kNotOkMsg
     end).

Definition LIndexCommand : on_data :=
  CheckSyntaxHelper 1 1 false (bs "lindex")
    (key ← argv cmds !! 1%nat;
     index ← argv cmds !! 2%nat;
     match CanConvertToInt32 index with
     | None => replied holder kInvalidIntegerMsg
     | Some idx =>
         '(c, item, errcode) ← ListItemAtIndex_skey (now_ms env) holder key idx;
         if errcode =? kOkCode then replied c (PackStringValueReply (ToStdString item))
         else IfWrongTypeReturn c errcode (replied c kNilMsg)
     end).

(** *** Hashes *)

(** The loop that splits the operands; it steps past the end of an odd number. *)
Fixpoint fields_values (l : list (list ascii)) : option (list (list ascii) * list (list ascii)) :=
  match l with
  | [] => Some ([], [])
  | f :: v :: l => '(fields, values) ← fields_values l; Some (f :: fields, v :: values)
  | [_] => None
  end.

Definition HSetCommand : on_data :=
  CheckSyntaxHelper 1 (-1) true (bs "hset")
    (key ← argv cmds !! 1%nat;
     '(fields, values) ← fields_values (drop 2 (argv cmds));
     '(c, count, errcode) ← HashUpdateKV_all (now_ms env) holder (Key_std key) fields values;
     if (errcode =? kOkCode) && negb (count =? 0) then logged c kOkMsg
     else IfWrongTypeReturn c errcode (replied c kNotOkMsg)).

Definition HGetCommand : on_data :=
  CheckSyntaxHelper 1 (-1) false (bs "hget")
    (key ← argv cmds !! 1%nat;
     let k := Key_std key in
     if Z.of_nat (length (argv cmds)) =? 3 then
       field ← argv cmds !! 2%nat;
       f ← DynamicString_std always_ok field;
       '(c, val, errcode) ← HashGetValue (now_ms env) holder k f;
       if errcode =? kOkCode then replied c (PackStringValueReply_ds val)
       else IfKeyNotFoundReturn c errcode (IfWrongTypeReturn c errcode (replied c kArrayEmptyMsg))
     else
       let fields := drop 2 (argv cmds) in
       '(c, values, _) ← HashGetValue_all (now_ms env) holder k fields;
       if negb (bool_decide (values = [])) then replied c (PackArrayMsg values)
       else replied c (PackEmptyArrayMsg (length fields))).

Definition HDelCommand : on_data :=
  CheckSyntaxHelper 1 (-1) false (bs "hdel")
    (key ← argv cmds !! 1%nat;
     '(c, n_deleted, errcode) ← HashDelField_all (now_ms env) holder (Key_std key) (drop 2 (argv cmds));
     IfWrongTypeReturn c errcode (logged c (PackIntReply n_deleted))).

Definition HExistsCommand : on_data :=
  CheckSyntaxHelper 1 1 false (bs "hexists")
    (key ← argv cmds !! 1%nat;
     field ← argv cmds !! 2%nat;
     '(c, ans, errcode) ← HashExistField_skey (now_ms env) holder key field;
     IfWrongTypeReturn c errcode (replied c (PackBoolReply ans))).

Definition HKeysValsEntriesCommon
  (operation : Z -> KVContainer -> list ascii -> option (KVContainer * list DynamicString * Z)) : on_data :=
  key ← argv cmds !! 1%nat;
  '(c, keys, errcode) ← operation (now_ms env) holder key;
  if errcode =? kWrongTypeCode then replied c kWrongTypeMsg
  else if negb (bool_decide (keys = [])) then replied c (PackArrayMsg keys)
  else replied c kArrayEmptyMsg.

Definition HGetAllCommand : on_data :=
  CheckSyntaxHelper 1 0 false (bs "hgetall") (HKeysValsEntriesCommon HashGetAllEntries_skey).
Definition HKeysCommand : on_data :=
  CheckSyntaxHelper 1 0 false (bs "hkeys") (HKeysValsEntriesCommon HashGetAllFields_skey).
Definition HValsCommand : on_data :=
  CheckSyntaxHelper 1 0 false (bs "hvals") (HKeysValsEntriesCommon HashGetAllValues_skey).

Definition HLenCommand : on_data :=
  CheckSyntaxHelper 1 0 false (bs "hlen")
    (key ← argv cmds !! 1%nat;
     '(c, len, errcode) ← HashLen_skey (now_ms env) holder key;
     IfWrongTypeReturn c errcode (replied c (PackIntReply len))).

(** *** Sets *)

Definition SAddCommand : on_data :=
  CheckSyntaxHelper 1 (-1) false (bs "sadd")
    (key ← argv cmds !! 1%nat;
     '(c, n_added, errcode) ← SetAddItem_skey (now_ms env) holder key (drop 2 (argv cmds));
     IfWrongTypeReturn c errcode
       (IfFailReturn c errcode (PackIntReply 0) (logged c (PackIntReply n_added)))).

Definition SIsMemberCommand : on_data :=
  CheckSyntaxHelper 1 1 false (bs "sismember")
    (key ← argv cmds !! 1%nat;
     member ← argv cmds !! 2%nat;
     '(c, ret, errcode) ← SetIsMember_skey (now_ms env) holder key member;
     IfWrongTypeReturn c errcode (replied c (PackBoolReply ret))).

Definition SMIsMemberCommand : on_data :=
  CheckSyntaxHelper 1 (-1) false (bs "smismember")
    (key ← argv cmds !! 1%nat;
     '(c, ret, errcode) ← SetMIsMember_skey (now_ms env) holder key (drop 2 (argv cmds));
     IfWrongTypeReturn c errcode (replied c (PackIntArrayMsg ((λ b : bool, if b then 1 else 0) <$> ret)))).

Definition SMembersCommand : on_data :=
  CheckSyntaxHelper 1 0 false (bs "smembers")
    (key ← argv cmds !! 1%nat;
     '(c, ret, errcode) ← SetGetMembers_skey (now_ms env) holder key;
     IfWrongTypeReturn c errcode (replied c (PackArrayMsg ret))).

(** The overload called returns a [bool]. *)
Definition SRemCommand : on_data :=
  CheckSyntaxHelper 1 (-1) false (bs "srem")
    (key ← argv cmds !! 1%nat;
     '(c, ret, errcode) ← SetRemoveMembers_skey (now_ms env) holder key (drop 2 (argv cmds));
     IfWrongTypeReturn c errcode (logged c (PackIntReply (if ret : bool then 1 else 0)))).

Definition SCardCommand : on_data :=
  CheckSyntaxHelper 1 0 false (bs "scard")
    (key ← argv cmds !! 1%nat;
     '(c, ret, errcode) ← SetGetMemberCount_skey (now_ms env) holder key;
     IfWrongTypeReturn c errcode (replied c (PackIntReply ret))).

Definition SPopCommand : on_data := replied holder kNotSupportedYetMsg.

End DataHandlers.

(** *** Handlers that use the engine or its loop *)

Definition KeyEviction_env (d : draws) (policy n : Z) (c : KVContainer) : option (KVContainer * list (list ascii)) :=
  KeyEviction c policy n (dr_indices d) (dr_start d) (dr_rounds d).

(** [ans] grows by one element only when it is logged, and is counted after it. *)
Definition EvictCommand (env : Env) (e : Engine) (cmds : CommandCache) (sync : bool) : option (Engine * list ascii) :=
  if CheckSyntax cmds 1 0 false then
    n_req_del ← argv cmds !! 1%nat;
    match CanConvertToUInt64 n_req_del with
    | None => Some (e, kInvalidIntegerMsg)
    | Some n =>
        '(c, ans) ← KeyEviction_env (evict_draws env) (sEvictPolicy e) n (container_ e);
        let '(app, ans) := match appending_ e with
          | Some a => if sync then (Some (aof_Append a (cmd_of (bs "del" :: ans))), bs "del" :: ans)
                      else (Some a, ans)
          | None => (None, ans)
          end in
        Some (with_data c app e, PackIntReply (i32 (Z.of_nat (length ans)) - 1))
    end
  else Some (e, wrong_args (bs "evict")).

(** The event a [TimeEvent *] points to. *)
Definition deref (e : Engine) (id : Z) : option TimeEvent :=
  find (λ ev, tev_id ev =? id) (event_list_ (tev_holder e)).

(** What [ExpireCommand] does to the key and its timer: the engine and whether it
    goes on to log and reply 1 (it replies 0 otherwise). *)
Definition expire_timer (env : Env) (e : Engine) (key : list ascii) (interval : Z) : option (Engine * bool) :=
  match sExpiresMap e !! key with
  | None =>
      if interval >? 0 then
        let '(h, tev) := CreateTimeEvent (now_ms env) (tev_holder e) (u64 (interval * 1000)) 1 in
        Some (with_timers h (<[key := tev_id tev]> (sExpiresMap e)) (<[tev_id tev := key]> (callbacks e)) e, true)
      else if interval =? 0 then
        Some (with_data (Delete_skey (container_ e) key).1 (appending_ e) e, true)
      else Some (e, true)
  | Some p =>
      ev ← deref e p;
      let ev_id := tev_id ev in
      if interval >=? 0 then
        let '(h, ok) := UpdateTimeEvent (now_ms env) (tev_holder e) ev_id (u64 (interval * 1000)) 1 in
        Some (with_timers h (sExpiresMap e) (callbacks e) e, ok)
      else
        let '(h, ok) := RemoveTimeEvent (tev_holder e) ev_id in
        Some (with_timers h (if ok : bool then delete key (sExpiresMap e) else sExpiresMap e) (callbacks e) e, ok)
  end.

(** What is logged: the absolute time, or a command that gives the key its value. *)
Definition expire_log (env : Env) (e : Engine) (cmds : CommandCache) (key : list ascii) (interval : Z) (sync : bool)
  : option (option AppendableFile) :=
  match appending_ e with
  | Some a =>
      if sync then
        if interval >=? 0 then
          let argv' := <[2%nat := to_string (u64 (log_sec env + interval))]> (<[O := bs "expireat"]> (argv cmds)) in
          Some (Some (aof_Append a (mkCache (inited cmds) (argc cmds) argv')))
        else
          '(recovered_cmd, errcode) ← RecoverCommandFromValue (container_ e) key;
          if (errcode =? kOkCode) && negb (bool_decide (recovered_cmd = [])) then
            Some (Some (aof_Append a (cmd_of recovered_cmd)))
          else Some (Some a)
      else Some (Some a)
  | None => Some None
  end.

Definition ExpireCommand (env : Env) (e : Engine) (cmds : CommandCache) (sync : bool) : option (Engine * list ascii) :=
  if CheckSyntax cmds 1 1 false then
    key ← argv cmds !! 1%nat;
    if negb (KeyExists_skey (container_ e) key) then Some (e, kInt0Msg)
    else
      time ← argv cmds !! 2%nat;
      match CanConvertToInt64 time with
      | None => Some (e, kInvalidIntegerMsg)
      | Some interval =>
          '(e, ok) ← expire_timer env e key interval;
          if ok : bool then
            app ← expire_log env e cmds key interval sync;
            Some (with_data (container_ e) app e, kInt1Msg)
          else Some (e, kInt0Msg)
      end
  else Some (e, wrong_args (bs "expire")).

Definition ExpireAtCommand (env : Env) (e : Engine) (cmds : CommandCache) (sync : bool) : option (Engine * list ascii) :=
  if CheckSyntax cmds 1 1 false then
    time ← argv cmds !! 2%nat;
    match CanConvertToInt64 time with
    | None => Some (e, kInvalidIntegerMsg)
    | Some unix_sec =>
        diff ← chk64 (unix_sec - i64 (now_sec env));
        let interval := Z.max diff 0 in
        ExpireCommand env e (mkCache (inited cmds) (argc cmds) (<[2%nat := to_string interval]> (argv cmds))) sync
    end
  else Some (e, wrong_args (bs "expireat")).

Definition TTLCommand (env : Env) (e : Engine) (cmds : CommandCache) (sync : bool) : option (Engine * list ascii) :=
  if CheckSyntax cmds 1 0 false then
    key ← argv cmds !! 1%nat;
    if negb (KeyExists_skey (container_ e) key) then Some (e, kIntMinus2Msg)
    else
      match sExpiresMap e !! key with
      | None => Some (e, kIntMinus1Msg)
      | Some p =>
          ev ← deref e p;
          let ttl := u64 (tev_when ev - now_ms env) / 1000 in
          Some (e, PackIntReply ttl)
      end
  else Some (e, wrong_args (bs "ttl")).

(** *** Publish and subscribe *)

Definition bulk (s : list ascii) : list ascii := bs "$" ++ to_string (Z.of_nat (length s)) ++ CRLF ++ s ++ CRLF.

Definition PackPublishMessage (chan_name message : list ascii) : list ascii :=
  bs "*3" ++ CRLF ++ bulk (bs "message") ++ bulk chan_name ++ bulk message.

(** One [WriteFromBuf] for each subscriber: what each was sent, and the count of
    those that got everything. A subscriber without answers takes nothing. *)
Fixpoint relay (subscribers : list (list ascii)) (answers : list (list send_answer)) (relay_str : list ascii)
  : option (list (list ascii * list ascii) * Z) :=
  match subscribers with
  | [] => Some ([], 0)
  | sess :: subscribers =>
      '(nbytes, wire) ← WriteFromBuf (default [] (head answers)) relay_str (i32 (Z.of_nat (length relay_str)));
      '(sent, count) ← relay subscribers (tail answers) relay_str;
      Some ((sess, wire) :: sent, if u64 nbytes =? Z.of_nat (length relay_str) then count + 1 else count)
  end.

Definition PubSubPublishCommand (env : Env) (server : Server) (sess : option (list ascii)) (cmds : CommandCache)
  : option (Server * list (list ascii * list ascii) * list ascii) :=
  _ ← sess;
  if CheckSyntax cmds 1 1 false then
    channel ← argv cmds !! 1%nat;
    message ← argv cmds !! 2%nat;
    if HasSubscriptionChannel server channel then
      '(sent, count) ← relay (default [] (subscription_sessions_ server !! channel)) (send_answers env)
                         (PackPublishMessage channel message);
      Some (server, sent, PackIntReply count)
    else Some (server, [], kInt0Msg)
  else Some (server, [], wrong_args (bs "publish")).

Definition PackSubscriptionResArrayIntoStream (cmd_name chan_name : list ascii) (num : Z) (fill_minus_1 : bool)
  : list ascii :=
  bs "*3" ++ CRLF ++ bulk cmd_name ++
  (if fill_minus_1 then bs "$-1" ++ CRLF else bulk chan_name) ++
  bs ":" ++ to_string num ++ CRLF.

(** The loop of [PubSubSubscribeCommand]. *)
Fixpoint subscribe_all (server : Server) (name : list ascii) (channels : list (list ascii))
  : option (Server * list ascii) :=
  match channels with
  | [] => Some (server, [])
  | ch :: channels =>
      s ← sessions_ server !! name;
      let s := set_channels (if decide (ch ∈ subscribed_channels s) then subscribed_channels s
                             else subscribed_channels s ++ [ch]) s in
      let s := SetPubSubMode s in
      let '(_, server) := AddSessionToSubscription (put_session server name s) ch name in
      let line := PackSubscriptionResArrayIntoStream (bs "subscribe") ch
                    (Z.of_nat (length (subscribed_channels s))) false in
      '(server, ss) ← subscribe_all server name channels;
      Some (server, line ++ ss)
  end.

Definition PubSubSubscribeCommand (env : Env) (server : Server) (sess : option (list ascii)) (cmds : CommandCache)
  : option (Server * list (list ascii * list ascii) * list ascii) :=
  name ← sess;
  if CheckSyntax cmds (-1) (-1) false then
    '(server, ss) ← subscribe_all server name (drop 1 (argv cmds));
    Some (server, [], ss)
  else Some (server, [], wrong_args (bs "subscribe")).

Fixpoint unsubscribe_all (server : Server) (name : list ascii) (channels : list (list ascii))
  : option (Server * list ascii) :=
  match channels with
  | [] => Some (server, [])
  | ch :: channels =>
      s ← sessions_ server !! name;
      let s := set_channels (filter (λ c, c <> ch) (subscribed_channels s)) s in
      let s := UnsetPubSubMode s in
      let server := RemoveSessionFromSubscription (put_session server name s) ch name in
      let line := PackSubscriptionResArrayIntoStream (bs "unsubscribe") ch
                    (Z.of_nat (length (subscribed_channels s))) false in
      '(server, ss) ← unsubscribe_all server name channels;
      Some (server, line ++ ss)
  end.

Definition PubSubUnsubscribeCommand (env : Env) (server : Server) (sess : option (list ascii)) (cmds : CommandCache)
  : option (Server * list (list ascii * list ascii) * list ascii) :=
  name ← sess;
  if CheckSyntax cmds (-2) (-1) false then
    s ← sessions_ server !! name;
    let channels := if Z.of_nat (length (argv cmds)) >=? 2 then drop 1 (argv cmds) else subscribed_channels s in
    if bool_decide (channels = []) then
      Some (server, [], PackSubscriptionResArrayIntoStream (bs "unsubscribe") [] 0 true)
    else
      '(server, ss) ← unsubscribe_all server name channels;
      Some (server, [], ss)
  else Some (server, [], wrong_args (bs "unsubscribe")).

(** The child of the fork writes the snapshot; the parent only replies. *)
Definition BgsaveCommand (env : Env) (server : Server) (sess : option (list ascii)) (cmds : CommandCache)
  : option (Server * list (list ascii * list ascii) * list ascii) :=
  if CheckSyntax cmds 0 0 false then
    Some (server, [], if forked env then PackStringMsgReply (bs "Background saving started")
                      else PackStringMsgReply (bs "Background saving failed starting"))
  else Some (server, [], wrong_args (bs "bgsave")).

(** ** The engine *)

Definition sOpCommandMap : list (list ascii * CommandHandler) := [
  (bs "overview", OnData (λ _ c a m _, OverviewCommand c a m));
  (bs "total", OnData (λ _ c a m _, NumItemsCommand c a m));
  (bs "ping", OnData (λ _ c a m _, PingCommand c a m));
  (bs "evict", OnEngine EvictCommand);
  (bs "del", OnData (λ _, DelCommand));
  (bs "exists", OnData (λ _ c a m _, ExistsCommand c a m));
  (bs "type", OnData (λ _ c a m _, TypeCommand c a m));
  (bs "expire", OnEngine ExpireCommand);
  (bs "expireat", OnEngine ExpireAtCommand);
  (bs "ttl", OnEngine TTLCommand);
  (bs "set", OnData SetCommand);
  (bs "get", OnData (λ v c a m _, GetCommand v c a m));
  (bs "incr", OnData IncrCommand);
  (bs "decr", OnData DecrCommand);
  (bs "incrby", OnData IncrByCommand);
  (bs "decrby", OnData DecrByCommand);
  (bs "strlen", OnData (λ v c a m _, StrlenCommand v c a m));
  (bs "append", OnData AppendCommand);
  (bs "getrange", OnData (λ _ c a _ _, GetRangeCommand c a));
  (bs "setrange", OnData (λ _ c a _ _, SetRangeCommand c a));
  (bs "llen", OnData (λ v c a m _, LLenCommand v c a m));
  (bs "lpop", OnData LPopCommand);
  (bs "lpush", OnData LPushCommand);
  (bs "rpop", OnData RPopCommand);
  (bs "rpush", OnData RPushCommand);
  (bs "lrange", OnData (λ v c a m _, LRangeCommand v c a m));
  (bs "linsert", OnData (λ _ c a _ _, LInsertCommand c a));
  (bs "lrem", OnData (λ _ c a _ _, LRemCommand c a));
  (bs "lsetindex", OnData LSetCommand);
  (bs "lindex", OnData (λ v c a m _, LIndexCommand v c a m));
  (bs "hset", OnData HSetCommand);
  (bs "hget", OnData (λ v c a m _, HGetCommand v c a m));
  (bs "hdel", OnData HDelCommand);
  (bs "hexists", OnData (λ v c a m _, HExistsCommand v c a m));
  (bs "hgetall", OnData (λ v c a m _, HGetAllCommand v c a m));
  (bs "hkeys", OnData (λ v c a m _, HKeysCommand v c a m));
  (bs "hvals", OnData (λ v c a m _, HValsCommand v c a m));
  (bs "hlen", OnData (λ v c a m _, HLenCommand v c a m));
  (bs "sadd", OnData SAddCommand);
  (bs "sismember", OnData (λ v c a m _, SIsMemberCommand v c a m));
  (bs "smismember", OnData (λ v c a m _, SMIsMemberCommand v c a m));
  (bs "smembers", OnData (λ v c a m _, SMembersCommand v c a m));
  (bs "srem", OnData SRemCommand);
  (bs "scard", OnData (λ v c a m _, SCardCommand v c a m));
  (bs "spop", OnData (λ _ c a _ _, SPopCommand c a));
  (bs "publish", OnServer PubSubPublishCommand);
  (bs "subscribe", OnServer PubSubSubscribeCommand);
  (bs "unsubscribe", OnServer PubSubUnsubscribeCommand);
  (bs "bgsave", OnServer BgsaveCommand)
].

Fixpoint find_op {A} (l : list (list ascii * A)) (k : list ascii) : option A :=
  match l with
  | [] => None
  | (k', x) :: l => if decide (k = k') then Some x else find_op l k
  end.

Definition OpCodeValid (opcode : list ascii) : bool := bool_decide (is_Some (find_op sOpCommandMap opcode)).

(** [::tolower] in the C locale. *)
Definition tolower (c : ascii) : ascii :=
  if (65 <=? Z_of_byte c) && (Z_of_byte c <=? 90) then byte_of_Z (Z_of_byte c + 32) else c.

Definition IfNeedKeyEviction (env : Env) (e : Engine) : bool := rss_limit e <? cur_rss_size_ env.

Definition lazy_eviction (env : Env) (e : Engine) : option Engine :=
  if IfNeedKeyEviction env e then
    '(c, ans) ← KeyEviction_env (lazy_draws env) (sEvictPolicy e) 16 (container_ e);
    Some (with_data c ((λ a, aof_Append a (cmd_of (bs "del" :: ans))) <$> appending_ e) e)
  else Some e.

Definition run_handler (h : CommandHandler) (env : Env) (e : Engine) (sv : Server) (sess : option (list ascii))
  (cmds : CommandCache) (sync : bool) : option (Engine * Server * list ascii) :=
  match h with
  | OnData h =>
      '(c, app, reply) ← h env (container_ e) (appending_ e) cmds sync;
      Some (with_data c app e, sv, reply)
  | OnEngine h => '(e, reply) ← h env e cmds sync; Some (e, sv, reply)
  | OnServer h =>
      '(sv, sent, reply) ← h env sv sess cmds;
      Some (with_relayed (relayed e ++ sent) e, sv, reply)
  end.

(** The assertion that [argc] is the number of arguments is kept; [argv\[0\]] of a
    request without arguments does not exist. *)
Definition HandleCommand (env : Env) (sync : bool) (e : Engine) (sv : Server) (sess : option (list ascii))
  (cmds : CommandCache) : option (Engine * Server * list ascii) :=
  if negb (argc cmds =? Z.of_nat (length (argv cmds))) then None
  else
    op ← argv cmds !! O;
    let opcode := tolower <$> op in
    let cmds := mkCache (inited cmds) (argc cmds) (<[O := opcode]> (argv cmds)) in
    match find_op sOpCommandMap opcode with
    | None => Some (e, sv, kInvalidOpCodeMsg)
    | Some h =>
        let e := with_data (container_ e) ((λ a, SetAutoFlush a sync) <$> appending_ e) e in
        e ← lazy_eviction env e;
        run_handler h env e sv sess cmds sync
    end.

(** ** Timers *)

(** The callback of an event: [holder->Delete(Key(key)); sExpiresMap.erase(key);]. *)
Definition run_callback (e : Engine) (id : Z) : Engine :=
  match callbacks e !! id with
  | Some key =>
      let e := with_data (Delete_skey (container_ e) key).1 (appending_ e) e in
      with_timers (tev_holder e) (delete key (sExpiresMap e)) (callbacks e) e
  | None => e
  end.

(** A round of the event loop's timers: the callbacks do not touch the list of
    events, so they are run after its traversal. *)
Definition fire_timers (now : Z) (clock : list Z) (e : Engine) : Engine :=
  let '(h, fired, _) := HandleFiredTimeEvent now clock (tev_holder e) in
  foldl run_callback (with_timers h (sExpiresMap e) (callbacks e) e) fired.

(** ** Restoring *)

(** [ReadFromScratch(engine, loop)]: each command with the environment of its turn. *)
Definition replay_command (envs : nat -> Env) (sv : Server) (s : Engine * nat) (cache : CommandCache)
  : option (Engine * nat) :=
  '(e, _, _) ← HandleCommand (envs s.2) false s.1 sv None cache;
  Some (e, S s.2).

Definition RestoreFromAppendableFile (envs : nat -> Env) (e : Engine) (sv : Server)
  (history : option (AppendableFile * list (list ascii))) : option (Engine * bool) :=
  match history with
  | Some (a, chunks) =>
      '(e, _) ← CommonOperation (replay_command envs sv) chunks (with_data (container_ e) (Some a) e, O);
      Some (e, true)
  | None => Some (e, false)
  end.
