(* ===== verification/CommandsSpec.v ===== *)
(** * CommandsSpec: what a command does and replies

    The data commands as a client sees them ([command]), how they are written
    ([cmd_args]), their effect on the abstract store and their reply ([cmd_spec]),
    and how replies are written ([renders]). CommandsFacts proves that the engine
    implements them. *)

From S2P Require Import Prelude Encoding Numerals Str Buffer Protocol Core CoreSpec Commands.
From stdpp Require Import list fin_maps.

Local Open Scope Z_scope.

(** ** Commands *)

Inductive command :=
  | CPing
  | CTotal
  | CDel (keys : list (list ascii))
  | CExists (keys : list (list ascii))
  | CType (key : list ascii)
  | CSet (key value : list ascii)
  | CGet (key : list ascii)
  | CIncr (key : list ascii)
  | CDecr (key : list ascii)
  | CIncrBy (key : list ascii) (n : Z)
  | CDecrBy (key : list ascii) (n : Z)
  | CStrlen (key : list ascii)
  | CAppend (key value : list ascii)
  | CLLen (key : list ascii)
  | CPop (lf : bool) (key : list ascii)
  | CPush (lf : bool) (key : list ascii) (values : list (list ascii))
  | CLRange (key : list ascii) (first last : Z)
  | CLSet (key : list ascii) (index : Z) (value : list ascii)
  | CLIndex (key : list ascii) (index : Z)
  | CHSet (key : list ascii) (items : list (list ascii * list ascii))
  | CHGet (key field : list ascii)
  | CHMGet (key : list ascii) (fields : list (list ascii))
  | CHDel (key : list ascii) (fields : list (list ascii))
  | CHExists (key field : list ascii)
  | CHGetAll (key : list ascii)
  | CHKeys (key : list ascii)
  | CHVals (key : list ascii)
  | CHLen (key : list ascii)
  | CSAdd (key : list ascii) (members : list (list ascii))
  | CSIsMember (key member : list ascii)
  | CSMIsMember (key : list ascii) (members : list (list ascii))
  | CSMembers (key : list ascii)
  | CSRem (key : list ascii) (members : list (list ascii))
  | CSCard (key : list ascii).

(** The words of a command. *)
Definition cmd_args (c : command) : list (list ascii) :=
  match c with
  | CPing => [bs "ping"]
  | CTotal => [bs "total"]
  | CDel keys => bs "del" :: keys
  | CExists keys => bs "exists" :: keys
  | CType key => [bs "type"; key]
  | CSet key value => [bs "set"; key; value]
  | CGet key => [bs "get"; key]
  | CIncr key => [bs "incr"; key]
  | CDecr key => [bs "decr"; key]
  | CIncrBy key n => [bs "incrby"; key; to_string n]
  | CDecrBy key n => [bs "decrby"; key; to_string n]
  | CStrlen key => [bs "strlen"; key]
  | CAppend key value => [bs "append"; key; value]
  | CLLen key => [bs "llen"; key]
  | CPop lf key => [if lf then bs "lpop" else bs "rpop"; key]
  | CPush lf key values => (if lf then bs "lpush" else bs "rpush") :: key :: values
  | CLRange key first last => [bs "lrange"; key; to_string first; to_string last]
  | CLSet key index value => [bs "lsetindex"; key; to_string index; value]
  | CLIndex key index => [bs "lindex"; key; to_string index]
  | CHSet key items => bs "hset" :: key :: (i ← items; [i.1; i.2])
  | CHGet key field => [bs "hget"; key; field]
  | CHMGet key fields => bs "hget" :: key :: fields
  | CHDel key fields => bs "hdel" :: key :: fields
  | CHExists key field => [bs "hexists"; key; field]
  | CHGetAll key => [bs "hgetall"; key]
  | CHKeys key => [bs "hkeys"; key]
  | CHVals key => [bs "hvals"; key]
  | CHLen key => [bs "hlen"; key]
  | CSAdd key members => bs "sadd" :: key :: members
  | CSIsMember key member => [bs "sismember"; key; member]
  | CSMIsMember key members => bs "smismember" :: key :: members
  | CSMembers key => [bs "smembers"; key]
  | CSRem key members => bs "srem" :: key :: members
  | CSCard key => [bs "scard"; key]
  end.

(** ** Replies *)

Inductive areply :=
  | RInt (n : Z)
  | RStr (s : list ascii)
  | RNil
  | ROk
  | RWord (w : list ascii)
  | RError (line : list ascii)          (* the message, up to the CRLF *)
  | RItems (l : list (option (list ascii)))
  | RBag (l : list (list ascii))        (* in any order *)
  | RPairs (l : list (list ascii * list ascii))   (* pairs in any order *)
  | RInts (l : list Z).

(** An element of an array: its length, and its bytes up to the first NUL. *)
Definition item (o : option (list ascii)) : list ascii :=
  match o with
  | None => kNilMsg
  | Some s => bs "$" ++ to_string (Z.of_nat (length s)) ++ CRLF ++ c_str s ++ CRLF
  end.

Definition array (l : list (option (list ascii))) : list ascii :=
  array_head (length l) ++ concat (item <$> l).

Definition flat (l : list (list ascii * list ascii)) : list (list ascii) := i ← l; [i.1; i.2].

Definition renders (r : areply) (reply : list ascii) : Prop :=
  match r with
  | RInt n => reply = bs ":" ++ to_string n ++ CRLF
  | RStr s => reply = bs "$" ++ to_string (Z.of_nat (length s)) ++ CRLF ++ s ++ CRLF
  | RNil => reply = kNilMsg
  | ROk => reply = kOkMsg
  | RWord w => reply = bs "+" ++ w ++ CRLF
  | RError line => reply = bs "-" ++ line ++ CRLF
  | RItems l => reply = array l
  | RBag l => exists l', l' ≡ₚ l /\ reply = array (Some <$> l')
  | RPairs l => exists l', l' ≡ₚ l /\ reply = array (Some <$> flat l')
  | RInts l => reply = array_head (length l) ++ concat ((λ n, bs ":" ++ to_string n ++ CRLF) <$> l)
  end.

Definition RBool (b : bool) : areply := RInt (if b then 1 else 0).
Definition RWrongType : areply := RError (bs "WRONGTYPE operation to a key holding wrong type of value").
Definition RInvalidInteger : areply := RError (bs "ERROR index or value is not an integer").
Definition ROverflow : areply := RError (bs "ERROR integer overflow").
Definition RFailed : areply := RError (bs "ERROR failed").
Definition RNoSuchKey : areply := RError (bs "ERROR no such key").
Definition ROutOfRange : areply := RError (bs "ERROR index out of range").

(** ** Effects *)

(** The store after the command, the reply, and whether the command is logged. *)
Abbreviation outcome := (astore * areply * bool)%type.

(** A command that only looks at one key holding a given type. *)
Definition query {A : Type} (m : astore) (key : list ascii) (view : aval -> option A) (absent : areply)
  (found : A -> areply) : outcome :=
  (m, match m !! Key_std key with
      | None => absent
      | Some a => match view a with None => RWrongType | Some x => found x end
      end, false).

(** One that replaces the value of the key; an absent key counts as [empty]. *)
Definition modify {A : Type} (m : astore) (key : list ascii) (view : aval -> option A) (empty : A)
  (f : A -> aval * areply) : outcome :=
  match m !! Key_std key with
  | None => (<[Key_std key := (f empty).1]> m, (f empty).2, true)
  | Some a => match view a with
              | None => (m, RWrongType, false)
              | Some x => (<[Key_std key := (f x).1]> m, (f x).2, true)
              end
  end.

Definition v_list (a : aval) : option (list (list ascii)) := match a with AList l => Some l | _ => None end.
Definition v_dict (a : aval) : option (gmap (list ascii) (list ascii)) :=
  match a with ADict d => Some d | _ => None end.
Definition v_set (a : aval) : option (gset (list ascii)) := match a with ASet s => Some s | _ => None end.
Definition v_scalar (a : aval) : option (list ascii) :=
  match a with AInt n => Some (to_string n) | AStr s => Some s | _ => None end.

(** The value [set] stores: a number is kept as a number. *)
Definition scalar (value : list ascii) : aval :=
  match CanConvertToInt64 value with Some n => AInt n | None => AStr value end.

Definition type_name (a : aval) : list ascii :=
  match a with
  | AInt _ => bs "int" | AStr _ => bs "string" | AList _ => bs "list" | ADict _ => bs "hash"
  | ASet _ => bs "none"
  end.

(** Addition and subtraction within 64 bits. *)
Definition add_to (m : astore) (key : list ascii) (n : Z) : outcome :=
  match m !! Key_std key with
  | None => (<[Key_std key := AInt n]> m, RInt n, true)
  | Some (AInt v) =>
      if (v + n <? INT64_MIN) || (INT64_MAX <? v + n) then (m, ROverflow, false)
      else (<[Key_std key := AInt (v + n)]> m, RInt (v + n), true)
  | Some _ => (m, RWrongType, false)
  end.

(** The range asked for ends before it begins, or before the list does. *)
Definition range_empty (l : list (list ascii)) (first last : Z) : bool :=
  bool_decide (l = []) || (norm_index l last <? 0) || (norm_index l last <? range_start l first last).

(** The elements from [first] to [last], which count from the end when negative. *)
Definition range (l : list (list ascii)) (first last : Z) : list (list ascii) :=
  if range_empty l first last then []
  else
    let lo := Z.to_nat (range_start l first last) in
    let hi := Nat.min (Z.to_nat (norm_index l last)) (length l - 1) in
    take (hi - lo + 1) (drop lo l).

Definition nth_item (l : list (list ascii)) (index : Z) : option (list ascii) :=
  let i := norm_index l index in if i <? 0 then None else l !! Z.to_nat i.

Definition cmd_spec (m : astore) (c : command) : outcome :=
  match c with
  | CPing => (m, RWord (bs "PONG"), false)
  | CTotal => (m, RInt (Z.of_nat (size m)), false)
  | CDel keys => let '(m, n) := del_fields m (Key_std <$> keys) 0 in (m, RInt n, true)
  | CExists keys => (m, RInt (Z.of_nat (length (filter (λ k, is_Some (m !! Key_std k)) keys))), false)
  | CType key => (m, RWord (match m !! Key_std key with None => bs "none" | Some a => type_name a end), false)
  | CSet key value => (<[Key_std key := scalar value]> m, ROk, true)
  | CGet key => query m key v_scalar RNil RStr
  | CIncr key => add_to m key 1
  | CDecr key => add_to m key (-1)
  | CIncrBy key n => if n <? 0 then (m, RInvalidInteger, false) else add_to m key n
  | CDecrBy key n => if n <? 0 then (m, RInvalidInteger, false) else add_to m key (- n)
  | CStrlen key =>
      (m, RInt (match m !! Key_std key with
                | Some a => match v_scalar a with Some s => Z.of_nat (length s) | None => 0 end
                | None => 0
                end), false)
  | CAppend key value =>
      modify m key v_scalar [] (λ s, (AStr (s ++ value), RInt (Z.of_nat (length (s ++ value)))))
  | CLLen key => query m key v_list (RInt 0) (λ l, RInt (Z.of_nat (length l)))
  | CPop lf key =>
      match m !! Key_std key with
      | None => (m, RNil, false)
      | Some a =>
          match v_list a with
          | None => (m, RWrongType, false)
          | Some l =>
              match (if lf then head l else last l) with
              | None => (m, RNil, false)
              | Some x =>
                  let m := <[Key_std key := AList (if lf then tail l else removelast l)]> m in
                  if decide (x = []) then (m, RNil, false) else (m, RStr x, true)
              end
          end
      end
  | CPush lf key values =>
      modify m key v_list [] (λ l,
        let l := if lf then rev values ++ l else l ++ values in (AList l, RInt (Z.of_nat (length l))))
  | CLRange key first last => query m key v_list (RItems []) (λ l, RItems (Some <$> range l first last))
  | CLSet key index value =>
      match m !! Key_std key with
      | None => (m, RNoSuchKey, false)
      | Some a =>
          match v_list a with
          | None => (m, RWrongType, false)
          | Some l =>
              let i := norm_index l index in
              if i <? 0 then (m, RFailed, false)
              else match l !! Z.to_nat i with
                   | None => (m, ROutOfRange, false)
                   | Some _ => (<[Key_std key := AList (<[Z.to_nat i := value]> l)]> m, ROk, true)
                   end
          end
      end
  | CLIndex key index => query m key v_list RNil (λ l, match nth_item l index with Some x => RStr x | None => RNil end)
  | CHSet key items => modify m key v_dict ∅ (λ d, (ADict (set_fields d items.*1 items.*2), ROk))
  | CHGet key field => query m key v_dict RNil (λ d, match d !! field with Some v => RStr v | None => RNil end)
  | CHMGet key fields =>
      (m, RItems (match m !! Key_std key with
                  | Some (ADict d) => (λ f, d !! f) <$> fields
                  | _ => (λ _, None) <$> fields
                  end), false)
  | CHDel key fields =>
      match m !! Key_std key with
      | None => (m, RInt 0, true)
      | Some a =>
          match v_dict a with
          | None => (m, RWrongType, false)
          | Some d => let '(d, n) := del_fields d fields 0 in (<[Key_std key := ADict d]> m, RInt n, true)
          end
      end
  | CHExists key field => query m key v_dict (RBool false) (λ d, RBool (bool_decide (is_Some (d !! field))))
  | CHGetAll key => query m key v_dict (RItems []) (λ d, RPairs (map_to_list d))
  | CHKeys key => query m key v_dict (RItems []) (λ d, RBag (map_to_list d).*1)
  | CHVals key => query m key v_dict (RItems []) (λ d, RBag (map_to_list d).*2)
  | CHLen key => query m key v_dict (RInt 0) (λ d, RInt (Z.of_nat (size d)))
  | CSAdd key members =>
      modify m key v_set ∅ (λ s, let '(s, n) := add_members s members 0 in (ASet s, RInt n))
  | CSIsMember key member => query m key v_set (RBool false) (λ s, RBool (bool_decide (member ∈ s)))
  | CSMIsMember key members =>
      query m key v_set (RInts ((λ _, 0) <$> members))
        (λ s, RInts ((λ x, if decide (x ∈ s) then 1 else 0) <$> members))
  | CSMembers key => query m key v_set (RItems []) (λ s, RBag (elements s))
  | CSRem key members =>
      match m !! Key_std key with
      | None => (m, RInt 0, true)
      | Some a =>
          match v_set a with
          | None => (m, RWrongType, false)
          | Some s => let '(s, n) := del_members s members 0 in
              (<[Key_std key := ASet s]> m, RBool (negb (n =? 0)), true)
          end
      end
  | CSCard key => query m key v_set (RInt 0) (λ s, RInt (Z.of_nat (size s)))
  end.

(** ** Bounds *)

(** The operation of the key space a command runs, for the bounds it needs. *)
Definition cmd_op (c : command) : option kv_op :=
  match c with
  | CPing | CTotal | CDel _ | CExists _ => None
  | CType key => Some (OQueryObjectType key)
  | CSet key value => Some (OSetString key value)
  | CGet key => Some (OGet key)
  | CIncr key => Some (OIncrIntBy key 1)
  | CDecr key => Some (ODecrIntBy key 1)
  | CIncrBy key n => if n <? 0 then None else Some (OIncrIntBy key n)
  | CDecrBy key n => if n <? 0 then None else Some (ODecrIntBy key n)
  | CStrlen key => Some (OStrLen key 0)
  | CAppend key value => Some (OAppend key value)
  | CLLen key => Some (OListLen key)
  | CPop lf key => Some (OPop lf key)
  | CPush lf key values => Some (OPush lf key values)
  | CLRange key _ _ => Some (OListLen key)
  | CLSet key index value => Some (OListSetItemAtIndex key index value)
  | CLIndex key index => Some (OListItemAtIndex key index)
  | CHSet key items => Some (OHashUpdateKV key items.*1 items.*2)
  | CHGet key field => Some (OHashGetValue key field)
  | CHMGet key fields => Some (OHashGetValues key fields)
  | CHDel key fields => Some (OHashDelField key fields)
  | CHExists key field => Some (OHashExistField key field)
  | CHGetAll key | CHKeys key => Some (OHashGetAllFields key)
  | CHVals key => Some (OHashGetAllValues key)
  | CHLen key => Some (OHashLen key)
  | CSAdd key members => Some (OSetAddItem key members)
  | CSIsMember key member => Some (OSetIsMember key member)
  | CSMIsMember key members => Some (OSetMIsMember key members)
  | CSMembers key => Some (OSetGetMembers key)
  | CSRem key members => Some (OSetRemoveMembers key members)
  | CSCard key => Some (OSetGetMemberCount key)
  end.

(** The command is complete: the lists of keys, values and fields that the syntax
    requires are not empty. *)
Definition complete (c : command) : Prop :=
  match c with
  | CDel l | CExists l | CPush _ _ l | CHDel _ l | CSAdd _ l | CSMIsMember _ l | CSRem _ l => l <> []
  | CHSet _ items => items <> []
  | CHMGet _ fields => (2 <= length fields)%nat
  | _ => True
  end.

(** A range that is not empty begins inside the list (what the program does otherwise
    depends on the nodes the list has to spare, and may be undefined: see
    [ListRange_undefined_outside]). *)
Definition range_ok (m : astore) (key : list ascii) (first last : Z) : Prop :=
  in_i32 first /\ in_i32 last /\
  forall l, m !! Key_std key = Some (AList l) -> range_empty l first last = false ->
    0 <= range_start l first last < Z.of_nat (length l).

Definition cmd_ok (m : astore) (c : command) : Prop :=
  complete c /\
  (forall o, cmd_op c = Some o -> op_ok m o) /\
  match c with
  | CTotal => Z.of_nat (size m) <= INT64_MAX
  | CDel keys | CExists keys => Z.of_nat (length keys) <= INT64_MAX
  | CLRange key first last => range_ok m key first last
  | CIncrBy _ n | CDecrBy _ n => in_i64 n
  | _ => True
  end.
