(* ===== verification/CommandsFacts.v ===== *)
(** * CommandsFacts: the handlers implement the specification of the commands *)

From S2P Require Import Prelude Encoding Numerals Str Buffer Protocol Hash HashFacts DList DListFacts Core CoreSpec CoreFacts KVStore Lkvdb LkvdbFacts TimeEvent Server Persistence Commands CommandsSpec.
From stdpp Require Import list fin_maps.

Local Open Scope Z_scope.

(** ** One handler *)

Lemma reply_inv {R} (f : R -> kv_reply) r s : refines (reply f r) s ->
  exists c x, r = Some (c, x, s.2) /\ reply_sim (f x) s.1.2 /\ kv_repr c s.1.1.
Proof.
  intros (c' & y & E & Hs & Hr). unfold reply in E. destruct r as [[[c x] e]|]; [|done].
  cbn in E. injection E as -> <- ->. by exists c', x.
Qed.

(** What a handler answers and does, as [cmd_spec] says. *)
Definition handled (sync : bool) (ap : option AppendableFile) (cmds : CommandCache) (s : outcome) (r : on_data) : Prop :=
  exists c reply,
    r = Some (c, if s.2 then AddIntoAppendableDirectly sync ap cmds else ap, reply) /\
    kv_repr c s.1.1 /\ renders s.1.2 reply.

Lemma handled_intro sync ap cmds m r (b : bool) c reply : kv_repr c m -> renders r reply ->
  handled sync ap cmds (m, r, b)
    (Some (c, if b then AddIntoAppendableDirectly sync ap cmds else ap, reply)).
Proof. intros Hr Hrep. by exists c, reply. Qed.

Lemma render_int n : in_i64 n -> renders (RInt n) (PackIntReply n).
Proof. intros H. unfold PackIntReply. cbn. by rewrite i64_small. Qed.

Lemma render_bool (b : bool) : renders (RBool b) (PackBoolReply b).
Proof. by destruct b. Qed.

Lemma nat_i64 n : Z.of_nat n < 2 ^ 62 -> in_i64 (Z.of_nat n).
Proof. unfold in_i64, INT64_MIN, INT64_MAX. lia. Qed.

(** The integer under a key is a 64-bit number. *)
Lemma stored_i64 c m key n : kv_repr c m -> m !! Key_std key = Some (AInt n) -> in_i64 n.
Proof.
  intros Hr Hk. pose proof (found_spec c m (Key_std key) Hr) as Hf. rewrite Hk in Hf.
  destruct Hf as (o & _ & Ho). by apply repr_int in Ho as (_ & _ & ?).
Qed.

(** Take a step of the container's specification: [x] is the result of [o]. *)
Ltac run_op o :=
  match goal with
  | Hr : kv_repr ?c ?m, Hok : cmd_ok ?m _ |- context [now_ms ?env] =>
      let H := fresh "H" in
      pose proof (kv_exec_refines (now_ms env) c m o Hr (proj1 (proj2 Hok) _ eq_refl)) as H;
      cbn [kv_exec] in H;
      try (apply reply_inv in H; destruct H as (c' & x & Hrun & Hx & Hr'))
  end.

Ltac step := cbn [mbind option_bind lookup list_lookup argv drop fst snd]; rewrite ?drop_0.

(** The bound on the value that was looked up. *)
Ltac spec_at Hs Ek := first [specialize (Hs _ Ek) | specialize (Hs _ eq_refl)].

(** The syntax check of a complete command succeeds. *)
Ltac syntax :=
  unfold CheckSyntaxHelper;
  match goal with
  | |- context [CheckSyntax ?cmd ?k ?o ?e] =>
      replace (CheckSyntax cmd k o e) with true
        by (symmetry; first [reflexivity
          | unfold CheckSyntax; cbn [argv cmd_args length andb Z.eqb Pos.eqb Z.opp]; apply Z.geb_le; lia])
  end;
  cbn [cmd_args].

(** Close a case: the reply is the one of the specification. *)
Ltac answer := apply handled_intro; [eassumption|first [done | apply render_bool | apply render_int; try done | idtac]].

#[local] Hint Resolve render_int render_bool handled_intro nat_i64 : litekv.

(** *** Arrays *)

(** What an element of a vector shows: a null string is no value. *)
Definition shown (d : DynamicString) (o : option (list ascii)) : Prop :=
  match o with None => ds_Null d = true | Some s => ds_val d s end.

Lemma shown_item d o : shown d o -> PackStringValueIntoStream d = item o.
Proof.
  unfold PackStringValueIntoStream, item. destruct o as [s|]; cbn [shown]; [|by intros ->].
  intros [R ->]. cbn [negb]. by rewrite (ds_repr_len d s R), (ds_stream_repr d s R).
Qed.

Lemma PackArrayMsg_array ds l : Forall2 shown ds l -> PackArrayMsg ds = array l.
Proof.
  intros H. unfold PackArrayMsg, array. rewrite (Forall2_length _ _ _ H). do 2 f_equal.
  induction H as [|d o ds l Hd _ IH]; [done|]. cbn [fmap list_fmap]. by rewrite (shown_item d o Hd), IH.
Qed.

(** An empty vector is answered like the empty array. *)
Lemma array_or_empty ap c ds l : Forall2 shown ds l ->
  (if negb (bool_decide (ds = [])) then replied ap c (PackArrayMsg ds) else replied ap c kArrayEmptyMsg) =
  replied ap c (array l).
Proof.
  intros H. rewrite (PackArrayMsg_array ds l H). case_bool_decide as E; cbn [negb]; [|done].
  subst ds. by inversion H.
Qed.

Lemma shown_vals ds ss : Forall2 ds_val ds ss -> Forall2 shown ds (Some <$> ss).
Proof. intros H. by apply Forall2_fmap_r. Qed.

Lemma shown_data ds : Forall val_ok ds -> Forall2 shown ds (Some <$> (ds_data <$> ds)).
Proof. intros H. apply shown_vals. by apply Forall2_fmap_r, Forall_Forall2_diag. Qed.

(** Operations on a key that must hold one type, as the handlers see them. *)
Lemma handles_typed {R : Type} (sync : bool) (ap : option AppendableFile) (cmds : CommandCache) (c : KVContainer)
    (m : astore) (k : list ascii) (t : Z) (ret : R)
    (rest : ValueObject -> option (KVContainer * R * Z)) (s : outcome) (body : KVContainer -> R -> Z -> on_data) :
  kv_repr c m ->
  (m !! k = None -> handled sync ap cmds s (body c ret kKeyNotFoundCode)) ->
  (forall a, m !! k = Some a -> atype a <> t -> handled sync ap cmds s (body c ret kWrongTypeCode)) ->
  (forall o a, m !! k = Some a -> vo_repr o a -> atype a = t ->
     handled sync ap cmds s ('(c, x, e) ← rest o; body c x e)) ->
  handled sync ap cmds s ('(c, x, e) ← typed c k t ret rest; body c x e).
Proof.
  intros Hr Hn Hw Ht. pose proof (typed_spec c m k t ret rest Hr) as HT.
  destruct (m !! k) as [a|] eqn:Ek; [|rewrite HT; by apply Hn].
  destruct HT as (o & Ho & ->). destruct (Z.eqb_spec (atype a) t); [by eapply Ht|by eapply Hw].
Qed.

Lemma del_fields_count {A} (items : list (list ascii)) : forall (x : gmap (list ascii) A) (k : Z),
  k <= (del_fields x items k).2 <= k + Z.of_nat (length items).
Proof.
  induction items as [|y items IH]; intros x k; cbn [del_fields length]; [cbn; lia|].
  destruct (x !! y); [specialize (IH (delete y x) (k + 1))|specialize (IH (delete y x) k)]; lia.
Qed.

Section Handlers.

Context (env : Env) (c : KVContainer) (m : astore) (ap : option AppendableFile) (sync : bool) (i : bool) (n : Z).
Hypothesis Hr : kv_repr c m.

Abbreviation cmds x := (mkCache i n (cmd_args x)).
Abbreviation handles x h := (handled sync ap (cmds x) (cmd_spec m x) h).

Lemma Ping_handled : handles CPing (PingCommand c ap (cmds CPing)).
Proof. by apply handled_intro. Qed.

Lemma Get_handled key : handles (CGet key) (GetCommand env c ap (cmds (CGet key))).
Proof.
  unfold GetCommand. syntax. step. unfold Get_skey, Get, found. cbn [cmd_spec]. unfold query.
  pose proof (found_spec c m (Key_std key) Hr) as Hf. destruct (m !! Key_std key) as [a|] eqn:Ek; [|rewrite Hf; answer].
  destruct Hf as (o & -> & Ho). pose proof Ho as [Ht Hp]. rewrite Ht.
  destruct a as [v|s| | |]; types; cbn [v_scalar]; try answer.
  - destruct (repr_int o v Ho) as (_ & Hv & _). cbn [vo_type with_lv_time vo_ptr]. rewrite Ht, Hv.
    types. apply handled_intro; [by eapply kv_touch|done].
  - cbn in Hp. destruct (vo_ptr o) as [|d| | |] eqn:Eo; try done. unfold vo_ToStdString. cbn [vo_type with_lv_time].
    rewrite Ht. types. unfold as_str. cbn [vo_ptr with_lv_time]. rewrite Eo. step.
    unfold ToStdString. rewrite (ds_val_data d s Hp). apply handled_intro; [by eapply kv_touch|done].
Qed.

Lemma Set_handled key value : cmd_ok m (CSet key value) -> handles (CSet key value) (SetCommand env c ap (cmds (CSet key value)) sync).
Proof.
  intros Hok. unfold SetCommand. syntax. step. cbn [cmd_spec]. unfold scalar.
  destruct (CanConvertToInt64 value) as [v|] eqn:Ev.
  - assert (in_i64 v) as Hv by (by apply CanConvertToInt64_iff in Ev as [? _]). unfold SetInt_skey.
    destruct (SetInt_refines (now_ms env) c m (Key_std key) v Hr Hv) as [Hr' Eb].
    destruct (SetInt _ _ _ _) as [c' b]. cbn in *. subst b. answer.
  - unfold SetString_skey. destruct (proj1 (proj2 Hok) _ eq_refl) as [Hs _].
    destruct (SetString_refines (now_ms env) c m (Key_std key) value Hr (small_fits _ Hs)) as (c' & -> & Hr'). step. answer.
Qed.

(** *** Integers *)

Lemma incr_handled name key v op : 0 <= v <= INT64_MAX -> op_ok m (OIncrIntBy key v) ->
  op = IncrIntBy (now_ms env) c (Key_std key) v ->
  handled sync ap (mkCache i n name) (add_to m key v) (IncrDecr ap (mkCache i n name) sync op).
Proof.
  intros Hv Hok ->. pose proof (kv_exec_refines (now_ms env) c m _ Hr Hok) as H.
  cbn [kv_exec] in H. apply reply_inv in H. destruct H as (c' & x & -> & Hx & Hr').
  unfold IncrDecr, add_to. cbn [kv_spec] in *. destruct (m !! Key_std key) as [a|] eqn:Ek.
  2: { cbn in Hx. injection Hx as ->. step. answer. unfold in_i64, INT64_MIN. unfold INT64_MAX in *; lia. }
  destruct a as [w|w|w|w|w]; cbn in Hx; try (injection Hx as ->; step; answer).
  pose proof (stored_i64 c m key w Hr Ek) as Hw. unfold in_i64, INT64_MIN, INT64_MAX in *.
  destruct (Z.gtb_spec (w + v) 9223372036854775807) as [Hg|Hg]; cbn in Hx, Hr'; injection Hx as ->; step.
  - rewrite (proj2 (Z.ltb_lt 9223372036854775807 (w + v))) by done. rewrite orb_true_r. answer.
  - rewrite (proj2 (Z.ltb_ge 9223372036854775807 (w + v))), (proj2 (Z.ltb_ge (w + v) _)) by lia. answer.
    unfold in_i64, INT64_MIN, INT64_MAX. lia.
Qed.

Lemma decr_handled name key v op : 0 <= v <= INT64_MAX -> op_ok m (ODecrIntBy key v) ->
  op = DecrIntBy (now_ms env) c (Key_std key) v ->
  handled sync ap (mkCache i n name) (add_to m key (- v)) (IncrDecr ap (mkCache i n name) sync op).
Proof.
  intros Hv Hok ->. pose proof (kv_exec_refines (now_ms env) c m _ Hr Hok) as H.
  cbn [kv_exec] in H. apply reply_inv in H. destruct H as (c' & x & -> & Hx & Hr').
  unfold IncrDecr, add_to. cbn [kv_spec] in *. destruct (m !! Key_std key) as [a|] eqn:Ek.
  2: { cbn in Hx. injection Hx as ->. step. answer. unfold in_i64, INT64_MIN. unfold INT64_MAX in *; lia. }
  destruct a as [w|w|w|w|w]; cbn in Hx; try (injection Hx as ->; step; answer).
  pose proof (stored_i64 c m key w Hr Ek) as Hw. unfold in_i64, INT64_MIN, INT64_MAX in *.
  rewrite Z.add_opp_r.
  destruct (Z.ltb_spec (w - v) (-9223372036854775808)) as [Hg|Hg]; cbn in Hx, Hr'; injection Hx as ->; step.
  - cbn [orb]. answer.
  - rewrite (proj2 (Z.ltb_ge 9223372036854775807 (w - v))) by lia. cbn [orb]. answer.
    unfold in_i64, INT64_MIN, INT64_MAX. lia.
Qed.

Lemma Incr_handled key : cmd_ok m (CIncr key) -> handles (CIncr key) (IncrCommand env c ap (cmds (CIncr key)) sync).
Proof.
  intros Hok. unfold IncrCommand. syntax. unfold IncrDecrCommonHelper. step.
  apply incr_handled; [unfold INT64_MAX; lia|by apply Hok|done].
Qed.

Lemma Decr_handled key : cmd_ok m (CDecr key) -> handles (CDecr key) (DecrCommand env c ap (cmds (CDecr key)) sync).
Proof.
  intros Hok. unfold DecrCommand. syntax. unfold IncrDecrCommonHelper. step.
  apply (decr_handled _ key 1); [unfold INT64_MAX; lia|by apply Hok|done].
Qed.

(** The number of the command, read back. *)
Lemma read_num v : 0 <= v <= INT64_MAX -> CanConvertToInt64 (to_string v) = Some v /\ (v <? 0) = false.
Proof.
  intros Hv. split; [|lia]. apply CanConvertToInt64_iff. split; [|done].
  unfold in_i64, INT64_MIN, INT64_MAX in *. lia.
Qed.

Lemma IncrBy_handled key v : cmd_ok m (CIncrBy key v) ->
  handles (CIncrBy key v) (IncrByCommand env c ap (cmds (CIncrBy key v)) sync).
Proof.
  intros (_ & Hok & Hv). unfold IncrByCommand. syntax. unfold IncrDecrCommonHelper2. step.
  rewrite (proj2 (CanConvertToInt64_iff _ v)) by done. cbn [cmd_spec cmd_op] in *.
  destruct (Z.ltb_spec v 0); [answer|]. specialize (Hok _ eq_refl).
  apply incr_handled; [unfold in_i64 in Hv; lia|done|done].
Qed.

Lemma DecrBy_handled key v : cmd_ok m (CDecrBy key v) ->
  handles (CDecrBy key v) (DecrByCommand env c ap (cmds (CDecrBy key v)) sync).
Proof.
  intros (_ & Hok & Hv). unfold DecrByCommand. syntax. unfold IncrDecrCommonHelper2. step.
  rewrite (proj2 (CanConvertToInt64_iff _ v)) by done. cbn [cmd_spec cmd_op] in *.
  destruct (Z.ltb_spec v 0); [answer|]. specialize (Hok _ eq_refl).
  apply decr_handled; [unfold in_i64 in Hv; lia|done|done].
Qed.

(** *** Strings *)

Lemma small_length s k : m !! Key_std k = Some (AStr s) -> forall o, op_ok m o -> op_key o = k -> in_i64 (Z.of_nat (length s)).
Proof.
  intros Hk o [_ Ho] <-. specialize (Ho _ Hk). cbn in Ho. unfold small in Ho. apply nat_i64. lia.
Qed.

Lemma Strlen_handled key : cmd_ok m (CStrlen key) -> handles (CStrlen key) (StrlenCommand env c ap (cmds (CStrlen key))).
Proof.
  intros Hok. unfold StrlenCommand. syntax. step. run_op (OStrLen key 0). unfold StrLen_skey. rewrite Hrun.
  cbn [cmd_spec kv_spec] in *. destruct (m !! Key_std key) as [a|] eqn:Ek; [|injection Hx as ->; step; answer].
  destruct a as [w|s| | |]; cbn in Hx; injection Hx as ->; step; cbn [v_scalar]; answer.
  - pose proof (to_string_i64_length w (stored_i64 c m key w Hr Ek)). apply nat_i64. lia.
  - exact (small_length s key Ek _ (proj1 (proj2 Hok) _ eq_refl) eq_refl).
Qed.

Lemma Append_handled key value : cmd_ok m (CAppend key value) ->
  handles (CAppend key value) (AppendCommand env c ap (cmds (CAppend key value)) sync).
Proof.
  intros Hok. unfold AppendCommand. syntax. step. run_op (OAppend key value). unfold Append_skey. rewrite Hrun.
  destruct (proj1 (proj2 Hok) _ eq_refl) as [Hv Hs]. cbn in Hv, Hs. unfold small in Hv.
  cbn [cmd_spec kv_spec] in *. unfold modify.
  destruct (m !! Key_std key) as [a|] eqn:Ek; [|injection Hx as ->; step; cbn [app]; answer; apply nat_i64; lia].
  spec_at Hs Ek.
  destruct a as [w|s| | |]; cbn in Hx, Hs; injection Hx as ->; step; cbn [v_scalar]; answer.
  - pose proof (to_string_i64_length w (stored_i64 c m key w Hr Ek)). apply nat_i64. rewrite length_app. lia.
  - unfold small in Hs. apply nat_i64. rewrite length_app. lia.
Qed.

(** *** Lists *)

(** The cases of a handler on a key that must hold [view]'s type. *)
Ltac typed_cases T :=
  eapply (handles_typed _ _ _ _ _ _ T); [exact Hr| | |];
  [ intros Ek; cbn [cmd_spec]; unfold query; rewrite ?Ek
  | intros a Ek Ht; cbn [cmd_spec]; unfold query; rewrite ?Ek; destruct a; try (by destruct Ht); cbn
  | intros o a Ek Ho Ht; cbn [cmd_spec]; unfold query; rewrite ?Ek; destruct a; try done ].

Lemma LLen_handled key : cmd_ok m (CLLen key) -> handles (CLLen key) (LLenCommand env c ap (cmds (CLLen key))).
Proof.
  intros Hok. unfold LLenCommand. syntax. step. unfold ListLen_skey, ListLen. typed_cases OBJECT_LIST; [answer|answer..|].
  destruct (repr_list o l Ho) as (d & -> & Hd). step. rewrite (repr_length d l Hd).
  destruct (proj1 (proj2 Hok) _ eq_refl) as [_ Hs]. spec_at Hs Ek. cbn in Hs |- *.
  apply handled_intro; [by eapply kv_touch|]. apply render_int, nat_i64. lia.
Qed.

Lemma Pop_handled lf key : cmd_ok m (CPop lf key) ->
  handles (CPop lf key) (ListPopCommandCommon env c ap (cmds (CPop lf key)) sync
    (λ now c key, ListPopAux now c (Key_std key) lf)).
Proof.
  intros Hok. unfold ListPopCommandCommon. cbn [cmd_args]. step. unfold ListPopAux.
  typed_cases OBJECT_LIST; [answer|answer..|]. cbn [v_list].
  destruct (repr_list o l Ho) as (d & -> & Hd). step. destruct lf.
  - pose proof (PopLeft_repr d l Hd) as HP. destruct l as [|x l]; cbn [head tail].
    + rewrite HP. step. apply handled_intro; [eapply kv_touch; [done..|by eapply repr_with]|done].
    + destruct HP as (d' & r & -> & Hx & Hd'). step. cbn [Z.eqb Pos.eqb kOkCode]. unfold ds_Empty.
      rewrite (ds_repr_len r x (proj1 Hx)). unfold ToStdString. rewrite (ds_val_data r x Hx).
      assert (kv_repr (put c (Key_std key) (with_lv_time (now_ms env) (with_ptr (PList d') o)))
        (<[Key_std key := AList l]> m)) by (apply kv_put; [done|by eexists|by eapply repr_with]).
      destruct x; cbn [negb length Z.of_nat Z.eqb]; [rewrite decide_True by done|rewrite decide_False by done]; by apply handled_intro.
  - pose proof (PopRight_repr d l Hd) as HP. destruct (last l) as [x|] eqn:El.
    + destruct HP as (d' & r & -> & Hx & Hd'). step. cbn [Z.eqb Pos.eqb kOkCode]. unfold ds_Empty.
      rewrite (ds_repr_len r x (proj1 Hx)). unfold ToStdString. rewrite (ds_val_data r x Hx).
      assert (kv_repr (put c (Key_std key) (with_lv_time (now_ms env) (with_ptr (PList d') o)))
        (<[Key_std key := AList (removelast l)]> m)) by (apply kv_put; [done|by eexists|by eapply repr_with]).
      destruct x; cbn [negb length Z.of_nat Z.eqb]; [rewrite decide_True by done|rewrite decide_False by done]; by apply handled_intro.
    + rewrite HP. step. apply handled_intro; [eapply kv_touch; [done..|by eapply repr_with]|done].
Qed.

Lemma Push_handled lf key values : cmd_ok m (CPush lf key values) ->
  handles (CPush lf key values) (ListPushCommandCommon env c ap (cmds (CPush lf key values)) sync
    (λ now c key values, ListPushAux_all now c (Key_std key) values lf)).
Proof.
  intros Hok. unfold ListPushCommandCommon. cbn [cmd_args]. step. run_op (OPush lf key values). rewrite Hrun.
  destruct (proj1 (proj2 Hok) _ eq_refl) as [[_ Hv] Hs]. cbn [op_key] in Hs.
  assert (forall l : list (list ascii), Z.of_nat (length l) < 2 ^ 30 ->
    in_i64 (Z.of_nat (length (if lf then rev values ++ l else l ++ values)))) as Hb.
  { intros l Hl. apply nat_i64. destruct lf; rewrite length_app, ?length_rev; lia. }
  cbn [cmd_spec kv_spec] in *. unfold modify.
  destruct (m !! Key_std key) as [a|] eqn:Ek; [|injection Hx as ->; step; answer; by apply (Hb [])].
  spec_at Hs Ek. destruct a as [| |l| |]; cbn in Hx, Hs; injection Hx as ->; step; cbn [v_list]; answer.
  by apply Hb.
Qed.

Lemma read_index v : in_i32 v -> CanConvertToInt32 (to_string v) = Some v.
Proof. intros Hv. by apply CanConvertToInt32_iff. Qed.

Lemma range_empty_iff l p q :
  range_empty l p q = true -> l = [] \/ norm_index l q < 0 \/ norm_index l q < range_start l p q.
Proof.
  unfold range_empty. intros [[H|H]%orb_true_iff|H]%orb_true_iff; [|right; left|right; right].
  - left. by apply bool_decide_eq_true in H.
  - by apply Z.ltb_lt.
  - by apply Z.ltb_lt.
Qed.

Lemma LRange_handled key p q : cmd_ok m (CLRange key p q) ->
  handles (CLRange key p q) (LRangeCommand env c ap (cmds (CLRange key p q))).
Proof.
  intros (_ & Hok & Ha & Hb & Hin). unfold LRangeCommand. syntax. step. rewrite !read_index by done.
  unfold ListRange_skey. destruct (m !! Key_std key) as [v|] eqn:Ek.
  - destruct (decide (atype v = OBJECT_LIST)) as [Ht|Ht].
    + destruct v as [| |l| |]; try done. destruct (Hok _ eq_refl) as [_ Hs]. spec_at Hs Ek. cbn in Hs.
      cbn [cmd_spec]. unfold query. rewrite Ek. cbn [v_list]. unfold range.
      destruct (range_empty l p q) eqn:Hem.
      { apply range_empty_iff in Hem.
        destruct (ListRange_empty (now_ms env) c m key l p q Hr Ek Hs Ha Hb Hem) as (c' & -> & Hr').
        step. cbn [Z.eqb Pos.eqb kOkCode]. rewrite (array_or_empty ap c' [] []) by constructor. by apply handled_intro. }
      pose proof (Hin l eq_refl Hem) as Hlo.
      assert (range_start l p q <= norm_index l q) as Hle.
      { unfold range_empty in Hem. bools. lia. }
      destruct (ListRange_spec (now_ms env) c m key l p q Hr Ek Hs Ha Hb Hlo Hle) as (c' & ds & -> & Hr' & Hds).
      step. cbn [Z.eqb Pos.eqb kOkCode].
      rewrite (array_or_empty ap c' ds _ (shown_vals _ _ Hds)). by apply handled_intro.
    + rename Ek into Ek0, Ht into Ht0. unfold ListRange. typed_cases OBJECT_LIST; try congruence; answer.
  - rename Ek into Ek0. unfold ListRange. typed_cases OBJECT_LIST; try congruence. answer.
Qed.

Lemma LSet_handled key v value : cmd_ok m (CLSet key v value) ->
  handles (CLSet key v value) (LSetCommand env c ap (cmds (CLSet key v value)) sync).
Proof.
  intros Hok. unfold LSetCommand. syntax. step. destruct (proj1 (proj1 (proj2 Hok) _ eq_refl)) as [Hv _].
  rewrite read_index by done. run_op (OListSetItemAtIndex key v value).
  unfold ListSetItemAtIndex_skey. rewrite Hrun. cbn [cmd_spec kv_spec] in *. unfold on in *.
  destruct (m !! Key_std key) as [a|]; [|step; answer].
  destruct a as [| |l| |]; cbn [v_list default from_option id fst snd] in *; try (step; answer).
  destruct (norm_index l v <? 0); [step; answer|]. destruct (l !! _); step; answer.
Qed.

Lemma LIndex_handled key v : cmd_ok m (CLIndex key v) ->
  handles (CLIndex key v) (LIndexCommand env c ap (cmds (CLIndex key v))).
Proof.
  intros Hok. unfold LIndexCommand. syntax. step. pose proof (proj1 (proj1 (proj2 Hok) _ eq_refl)) as Hv.
  rewrite read_index by done. run_op (OListItemAtIndex key v).
  unfold ListItemAtIndex_skey. rewrite Hrun. cbn [cmd_spec kv_spec] in *. unfold on, query, nth_item in *.
  destruct (m !! Key_std key) as [a|]; [|step; answer].
  destruct a as [| |l| |]; cbn [v_list default from_option id fst snd] in *; try (step; answer).
  destruct (norm_index l v <? 0); [step; answer|]. destruct (l !! _) as [y|]; step; [|answer].
  cbn [compose fst snd] in *. unfold ds_opt in Hx. cbn in Hx. destruct (ds_Null x); [done|].
  injection Hx as Hx. unfold ToStdString. rewrite Hx. answer.
Qed.

(** *** Hashes *)

Lemma fields_values_items items : fields_values (i ← items; [i.1; i.2]) = Some (items.*1, items.*2).
Proof.
  induction items as [|[f v] items IH]; [done|]. change (mbind _ ((f, v) :: items)) with
    (f :: v :: (i ← items; [i.1; i.2])). cbn [fields_values]. rewrite IH. done.
Qed.

Lemma length_pairs (items : list (list ascii * list ascii)) : length (i ← items; [i.1; i.2]) = (2 * length items)%nat.
Proof.
  induction items as [|[f v] items IH]; [done|]. change (mbind _ ((f, v) :: items)) with
    (f :: v :: (i ← items; [i.1; i.2])). cbn [length]. rewrite IH. lia.
Qed.

Lemma HSet_handled key items : cmd_ok m (CHSet key items) ->
  handles (CHSet key items) (HSetCommand env c ap (cmds (CHSet key items)) sync).
Proof.
  intros Hok. pose proof (length_pos _ (proj1 Hok)) as Hp. unfold HSetCommand, CheckSyntaxHelper.
  replace (CheckSyntax _ 1 (-1) true) with true.
  2: { unfold CheckSyntax. cbn [argv cmd_args length]. rewrite length_pairs.
       replace (Z.of_nat (S (S (2 * length items)))) with (2 * Z.of_nat (S (length items))) by lia.
       rewrite Z.odd_mul. change (Z.odd 2) with false. cbn [andb Z.eqb Pos.eqb]. symmetry. apply Z.geb_le. lia. }
  cbn [cmd_args]. step. rewrite fields_values_items. step.
  run_op (OHashUpdateKV key items.*1 items.*2). rewrite Hrun. cbn [cmd_spec kv_spec] in *. unfold modify.
  rewrite bool_decide_true in * by (by rewrite !length_fmap). cbn [negb] in *.
  destruct (m !! Key_std key) as [a|]; [destruct a as [| | |d|]|]; cbn in Hx; injection Hx as ->; step;
    cbn [v_dict]; try answer.
  all: rewrite length_fmap; destruct (Z.eqb_spec (Z.of_nat (length items)) 0); [lia|]; cbn; answer.
Qed.

Lemma HGet_handled key field : cmd_ok m (CHGet key field) ->
  handles (CHGet key field) (HGetCommand env c ap (cmds (CHGet key field))).
Proof.
  intros Hok. unfold HGetCommand. syntax. step. cbn [length Z.of_nat Z.eqb Pos.eqb Pos.of_succ_nat Pos.succ].
  destruct (proj1 (proj2 Hok) _ eq_refl) as [Hf Hs]. cbn [op_key args_ok] in *.
  destruct (DynamicString_std_ok field (small_fits _ Hf)) as (fd & -> & Hfd & Ef). step. unfold HashGetValue.
  typed_cases OBJECT_HASH; [answer|answer..|]. spec_at Hs Ek. cbn in Hs. cbn [v_dict].
  destruct (repr_dict o m0 Ho) as (d & -> & Hd & <-). step.
  destruct (HashDict_At_spec d fd) as (d' & r & -> & Hd' & Em & Hv); [done|unfold HashFacts.room; lia|done|].
  rewrite Ef in Hv. step.
  assert (kv_repr (put c (Key_std key) (with_lv_time (now_ms env) (with_ptr (PDict d') o))) m)
    by (eapply kv_touch; [done..|by eapply repr_with]).
  destruct (rmap d !! field) as [v|].
  - destruct Hv as (s & -> & Hs'). destruct (ds_val_copy s v Hs') as (s' & -> & Hs''). step. cbn [Z.eqb Pos.eqb kOkCode].
    apply handled_intro; [done|]. unfold PackStringValueReply_ds, ToStdString.
    by rewrite (ds_repr_len s' v (proj1 Hs'')), (ds_val_data s' v Hs'').
  - subst r. step. by apply handled_intro.
Qed.

(** The values of several fields, null for those that are absent. *)
Lemma get_all_shown fs d : rh_ok d -> HashFacts.room d -> Forall fits fs ->
  exists d' ds, get_all d fs = Some (d', ds) /\ rh_ok d' /\ rmap d' = rmap d /\
    Forall2 shown ds ((λ f, rmap d !! f) <$> fs).
Proof.
  intros Hd Hrm Hf. revert d Hd Hrm. induction Hf as [|f fs Hf Hfs IH]; intros d Hd Hrm; cbn [get_all].
  { exists d, []. do 3 (split; [done|]). constructor. }
  destruct (DynamicString_std_ok f Hf) as (fd & -> & Hfd & Ef). cbn [mbind option_bind].
  destruct (HashDict_At_spec d fd) as (d1 & r & -> & Hd1 & Em & Hv); try done. cbn [mbind option_bind].
  destruct (IH d1) as (d2 & ds & E2 & Hd2 & Em2 & Hds); [done|unfold HashFacts.room; by rewrite Em|].
  rewrite Em in Hds, Em2. rewrite Ef in Hv. cbn [fmap list_fmap]. destruct (rmap d !! f) as [v|].
  - destruct Hv as (s & -> & Hs). destruct (ds_val_copy s v Hs) as (s' & -> & Hs').
    cbn [mbind option_bind]. rewrite E2. cbn [mbind option_bind]. exists d2, (s' :: ds). do 3 (split; [done|]). by constructor.
  - subst r. cbn [mbind option_bind]. rewrite E2. cbn [mbind option_bind]. exists d2, (ds_null :: ds).
    do 3 (split; [done|]). by constructor.
Qed.

Lemma no_values k : array ((λ _ : list ascii, None) <$> k) = PackEmptyArrayMsg (length k).
Proof.
  unfold array, PackEmptyArrayMsg. rewrite length_fmap. do 2 f_equal. induction k as [|x k IH]; [done|].
  cbn [fmap list_fmap length replicate]. by rewrite IH.
Qed.

Lemma HMGet_handled key fields : cmd_ok m (CHMGet key fields) ->
  handles (CHMGet key fields) (HGetCommand env c ap (cmds (CHMGet key fields))).
Proof.
  intros Hok. pose proof (proj1 Hok) as H2. cbn in H2. unfold HGetCommand. syntax. step. cbn [length].
  destruct (Z.eqb_spec (Z.of_nat (S (S (length fields)))) 3); [lia|].
  destruct (proj1 (proj2 Hok) _ eq_refl) as [Hf Hs]. cbn [op_key args_ok] in *. unfold HashGetValue_all.
  assert (forall s, s = (m, RItems ((λ _, None) <$> fields), false) ->
    handled sync ap (cmds (CHMGet key fields)) s (replied ap c (PackEmptyArrayMsg (length fields)))) as Hnone.
  { intros s ->. apply handled_intro; [done|]. unfold renders. by rewrite no_values. }
  eapply (handles_typed _ _ _ _ _ _ OBJECT_HASH); [exact Hr| | |].
  { intros Ek. rewrite bool_decide_true by done. apply Hnone. cbn [cmd_spec]. by rewrite Ek. }
  { intros a Ek Ht. rewrite bool_decide_true by done. apply Hnone. cbn [cmd_spec]. rewrite Ek. by destruct a. }
  intros o a Ek Ho Ht. cbn [cmd_spec]. rewrite Ek. destruct a as [| | |x|]; try done. spec_at Hs Ek. cbn in Hs.
  destruct (repr_dict o x Ho) as (d & -> & Hd & <-). step.
  destruct (get_all_shown fields d Hd) as (d' & ds & -> & Hd' & Em & Hds);
    [unfold HashFacts.room; lia|by apply all_small_fits|]. step.
  rewrite bool_decide_false.
  2: { intros ->. apply Forall2_length in Hds. rewrite length_fmap in Hds. cbn in Hds. lia. }
  cbn [negb]. rewrite (PackArrayMsg_array _ _ Hds).
  apply handled_intro; [eapply kv_touch; [done..|by eapply repr_with]|done].
Qed.

Lemma HDel_handled key fields : cmd_ok m (CHDel key fields) ->
  handles (CHDel key fields) (HDelCommand env c ap (cmds (CHDel key fields)) sync).
Proof.
  intros Hok. pose proof (length_pos _ (proj1 Hok)) as Hp. unfold HDelCommand. syntax. step.
  run_op (OHashDelField key fields). rewrite Hrun. destruct (proj1 (proj2 Hok) _ eq_refl) as [[_ Hf] _].
  cbn [cmd_spec kv_spec] in *. unfold on in *.
  destruct (m !! Key_std key) as [a|]; [destruct a as [| | |d|]|]; cbn [v_dict default from_option id fst snd] in *;
    try (cbn in Hx; injection Hx as ->; step; answer).
  pose proof (del_fields_count fields d 0) as Hc. destruct (del_fields d fields 0) as [d' k]. cbn in Hx, Hc.
  injection Hx as ->. step. answer. unfold in_i64, INT64_MIN, INT64_MAX. lia.
Qed.

Lemma HExists_handled key field : cmd_ok m (CHExists key field) ->
  handles (CHExists key field) (HExistsCommand env c ap (cmds (CHExists key field))).
Proof.
  intros Hok. unfold HExistsCommand. syntax. step. unfold HashExistField_skey.
  destruct (proj1 (proj2 Hok) _ eq_refl) as [Hf Hs]. cbn [op_key args_ok] in *.
  destruct (DynamicString_std_ok field (small_fits _ Hf)) as (fd & -> & Hfd & Ef). step.
  destruct (reply_inv _ _ _ (HashExistField_refines (now_ms env) c m (Key_std key) field fd Hr Hfd Ef))
    as (c' & x & Hrun & Hx & Hr').
  rewrite Hrun. cbn [cmd_spec]. unfold on, query in *.
  destruct (m !! Key_std key) as [a|]; [destruct a|]; cbn in Hx, Hr'; injection Hx as ->; step; answer.
Qed.

(** The listings of a hash. *)

Lemma HKeys_handled key : cmd_ok m (CHKeys key) ->
  handles (CHKeys key) (HKeysCommand env c ap (cmds (CHKeys key))).
Proof.
  intros Hok. unfold HKeysCommand. syntax. unfold HKeysValsEntriesCommon. step.
  unfold HashGetAllFields_skey, HashGetAllFields. destruct (proj1 (proj2 Hok) _ eq_refl) as [_ Hs]. cbn [op_key] in Hs.
  typed_cases OBJECT_HASH; [answer|answer..|]. spec_at Hs Ek. cbn in Hs. cbn [v_dict].
  destruct (repr_dict o m0 Ho) as (d & -> & Hd & <-). step.
  rewrite AllKeys_rspec by (done || (unfold HashFacts.room; lia)). step. cbn [Z.eqb Pos.eqb kOkCode kWrongTypeCode].
  rewrite (array_or_empty _ _ _ (Some <$> (kb <$> rents d))).
  - apply handled_intro; [by eapply kv_touch|]. exists (kb <$> rents d). split; [|done].
    unfold rmap. rewrite (emap_to_list (rents d) (rh_nodup d Hd)), <- list_fmap_compose. done.
  - apply shown_vals. apply Forall2_fmap. apply Forall_Forall2_diag, Forall_forall.
    intros e He. exact (proj1 (rents_entry_ok d e Hd He)).
Qed.

Lemma HVals_handled key : cmd_ok m (CHVals key) ->
  handles (CHVals key) (HValsCommand env c ap (cmds (CHVals key))).
Proof.
  intros Hok. unfold HValsCommand. syntax. unfold HKeysValsEntriesCommon. step.
  unfold HashGetAllValues_skey, HashGetAllValues. destruct (proj1 (proj2 Hok) _ eq_refl) as [_ Hs]. cbn [op_key] in Hs.
  typed_cases OBJECT_HASH; [answer|answer..|]. spec_at Hs Ek. cbn in Hs. cbn [v_dict].
  destruct (repr_dict o m0 Ho) as (d & -> & Hd & <-). step.
  rewrite HashDict_AllValues_spec by (done || (unfold HashFacts.room; lia)). step. cbn [Z.eqb Pos.eqb kOkCode kWrongTypeCode].
  rewrite (array_or_empty _ _ _ (Some <$> (entry_val <$> rents d))).
  - apply handled_intro; [by eapply kv_touch|]. exists (entry_val <$> rents d). split; [|done].
    unfold rmap. rewrite (emap_to_list (rents d) (rh_nodup d Hd)), <- list_fmap_compose. done.
  - apply shown_vals. apply Forall2_fmap. apply Forall_Forall2_diag, Forall_forall.
    intros e He. exact (proj2 (rents_entry_ok d e Hd He)).
Qed.

(** Copying a vector of strings. *)
Lemma copy_all ds ss : Forall2 ds_val ds ss ->
  exists ds', mapM (DynamicString_copy always_ok) ds = Some ds' /\ Forall2 ds_val ds' ss.
Proof.
  intros H. induction H as [|x y ds s Hx _ (ds' & E & Em)]; [by exists []|].
  destruct (ds_val_copy x y Hx) as (x' & Ex & Hx'). exists (x' :: ds'). cbn. rewrite Ex. cbn. rewrite E. cbn.
  split; [done|]. by constructor.
Qed.

Lemma entries_vals (es : list HTEntry) : Forall entry_ok es ->
  Forall2 ds_val (e ← es; [ht_key e; ht_value e]) (flat ((λ e, (kb e, entry_val e)) <$> es)).
Proof.
  induction 1 as [|e es [Hk Hv] _ IH]; [constructor|]. cbn. constructor; [done|]. by constructor.
Qed.

Lemma HGetAll_handled key : cmd_ok m (CHGetAll key) ->
  handles (CHGetAll key) (HGetAllCommand env c ap (cmds (CHGetAll key))).
Proof.
  intros Hok. unfold HGetAllCommand. syntax. unfold HKeysValsEntriesCommon. step.
  unfold HashGetAllEntries_skey, HashGetAllEntries. destruct (proj1 (proj2 Hok) _ eq_refl) as [_ Hs]. cbn [op_key] in Hs.
  typed_cases OBJECT_HASH; [answer|answer..|]. spec_at Hs Ek. cbn in Hs. cbn [v_dict].
  destruct (repr_dict o m0 Ho) as (d & -> & Hd & <-). step.
  rewrite AllEntries_rspec by (done || (unfold HashFacts.room; lia)). step.
  assert (Forall entry_ok (rents d)) as He by (apply Forall_forall; intros e; by apply rents_entry_ok).
  destruct (copy_all _ _ (entries_vals (rents d) He)) as (ds & -> & Hds). step. cbn [Z.eqb Pos.eqb kOkCode kWrongTypeCode].
  rewrite (array_or_empty _ _ _ _ (shown_vals _ _ Hds)).
  apply handled_intro; [by eapply kv_touch|]. exists ((λ e, (kb e, entry_val e)) <$> rents d). split; [|done].
  unfold rmap. by rewrite (emap_to_list (rents d) (rh_nodup d Hd)).
Qed.

Lemma HLen_handled key : cmd_ok m (CHLen key) -> handles (CHLen key) (HLenCommand env c ap (cmds (CHLen key))).
Proof.
  intros Hok. unfold HLenCommand. syntax. step. run_op (OHashLen key). unfold HashLen_skey. rewrite Hrun.
  destruct (proj1 (proj2 Hok) _ eq_refl) as [_ Hs]. cbn [op_key] in Hs. cbn [cmd_spec kv_spec] in *. unfold on, query in *.
  destruct (m !! Key_std key) as [a|] eqn:Ek; [spec_at Hs Ek; destruct a as [| | |d|]|]; cbn in Hx, Hr', Hs;
    injection Hx as ->; step; try answer.
  unfold in_i64, INT64_MIN, INT64_MAX. lia.
Qed.

(** *** Sets *)

Lemma add_members_count items : forall s k, k <= (add_members s items k).2 <= k + Z.of_nat (length items).
Proof.
  induction items as [|y items IH]; intros s k; cbn [add_members length]; [cbn; lia|].
  case_decide; [specialize (IH ({[y]} ∪ s) k)|specialize (IH ({[y]} ∪ s) (k + 1))]; lia.
Qed.

Lemma SAdd_handled key members : cmd_ok m (CSAdd key members) ->
  handles (CSAdd key members) (SAddCommand env c ap (cmds (CSAdd key members)) sync).
Proof.
  intros Hok. pose proof (length_pos _ (proj1 Hok)) as Hp. unfold SAddCommand. syntax. step.
  run_op (OSetAddItem key members). unfold SetAddItem_skey. rewrite Hrun.
  destruct (proj1 (proj2 Hok) _ eq_refl) as [[_ Hm] _]. cbn [cmd_spec kv_spec] in *. unfold modify.
  destruct (m !! Key_std key) as [a|]; [destruct a as [| | | |s]|]; cbn [v_set] in *;
    try (cbn in Hx; injection Hx as ->; step; answer).
  - pose proof (add_members_count members s 0) as Hc. destruct (add_members s members 0) as [s' k]. cbn in Hx, Hc.
    injection Hx as ->. step. answer. unfold in_i64, INT64_MIN, INT64_MAX. lia.
  - pose proof (add_members_count members ∅ 0) as Hc. destruct (add_members ∅ members 0) as [s' k]. cbn in Hx, Hc.
    injection Hx as ->. step. answer. unfold in_i64, INT64_MIN, INT64_MAX. lia.
Qed.

Lemma SIsMember_handled key member : cmd_ok m (CSIsMember key member) ->
  handles (CSIsMember key member) (SIsMemberCommand env c ap (cmds (CSIsMember key member))).
Proof.
  intros Hok. unfold SIsMemberCommand. syntax. step. unfold SetIsMember_skey.
  destruct (proj1 (proj2 Hok) _ eq_refl) as [Hf Hs]. cbn [op_key args_ok] in *.
  destruct (DynamicString_std_ok member (small_fits _ Hf)) as (fd & -> & Hfd & Ef). step.
  destruct (reply_inv _ _ _ (SetIsMember_refines (now_ms env) c m (Key_std key) member fd Hr Hfd Ef))
    as (c' & x & Hrun & Hx & Hr').
  rewrite Hrun. cbn [cmd_spec]. unfold on, query in *.
  destruct (m !! Key_std key) as [a|]; [destruct a|]; cbn in Hx, Hr'; injection Hx as ->; step; answer.
Qed.

Lemma SMIsMember_handled key members : cmd_ok m (CSMIsMember key members) ->
  handles (CSMIsMember key members) (SMIsMemberCommand env c ap (cmds (CSMIsMember key members))).
Proof.
  intros Hok. pose proof (length_pos _ (proj1 Hok)) as Hp. unfold SMIsMemberCommand. syntax. step.
  run_op (OSetMIsMember key members). unfold SetMIsMember_skey. rewrite Hrun.
  cbn [cmd_spec kv_spec] in *. unfold query.
  destruct (m !! Key_std key) as [a|]; [destruct a as [| | | |s]|]; cbn in Hx, Hr'; injection Hx as ->; step;
    try (by answer).
  - apply handled_intro; [done|]. cbn [renders v_set]. unfold PackIntArrayMsg.
    replace ((λ b : bool, if b then 1 else 0) <$> map (λ x, bool_decide (x ∈ s)) members)
      with ((λ x, if decide (x ∈ s) then 1 else 0) <$> members); [done|].
    clear. induction members as [|y l IH]; [done|]. cbn. rewrite IH. by case_decide; [rewrite bool_decide_true|rewrite bool_decide_false].
  - apply handled_intro; [done|]. cbn [renders]. unfold PackIntArrayMsg.
    replace ((λ b : bool, if b then 1 else 0) <$> replicate (length members) false)
      with ((λ _ : list ascii, 0) <$> members); [done|].
    clear. induction members as [|y l IH]; [done|]. cbn. by rewrite IH.
Qed.

Lemma SMembers_handled key : cmd_ok m (CSMembers key) ->
  handles (CSMembers key) (SMembersCommand env c ap (cmds (CSMembers key))).
Proof.
  intros Hok. unfold SMembersCommand. syntax. step.
  unfold SetGetMembers_skey. destruct (proj1 (proj2 Hok) _ eq_refl) as [_ Hs]. cbn [op_key] in Hs.
  destruct (reply_inv _ _ _ (SetGetMembers_refines (now_ms env) c m (Key_std key) Hr Hs)) as (c' & ds & Hrun & Hx & Hr').
  assert (Forall val_ok ds) as Hval.
  { pose proof (typed_spec c m (Key_std key) OBJECT_SET (@nil DynamicString)) as HT.
    unfold SetGetMembers in Hrun. specialize (HT (λ o, s ← as_set o; keys ← Rehashable_AllKeys s;
      Some (put c (Key_std key) (with_lv_time (now_ms env) o), keys, kOkCode)) Hr).
    destruct (m !! Key_std key) as [a|] eqn:Ek.
    2: { rewrite HT in Hrun. injection Hrun as _ <- _. constructor. }
    destruct HT as (o & Ho & HT). rewrite HT in Hrun. clear HT.
    destruct a as [| | | |x]; try (injection Hrun as _ <- _; constructor). cbn [atype Z.eqb Pos.eqb OBJECT_SET] in Hrun.
    destruct (repr_set o x Ho) as (s & Es & Hs' & <-). rewrite Es in Hrun. cbn [mbind option_bind] in Hrun.
    spec_at Hs Ek. cbn in Hs. rewrite dom_size in Hs.
    rewrite AllKeys_rspec in Hrun by (done || (unfold HashFacts.room; lia)). injection Hrun as _ <- _.
    apply Forall_fmap, Forall_forall. intros e He. exact (rents_entry_ok s e Hs' He). }
  rewrite Hrun. unfold on in *. cbn [cmd_spec]. unfold query. step. rewrite (PackArrayMsg_array _ _ (shown_data ds Hval)).
  destruct (m !! Key_std key) as [a|]; [destruct a as [| | | |x]|]; cbn [default from_option id fst snd reply_sim v_set compose] in *; step.
  1-4: by answer.
  - apply handled_intro; [done|]. by exists (ds_data <$> ds).
  - symmetry in Hx. apply Permutation_nil in Hx. apply handled_intro; [done|]. change (map ds_data ds) with (ds_data <$> ds) in Hx.
    by rewrite Hx.
Qed.

Lemma SRem_handled key members : cmd_ok m (CSRem key members) ->
  handles (CSRem key members) (SRemCommand env c ap (cmds (CSRem key members)) sync).
Proof.
  intros Hok. pose proof (length_pos _ (proj1 Hok)) as Hp. unfold SRemCommand. syntax. step.
  run_op (OSetRemoveMembers key members). unfold SetRemoveMembers_skey. rewrite Hrun.
  cbn [cmd_spec kv_spec] in *. unfold on in *.
  destruct (m !! Key_std key) as [a|]; [destruct a as [| | | |s]|]; cbn [v_set default from_option id fst snd] in *;
    try (cbn in Hx; injection Hx as ->; step; by answer).
  destruct (del_members s members 0) as [s' k]. cbn in Hx. injection Hx as ->. step.
  apply handled_intro; [done|]. by destruct (k =? 0).
Qed.

Lemma SCard_handled key : cmd_ok m (CSCard key) -> handles (CSCard key) (SCardCommand env c ap (cmds (CSCard key))).
Proof.
  intros Hok. unfold SCardCommand. syntax. step. run_op (OSetGetMemberCount key). unfold SetGetMemberCount_skey. rewrite Hrun.
  destruct (proj1 (proj2 Hok) _ eq_refl) as [_ Hs]. cbn [op_key] in Hs. cbn [cmd_spec kv_spec] in *. unfold on, query in *.
  destruct (m !! Key_std key) as [a|] eqn:Ek; [spec_at Hs Ek; destruct a as [| | | |s]|]; cbn in Hx, Hr', Hs;
    injection Hx as ->; step; try answer.
  unfold in_i64, INT64_MIN, INT64_MAX. lia.
Qed.

(** *** Keys *)

Lemma Delete_all_spec keys : forall c m k, kv_repr c m ->
  kv_repr (kv_Delete_all c keys).1 (del_fields m (Key_std <$> keys) k).1 /\
  k + (kv_Delete_all c keys).2 = (del_fields m (Key_std <$> keys) k).2.
Proof.
  clear. induction keys as [|key keys IH]; intros c m k Hr; cbn [kv_Delete_all fmap list_fmap del_fields]; [split; [done|cbn; lia]|].
  destruct (kv_Delete_repr c m (Key_std key) Hr) as [Hr' Eb]. destruct (kv_Delete c (Key_std key)) as [c' b]. cbn [fst snd] in Hr', Eb. subst b.
  destruct (m !! Key_std key) as [a|] eqn:Ek.
  - rewrite bool_decide_true by eauto. destruct (IH c' _ (k + 1) Hr') as [H1 H2].
    destruct (kv_Delete_all c' keys) as [c2 n2]. cbn in *. split; [done|lia].
  - rewrite bool_decide_false by (by intros [? ?]). destruct (IH c' _ k Hr') as [H1 H2].
    destruct (kv_Delete_all c' keys) as [c2 n2]. cbn in *. split; [done|lia].
Qed.

Lemma Del_handled keys : cmd_ok m (CDel keys) -> handles (CDel keys) (DelCommand c ap (cmds (CDel keys)) sync).
Proof.
  intros (Hp & _ & Hb). cbn in Hp. apply length_pos in Hp. unfold DelCommand. syntax. step. cbn [cmd_spec].
  destruct (Delete_all_spec keys c m 0 Hr) as [Hr' En]. pose proof (del_fields_count (Key_std <$> keys) m 0) as Hc.
  rewrite length_fmap in Hc. destruct (kv_Delete_all c keys) as [c' k]. destruct (del_fields m _ 0) as [m' k'].
  cbn in Hr', En, Hc. subst k'. answer. unfold in_i64, INT64_MIN, INT64_MAX in *. lia.
Qed.

Lemma KeyExists_spec key : KeyExists c (Key_std key) = bool_decide (is_Some (m !! Key_std key)).
Proof.
  unfold KeyExists. apply bool_decide_ext. pose proof (kr_find c m Hr (Key_std key)) as H.
  inversion H; [split; intros _; by eexists|done].
Qed.

Lemma KeyExists_all_spec keys k :
  foldl (λ ans key, if KeyExists c (Key_std key) then ans + 1 else ans) k keys =
  k + Z.of_nat (length (filter (λ x, is_Some (m !! Key_std x)) keys)).
Proof.
  revert k. induction keys as [|key keys IH]; intros k; cbn [foldl]; [cbn; lia|]. rewrite IH, KeyExists_spec, filter_cons.
  case_bool_decide; [rewrite decide_True by done|rewrite decide_False by done]; cbn [length]; lia.
Qed.

Lemma Exists_handled keys : cmd_ok m (CExists keys) -> handles (CExists keys) (ExistsCommand c ap (cmds (CExists keys))).
Proof.
  intros (Hp & _ & Hb). cbn in Hp. apply length_pos in Hp. unfold ExistsCommand. syntax. step. cbn [cmd_spec].
  unfold KeyExists_all. rewrite KeyExists_all_spec, Z.add_0_l. answer.
  pose proof (length_filter (λ x, is_Some (m !! Key_std x)) keys). unfold in_i64, INT64_MIN, INT64_MAX in *. lia.
Qed.

Lemma Type_handled key : handles (CType key) (TypeCommand c ap (cmds (CType key))).
Proof.
  unfold TypeCommand. syntax. step. unfold QueryObjectType_skey, QueryObjectType. cbn [cmd_spec].
  pose proof (found_spec c m (Key_std key) Hr) as Hf. destruct (m !! Key_std key) as [a|]; [|rewrite Hf; by apply handled_intro].
  destruct Hf as (o & -> & [-> _]). destruct a; by apply handled_intro.
Qed.

Lemma Total_handled : cmd_ok m CTotal -> handles CTotal (NumItemsCommand c ap (cmds CTotal)).
Proof.
  intros (_ & _ & Hb). unfold NumItemsCommand. syntax. cbn [cmd_spec].
  rewrite (NumItems_repr c m Hr) by (unfold INT64_MAX, UINT64_MAX in *; lia). answer.
  unfold in_i64, INT64_MIN, INT64_MAX in *. lia.
Qed.

End Handlers.
