(* ===== verification/EngineFacts.v ===== *)
(** * EngineFacts: the engine implements the specification of the commands

    [HandleCommand] against [cmd_spec], the errors it answers, and the read
    handler of a connection with this engine behind it. *)

From S2P Require Import Prelude Encoding Numerals Str Buffer Protocol Hash HashFacts DList Core CoreSpec CoreFacts TimeEvent Server Persistence Commands CommandsSpec CommandsFacts.
From stdpp Require Import list fin_maps.

Local Open Scope Z_scope.

(** ** Dispatch *)

Definition opcode (cmd : command) : list ascii := default [] (head (cmd_args cmd)).
Definition operands (cmd : command) : list (list ascii) := tail (cmd_args cmd).

(** The handler of a data command, and what it does. *)
Definition handler_ok (cmd : command) (h : CommandHandler) : Prop :=
  match h with
  | OnData h =>
      forall env c m ap sync i n, kv_repr c m -> cmd_ok m cmd ->
        handled sync ap (mkCache i n (cmd_args cmd)) (cmd_spec m cmd) (h env c ap (mkCache i n (cmd_args cmd)) sync)
  | _ => False
  end.

(** A syntax check that only needs enough arguments. *)
Ltac enough_args := unfold CheckSyntax; cbn [argv cmd_args length andb Z.eqb Pos.eqb Z.opp]; apply Z.geb_le.

Lemma dispatch cmd : exists h, find_op sOpCommandMap (opcode cmd) = Some h /\ handler_ok cmd h.
Proof.
  destruct cmd as [| |l|l|k|k v|k|k|k|k v|k v|k|k v|k|[] k|[] k l|k a b|k a v|k a|k l|k f|k l|k l|k f|k|k|k|k|k l|k x|k l|k|k l|k];
    (eexists; split; [reflexivity|]); intros env c m ap sync i n Hr Hok.
  - by apply Ping_handled.
  - by apply Total_handled.
  - by apply Del_handled.
  - by apply Exists_handled.
  - by apply Type_handled.
  - by apply Set_handled.
  - by apply Get_handled.
  - by apply Incr_handled.
  - by apply Decr_handled.
  - by apply IncrBy_handled.
  - by apply DecrBy_handled.
  - by apply Strlen_handled.
  - by apply Append_handled.
  - by apply LLen_handled.
  - by apply (Pop_handled env c m ap sync i n Hr true).
  - by apply (Pop_handled env c m ap sync i n Hr false).
  - unfold LPushCommand, CheckSyntaxHelper. replace (CheckSyntax _ 1 (-1) false) with true.
    + by apply (Push_handled env c m ap sync i n Hr true).
    + symmetry. enough_args. pose proof (length_pos _ (proj1 Hok)). lia.
  - unfold RPushCommand, CheckSyntaxHelper. replace (CheckSyntax _ 1 (-1) false) with true.
    + by apply (Push_handled env c m ap sync i n Hr false).
    + symmetry. enough_args. pose proof (length_pos _ (proj1 Hok)). lia.
  - by apply LRange_handled.
  - by apply LSet_handled.
  - by apply LIndex_handled.
  - by apply HSet_handled.
  - by apply HGet_handled.
  - by apply HMGet_handled.
  - by apply HDel_handled.
  - by apply HExists_handled.
  - by apply HGetAll_handled.
  - by apply HKeys_handled.
  - by apply HVals_handled.
  - by apply HLen_handled.
  - by apply SAdd_handled.
  - by apply SIsMember_handled.
  - by apply SMIsMember_handled.
  - by apply SMembers_handled.
  - by apply SRem_handled.
  - by apply SCard_handled.
Qed.

Lemma cmd_args_cons cmd : cmd_args cmd = opcode cmd :: operands cmd.
Proof. by destruct cmd. Qed.

(** ** One command *)

(** The append-only file after a command. *)
Definition log_after (sync : bool) (ap : option AppendableFile) (cmd : command) (is_logged : bool) : option AppendableFile :=
  let ap := (λ a, SetAutoFlush a sync) <$> ap in
  if is_logged then AddIntoAppendableDirectly sync ap (request (cmd_args cmd)) else ap.

(** The engine runs the command on the store [m] it represents: everything but
    the data and the file stays. *)
Definition serves (env : Env) (sync : bool) (e : Engine) (m : astore) (cmd : command) (word : list ascii)
    (e' : Engine) (reply : list ascii) : Prop :=
  (forall sv sess, HandleCommand env sync e sv sess (request (word :: operands cmd)) = Some (e', sv, reply)) /\
  e' = with_data (container_ e') (log_after sync (appending_ e) cmd (cmd_spec m cmd).2) e /\
  kv_repr (container_ e') (cmd_spec m cmd).1.1 /\ renders (cmd_spec m cmd).1.2 reply.

(** Once the eviction has been considered, and has left the engine [e1], the handler of the
    command runs on it. *)
Lemma HandleCommand_runs env sync e e1 m cmd word :
  lazy_eviction env (with_data (container_ e) ((λ a, SetAutoFlush a sync) <$> appending_ e) e) = Some e1 ->
  kv_repr (container_ e1) m -> cmd_ok m cmd -> tolower <$> word = opcode cmd ->
  exists c' reply, (forall sv sess, HandleCommand env sync e sv sess (request (word :: operands cmd)) =
      Some (with_data c' (if (cmd_spec m cmd).2 then AddIntoAppendableDirectly sync (appending_ e1) (request (cmd_args cmd))
                          else appending_ e1) e1, sv, reply)) /\
    kv_repr c' (cmd_spec m cmd).1.1 /\ renders (cmd_spec m cmd).1.2 reply.
Proof.
  intros He Hr Hok Hw. destruct (dispatch cmd) as (h & Eh & Hh). destruct h as [h| |]; try done.
  destruct (Hh env (container_ e1) m (appending_ e1) sync true (Z.of_nat (length (cmd_args cmd))) Hr Hok)
    as (c' & reply & E & Hr' & Hrep).
  exists c', reply. split; [|by split]. intros sv sess. unfold HandleCommand. cbn [argc argv request inited].
  rewrite Z.eqb_refl. cbn [negb lookup list_lookup mbind option_bind]. rewrite Hw, Eh, He. cbn [mbind option_bind run_handler].
  change (<[O := opcode cmd]> (word :: operands cmd)) with (opcode cmd :: operands cmd).
  rewrite <- cmd_args_cons. replace (Z.of_nat (length (word :: operands cmd))) with (Z.of_nat (length (cmd_args cmd)))
    by (by rewrite cmd_args_cons). by rewrite E.
Qed.

Lemma HandleCommand_serves env sync e m cmd word :
  kv_repr (container_ e) m -> cmd_ok m cmd -> IfNeedKeyEviction env e = false ->
  tolower <$> word = opcode cmd ->
  exists e' reply, serves env sync e m cmd word e' reply.
Proof.
  intros Hr Hok He Hw. set (e1 := with_data (container_ e) ((λ a, SetAutoFlush a sync) <$> appending_ e) e).
  destruct (HandleCommand_runs env sync e e1 m cmd word) as (c' & reply & Hh & Hr' & Hrep); [|done..|].
  { unfold lazy_eviction. change (IfNeedKeyEviction env (with_data _ _ e)) with (IfNeedKeyEviction env e). by rewrite He. }
  exists (with_data c' (log_after sync (appending_ e) cmd (cmd_spec m cmd).2) e), reply.
  split; [exact Hh|]. split; [done|]. by split.
Qed.

(** C2. The engine implements the specification. On a container that represents the store, a
    complete command (its name in letters of any case), with no eviction to do first, that is
    within its bounds ([cmd_ok]: operands and the value it meets are shorter than 2^30, and an
    [lrange] with something in it begins inside its list, src/core.cpp:578), runs without
    undefined behaviour, changes the container as specified, answers what is specified, is
    logged exactly when specified (and when it is to be), and leaves the timers, the sessions
    and everything else alone. The specification follows the program where that deviates from
    the README: [type] of a set is [none], a popped empty string is answered like nothing and
    not logged. *)
Theorem HandleCommand_refines (env : Env) (sync : bool) (e : Engine) (sv : Server) (sess : option (list ascii))
    (m : astore) (cmd : command) (word : list ascii) :
  kv_repr (container_ e) m -> cmd_ok m cmd -> IfNeedKeyEviction env e = false ->
  tolower <$> word = opcode cmd ->
  exists c' reply, HandleCommand env sync e sv sess (request (word :: operands cmd)) =
      Some (with_data c' (log_after sync (appending_ e) cmd (cmd_spec m cmd).2) e, sv, reply) /\
    kv_repr c' (cmd_spec m cmd).1.1 /\ renders (cmd_spec m cmd).1.2 reply.
Proof.
  intros Hr Hok He Hw. destruct (HandleCommand_serves env sync e m cmd word Hr Hok He Hw) as (e' & reply & H & Ee & Hr' & Hrep).
  exists (container_ e'), reply. rewrite H. by rewrite <- Ee.
Qed.

Definition quiet_env : Env := mkEnv 1000 1 1 0 (mkDraws [] 0 []) (mkDraws [] 0 []) [] false.
Definition no_server : Server := mkServer ∅ ∅ ∅.
Definition new_engine : Engine :=
  with_data KVContainer_new (Some (AppendableFile_new [] 16 true)) (Engine_new EVICTION_POLICY_RANDOM 1000000).

Lemma set_ok key value : small value -> cmd_ok ∅ (CSet key value).
Proof.
  intros Hv. split; [done|]. split; [|done]. intros o [= <-]. split; [done|]. intros a H. by rewrite lookup_empty in H.
Qed.

Lemma HandleCommand_refines_witness :
  exists c' reply, HandleCommand quiet_env true new_engine no_server None (request [bs "SeT"; bs "k"; bs "42"]) =
      Some (with_data c' (log_after true (appending_ new_engine) (CSet (bs "k") (bs "42")) true) new_engine, no_server, reply) /\
    kv_repr c' (<[Key_std (bs "k") := AInt 42]> ∅) /\ reply = bs "+OK" ++ CRLF.
Proof.
  apply (HandleCommand_refines quiet_env true new_engine no_server None ∅ (CSet (bs "k") (bs "42")) (bs "SeT")).
  - apply KVContainer_new_repr.
  - apply set_ok. unfold small. by vm_compute.
  - by vm_compute.
  - by vm_compute.
Defined.

(** ** Several commands *)

(** The store after the commands, and the replies. *)
Fixpoint spec_run (m : astore) (cmds : list command) : astore * list areply :=
  match cmds with
  | [] => (m, [])
  | cmd :: cmds =>
      let '(m, r, _) := cmd_spec m cmd in
      let '(m, rs) := spec_run m cmds in
      (m, r :: rs)
  end.

(** Each command meets its bounds on the store it runs on. *)
Fixpoint cmds_ok (m : astore) (cmds : list command) : Prop :=
  match cmds with
  | [] => True
  | cmd :: cmds => cmd_ok m cmd /\ cmds_ok (cmd_spec m cmd).1.1 cmds
  end.

(** The engine as the read handler sees it: each command has its environment. *)
Definition engine_step (envs : nat -> Env) (s : Engine * nat) (sv : Server) (name : list ascii) (c : CommandCache)
  : option (Engine * nat * Server * list ascii) :=
  '(e, sv, reply) ← HandleCommand (envs s.2) true s.1 sv (Some name) c;
  Some ((e, S s.2), sv, reply).

(** No command finds too much memory in use. *)
Definition enough_memory (envs : nat -> Env) (e : Engine) : Prop := forall i, cur_rss_size_ (envs i) <= rss_limit e.

Lemma enough_memory_ok envs e i : enough_memory envs e -> IfNeedKeyEviction (envs i) e = false.
Proof. intros H. unfold IfNeedKeyEviction. apply Z.ltb_ge, H. Qed.

Lemma tolower_opcode cmd : tolower <$> opcode cmd = opcode cmd.
Proof. destruct cmd as [| |l|l|k|k v|k|k|k|k v|k v|k|k v|k|[] k|[] k l|k a b|k a v|k a|k l|k f|k l|k l|k f|k|k|k|k|k l|k x|k l|k|k l|k]; reflexivity. Qed.

Lemma engine_runs envs name cmds : forall e i m, kv_repr (container_ e) m -> cmds_ok m cmds -> enough_memory envs e ->
  exists e' replies, runs (engine_step envs) name (e, i) (cmd_args <$> cmds) (e', (i + length cmds)%nat) replies /\
    kv_repr (container_ e') (spec_run m cmds).1 /\ Forall2 renders (spec_run m cmds).2 replies.
Proof.
  induction cmds as [|cmd cmds IH]; intros e i m Hr Hok He.
  { exists e, []. rewrite Nat.add_0_r. split; [constructor|]. by split. }
  destruct Hok as [Hok Hoks].
  destruct (HandleCommand_serves (envs i) true e m cmd (opcode cmd) Hr Hok (enough_memory_ok _ _ i He) (tolower_opcode cmd))
    as (e1 & reply & Hh & Ee & Hr1 & Hrep).
  destruct (IH e1 (S i) _ Hr1 Hoks) as (e2 & replies & Hrun & Hr2 & Hreps).
  { rewrite Ee. exact He. }
  exists e2, (reply :: replies). cbn [spec_run fmap list_fmap length]. destruct (cmd_spec m cmd) as [[m1 r] b].
  cbn [fst snd] in *. destruct (spec_run m1 cmds) as [m2 rs]. cbn [fst snd] in *.
  split; [|split; [done|by constructor]].
  rewrite Nat.add_succ_r. apply (runs_cons _ _ _ _ (e1, S i)); [|done].
  intros sv. unfold engine_step. cbn [fst snd]. rewrite (cmd_args_cons cmd), Hh. done.
Qed.

Lemma ReadProc_commands (envs : nat -> Env) (e : Engine) (i : nat) (m : astore) (sv : Server)
    (name : list ascii) (s : Session) (W : list ascii) (cmds : list command) (reads : list read_answer) :
  kv_repr (container_ e) m -> cmds_ok m cmds -> enough_memory envs e ->
  sessions_ sv !! name = Some s -> session_holds s [] W -> cmds <> [] ->
  buf_op_ok (read_buf s) (BAppend (wire_of (cmd_args <$> cmds))) ->
  (forall replies, Forall2 renders (spec_run m cmds).2 replies -> buf_ops_ok (write_buf s) (BAppend <$> replies)) ->
  delivered reads = Some (wire_of (cmd_args <$> cmds)) ->
  exists e' sv' s' replies,
    ReadProc (engine_step envs) (e, i) sv name reads = Some ((e', (i + length cmds)%nat), sv', false) /\
    kv_repr (container_ e') (spec_run m cmds).1 /\
    Forall2 renders (spec_run m cmds).2 replies /\
    sessions_ sv' !! name = Some s' /\ session_holds s' [] (W ++ concat replies).
Proof.
  intros Hr Hok He Hs Hh Hne Hop Hroom Hreads. destruct (engine_runs envs name cmds e i m Hr Hok He) as (e' & replies & Hrun & Hr' & Hreps).
  destruct (ReadProc_runs _ name (e, i) (cmd_args <$> cmds) _ replies sv s W Hrun Hs Hh) with (answers := reads) as (sv' & s' & H & Hss & Hsh & _).
  - by destruct cmds.
  - done.
  - by apply Hroom.
  - done.
  - exists e', sv', s', replies. split; [done|]. do 2 (split; [done|]). by rewrite Hss, lookup_insert_eq.
Qed.

(** C3. From the wire to the store. A connection is idle, and the kernel delivers in one read
    event, in one piece or in two ([delivered]: a third piece would be stored in the wrong
    place, src/net/utils.cpp:8) the bytes of some complete commands, which find room in the read
    buffer and whose replies find room in the write buffer, without a copy between overlapping
    regions; each command is within its bounds ([cmd_ok]) and no eviction is to be done. Then
    the server executes them in order, the container afterwards represents the store the
    specification reaches, and what the connection is to send has grown by the replies, each as
    specified, in order. *)
Theorem ReadProc_implements_commands (envs : nat -> Env) (e : Engine) (i : nat) (m : astore) (sv : Server)
    (name : list ascii) (s : Session) (W : list ascii) (cmds : list command) (reads : list read_answer) :
  kv_repr (container_ e) m -> cmds_ok m cmds -> enough_memory envs e ->
  sessions_ sv !! name = Some s -> session_holds s [] W -> cmds <> [] ->
  buf_op_ok (read_buf s) (BAppend (wire_of (cmd_args <$> cmds))) ->
  (forall replies, Forall2 renders (spec_run m cmds).2 replies -> buf_ops_ok (write_buf s) (BAppend <$> replies)) ->
  delivered reads = Some (wire_of (cmd_args <$> cmds)) ->
  exists e' sv' s' replies,
    ReadProc (engine_step envs) (e, i) sv name reads = Some ((e', (i + length cmds)%nat), sv', false) /\
    kv_repr (container_ e') (spec_run m cmds).1 /\
    Forall2 renders (spec_run m cmds).2 replies /\
    sessions_ sv' !! name = Some s' /\ session_holds s' [] (W ++ concat replies).
Proof. apply ReadProc_commands. Qed.

Definition connected : Server := mkServer {[ bs "c1" := idle_session ]} ∅ {[ bs "c1" := EPOLLIN ]}.
Definition set_get : list command := [CSet (bs "k") (bs "v"); CGet (bs "k")].

Lemma set_get_replies replies : Forall2 renders (spec_run ∅ set_get).2 replies ->
  replies = [bs "+OK" ++ CRLF; bs "$1" ++ CRLF ++ bs "v" ++ CRLF].
Proof.
  replace (spec_run ∅ set_get).2 with [ROk; RStr (bs "v")] by (by vm_compute). intros H.
  apply Forall2_cons_inv_l in H as (r1 & l & E1 & H & ->). apply Forall2_cons_inv_l in H as (r2 & l' & E2 & H & ->).
  apply Forall2_nil_inv_l in H as ->. cbn [renders] in E1, E2. by rewrite E1, E2.
Qed.

Lemma set_get_ok : cmds_ok ∅ set_get.
Proof.
  split; [apply set_ok; unfold small; by vm_compute|]. split; [|done]. split; [done|]. split; [|done].
  intros o [= <-]. split; [done|]. intros a Ha.
  replace (_ !! _) with (Some (AStr (bs "v"))) in Ha by (by vm_compute). injection Ha as <-. unfold small. by vm_compute.
Qed.

Lemma ReadProc_implements_commands_witness :
  exists e' sv' s', ReadProc (engine_step (λ _, quiet_env)) (new_engine, O) connected (bs "c1")
      [RdData (wire_of [[bs "set"; bs "k"; bs "v"]]); RdData (wire_of [[bs "get"; bs "k"]]); RdAgain] = Some ((e', 2%nat), sv', false) /\
    sessions_ sv' !! bs "c1" = Some s' /\
    session_holds s' [] (bs "+OK" ++ CRLF ++ bs "$1" ++ CRLF ++ bs "v" ++ CRLF).
Proof.
  destruct (ReadProc_implements_commands (λ _, quiet_env) new_engine O ∅ connected (bs "c1") idle_session [] set_get
      [RdData (wire_of [[bs "set"; bs "k"; bs "v"]]); RdData (wire_of [[bs "get"; bs "k"]]); RdAgain])
    as (e' & sv' & s' & replies & H1 & _ & Hreps & H3 & H4).
  - apply KVContainer_new_repr.
  - apply set_get_ok.
  - intros _. by vm_compute.
  - reflexivity.
  - split; [|split; [|done]]; apply Buffer_new_repr; unfold INT64_MAX; lia.
  - done.
  - vm_compute. intuition congruence.
  - intros replies Hreps. rewrite (set_get_replies _ Hreps). vm_compute. intuition congruence.
  - reflexivity.
  - exists e', sv', s'. split; [exact H1|]. split; [exact H3|]. by rewrite (set_get_replies _ Hreps) in H4.
Defined.

(** What [set] stores is what was given. *)
Lemma v_scalar_scalar value : v_scalar (scalar value) = Some value.
Proof.
  unfold scalar. destruct (CanConvertToInt64 value) as [n|] eqn:E; [|done].
  apply CanConvertToInt64_iff in E as [_ ->]. done.
Qed.

Lemma set_get_spec m key value : (spec_run m [CSet key value; CGet key]).2 = [ROk; RStr value].
Proof. cbn [spec_run cmd_spec fst snd]. unfold query. by rewrite lookup_insert_eq, v_scalar_scalar. Qed.

(** What is set is what is got: on the wire, [set] and then [get] of a key
    answer with the very bytes of the value, be they a number (which is kept as an
    integer and printed again), text or bytes of any kind, and whatever the key held
    before. *)
Lemma set_then_get (envs : nat -> Env) (e : Engine) (i : nat) (m : astore) (sv : Server)
    (name : list ascii) (s : Session) (W : list ascii) (key value : list ascii) (reads : list read_answer) :
  kv_repr (container_ e) m -> cmds_ok m [CSet key value; CGet key] -> enough_memory envs e ->
  sessions_ sv !! name = Some s -> session_holds s [] W ->
  buf_op_ok (read_buf s) (BAppend (wire_of (cmd_args <$> [CSet key value; CGet key]))) ->
  buf_ops_ok (write_buf s) [BAppend kOkMsg; BAppend (PackStringValueReply value)] ->
  delivered reads = Some (wire_of [[bs "set"; key; value]; [bs "get"; key]]) ->
  exists s1 sv' s', ReadProc (engine_step envs) (e, i) sv name reads = Some (s1, sv', false) /\
    sessions_ sv' !! name = Some s' /\ session_holds s' [] (W ++ bs "+OK" ++ CRLF ++ PackStringValueReply value).
Proof.
  intros Hr Hok He Hs Hh Hop Hroom Hreads.
  assert (forall replies, Forall2 renders (spec_run m [CSet key value; CGet key]).2 replies ->
    replies = [kOkMsg; PackStringValueReply value]) as Hrep.
  { intros replies. rewrite set_get_spec. intros H.
    apply Forall2_cons_inv_l in H as (r1 & l & E1 & H & ->). apply Forall2_cons_inv_l in H as (r2 & l' & E2 & H & ->).
    apply Forall2_nil_inv_l in H as ->. cbn [renders] in E1, E2. by rewrite E1, E2. }
  destruct (ReadProc_commands envs e i m sv name s W [CSet key value; CGet key] reads)
    as (e' & sv' & s' & replies & H & _ & Hreps & Hss & Hsh); [done..| |exact Hreads|].
  - intros replies Hreps. by rewrite (Hrep _ Hreps).
  - eexists _, sv', s'. split; [exact H|]. split; [done|]. rewrite (Hrep _ Hreps) in Hsh. cbn [concat] in Hsh. by rewrite app_nil_r in Hsh.
Qed.

Lemma set_then_get_witness : exists s1 sv' s', ReadProc (engine_step (λ _, quiet_env)) (new_engine, O) connected (bs "c1")
      [RdData (wire_of [[bs "set"; bs "k"; bs "-07"]; [bs "get"; bs "k"]])] = Some (s1, sv', false) /\
    sessions_ sv' !! bs "c1" = Some s' /\ session_holds s' [] ([] ++ bs "+OK" ++ CRLF ++ PackStringValueReply (bs "-07")).
Proof.
  apply (set_then_get (λ _, quiet_env) new_engine O ∅ connected (bs "c1") idle_session [] (bs "k") (bs "-07")
    [RdData (wire_of [[bs "set"; bs "k"; bs "-07"]; [bs "get"; bs "k"]])]).
  - apply KVContainer_new_repr.
  - split; [apply set_ok; unfold small; by vm_compute|]. split; [|done]. split; [done|]. split; [|done].
    intros o [= <-]. split; [done|]. intros a Ha.
    replace (_ !! _) with (Some (AStr (bs "-07"))) in Ha by (by vm_compute). injection Ha as <-. unfold small. by vm_compute.
  - intros _. by vm_compute.
  - reflexivity.
  - split; [|split; [|done]]; apply Buffer_new_repr; unfold INT64_MAX; lia.
  - vm_compute. intuition congruence.
  - vm_compute. intuition congruence.
  - reflexivity.
Defined.

(** ** Requests that are refused *)

(** The words of a request the commands take, the name included: from least to
    most, in an even number for [hset]. *)
Definition words_taken : list (list ascii * (nat -> bool)) :=
  let exactly n := λ k, (k =? n)%nat in
  let from n := λ k, (n <=? k)%nat in
  ((λ w, (bs w, exactly 1%nat)) <$> ["overview"; "total"; "ping"; "bgsave"]%string) ++
  ((λ w, (bs w, exactly 2%nat)) <$>
    ["evict"; "type"; "ttl"; "get"; "incr"; "decr"; "strlen"; "llen"; "lpop"; "rpop"; "hgetall"; "hkeys"; "hvals";
     "hlen"; "smembers"; "scard"]%string) ++
  ((λ w, (bs w, exactly 3%nat)) <$>
    ["expire"; "expireat"; "set"; "incrby"; "decrby"; "append"; "lindex"; "hexists"; "sismember"; "publish"]%string) ++
  ((λ w, (bs w, exactly 4%nat)) <$> ["lrange"; "lsetindex"]%string) ++
  ((λ w, (bs w, from 2%nat)) <$> ["del"; "exists"; "subscribe"]%string) ++
  ((λ w, (bs w, from 3%nat)) <$> ["lpush"; "rpush"; "hget"; "hdel"; "sadd"; "smismember"; "srem"]%string) ++
  [(bs "hset", λ k, (4 <=? k)%nat && Nat.even k)].

Lemma refused (env : Env) (sync : bool) (e : Engine) (sv : Server) (sess : option (list ascii))
    (name word : list ascii) (args : list (list ascii)) (h : CommandHandler) :
  find_op sOpCommandMap name = Some h -> tolower <$> word = name -> IfNeedKeyEviction env e = false ->
  match h with
  | OnData h => forall c ap, h env c ap (request (name :: args)) sync = Some (c, ap, wrong_args name)
  | OnEngine h => forall e, h env e (request (name :: args)) sync = Some (e, wrong_args name)
  | OnServer h => h env sv sess (request (name :: args)) = Some (sv, [], wrong_args name)
  end ->
  HandleCommand env sync e sv sess (request (word :: args)) =
    Some (with_data (container_ e) ((λ a, SetAutoFlush a sync) <$> appending_ e) e, sv, wrong_args name).
Proof.
  intros Hf Hw He Hh. unfold HandleCommand. cbn [argc argv request inited]. rewrite Z.eqb_refl.
  cbn [negb lookup list_lookup mbind option_bind]. rewrite Hw, Hf. unfold lazy_eviction.
  change (IfNeedKeyEviction env (with_data _ _ e)) with (IfNeedKeyEviction env e). rewrite He.
  cbn [mbind option_bind]. change (mkCache true _ (<[O := name]> (word :: args))) with (request (name :: args)).
  destruct h as [h|h|h]; cbn [run_handler]; rewrite Hh; cbn [mbind option_bind]; [done|done|].
  unfold with_relayed. cbn. by rewrite app_nil_r.
Qed.

(** What the parameters of [CheckSyntax] mean. *)
Lemma CheckSyntax_words name args n_key n_operands (even : bool) (takes : nat -> bool) :
  takes (S (length args)) = false ->
  (forall k, CheckSyntax (request (replicate k [])) n_key n_operands even = true -> takes k = true) ->
  CheckSyntax (request (name :: args)) n_key n_operands even = false.
Proof.
  intros Ht Hk. apply not_true_iff_false. intros H. rewrite (Hk (S (length args))) in Ht; [done|].
  unfold CheckSyntax in *. cbn [argv request length] in *. by rewrite length_replicate.
Qed.

Lemma odd_of_nat k : Z.odd (Z.of_nat k) = negb (Nat.even k).
Proof.
  induction k as [|k IH]; [done|]. rewrite Nat2Z.inj_succ, Z.odd_succ, <- Z.negb_odd, IH, Nat.even_succ, <- Nat.negb_even.
  by rewrite !negb_involutive.
Qed.

Ltac syntax_words :=
  let k := fresh "k" in intros k; unfold CheckSyntax; cbn [argv request]; rewrite length_replicate;
  cbn [Z.eqb Pos.eqb Z.opp andb];
  repeat match goal with |- context [u64 ?z] => change (u64 z) with z end; cbn [Z.add Pos.add Pos.add_carry Pos.succ];
  rewrite ?odd_of_nat, ?negb_involutive;
  cbv beta; intros H; rewrite ?andb_true_iff, ?Nat.eqb_eq, ?Nat.leb_le;
  first [bools; lia
        | destruct (Nat.even k) eqn:Ek; [|done]; split; [|done]; destruct (decide (k = 3%nat)) as [->|]; [done|];
          cbn in H; bools; lia].

Ltac refuse Ht :=
  eapply refused; [reflexivity|done|done|]; cbv beta iota; intros;
  unfold OverviewCommand, NumItemsCommand, PingCommand, EvictCommand, DelCommand, ExistsCommand, TypeCommand,
    ExpireCommand, ExpireAtCommand, TTLCommand, SetCommand, GetCommand, IncrCommand, DecrCommand, IncrByCommand,
    DecrByCommand, StrlenCommand, AppendCommand, LLenCommand, LPopCommand, LPushCommand, RPopCommand, RPushCommand,
    LRangeCommand, LSetCommand, LIndexCommand, HSetCommand, HGetCommand, HDelCommand, HExistsCommand,
    HGetAllCommand, HKeysCommand, HValsCommand, HLenCommand, SAddCommand, SIsMemberCommand, SMIsMemberCommand,
    SMembersCommand, SRemCommand, SCardCommand, PubSubPublishCommand, PubSubSubscribeCommand, BgsaveCommand,
    CheckSyntaxHelper; cbn [mbind option_bind];
  (rewrite (CheckSyntax_words _ _ _ _ _ _ Ht); [reflexivity|subst; syntax_words]).

(** A command with a number of words it does not take ([words_taken]: each
    command of the table and its arity) is answered by the error that names it, and
    nothing else happens: the data, the timers and the sessions stay, nothing is
    logged. *)
Lemma wrong_number_of_words_refused (env : Env) (sync : bool) (e : Engine) (sv : Server) (client : list ascii)
    (name word : list ascii) (takes : nat -> bool) (args : list (list ascii)) :
  (name, takes) ∈ words_taken -> takes (S (length args)) = false ->
  tolower <$> word = name -> IfNeedKeyEviction env e = false ->
  HandleCommand env sync e sv (Some client) (request (word :: args)) =
    Some (with_data (container_ e) ((λ a, SetAutoFlush a sync) <$> appending_ e) e, sv, wrong_args name).
Proof.
  intros Hin Ht Hw He. unfold words_taken in Hin. cbn [fmap list_fmap app] in Hin.
  do 43 (apply elem_of_cons in Hin as [Hin|Hin]; [apply pair_equal_spec in Hin as [? Hf]; subst name; refuse Ht|]).
  by apply not_elem_of_nil in Hin.
Qed.

Lemma wrong_number_of_words_refused_witness :
  HandleCommand quiet_env true new_engine no_server (Some (bs "c1")) (request [bs "HSET"; bs "k"; bs "f"; bs "1"; bs "g"]) =
    Some (with_data (container_ new_engine) ((λ a, SetAutoFlush a true) <$> appending_ new_engine) new_engine,
      no_server, bs "-ERROR incorrect number of arguments for 'hset' command" ++ CRLF).
Proof.
  apply (wrong_number_of_words_refused quiet_env true new_engine no_server (bs "c1") (bs "hset") (bs "HSET")
    (λ k, (4 <=? k)%nat && Nat.even k)).
  - unfold words_taken. rewrite !elem_of_app, list_elem_of_singleton. tauto.
  - by vm_compute.
  - by vm_compute.
  - by vm_compute.
Defined.

(** C36. The request without words, [*0\r\n], delivered in one read or two on an idle connection
    that has room for it, is accepted by the parser and takes the server down: [HandleCommand]
    reads the first of no words, whoever sends it and whatever the engine holds. *)
Theorem empty_request_undefined (envs : nat -> Env) (e : Engine) (i : nat) (sv : Server) (name : list ascii)
    (s : Session) (W : list ascii) (reads : list read_answer) :
  sessions_ sv !! name = Some s -> session_holds s [] W -> buf_op_ok (read_buf s) (BAppend (wire_of [[]])) ->
  delivered reads = Some (bs "*0" ++ CRLF) ->
  wire_of [[]] = bs "*0" ++ CRLF /\ ReadProc (engine_step envs) (e, i) sv name reads = None.
Proof.
  intros Hs (Hr & _ & Hc) Hop Hreads. split; [by vm_compute|]. rewrite (ReadProc_delivered _ _ _ _ _ _ Hreads).
  unfold ReadProc_bytes. rewrite Hs. cbn [mbind option_bind].
  destruct (buf_exec_refines _ _ _ Hr Hop) as (rb & Erb & Hrb). cbn [buf_exec queue_step fst snd] in Erb, Hrb.
  change (wire_of [[]]) with (bs "*0" ++ CRLF) in Erb. unfold buf_Append_std in Erb.
  change (i32 (Z.of_nat (length (bs "*0" ++ CRLF)))) with 4 in Erb.
  change (Z.of_nat (length (bs "*0" ++ CRLF))) with 4.
  destruct (buf_Append (read_buf s) (bs "*0" ++ CRLF) 4) as [b|]; [|done]. injection Erb as ->. cbn [mbind option_bind].
  rewrite (buf_repr_readable _ _ Hrb). cbn [read_loop sessions_ put_session]. rewrite lookup_insert_eq.
  cbn [mbind option_bind cache set_read_buf read_buf]. rewrite Hc.
  destruct (TryParse_request rb [] [] false) as (b' & -> & _); [exact Hrb|]. reflexivity.
Qed.

Lemma empty_request_undefined_witness :
  wire_of [[]] = bs "*0" ++ CRLF /\
  ReadProc (engine_step (λ _, quiet_env)) (new_engine, O) connected (bs "c1") [RdData (bs "*0" ++ CRLF)] = None.
Proof.
  apply (empty_request_undefined (λ _, quiet_env) new_engine O connected (bs "c1") idle_session [] [RdData (bs "*0" ++ CRLF)]).
  - reflexivity.
  - split; [|split; [|done]]; apply Buffer_new_repr; unfold INT64_MAX; lia.
  - vm_compute. intuition congruence.
  - reflexivity.
Defined.
