(* ===== verification/Eviction.v ===== *)
(** * Eviction: what is dropped when memory runs short (src/core.cpp, net/commands.cpp)

    [HandleCommand] evicts keys before a command when the process uses too much memory.
    Under the LRU policy this is a deletion of the keys that are reported, in the
    container, in the specification and in the append-only file; the command follows. *)

From S2P Require Import Prelude Encoding Numerals Str Buffer Protocol Core CoreSpec CoreFacts KVStore TimeEvent Server Persistence PersistenceFacts Commands CommandsSpec CommandsFacts EngineFacts.
From stdpp Require Import list gmap fin_maps.

Local Open Scope Z_scope.

(** ** The draws *)

(** What [RandIntValue(0, keys_pool_.size() - 1)] answers in the rounds of the eviction of
    [n] keys: ten indices a round, each below the number of keys there are then. *)
Fixpoint rand_ok (n : nat) (rounds : list (list nat * Z)) : Prop :=
  match n, rounds with
  | O, _ => True
  | S n', (draws, _) :: rounds => length draws = 10%nat /\ Forall (λ i, i < S n')%nat draws /\ rand_ok n' rounds
  | S _, [] => False
  end.

(** ** The pool and the store *)

Lemma pool_size c m : kv_repr c m -> length (keys_pool_ c) = size m.
Proof.
  intros Hr. destruct (kr_pool c m Hr) as [Hn Hp].
  rewrite <- (size_dom m), <- (size_list_to_set (C := gset (list ascii)) (keys_pool_ c)) by done.
  f_equal. apply set_eq. intros k. by rewrite elem_of_list_to_set, Hp, elem_of_dom.
Qed.

Lemma pool_find c m i k : kv_repr c m -> keys_pool_ c !! i = Some k -> is_Some (lv_time c k).
Proof.
  intros Hr Hi. destruct (pool_position c m i k Hr Hi) as [a Ha]. pose proof (kr_find c m Hr k) as Hf. rewrite Ha in Hf.
  unfold lv_time. inversion Hf as [o a' _ Eo|]. by eexists.
Qed.

(** The keys of a store that commands have made are C strings. *)
Definition clean_keys (m : astore) : Prop := forall k, is_Some (m !! k) -> Key_std k = k.

Lemma Key_std_idem key : Key_std (Key_std key) = Key_std key.
Proof. unfold Key_std, StaticString_std, StaticString_cstr. cbn. apply c_str_idem. Qed.

Lemma clean_insert m key a : clean_keys m -> clean_keys (<[Key_std key := a]> m).
Proof. intros H k. rewrite lookup_insert_is_Some. intros [<-|[_ Hk]]; [apply Key_std_idem|by apply H]. Qed.

Lemma clean_deletes ks : forall m n, clean_keys m -> clean_keys (del_fields m ks n).1.
Proof.
  induction ks as [|k ks IH]; intros m n H; [done|]. cbn [del_fields]. apply IH. intros k'.
  rewrite lookup_delete_is_Some. intros [_ Hk]. by apply H.
Qed.

Lemma clean_modify {A : Type} m key (view : aval -> option A) (x : A) f : clean_keys m -> clean_keys (modify m key view x f).1.1.
Proof. intros H. unfold modify. destruct (m !! Key_std key); [case_match; [|done]|]; by apply clean_insert. Qed.

Lemma clean_add m key n : clean_keys m -> clean_keys (add_to m key n).1.1.
Proof.
  intros H. unfold add_to. destruct (m !! Key_std key) as [[]|]; [|done..|by apply clean_insert].
  case_match; [done|by apply clean_insert].
Qed.

Lemma cmd_spec_clean (m : astore) (cmd : command) : clean_keys m -> clean_keys (cmd_spec m cmd).1.1.
Proof.
  intros H. destruct cmd; cbn [cmd_spec]; try done; try (by apply clean_modify); try (by apply clean_add);
    try (by case_match; [|apply clean_add]); try (by apply clean_insert); [pose proof (clean_deletes (Key_std <$> keys) m 0 H); by destruct (del_fields m _ 0)|..];
    (destruct (m !! Key_std key) as [a|]; [|done]).
  - destruct (v_list a) as [l|]; [|done]. destruct (if lf then head l else last l) as [x|]; [|done].
    case_decide; by apply clean_insert.
  - destruct (v_list a); [|done]. cbv zeta. case_match; [done|]. case_match; [by apply clean_insert|done].
  - destruct (v_dict a) as [d|]; [|done]. destruct (del_fields d fields 0). by apply clean_insert.
  - destruct (v_set a) as [s|]; [|done]. destruct (del_members s members 0). by apply clean_insert.
Qed.

Lemma spec_run_clean (cmds : list command) : forall m, clean_keys m -> clean_keys (spec_run m cmds).1.
Proof.
  induction cmds as [|cmd cmds IH]; intros m H; [done|]. cbn [spec_run]. pose proof (cmd_spec_clean m cmd H) as H'.
  destruct (cmd_spec m cmd) as [[m' r] l]. specialize (IH m' H'). by destruct (spec_run m' cmds).
Qed.

Lemma clean_empty : clean_keys ∅.
Proof. intros k [a Ha]. by rewrite lookup_empty in Ha. Qed.

(** ** The rounds of [KeyEvictionLru] *)

Lemma deletes_count {A} ks : forall (m : gmap (list ascii) A) n n', (del_fields m ks n).1 = (del_fields m ks n').1.
Proof. induction ks as [|k ks IH]; intros m n n'; [done|]. cbn [del_fields]. apply IH. Qed.

(** The keys named are there, each once, and the container stands for the store without them. *)
Record evicts (m : astore) (ks : list (list ascii)) (c : KVContainer) : Prop := {
  ev_there : Forall (λ k, is_Some (m !! k)) ks;
  ev_once : NoDup ks;
  ev_repr : kv_repr c (del_fields m ks 0).1
}.

Lemma evicts_none m c : kv_repr c m -> evicts m [] c.
Proof. intros Hr. split; [constructor|constructor|done]. Qed.

Lemma evicts_more m k c ks : is_Some (m !! k) -> evicts (delete k m) ks c -> evicts m (k :: ks) c.
Proof.
  intros Hk [Ht Ho Hr]. split.
  - constructor; [done|]. eapply Forall_impl; [exact Ht|]. cbn. intros k'. rewrite lookup_delete_is_Some. by intros [_ H].
  - constructor; [|done]. intros Hin. rewrite Forall_forall in Ht. specialize (Ht k Hin).
    rewrite lookup_delete_eq in Ht. by destruct Ht.
  - cbn [del_fields]. by rewrite (deletes_count _ _ _ 0).
Qed.

(** A round deletes nothing, or one key it names. *)
Lemma helper_evicts c m draws c' ks : kv_repr c m -> KeyEvictionLruHelper c draws = Some (c', ks) ->
  (ks = [] /\ kv_repr c' m) \/ exists k, ks = [k] /\ is_Some (m !! k) /\ kv_repr c' (delete k m).
Proof.
  intros Hr H. destruct (decide (keys_pool_ c = [])) as [Ep|Ep].
  { unfold KeyEvictionLruHelper in H. rewrite Ep in H. injection H as <- <-. by left. }
  destruct (decide (take 10 draws = [])) as [Ed|Ed].
  { unfold KeyEvictionLruHelper in H. destruct (keys_pool_ c); [done|]. rewrite Ed in H. injection H as <- <-. by left. }
  destruct (KeyEvictionLruHelper_least_recent c m draws c' ks Hr H Ep Ed) as (k & -> & Hr' & (i & _ & Hi) & _).
  right. exists k. split; [done|]. split; [by eapply pool_position|done].
Qed.

Lemma evict_lru_evicts num start nd rounds : forall c m c' ks, kv_repr c m ->
  evict_lru c num start nd rounds = Some (c', ks) -> evicts m ks c'.
Proof.
  induction rounds as [|[draws now] rounds IH]; intros c m c' ks Hr H; cbn [evict_lru] in H; case_match;
    try (by injection H as <- <-; apply evicts_none); try done.
  destruct (KeyEvictionLruHelper c draws) as [[c1 k1]|] eqn:Eh; [|done]. cbn [mbind option_bind] in H.
  assert (forall ks', evicts (del_fields m k1 0).1 ks' c' -> evicts m (k1 ++ ks') c') as Hcons.
  { destruct (helper_evicts c m draws c1 k1 Hr Eh) as [[-> _]|(k & -> & Hk & _)]; [done|]. intros ks' H'. by apply evicts_more. }
  assert (kv_repr c1 (del_fields m k1 0).1) as Hr1.
  { by destruct (helper_evicts c m draws c1 k1 Hr Eh) as [[-> Hr1]|(k & -> & _ & Hr1)]. }
  destruct (_ >? _).
  - injection H as <- <-. rewrite <- (app_nil_r k1). by apply Hcons, evicts_none.
  - destruct (evict_lru c1 _ _ _ rounds) as [[c2 k2]|] eqn:E2; [|done]. injection H as <- <-. apply Hcons. by eapply IH.
Qed.

(** ** It ends *)

Lemma candidates_some c draws : Forall (λ i, i < length (keys_pool_ c))%nat draws -> draws <> [] ->
  exists k ks, candidates c draws = Some (k :: ks) /\ Forall (λ k, exists i, keys_pool_ c !! i = Some k) (k :: ks).
Proof.
  intros Hd Hne. assert (exists cs, candidates c draws = Some cs) as [cs Ecs].
  { unfold candidates. clear Hne. match goal with |- context [foldl ?f (Some []) draws] =>
      assert (forall acc, exists cs, foldl f (Some acc) draws = Some cs) as H; [|apply H] end.
    induction Hd as [|i draws Hi Hd IH]; intros acc; [by eexists|].
    cbn [foldl]. destruct (lookup_lt_is_Some_2 _ _ Hi) as [k ->]. cbn [mbind option_bind]. apply IH. }
  pose proof (candidates_spec c draws cs Ecs) as H. destruct cs as [|k ks].
  - exfalso. destruct draws as [|i draws]; [done|]. inversion Hd as [|? ? Hi _]; subst.
    destruct (lookup_lt_is_Some_2 _ _ Hi) as [k Hk]. assert (k ∈ []) as Hin by (apply H; exists i; split; [left|done]).
    by apply elem_of_nil in Hin.
  - exists k, ks. split; [done|]. apply Forall_forall. intros k' Hk'. apply H in Hk' as (i & _ & Hi). by exists i.
Qed.

Lemma min_lv_some c ks : forall k, Forall (λ k, is_Some (lv_time c k)) (k :: ks) -> exists min, min_lv c k ks = Some min.
Proof.
  induction ks as [|k' ks IH]; intros k H; [by eexists|]. cbn [min_lv]. inversion H as [|? ? [tb Etb] H']; subst.
  inversion H' as [|? ? [t Et] H'']; subst. rewrite Et, Etb. cbn [mbind option_bind]. apply IH.
  constructor; [destruct (t <? tb)|done]; by eexists.
Qed.

Lemma helper_some c m draws : kv_repr c m -> m <> ∅ -> length draws = 10%nat -> Forall (λ i, i < size m)%nat draws ->
  exists c' k, KeyEvictionLruHelper c draws = Some (c', [k]) /\ is_Some (m !! k) /\ kv_repr c' (delete k m).
Proof.
  intros Hr Hm Hl Hd. rewrite <- (pool_size c m Hr) in Hd.
  assert (keys_pool_ c <> []) as Ep.
  { intros E. apply Hm. apply map_size_empty_inv. by rewrite <- (pool_size c m Hr), E. }
  assert (exists c' ks, KeyEvictionLruHelper c draws = Some (c', ks)) as (c' & ks & E).
  { unfold KeyEvictionLruHelper. destruct (keys_pool_ c) as [|k0 pool] eqn:E0; [done|]. rewrite take_ge by lia.
    destruct (candidates_some c draws) as (k & ks & -> & Hks); [by rewrite E0|by destruct draws|]. cbn [mbind option_bind].
    destruct (min_lv_some c ks k) as [min ->].
    { eapply Forall_impl; [exact Hks|]. cbn. intros k' [i Hi]. by eapply pool_find. }
    cbn [mbind option_bind]. destruct (kv_Delete c min). by eexists _, _. }
  destruct (KeyEvictionLruHelper_least_recent c m draws c' ks Hr E Ep) as (k & -> & Hr' & (i & _ & Hi) & _).
  { rewrite take_ge by lia. by destruct draws. }
  exists c', k. split; [done|]. split; [by eapply pool_position|done].
Qed.

Lemma evict_lru_some num start nd rounds : forall c m, kv_repr c m -> rand_ok (size m) rounds ->
  exists c' ks, evict_lru c num start nd rounds = Some (c', ks).
Proof.
  induction rounds as [|[draws now] rounds IH]; intros c m Hr Hd; cbn [evict_lru]; case_bool_decide as Ep;
    try (by eexists _, _); rewrite <- (pool_size c m Hr) in Hd;
    (destruct (length (keys_pool_ c)) as [|n] eqn:En; [by apply nil_length_inv in En|]); cbn [rand_ok] in Hd; [done|].
  rewrite (pool_size c m Hr) in En. cbn [orb]. destruct (negb (nd <? num)); [by eexists _, _|]. destruct Hd as (Hl & Hd & Hds).
  destruct (helper_some c m draws Hr) as (c1 & k & -> & Hk & Hr1); [|done|by rewrite En|].
  { intros ->. by rewrite map_size_empty in En. }
  cbn [mbind option_bind]. destruct (_ >? _); [by eexists _, _|].
  destruct (IH c1 (delete k m) Hr1) as (c2 & ks & ->); [|cbn; by eexists _, _].
  replace (size (delete k m)) with n; [done|]. rewrite map_size_delete_Some by done. lia.
Qed.

(** ** The commands that an eviction leaves runnable *)

Lemma cmd_ok_sub m m' cmd : (forall k a, m' !! k = Some a -> m !! k = Some a) -> cmd_ok m cmd -> cmd_ok m' cmd.
Proof.
  intros Hs (Hc & Ho & Hx). split; [done|]. split.
  { intros o Eo. destruct (Ho o Eo) as [Ha Hk]. split; [done|]. intros a H. by apply Hk, Hs. }
  destruct cmd; try done.
  - pose proof (map_subseteq_size m' m (proj2 (map_subseteq_spec _ _) Hs)). cbn in *. lia.
  - destruct Hx as (H1 & H2 & Hr). split; [done|]. split; [done|]. intros l H. by apply Hr, Hs.
Qed.

Lemma deletes_sub {A} ks : forall (m : gmap (list ascii) A) n k a, (del_fields m ks n).1 !! k = Some a -> m !! k = Some a.
Proof.
  induction ks as [|k' ks IH]; intros m n k a H; [done|]. cbn [del_fields] in H. apply IH in H.
  by apply lookup_delete_Some in H as [_ H].
Qed.

Lemma clean_names m ks : clean_keys m -> Forall (λ k, is_Some (m !! k)) ks -> Key_std <$> ks = ks.
Proof. intros Hc H. induction H as [|k ks Hk Hks IH]; [done|]. cbn [fmap list_fmap]. by rewrite IH, Hc. Qed.

(** What [CDel] does with the keys of an eviction. *)
Lemma evicted_spec m ks c : clean_keys m -> evicts m ks c ->
  (cmd_spec m (CDel ks)).1.1 = (del_fields m ks 0).1 /\ (cmd_spec m (CDel ks)).2 = true.
Proof. intros Hc [Ht _ _]. cbn [cmd_spec]. rewrite (clean_names m ks Hc Ht). by destruct (del_fields m ks 0). Qed.

Lemma evicted_ok m ks : ks <> [] -> Z.of_nat (length ks) <= INT64_MAX -> cmd_ok m (CDel ks).
Proof. intros Hne Hl. by split. Qed.

(** ** A command after an eviction *)

(** The append-only file after the eviction: the deletion is appended to it, whatever [sync]
    says, after the writing has been switched on or off. *)
Definition evict_log (sync : bool) (ap : option AppendableFile) (ks : list (list ascii)) : option AppendableFile :=
  (λ a, aof_Append (SetAutoFlush a sync) (request (bs "del" :: ks))) <$> ap.

(** The eviction of [HandleCommand] under the LRU policy. *)
Lemma lazy_eviction_evicts env e m c1 ks : kv_repr (container_ e) m -> sEvictPolicy e = EVICTION_POLICY_LRU ->
  KeyEviction_env (lazy_draws env) (sEvictPolicy e) 16 (container_ e) = Some (c1, ks) -> evicts m ks c1.
Proof.
  intros Hr Hp H. rewrite Hp in H. unfold KeyEviction_env, KeyEviction in H. case_bool_decide.
  - injection H as <- <-. by apply evicts_none.
  - rewrite Z.eqb_refl in H. by eapply evict_lru_evicts.
Qed.

Lemma lazy_eviction_some env e m : kv_repr (container_ e) m -> sEvictPolicy e = EVICTION_POLICY_LRU ->
  rand_ok (size m) (dr_rounds (lazy_draws env)) ->
  exists c1 ks, KeyEviction_env (lazy_draws env) (sEvictPolicy e) 16 (container_ e) = Some (c1, ks).
Proof.
  intros Hr -> Hd. unfold KeyEviction_env, KeyEviction. case_bool_decide; [by eexists _, _|].
  rewrite Z.eqb_refl. by eapply evict_lru_some.
Qed.

Lemma HandleCommand_after_eviction env sync e m cmd word c1 ks :
  kv_repr (container_ e) m -> clean_keys m -> cmd_ok m cmd -> sEvictPolicy e = EVICTION_POLICY_LRU ->
  IfNeedKeyEviction env e = true ->
  KeyEviction_env (lazy_draws env) (sEvictPolicy e) 16 (container_ e) = Some (c1, ks) -> tolower <$> word = opcode cmd ->
  let m1 := (cmd_spec m (CDel ks)).1.1 in
  exists c' reply, (forall sv sess, HandleCommand env sync e sv sess (request (word :: operands cmd)) =
      Some (with_data c' (log_after sync (evict_log sync (appending_ e) ks) cmd (cmd_spec m1 cmd).2) e, sv, reply)) /\
    cmd_ok m1 cmd /\ kv_repr c' (cmd_spec m1 cmd).1.1 /\ renders (cmd_spec m1 cmd).1.2 reply.
Proof.
  intros Hr Hc Hok Hp He Hev Hw. cbv zeta. pose proof (lazy_eviction_evicts env e m c1 ks Hr Hp Hev) as H.
  destruct (evicted_spec m ks c1 Hc H) as [-> _]. set (m1 := (del_fields m ks 0).1).
  assert (cmd_ok m1 cmd) as Hok1 by (eapply cmd_ok_sub; [|exact Hok]; intros k a; apply deletes_sub).
  destruct (HandleCommand_runs env sync e (with_data c1 (evict_log sync (appending_ e) ks) e) m1 cmd word)
    as (c' & reply & Hh & Hr' & Hrep); [|exact (ev_repr m ks c1 H)|done|done|].
  { unfold lazy_eviction. change (IfNeedKeyEviction env (with_data _ _ e)) with (IfNeedKeyEviction env e). rewrite He.
    change (sEvictPolicy (with_data _ _ e)) with (sEvictPolicy e). change (container_ (with_data ?c _ e)) with c. rewrite Hev.
    cbn [mbind option_bind]. unfold evict_log. by destruct (appending_ e). }
  exists c', reply. split; [|by split]. intros sv sess. rewrite Hh. unfold log_after, evict_log.
  by destruct (appending_ e) as [a|]; [|done]; cbn [with_data appending_ fmap option_fmap option_map];
    unfold SetAutoFlush, aof_Append, Switch; cbn; destruct (_ >=? _).
Qed.

(** Something is evicted if there is anything. *)
Lemma lazy_eviction_nonempty env e m c1 ks : kv_repr (container_ e) m -> sEvictPolicy e = EVICTION_POLICY_LRU -> m <> ∅ ->
  rand_ok (size m) (dr_rounds (lazy_draws env)) ->
  KeyEviction_env (lazy_draws env) (sEvictPolicy e) 16 (container_ e) = Some (c1, ks) -> ks <> [].
Proof.
  intros Hr -> Hm Hd H. unfold KeyEviction_env, KeyEviction, KeyEvictionLru in H. rewrite Z.eqb_refl in H.
  assert (keys_pool_ (container_ e) <> []) as Ep.
  { intros E. apply Hm. apply map_size_empty_inv. by rewrite <- (pool_size _ m Hr), E. }
  rewrite (bool_decide_false (keys_pool_ (container_ e) = [])) in H by done.
  destruct (size m) as [|n] eqn:En; [by apply map_size_empty_inv in En|].
  destruct (dr_rounds (lazy_draws env)) as [|[draws now] rounds]; [done|]. destruct Hd as (Hl & Hd & _).
  cbn [evict_lru] in H. rewrite bool_decide_false in H by done. cbn [orb negb Z.ltb Z.compare] in H.
  destruct (helper_some _ m draws Hr Hm Hl) as (c2 & k & E & _); [by rewrite En|]. rewrite E in H. cbn [mbind option_bind] in H.
  destruct (_ >? _); [by injection H as _ <-|]. by destruct (evict_lru c2 _ _ _ rounds) as [[c3 k3]|]; [injection H as _ <-|].
Qed.

(** C4. A command that finds too much memory in use, under the LRU policy. However the random
    draws fall and however the clock goes, the eviction ends, and the command behaves as if the
    client had sent [del ks] just before it, for some keys that were there, at least one if
    there was any: the container, the reply and the append-only file are those of the two
    commands, and everything else stays. *)
Theorem eviction_is_a_deletion (env : Env) (sync : bool) (e : Engine) (sv : Server) (sess : option (list ascii))
    (m : astore) (cmd : command) (word : list ascii) :
  kv_repr (container_ e) m -> clean_keys m -> cmd_ok m cmd -> sEvictPolicy e = EVICTION_POLICY_LRU ->
  IfNeedKeyEviction env e = true -> rand_ok (size m) (dr_rounds (lazy_draws env)) -> tolower <$> word = opcode cmd ->
  exists ks c' reply, NoDup ks /\ Forall (λ k, is_Some (m !! k)) ks /\ (m <> ∅ -> ks <> []) /\
    let m1 := (cmd_spec m (CDel ks)).1.1 in
    HandleCommand env sync e sv sess (request (word :: operands cmd)) =
      Some (with_data c' (log_after sync (evict_log sync (appending_ e) ks) cmd (cmd_spec m1 cmd).2) e, sv, reply) /\
    kv_repr c' (spec_run m [CDel ks; cmd]).1 /\ renders (cmd_spec m1 cmd).1.2 reply.
Proof.
  intros Hr Hc Hok Hp He Hd Hw. destruct (lazy_eviction_some env e m Hr Hp Hd) as (c1 & ks & Hev).
  destruct (HandleCommand_after_eviction env sync e m cmd word c1 ks Hr Hc Hok Hp He Hev Hw) as (c' & reply & Hh & _ & Hr' & Hrep).
  destruct (lazy_eviction_evicts env e m c1 ks Hr Hp Hev) as [Ht Ho _]. exists ks, c', reply.
  split; [done|]. split; [done|]. split; [intros Hm; by eapply lazy_eviction_nonempty|]. split; [apply Hh|]. split; [|done].
  cbn [spec_run]. destruct (cmd_spec m (CDel ks)) as [[m1 r1] b1]. cbn [fst] in *. by destruct (cmd_spec m1 cmd) as [[m2 r2] b2].
Qed.

(** *** Witness: two keys, the memory is exceeded, and the clock runs out after one key *)

Definition two_keys : KVContainer := (SetInt 3 (SetInt 1 KVContainer_new (bs "a") 1).1 (bs "b") 2).1.
Definition two_keys_store : astore := <[bs "b" := AInt 2]> (<[bs "a" := AInt 1]> ∅).

Lemma two_keys_repr : kv_repr two_keys two_keys_store.
Proof.
  apply SetInt_refines; [apply SetInt_refines; [apply KVContainer_new_repr|]|]; unfold in_i64, INT64_MIN, INT64_MAX; lia.
Qed.

Definition full_env : Env :=
  mkEnv 1000 1 1 2000000 (mkDraws [] 0 [(replicate 10 0%nat, 30); (replicate 10 0%nat, 40)]) (mkDraws [] 0 []) [] false.

Definition full_engine : Engine :=
  with_data two_keys (Some (AppendableFile_new [] 16 true)) (Engine_new EVICTION_POLICY_LRU 1000000).

Lemma eviction_is_a_deletion_witness : exists ks c' reply, ks <> [] /\ Forall (λ k, is_Some (two_keys_store !! k)) ks /\
  HandleCommand full_env true full_engine no_server None (request [bs "get"; bs "b"]) =
    Some (with_data c' (log_after true (evict_log true (appending_ full_engine) ks) (CGet (bs "b")) false) full_engine,
      no_server, reply) /\
  kv_repr c' (spec_run two_keys_store [CDel ks; CGet (bs "b")]).1.
Proof.
  destruct (eviction_is_a_deletion full_env true full_engine no_server None two_keys_store (CGet (bs "b")) (bs "get"))
    as (ks & c' & reply & _ & Ht & Hne & H & Hr & _); [exact two_keys_repr| | |by vm_compute|by vm_compute| |by vm_compute|].
  - intros k Hk. unfold two_keys_store in Hk. rewrite !lookup_insert_is_Some, lookup_empty in Hk.
    destruct Hk as [<-|[_ [<-|[_ [? ?]]]]]; by vm_compute.
  - split; [done|]. split; [|done]. intros o [= <-]. split; [by vm_compute|]. cbn [op_key]. intros a Ha. by vm_compute in Ha; simplify_eq.
  - split; [done|]. split; [by repeat constructor|]. split; [done|]. split; [by repeat constructor|done].
  - exists ks, c', reply. split; [by apply Hne|]. split; [exact Ht|]. split; [exact H|exact Hr].
Defined.

(** Nothing is evicted from an empty store, and this is logged: [del] without keys. *)
Lemma empty_eviction_logged env e a : kv_repr (container_ e) ∅ -> IfNeedKeyEviction env e = true -> appending_ e = Some a ->
  lazy_eviction env e = Some (with_data (container_ e) (Some (aof_Append a (request [bs "del"]))) e).
Proof.
  intros Hr He Ha. unfold lazy_eviction. rewrite He. unfold KeyEviction_env, KeyEviction.
  rewrite bool_decide_true; [by rewrite Ha|]. apply nil_length_inv. by rewrite (pool_size _ ∅ Hr).
Qed.

Lemma empty_eviction_logged_witness :
  let e := with_data KVContainer_new (Some (AppendableFile_new [] 16 true)) (Engine_new EVICTION_POLICY_LRU 1000000) in
  lazy_eviction full_env e = Some (with_data KVContainer_new (Some (mkAof [] 16 [request [bs "del"]] [] true false)) e).
Proof.
  cbv zeta. by rewrite (empty_eviction_logged full_env (with_data KVContainer_new (Some (AppendableFile_new [] 16 true)) (Engine_new EVICTION_POLICY_LRU 1000000))
    (AppendableFile_new [] 16 true) KVContainer_new_repr eq_refl eq_refl).
Defined.

(** ** The command [evict] *)

Lemma PackIntReply_count ks : Z.of_nat (length (A := list ascii) ks) < 2 ^ 31 - 1 ->
  PackIntReply (i32 (Z.of_nat (length (bs "del" :: ks))) - 1) = PackIntReply (Z.of_nat (length ks)).
Proof. intros H. cbn [length]. rewrite i32_small by (unfold in_i32, INT32_MIN, INT32_MAX; lia). f_equal. lia. Qed.

(** A client's [evict n], for a positive [n] under the LRU policy: some keys are deleted, at
    least one if there is any, the deletion is logged and the reply is their number. *)
Lemma EvictCommand_deletes (env : Env) (e : Engine) (m : astore) (a : AppendableFile) (n : Z) :
  kv_repr (container_ e) m -> sEvictPolicy e = EVICTION_POLICY_LRU -> appending_ e = Some a -> 1 <= n <= INT64_MAX ->
  rand_ok (size m) (dr_rounds (evict_draws env)) -> Z.of_nat (size m) < 2 ^ 31 - 1 ->
  exists c ks, evicts m ks c /\
    EvictCommand env e (request [bs "evict"; to_string n]) true =
      Some (with_data c (Some (aof_Append a (request (bs "del" :: ks)))) e, PackIntReply (Z.of_nat (length ks))).
Proof.
  intros Hr Hp Ha Hn Hd Hm. unfold EvictCommand.
  change (CheckSyntax (request [bs "evict"; to_string n]) 1 0 false) with true.
  cbn [argv request lookup list_lookup mbind option_bind].
  rewrite CanConvertToUInt64_to_string by (unfold in_u64, UINT64_MAX, INT64_MAX in *; lia).
  destruct (evict_lru_some n (dr_start (evict_draws env)) 0 (dr_rounds (evict_draws env)) (container_ e) m Hr Hd) as (c & ks & Hev).
  pose proof (evict_lru_evicts n _ 0 _ (container_ e) m c ks Hr Hev) as H. exists c, ks. split; [done|].
  assert (KeyEviction_env (evict_draws env) (sEvictPolicy e) n (container_ e) = Some (c, ks)) as ->.
  { rewrite Hp. unfold KeyEviction_env, KeyEviction. rewrite Z.eqb_refl. case_bool_decide as E; [|exact Hev].
    rewrite <- Hev. destruct (dr_rounds (evict_draws env)); cbn [evict_lru]; by rewrite bool_decide_true. }
  cbn [mbind option_bind]. rewrite Ha. rewrite PackIntReply_count; [done|].
  assert (length ks <= size m)%nat; [|lia]. rewrite <- (size_dom m). destruct H as [Ht Ho _].
  rewrite <- (size_list_to_set (C := gset (list ascii)) ks) by done. apply subseteq_size. intros k Hk.
  rewrite elem_of_list_to_set in Hk. apply elem_of_dom. rewrite Forall_forall in Ht. by apply Ht.
Qed.

Lemma EvictCommand_deletes_witness : exists c ks, evicts two_keys_store ks c /\
  EvictCommand (mkEnv 1000 1 1 0 (mkDraws [] 0 []) (mkDraws [] 0 [(replicate 10 0%nat, 30); (replicate 10 0%nat, 40)]) [] false)
    full_engine (request [bs "evict"; bs "1"]) true =
    Some (with_data c (Some (aof_Append (AppendableFile_new [] 16 true) (request (bs "del" :: ks)))) full_engine,
      PackIntReply (Z.of_nat (length ks))).
Proof.
  apply (EvictCommand_deletes _ full_engine two_keys_store (AppendableFile_new [] 16 true) 1); [exact two_keys_repr|done|done|done| |done].
  split; [done|]. split; [by repeat constructor|]. split; [done|]. split; [by repeat constructor|done].
Defined.
