(* ===== verification/Recovery.v ===== *)
(** * Recovery: the data outlives the process

    The engine with its append-only file, as commands are served and the worker
    writes, access by access ([live]), and [RestoreFromAppendableFile], which runs the file's commands
    on a new engine. *)

From S2P Require Import Prelude Encoding Numerals Str Buffer Protocol Core CoreSpec CoreFacts TimeEvent Server Persistence PersistenceFacts AofThreads Commands CommandsSpec CommandsFacts EngineFacts Eviction.
From stdpp Require Import list fin_maps.

Local Open Scope Z_scope.

(** ** The logged commands *)

Definition store_after (cmds : list command) : astore := (spec_run ∅ cmds).1.

(** The commands of a run that are logged. *)
Fixpoint log_of (m : astore) (cmds : list command) : list command :=
  match cmds with
  | [] => []
  | cmd :: cmds =>
      (if (cmd_spec m cmd).2 then [cmd] else []) ++ log_of (cmd_spec m cmd).1.1 cmds
  end.

Definition logged_request (cmd : command) : CommandCache := request (cmd_args cmd).

(** The command pops an empty string, for which the engine answers as if there were
    nothing to pop. *)
Definition pops_empty (m : astore) (cmd : command) : Prop :=
  exists (lf : bool) key l, cmd = CPop lf key /\ m !! Key_std key = Some (AList l) /\
    (if lf then head l else last l) = Some [].

Fixpoint no_empty_pops (m : astore) (cmds : list command) : Prop :=
  match cmds with
  | [] => True
  | cmd :: cmds => ~ pops_empty m cmd /\ no_empty_pops (cmd_spec m cmd).1.1 cmds
  end.

Lemma query_same {A : Type} (m : astore) (key : list ascii) (view : aval -> option A) (r : areply) (f : A -> areply) :
  (query m key view r f).1.1 = m.
Proof. done. Qed.

Lemma modify_unlogged {A : Type} (m : astore) (key : list ascii) (view : aval -> option A) (x : A)
    (f : A -> aval * areply) : (modify m key view x f).2 = false -> (modify m key view x f).1.1 = m.
Proof. unfold modify. destruct (m !! Key_std key) as [a|]; [|done]. by destruct (view a). Qed.

Lemma add_to_unlogged (m : astore) (key : list ascii) (n : Z) :
  (add_to m key n).2 = false -> (add_to m key n).1.1 = m.
Proof. unfold add_to. destruct (m !! Key_std key) as [[]|]; [|done..]. by case_match. Qed.

(** A command that is not logged left the store as it was, unless it popped an
    empty string. *)
Lemma unlogged_same (m : astore) (cmd : command) : (cmd_spec m cmd).2 = false -> ~ pops_empty m cmd ->
  (cmd_spec m cmd).1.1 = m.
Proof.
  intros Hl Hp. destruct cmd; cbn [cmd_spec] in *; try done;
    try (by apply modify_unlogged in Hl); try (by apply add_to_unlogged in Hl); try (by destruct (del_fields _ _ _));
    try (by case_match; [|apply add_to_unlogged]);
    destruct (m !! Key_std key) as [a|] eqn:E; cbn [fst snd] in *; try done.
  - destruct a as [|?|l| |]; try done. cbn [v_list] in *. destruct (if lf then head l else last l) as [x|] eqn:Ex; [|done].
    cbn [fst snd] in *. case_decide; [|done]. subst x. destruct Hp. by exists lf, key, l.
  - destruct (v_list a); [|done]. case_match; [done|]. by case_match.
  - destruct (v_dict a) as [d|]; [|done]. by destruct (del_fields _ _ _).
  - destruct (v_set a) as [s|]; [|done]. by destruct (del_members _ _ _).
Qed.

Lemma spec_run_app (a b : list command) : forall m, (spec_run m (a ++ b)).1 = (spec_run (spec_run m a).1 b).1.
Proof.
  induction a as [|cmd a IH]; intros m; [done|]. cbn [spec_run app]. destruct (cmd_spec m cmd) as [[m' r] l].
  specialize (IH m'). destruct (spec_run m' (a ++ b)), (spec_run m' a). exact IH.
Qed.

Lemma log_of_app (a b : list command) : forall m, log_of m (a ++ b) = log_of m a ++ log_of (spec_run m a).1 b.
Proof.
  induction a as [|cmd a IH]; intros m; [done|]. cbn [spec_run app log_of]. rewrite IH, app_assoc.
  destruct (cmd_spec m cmd) as [[m' r] l]. cbn [fst snd]. by destruct (spec_run m' a).
Qed.

Lemma spec_run_cons (m : astore) (cmd : command) (cmds : list command) :
  (spec_run m (cmd :: cmds)).1 = (spec_run (cmd_spec m cmd).1.1 cmds).1.
Proof.
  cbn [spec_run]. destruct (cmd_spec m cmd) as [[m' r] l]. cbn [fst]. by destruct (spec_run m' cmds).
Qed.

Lemma cmds_ok_app (a b : list command) : forall m, cmds_ok m (a ++ b) <-> cmds_ok m a /\ cmds_ok (spec_run m a).1 b.
Proof.
  induction a as [|cmd a IH]; intros m; [cbn; tauto|]. rewrite spec_run_cons. cbn [cmds_ok app]. rewrite IH. tauto.
Qed.

Lemma no_empty_pops_app (a b : list command) : forall m,
  no_empty_pops m (a ++ b) <-> no_empty_pops m a /\ no_empty_pops (spec_run m a).1 b.
Proof.
  induction a as [|cmd a IH]; intros m; [cbn; tauto|]. rewrite spec_run_cons. cbn [no_empty_pops app]. rewrite IH. tauto.
Qed.

(** Running the logged commands alone gives the same store. *)
Lemma log_replays (cmds : list command) : forall m, no_empty_pops m cmds -> cmds_ok m cmds ->
  (spec_run m (log_of m cmds)).1 = (spec_run m cmds).1 /\ cmds_ok m (log_of m cmds).
Proof.
  induction cmds as [|cmd cmds IH]; intros m Hp Hok; [done|]. destruct Hp as [Hp1 Hp], Hok as [Hok1 Hok].
  destruct (IH _ Hp Hok) as [E Hok']. rewrite spec_run_cons. cbn [log_of].
  destruct (cmd_spec m cmd).2 eqn:El; cbn [app].
  - rewrite spec_run_cons. split; [exact E|by split].
  - rewrite (unlogged_same m cmd El Hp1) in *. by split.
Qed.

(** A part of the log that was written first is the log of the commands up to some
    point. *)
Lemma log_prefix (cmds : list command) : forall m done', done' `prefix_of` log_of m cmds ->
  exists served, served `prefix_of` cmds /\ log_of m served = done'.
Proof.
  induction cmds as [|cmd cmds IH]; intros m done' Hd; cbn [log_of] in Hd.
  { apply prefix_nil_inv in Hd as ->. by exists []. }
  destruct (cmd_spec m cmd).2 eqn:El; cbn [app] in Hd.
  - destruct done' as [|c d]; [exists []; split; [apply prefix_nil|done]|].
    apply prefix_cons_inv_1 in Hd as Hc. subst c. apply prefix_cons_inv_2 in Hd.
    destruct (IH _ _ Hd) as (served & Hs & <-). exists (cmd :: served). split; [by apply prefix_cons|].
    cbn [log_of]. by rewrite El.
  - destruct (IH _ _ Hd) as (served & Hs & <-). exists (cmd :: served). split; [by apply prefix_cons|].
    cbn [log_of]. by rewrite El.
Qed.

(** ** The engine and its file *)

(** A command calls [Append] on the file object, which the worker uses at the same time. What
    it hands over is what a file object would hold whose caches never fill up. *)
Definition recorder : AppendableFile := AppendableFile_new [] INT64_MAX true.

Definition recording (e : Engine) : Engine := with_data (container_ e) (Some recorder) e.

Definition handed (e : Engine) : list CommandCache := match appending_ e with Some a => cur_caches_ a | None => [] end.

(** The engine, the commands its last command has still to hand to [Append], and the threads
    of the file object. *)
Record logging := mkLogging { lg_engine : Engine; lg_todo : list CommandCache; lg_threads : threads }.

(** What becomes of these when a thread takes a step: a call of [Append] takes the first. *)
Definition hand_over (l : event) (todo : list CommandCache) : option (list CommandCache) :=
  match l, todo with
  | TCall c, c' :: todo => if decide (c = c') then Some todo else None
  | TCall _, [] => None
  | _, _ => Some todo
  end.

(** An engine with the commands its data has come from. It starts on a file that holds their
    log (on an empty one, when there are none). It serves the next command when the last one is
    done; when memory runs short, the engine, which follows the LRU policy, evicts keys before
    the command: a [del] among the commands. In between, the serving thread and the worker, and
    a SIGINT, take their steps in any order, access by access, up to the end of the destructor;
    no [push_back] falls into the worker's writing and [Switch] finds one cache empty
    ([orderly]). *)
Inductive live (max : Z) : logging -> list command -> Prop :=
  | live_start e cmds :
      kv_repr (container_ e) (store_after cmds) -> cmds_ok ∅ cmds -> no_empty_pops ∅ cmds ->
      live max (mkLogging e [] (threads_init (print_all (logged_request <$> log_of ∅ cmds)) max)) cmds
  | live_command e t cmds env cmd word sv sess e' sv' reply :
      live max (mkLogging e [] t) cmds -> th_serving t = ORun ->
      cmd_ok (store_after cmds) cmd -> ~ pops_empty (store_after cmds) cmd ->
      IfNeedKeyEviction env e = false -> tolower <$> word = opcode cmd ->
      HandleCommand env true (recording e) sv sess (request (word :: operands cmd)) = Some (e', sv', reply) ->
      live max (mkLogging e' (handed e') t) (cmds ++ [cmd])
  | live_evict e t cmds env ks c1 cmd word sv sess e' sv' reply :
      live max (mkLogging e [] t) cmds -> th_serving t = ORun -> sEvictPolicy e = EVICTION_POLICY_LRU ->
      IfNeedKeyEviction env e = true ->
      KeyEviction_env (lazy_draws env) (sEvictPolicy e) 16 (container_ e) = Some (c1, ks) ->
      ks <> [] -> Z.of_nat (length ks) <= INT64_MAX ->
      cmd_ok (store_after cmds) cmd -> ~ pops_empty (store_after (cmds ++ [CDel ks])) cmd ->
      tolower <$> word = opcode cmd ->
      HandleCommand env true (recording e) sv sess (request (word :: operands cmd)) = Some (e', sv', reply) ->
      live max (mkLogging e' (handed e') t) (cmds ++ [CDel ks; cmd])
  | live_step e todo t cmds l t' todo' :
      live max (mkLogging e todo t) cmds -> t_step t l t' -> orderly t l -> hand_over l todo = Some todo' ->
      th_serving t' <> DDone ->
      live max (mkLogging e todo' t') cmds.

(** The command that is being put away. *)
Definition in_flight (o : serving_pc) : list CommandCache :=
  match o with
  | OSize c | OLock c | OSwap c | OUnlock c | OLoad c | OPush c _ => [c]
  | _ => []
  end.

(** What holds of a live engine: what was put away, then the command that is being put away,
    then those to come, is the log; a SIGINT drops the latter two. *)
Record live_ok (s : logging) (cmds : list command) : Prop := {
  lo_repr : kv_repr (container_ (lg_engine s)) (store_after cmds);
  lo_ok : cmds_ok ∅ cmds;
  lo_pops : no_empty_pops ∅ cmds;
  lo_log : exists log dropped, sound [] log (lg_threads s) /\
    log ++ in_flight (th_serving (lg_threads s)) ++ dropped = logged_request <$> log_of ∅ cmds /\
    (serving (th_serving (lg_threads s)) = true -> dropped = lg_todo s)
}.

Lemma store_after_snoc cmds cmd : store_after (cmds ++ [cmd]) = (cmd_spec (store_after cmds) cmd).1.1.
Proof. unfold store_after. by rewrite spec_run_app, spec_run_cons. Qed.

Lemma store_after_clean cmds : clean_keys (store_after cmds).
Proof. apply spec_run_clean, clean_empty. Qed.

(** The commands with one more. *)
Lemma ok_snoc cmds cmd : cmds_ok ∅ cmds -> no_empty_pops ∅ cmds -> cmd_ok (store_after cmds) cmd ->
  ~ pops_empty (store_after cmds) cmd -> cmds_ok ∅ (cmds ++ [cmd]) /\ no_empty_pops ∅ (cmds ++ [cmd]).
Proof. intros Hok Hp Hok1 Hp1. rewrite cmds_ok_app, no_empty_pops_app. split; (split; [done|by split]). Qed.

Lemma log_of_snoc cmds cmd : logged_request <$> log_of ∅ (cmds ++ [cmd]) =
  (logged_request <$> log_of ∅ cmds) ++ (if (cmd_spec (store_after cmds) cmd).2 then [logged_request cmd] else []).
Proof. rewrite log_of_app, fmap_app. f_equal. cbn [log_of]. unfold store_after. by destruct (cmd_spec _ cmd).2. Qed.

(** What a command hands over, without and with an eviction. *)
Lemma handed_command c cmd (b : bool) e :
  handed (with_data c (log_after true (Some recorder) cmd b) e) = if b then [logged_request cmd] else [].
Proof. by destruct b. Qed.

Lemma handed_evict c ks cmd (b : bool) e :
  handed (with_data c (log_after true (evict_log true (Some recorder) ks) cmd b) e) =
    logged_request (CDel ks) :: if b then [logged_request cmd] else [].
Proof. by destruct b. Qed.

(** A step of the threads. *)
Lemma step_log t l t' todo todo' : t_step t l t' -> hand_over l todo = Some todo' -> serving (th_serving t') = true ->
  pushed [l] ++ in_flight (th_serving t') ++ todo' = in_flight (th_serving t) ++ todo.
Proof.
  intros Hst Hh Hs. destruct Hst; cbn [hand_over] in Hh; cbn [th_serving in_flight pushed mbind list_bind app] in *;
    try (injection Hh as <-); try done; try (by case_match).
  - destruct todo as [|c' todo]; [done|]. case_decide; [|done]. injection Hh as <-. by subst.
Qed.

Lemma step_serving t l t' : t_step t l t' -> th_serving t' <> DDone -> serving (th_serving t) = false ->
  serving (th_serving t') = false /\ in_flight (th_serving t') = [] /\ in_flight (th_serving t) = [] /\ pushed [l] = [].
Proof. intros Hst Hd Hs. destruct Hst; cbn in *; try done; try congruence; try (by destruct o). by destruct opened, o. Qed.

Lemma step_sigint t l t' : t_step t l t' -> th_serving t' <> DDone -> serving (th_serving t) = true -> serving (th_serving t') = false ->
  in_flight (th_serving t') = [] /\ pushed [l] = [].
Proof. intros Hst Hd Hs Hs'. destruct Hst; cbn in *; try done; try (by case_match); try congruence. destruct opened; cbn in *; congruence. Qed.

Lemma live_ok_step e todo t cmds l t' todo' : live_ok (mkLogging e todo t) cmds -> t_step t l t' -> orderly t l ->
  hand_over l todo = Some todo' -> th_serving t' <> DDone -> live_ok (mkLogging e todo' t') cmds.
Proof.
  intros [Hr Hok Hp (log & dropped & Hs & Hl & Hd)] Hst Ho Hh Hne. cbn [lg_engine lg_todo lg_threads] in *. split; [done..|].
  cbn [lg_threads lg_todo]. exists (log ++ pushed [l]). pose proof (sound_step [] log t l t' Hs Ho Hst Hne) as Hs'.
  destruct (serving (th_serving t)) eqn:Es; [rewrite (Hd eq_refl) in Hl; destruct (serving (th_serving t')) eqn:Es'|].
  - exists todo'. split; [done|]. split; [|done]. rewrite <- Hl, <- app_assoc. f_equal. by apply step_log.
  - destruct (step_sigint t l t' Hst Hne Es Es') as [-> Ep]. exists (in_flight (th_serving t) ++ todo). rewrite Ep, app_nil_r in *. by split.
  - destruct (step_serving t l t' Hst Hne Es) as (Es' & -> & E & Ep). rewrite E in Hl. rewrite Ep, app_nil_r in *.
    exists dropped. split; [done|]. split; [done|]. congruence.
Qed.

Lemma live_invariant (max : Z) (s : logging) (cmds : list command) : live max s cmds -> live_ok s cmds.
Proof.
  intros H. induction H as [e cmds Hr Hok Hp
    |e t cmds env cmd word sv sess e' sv' reply H [Hr Hok Hp (log & dropped & Hs & Hl & Hd)] Ho Hok1 Hp1 He Hw Hh
    |e t cmds env ks c1 cmd word sv sess e' sv' reply H [Hr Hok Hp (log & dropped & Hs & Hl & Hd)] Ho Hpol He Hev Hne Hlen Hok1 Hp1 Hw Hh
    |e todo t cmds l t' todo' H IH Hst Ho Hh Hd]; cbn [lg_engine lg_todo lg_threads] in *.
  - split; [done..|]. eexists _, []. split; [|split; [by rewrite app_nil_r|done]]. cbn [lg_threads].
    split; [|done..]. eexists. split; [done|]. cbn. by rewrite !app_nil_r.
  - rewrite Ho in *. specialize (Hd eq_refl) as ->. cbn [in_flight app] in Hl. rewrite app_nil_r in Hl.
    destruct (HandleCommand_serves env true (recording e) _ cmd word Hr Hok1 He Hw) as (e1 & reply1 & Hh1 & Ee & Hr1 & _).
    rewrite Hh1 in Hh. injection Hh as <- <- <-. destruct (ok_snoc cmds cmd Hok Hp Hok1 Hp1). split; cbn [lg_engine lg_todo lg_threads]; [|done..|].
    + rewrite store_after_snoc. exact Hr1.
    + exists log, (handed e1). split; [done|]. split; [|done]. rewrite Ho, log_of_snoc, Hl, Ee. cbn [in_flight app]. f_equal.
      apply handed_command.
  - rewrite Ho in *. specialize (Hd eq_refl) as ->. cbn [in_flight app] in Hl. rewrite app_nil_r in Hl.
    pose proof (store_after_clean cmds) as Hclean.
    pose proof (lazy_eviction_evicts env e _ c1 ks Hr Hpol Hev) as Hevicts.
    destruct (HandleCommand_after_eviction env true (recording e) _ cmd word c1 ks Hr Hclean Hok1 Hpol He Hev Hw)
      as (c' & reply1 & Hh1 & Hok2 & Hr1 & _). rewrite <- store_after_snoc in *.
    rewrite Hh1 in Hh. injection Hh as <- <- <-.
    destruct (ok_snoc cmds (CDel ks) Hok Hp) as [Hokd Hpd]; [by apply evicted_ok|by intros (? & ? & ? & ? & _)|].
    destruct (ok_snoc (cmds ++ [CDel ks]) cmd Hokd Hpd Hok2 Hp1) as [Hok' Hp'].
    rewrite (app_assoc cmds [_] [_] : cmds ++ [CDel ks; cmd] = (cmds ++ [CDel ks]) ++ [cmd]). split; cbn [lg_engine lg_todo lg_threads]; [|done..|].
    + rewrite (store_after_snoc (_ ++ [_])). exact Hr1.
    + eexists log, _. split; [done|]. split; [|done]. rewrite Ho, !log_of_snoc, Hl, <- app_assoc. cbn [in_flight app]. f_equal.
      rewrite (proj2 (evicted_spec _ ks c1 Hclean Hevicts)). apply handed_evict.
  - by eapply live_ok_step.
Qed.

(** The file of a live engine: the first part of its log. *)
Definition aof_bytes (s : logging) : list ascii := sh_file (th_mem (lg_threads s)).

(** Nothing is on its way to the file. *)
Definition all_written (s : logging) : Prop :=
  lg_todo s = [] /\ th_serving (lg_threads s) = ORun /\ cache1_ (th_mem (lg_threads s)) = [] /\ cache2_ (th_mem (lg_threads s)) = [].

Lemma live_file max s cmds : live max s cmds ->
  exists written rest, aof_bytes s = print_all written /\ written ++ rest = logged_request <$> log_of ∅ cmds /\ (all_written s -> rest = []).
Proof.
  intros H. destruct (live_invariant max s cmds H) as [_ _ _ (log & dropped & [(written & Hf & Hl) _ _ _ _] & El & Hd)].
  eexists written, _. split; [exact Hf|]. rewrite <- Hl, <- app_assoc in El. split; [exact El|].
  intros (Et & Eo & E1 & E2). rewrite Eo in *. rewrite (Hd eq_refl), Et.
  assert (forall v, AofThreads.vec (th_mem (lg_threads s)) v = []) as Ev by (intros []; done).
  unfold cur, pending, backup. rewrite !Ev. by destruct (th_worker _).
Qed.

(** ** Restoring *)

Lemma replay_runs (envs : nat -> Env) (sv : Server) (a : AppendableFile) (cmds : list command) :
  forall (e : Engine) (i : nat) (m : astore),
  kv_repr (container_ e) m -> cmds_ok m cmds -> enough_memory envs e -> (exists on, appending_ e = Some (SetAutoFlush a on)) ->
  exists e' j, run_all (replay_command envs sv) (e, i) (cmd_args <$> cmds) = Some (e', j) /\
    kv_repr (container_ e') (spec_run m cmds).1 /\ exists on, appending_ e' = Some (SetAutoFlush a on).
Proof.
  induction cmds as [|cmd cmds IH]; intros e i m Hr Hok He Ha; [by exists e, i|]. destruct Hok as [Hok Hoks], Ha as [on Ha].
  destruct (HandleCommand_serves (envs i) false e m cmd (opcode cmd) Hr Hok (enough_memory_ok _ _ i He) (tolower_opcode cmd))
    as (e1 & reply & Hh & Ee & Hr1 & _).
  destruct (IH e1 (S i) _ Hr1 Hoks) as (e' & j & Hrun & Hr' & Ha').
  { rewrite Ee. exact He. }
  { exists false. rewrite Ee. cbn [appending_ with_data]. unfold log_after, AddIntoAppendableDirectly. rewrite Ha.
    by destruct (cmd_spec m cmd).2. }
  exists e', j. split; [|by rewrite spec_run_cons]. cbn [fmap list_fmap run_all].
  assert (replay_command envs sv (e, i) (request (cmd_args cmd)) = Some (e1, S i)) as ->; [|exact Hrun].
  unfold replay_command. cbn [fst snd]. by rewrite cmd_args_cons, Hh.
Qed.

(** A new engine and the file opened on what the old one left, which may have lost
    its end [t]. *)
Record reopened (max : Z) (left_over t : list ascii) (e : Engine) (a : AppendableFile) (chunks : list (list ascii))
  : Prop := {
  ro_repr : kv_repr (container_ e) ∅;
  ro_file : left_over = location_ a ++ t;
  ro_new : a = AppendableFile_new (location_ a) max true;
  ro_chunks : concat chunks = location_ a;
  ro_nonempty : Forall (λ p, p <> []) chunks;
  ro_room : room t chunks (Buffer_new 64) cache_Clear;
  ro_size : Z.of_nat (length left_over) <= INT64_MAX
}.

Lemma logged_file (cmds : list command) : print_all (logged_request <$> cmds) = file_of (cmd_args <$> cmds).
Proof. unfold file_of. by rewrite <- list_fmap_compose. Qed.

Lemma stuck_app R todo more : stuck R todo -> stuck R (todo ++ more).
Proof. intros [->|(args & cmds & q & -> & H)]; [by left|]. right. by exists args, (cmds ++ more), q. Qed.

(** What was written of the log, and then read back. *)
Lemma restore_log (max : Z) (log : list command) (t : list ascii) (envs : nat -> Env) (e : Engine) (sv : Server)
    (a : AppendableFile) (chunks : list (list ascii)) :
  cmds_ok ∅ log -> reopened max (print_all (logged_request <$> log)) t e a chunks -> enough_memory envs e ->
  exists ds todo R e' on, log = ds ++ todo /\
    location_ a = print_all (logged_request <$> ds) ++ R /\ stuck R (cmd_args <$> todo) /\ (t = [] -> todo = []) /\
    RestoreFromAppendableFile envs e sv (Some (a, chunks)) = Some (e', true) /\
    kv_repr (container_ e') (store_after ds) /\ appending_ e' = Some (SetAutoFlush a on).
Proof.
  intros Hok [Hr Hl Hm Hc Hne Hroom Hsize] He. rewrite logged_file in *.
  destruct (CommonOperation_cut (replay_command envs sv) (with_data (container_ e) (Some a) e, O) (cmd_args <$> log)
              chunks t ltac:(by rewrite Hc, Hl) Hne Hroom Hsize) as (ds & todo & R & E & Ec & Hs & Erun).
  apply fmap_app_inv in E as (ds' & todo' & -> & -> & ->). apply cmds_ok_app in Hok as [Hok _].
  destruct (replay_runs envs sv a ds' (with_data (container_ e) (Some a) e) O ∅ Hr Hok He) as (e' & j & Hrun & Hr' & on & Ha').
  { exists (auto_flush_ a). by destruct a. }
  exists ds', todo', R, e', on. split; [done|]. rewrite logged_file, <- Ec, Hc. do 2 (split; [done|]). split.
  - intros ->. rewrite app_nil_r, <- Hc, Ec, fmap_app, file_of_app in Hl. apply app_inv_head in Hl. subst R.
    destruct Hs as [Hs|(args & cmds & q & E & Hq & Eq)].
    + apply file_of_nil, fmap_nil_inv in Hs. done.
    + rewrite E, file_of_cons, <- app_assoc in Eq. apply (f_equal length) in Eq. rewrite !length_app in Eq.
      pose proof (length_pos _ Hq). lia.
  - unfold RestoreFromAppendableFile. rewrite Erun, Hrun. done.
Qed.

(** The recovered engine, and the part of the run it has, from any file that holds a first
    part [written] of the log. *)
Lemma recovery (max : Z) (cmds : list command) (written rest : list CommandCache) (envs : nat -> Env)
    (e0 : Engine) (sv : Server) (a0 : AppendableFile) (chunks : list (list ascii)) (t : list ascii) :
  cmds_ok ∅ cmds -> no_empty_pops ∅ cmds -> written ++ rest = logged_request <$> log_of ∅ cmds ->
  reopened max (print_all written) t e0 a0 chunks -> enough_memory envs e0 ->
  exists served later R e1 on, cmds = served ++ later /\
    location_ a0 = file_of (cmd_args <$> log_of ∅ served) ++ R /\
    stuck R (cmd_args <$> log_of (store_after served) later) /\
    RestoreFromAppendableFile envs e0 sv (Some (a0, chunks)) = Some (e1, true) /\
    kv_repr (container_ e1) (store_after served) /\ appending_ e1 = Some (SetAutoFlush a0 on) /\
    (t = [] -> location_ a0 = print_all (logged_request <$> log_of ∅ served) /\
      logged_request <$> log_of (store_after served) later = rest) /\
    (forall max, live max (mkLogging e1 [] (threads_init (print_all (logged_request <$> log_of ∅ served)) max)) served) /\
    (log_of (store_after served) later = [] -> store_after served = store_after cmds).
Proof.
  intros Hok Hp Hlog Hre He. destruct (log_replays cmds ∅ Hp Hok) as [Estore Hokl].
  pose proof Hlog as Elog. symmetry in Elog. apply fmap_app_inv in Elog as (done' & rest' & -> & -> & Elog).
  rewrite Elog in Hokl. apply cmds_ok_app in Hokl as [Hokd _].
  destruct (restore_log max done' t envs e0 sv a0 chunks Hokd Hre He)
    as (ds & todo & R & e1 & on & -> & Ef & Hs & Ht & Hrest & Hr1 & Ha1).
  destruct (log_prefix cmds ∅ ds) as (served & [later ->] & <-).
  { exists (todo ++ rest'). by rewrite Elog, app_assoc. }
  rewrite log_of_app, <- app_assoc in Elog. apply app_inv_head in Elog. fold (store_after served) in Elog.
  pose proof (proj1 (cmds_ok_app _ _ _) Hok) as [Hok' _]. pose proof (proj1 (no_empty_pops_app _ _ _) Hp) as [Hp' _].
  destruct (log_replays served ∅ Hp' Hok') as [El _]. unfold store_after in Hr1. rewrite El in Hr1.
  exists served, later, R, e1, on. split; [done|]. rewrite <- logged_file. split; [done|]. split.
  { rewrite Elog, fmap_app. by apply stuck_app. }
  do 3 (split; [done|]). split; [|split].
  - intros Et. specialize (Ht Et) as ->. split; [|by rewrite Elog].
    destruct Hre as [_ Hl _ _ _ _ _]. rewrite Et, !app_nil_r in Hl. symmetry. exact Hl.
  - intros max'. by apply live_start.
  - intros E0. rewrite log_of_app in Estore. fold (store_after served) in Estore. rewrite E0, app_nil_r, El in Estore. exact Estore.
Qed.

(** C5. Crash recovery. An engine that follows the LRU policy when memory runs short serves
    data commands and logs them; serving thread and worker are interleaved at every access to
    the file object, provided that no [push_back] falls between the worker's writing of that
    vector and its clearing, that [Switch] finds one of the caches empty (the worker keeps up),
    that every command is within its bounds ([cmd_ok]) and pops no empty string. Whenever this
    engine stops, at any access of either thread, and even if its file then loses its end at
    any byte, a new engine restored from what is left, read in pieces for which the buffer has
    room and without an eviction, has exactly the store as it was after some first part
    [served] of the commands: the part whose log the file holds, up to a cut request. When
    nothing of the file is lost the restored engine is live, with the same guarantee from then
    on; and when the worker had written everything its store is the one there was in the end. *)
Theorem crash_recovery (max : Z) (s : logging) (cmds : list command) (envs : nat -> Env)
    (e0 : Engine) (sv : Server) (a0 : AppendableFile) (chunks : list (list ascii)) (t : list ascii) :
  live max s cmds -> reopened max (aof_bytes s) t e0 a0 chunks -> enough_memory envs e0 ->
  exists served later R e1, cmds = served ++ later /\
    location_ a0 = file_of (cmd_args <$> log_of ∅ served) ++ R /\
    stuck R (cmd_args <$> log_of (store_after served) later) /\
    RestoreFromAppendableFile envs e0 sv (Some (a0, chunks)) = Some (e1, true) /\
    kv_repr (container_ e1) (store_after served) /\
    (t = [] -> live max (mkLogging e1 [] (threads_init (location_ a0) max)) served /\
      (all_written s -> store_after served = store_after cmds)).
Proof.
  intros H Hre He. destruct (live_invariant max s cmds H) as [_ Hok Hp _]. destruct (live_file max s cmds H) as (written & rest & Ef & El & Hall).
  rewrite Ef in Hre. destruct (recovery max cmds written rest envs e0 sv a0 chunks t Hok Hp El Hre He)
    as (served & later & R & e1 & on & Ec & Eloc & Hs & Hrest & Hr1 & _ & Ht & Hlive & Hsame).
  exists served, later, R, e1. do 5 (split; [done|]). intros Et. destruct (Ht Et) as [-> Elater]. split; [apply Hlive|].
  intros Ha. apply Hsame. rewrite (Hall Ha) in Elater. by apply fmap_nil_inv in Elater.
Qed.

Definition one_set : list command := [CSet (bs "k") (bs "v")].
Definition set_line : list ascii := ToProtocolString (request [bs "set"; bs "k"; bs "v"]).

(** The command is served, put away, and written by the worker. *)
Definition set_request : CommandCache := request [bs "set"; bs "k"; bs "v"].

Definition serve_and_write : list event :=
  [TCall set_request; TServing; TServing; TPush set_request] ++ [TWorker; TWorker; TWorker; TWorker; TWorker; TWrite true; TWorker; TWorker].

Definition written_threads : threads := mkThreads (mkShared set_line [] [] false 16 false None) BLoop ORun.

(** The threads run; the calls of [Append] are those the last command has still to make. *)
Definition calls (ls : list event) : list CommandCache := l ← ls; match l with TCall c => [c] | _ => [] end.

Lemma live_run max e t cmds ls t' : t_run orderly t ls t' -> th_serving t' <> DDone -> forall todo,
  live max (mkLogging e (calls ls ++ todo) t) cmds -> live max (mkLogging e todo t') cmds.
Proof.
  intros H. induction H as [|ls l s s' H IH Hok Hst]; intros Hd todo Hl; [done|].
  unfold calls in Hl. rewrite bind_app, <- app_assoc in Hl. apply (IH (step_open s l s' Hst Hd)) in Hl.
  eapply live_step; [exact Hl|exact Hst|exact Hok| |exact Hd]. destruct l; try done. cbn. by rewrite decide_True.
Qed.

Lemma serve_and_write_run : t_run orderly (threads_init [] 16) serve_and_write written_threads.
Proof. walk ltac:(first [exact I | intros []]). Qed.

Lemma one_set_run ls t : t_run orderly (threads_init [] 16) ls t -> th_serving t = ORun -> calls ls = [set_request] ->
  exists e, live 16 (mkLogging e [] t) one_set.
Proof.
  intros Hrun Ho Hcalls.
  destruct (HandleCommand_serves quiet_env true (recording new_engine) ∅ (CSet (bs "k") (bs "v")) (bs "set"))
    as (e & reply & Hh & Ee & _); [apply KVContainer_new_repr|apply set_ok; unfold small; by vm_compute|by vm_compute..|].
  exists e. apply (live_run 16 e (threads_init [] 16) one_set ls); [exact Hrun|by rewrite Ho|].
  assert (calls ls ++ [] = handed e) as -> by (rewrite Hcalls, Ee; reflexivity).
  apply (live_command 16 new_engine (threads_init [] 16) [] quiet_env (CSet (bs "k") (bs "v")) (bs "set") no_server None e no_server reply);
    [|done|apply set_ok; unfold small; by vm_compute| |by vm_compute..|apply Hh].
  - by apply (live_start 16 new_engine []); [apply KVContainer_new_repr|..].
  - intros (lf & key & l & E & _). done.
Qed.

Lemma one_set_live : exists e, live 16 (mkLogging e [] written_threads) one_set.
Proof. by apply (one_set_run serve_and_write written_threads serve_and_write_run). Qed.

Lemma crash_recovery_witness : exists e, live 16 (mkLogging e [] written_threads) one_set /\
  exists e1, RestoreFromAppendableFile (λ _, quiet_env) new_engine no_server
      (Some (AppendableFile_new set_line 16 true, [take 9 set_line; drop 9 set_line])) = Some (e1, true) /\
    kv_repr (container_ e1) (store_after one_set).
Proof.
  destruct one_set_live as (e & Hl). exists e. split; [done|].
  destruct (crash_recovery 16 _ one_set (λ _, quiet_env) new_engine no_server (AppendableFile_new set_line 16 true)
    [take 9 set_line; drop 9 set_line] [] Hl)
    as (served & later & R & e1 & _ & _ & _ & H & Hr & Hall).
  - split; [apply KVContainer_new_repr|reflexivity|done|by vm_compute|by repeat constructor| |by vm_compute].
    vm_compute. intuition congruence.
  - intros _. by vm_compute.
  - exists e1. split; [exact H|]. destruct (Hall eq_refl) as [_ E]. rewrite E in Hr by (split_and!; reflexivity). exact Hr.
Defined.

(** ** What is not recovered *)

(** A popped empty string is not logged: the engine removes it from the list but
    answers nil, as if the list were empty, and a restored engine has it again. *)
Lemma empty_pop_not_recovered (env : Env) (e : Engine) (sv : Server) (sess : option (list ascii)) (m : astore)
    (lf : bool) (key : list ascii) (l : list (list ascii)) :
  kv_repr (container_ e) m -> cmd_ok m (CPop lf key) -> IfNeedKeyEviction env e = false ->
  m !! Key_std key = Some (AList l) -> (if lf then head l else last l) = Some [] ->
  exists e', HandleCommand env true e sv sess (request (cmd_args (CPop lf key))) = Some (e', sv, kNilMsg) /\
    kv_repr (container_ e') (<[Key_std key := AList (if lf then tail l else removelast l)]> m) /\
    appending_ e' = (λ a, SetAutoFlush a true) <$> appending_ e.
Proof.
  intros Hr Hok He Hm Hl.
  destruct (HandleCommand_serves env true e m (CPop lf key) _ Hr Hok He (tolower_opcode _)) as (e' & reply & Hh & Ee & Hr' & Hrep).
  assert (cmd_spec m (CPop lf key) = (<[Key_std key := AList (if lf then tail l else removelast l)]> m, RNil, false)) as E.
  { cbn [cmd_spec]. rewrite Hm. cbn [v_list]. rewrite Hl. by rewrite decide_True. }
  rewrite E in *. cbn [fst snd renders] in *. subst reply. exists e'. rewrite (cmd_args_cons (CPop lf key)), Hh.
  split; [done|]. split; [done|]. rewrite Ee. reflexivity.
Qed.

Definition pushed_empty : astore := <[Key_std (bs "k") := AList [[]]]> ∅.

Lemma push_empty : exists e, kv_repr (container_ e) pushed_empty /\ rss_limit e = 1000000.
Proof.
  destruct (HandleCommand_serves quiet_env true new_engine ∅ (CPush false (bs "k") [[]]) (bs "rpush"))
    as (e & reply & _ & Ee & Hr & _); [apply KVContainer_new_repr| |by vm_compute..|].
  - split; [done|]. split; [|done]. intros o [= <-]. split; [by repeat constructor|].
    intros a Ha. by rewrite lookup_empty in Ha.
  - exists e. split; [exact Hr|]. by rewrite Ee.
Qed.

Lemma empty_pop_not_recovered_witness : exists e e', kv_repr (container_ e) pushed_empty /\
  HandleCommand quiet_env true e no_server None (request [bs "lpop"; bs "k"]) = Some (e', no_server, kNilMsg) /\
  kv_repr (container_ e') (<[Key_std (bs "k") := AList []]> pushed_empty).
Proof.
  destruct push_empty as (e & Hr & Hrss).
  destruct (empty_pop_not_recovered quiet_env e no_server None pushed_empty true (bs "k") [[]]) as (e' & H & Hr' & _);
    [done| | |done|done|].
  - split; [done|]. split; [|done]. intros o [= <-]. split; [done|]. intros a Ha. cbn [op_key] in Ha.
    unfold pushed_empty in Ha. rewrite lookup_insert_eq in Ha. injection Ha as <-. by vm_compute.
  - unfold IfNeedKeyEviction. by rewrite Hrss.
  - by exists e, e'.
Defined.

(** A request of which the header and the first [j] arguments are left. *)
Definition cut_after (args : list (list ascii)) (j : nat) : list ascii :=
  header (length args) ++ concat (print_item <$> take j args).

Lemma cut_after_cut args j : (j < length args)%nat -> exists q, q <> [] /\ ToProtocolString (request args) = cut_after args j ++ q.
Proof.
  intros Hj. exists (concat (print_item <$> drop j args)). split.
  - destruct (drop j args) as [|a l] eqn:E; [apply (f_equal length) in E; rewrite length_drop in E; cbn in E; lia|].
    cbn [fmap list_fmap concat]. rewrite print_item_eq. done.
  - unfold cut_after. rewrite ToProtocolString_request, <- app_assoc. f_equal. rewrite <- concat_app, <- fmap_app. by rewrite take_drop.
Qed.

(** C37. A file that lost its end is poisoned. When a file that was cut inside a request, after
    the header and the first [j] of its arguments, is opened again and anything is written
    to it, by whatever run of the two threads (orderly as before), then reading it back, in one
    piece of at most 64 KiB, gives the commands [cmds] before the cut request and nothing of
    what was written since, and reports no error: each start restores the same old store. *)
Theorem torn_file_poisoned (cmds : list (list (list ascii))) (args : list (list ascii)) (j : nat) (max : Z)
    (ls : list event) (t : threads) :
  let torn := file_of cmds ++ cut_after args j in let file := sh_file (th_mem t) in
  (j < length args)%nat -> t_run orderly (threads_init torn max) ls t -> th_serving t <> DDone -> file <> torn ->
  Z.of_nat (length file) <= RESTORE_AOF_READ_BUF_SIZE -> Z.of_nat (length args) <= INT64_MAX ->
  forall (S : Type) (whattodo : S -> CommandCache -> option S) (s : S),
    CommonOperation whattodo [file] s = run_all whattodo s cmds.
Proof.
  intros torn file Hj Hrun Hd Hne Hsize Hn S whattodo s.
  destruct (sound_run orderly torn [] _ ls t ltac:(done) (sound_init torn max) Hrun Hd) as [(written & Hf & _) _ _ _ _].
  fold file in Hf. destruct written as [|c written]; [by rewrite Hf, app_nil_r in Hne|].
  assert (exists more, file = file_of cmds ++ header (length args) ++ concat (print_item <$> take j args) ++ "*"%char :: more) as [more E].
  { eexists. rewrite Hf. unfold torn, cut_after. rewrite <- !app_assoc. do 3 f_equal. }
  rewrite E in Hsize |- *. apply CommonOperation_poisoned; [by apply one_read_fits|rewrite length_take; lia|done].
Qed.

(** [set k v] cut after its second word; the server that is started on the file logs another
    command. *)
Definition torn_line : list ascii := cut_after [bs "set"; bs "k"; bs "v"] 2.

Definition another_threads : threads := mkThreads (mkShared (torn_line ++ set_line) [] [] false 16 false None) BLoop ORun.

Lemma torn_file_poisoned_witness :
  t_run orderly (threads_init torn_line 16) serve_and_write another_threads /\ ReadFromScratch [torn_line ++ set_line] = Some [].
Proof.
  assert (t_run orderly (threads_init torn_line 16) serve_and_write another_threads) as Hrun
    by (walk ltac:(first [exact I | intros []])).
  split; [exact Hrun|].
  exact (torn_file_poisoned [] [bs "set"; bs "k"; bs "v"] 2 16 serve_and_write another_threads ltac:(cbn; lia) Hrun ltac:(done)
    ltac:(by vm_compute) ltac:(by vm_compute) ltac:(by vm_compute) _ (λ ans cache, Some (ans ++ [cache])) []).
Defined.
