(* ===== verification/ExpireFacts.v ===== *)
(** * ExpireFacts: keys that expire

    [sExpiresMap], the timers and their callbacks agree ([timers_ok]) whatever
    commands are served and timers fired, so that no entry of the map dangles; a
    timer that fires removes its key; what the expire commands set and answer. *)

From S2P Require Import Prelude Encoding Numerals Str Buffer Protocol Hash Core CoreSpec CoreFacts TimeEvent Server Persistence Commands CommandsSpec CommandsFacts EngineFacts.
From stdpp Require Import list fin_maps.

Local Open Scope Z_scope.

(** ** The invariant *)

(** Every entry of the map is the timer of its key, and every event is the timer of
    one entry, to fire once. *)
Record timers_ok (e : Engine) : Prop := {
  t_ids : holder_ok (tev_holder e);
  t_entry : forall key id, sExpiresMap e !! key = Some id ->
    callbacks e !! id = Some key /\ exists ev, ev ∈ event_list_ (tev_holder e) /\ tev_id ev = id;
  t_event : forall ev, ev ∈ event_list_ (tev_holder e) ->
    tev_count ev = 1 /\ exists key, callbacks e !! tev_id ev = Some key /\ sExpiresMap e !! key = Some (tev_id ev)
}.

(** The time at which the key is to be removed. *)
Definition deadline (e : Engine) (key : list ascii) : option Z :=
  id ← sExpiresMap e !! key; ev ← deref e id; Some (tev_when ev).

Lemma timers_ok_data c ap e : timers_ok (with_data c ap e) <-> timers_ok e.
Proof. split; intros [H1 H2 H3]; (split; [exact H1|exact H2|exact H3]). Qed.

Lemma deref_in e ev : holder_ok (tev_holder e) -> ev ∈ event_list_ (tev_holder e) -> deref e (tev_id ev) = Some ev.
Proof.
  intros [Hnd _]. unfold deref. induction (event_list_ (tev_holder e)) as [|x l IH]; intros Hin; [by apply not_elem_of_nil in Hin|].
  apply NoDup_cons in Hnd as [Hx Hnd]. cbn [find]. apply elem_of_cons in Hin as [<-|Hin]; [by rewrite Z.eqb_refl|].
  destruct (Z.eqb_spec (tev_id x) (tev_id ev)) as [E|_]; [|by apply IH]. destruct Hx. rewrite E.
  by apply list_elem_of_fmap_2.
Qed.

(** No [TimeEvent *] of the map dangles. *)
Lemma entry_deref e key id : timers_ok e -> sExpiresMap e !! key = Some id ->
  exists ev, deref e id = Some ev /\ ev ∈ event_list_ (tev_holder e) /\ tev_id ev = id /\ callbacks e !! id = Some key.
Proof.
  intros H Hm. destruct (t_entry e H key id Hm) as (Hc & ev & Hin & <-). exists ev.
  split; [apply deref_in; [apply H|done]|done].
Qed.

Lemma deadline_event e key w : timers_ok e ->
  deadline e key = Some w <->
  exists ev, ev ∈ event_list_ (tev_holder e) /\ callbacks e !! tev_id ev = Some key /\ tev_when ev = w.
Proof.
  intros H. unfold deadline. split.
  - destruct (sExpiresMap e !! key) as [id|] eqn:Em; [|done]. cbn [mbind option_bind].
    destruct (entry_deref e key id H Em) as (ev & -> & Hin & <- & Hc). intros [= <-]. by exists ev.
  - intros (ev & Hin & Hc & <-). destruct (t_event e H ev Hin) as (_ & key' & Hc' & Hm). rewrite Hc in Hc'.
    injection Hc' as <-. rewrite Hm. cbn [mbind option_bind]. by rewrite (deref_in e ev (t_ids e H) Hin).
Qed.

(** ** Changes of the list of events *)

Definition restarted (now id interval : Z) (ev : TimeEvent) : TimeEvent :=
  if tev_id ev =? id then mkTev id (AddMillSecToNowMillSec now interval) interval 1 else ev.

Lemma restarted_other now id interval ev : tev_id ev <> id -> restarted now id interval ev = ev.
Proof. intros H. unfold restarted. by destruct (Z.eqb_spec (tev_id ev) id). Qed.

Lemma restarted_others now id interval l : id ∉ ids l -> restarted now id interval <$> l = l.
Proof.
  induction l as [|ev l IH]; intros H; [done|]. cbn [ids fmap list_fmap] in H. apply not_elem_of_cons in H as [H1 H2].
  cbn [fmap list_fmap]. by rewrite restarted_other, IH.
Qed.

Lemma update_event_map now id interval l : NoDup (ids l) -> id ∈ ids l ->
  update_event now id interval 1 l = Some (restarted now id interval <$> l).
Proof.
  induction l as [|ev l IH]; intros Hnd Hin; [by apply not_elem_of_nil in Hin|]. cbn [ids fmap list_fmap] in *.
  apply NoDup_cons in Hnd as [Hx Hnd]. cbn [update_event]. unfold restarted at 1.
  destruct (Z.eqb_spec (tev_id ev) id) as [<-|E]; [by rewrite restarted_others|].
  apply elem_of_cons in Hin as [?|Hin]; [done|]. by rewrite (IH Hnd Hin).
Qed.

Lemma filter_keeps {A : Type} (P : A -> Prop) `{HP : forall x, Decision (P x)} (l : list A) : Forall P l -> filter P l = l.
Proof. intros H. induction H as [|x l Hx H IH]; [done|]. by rewrite filter_cons_True, IH. Qed.

Lemma remove_event_filter id l : NoDup (ids l) -> id ∈ ids l ->
  remove_event id l = Some (filter (λ ev, tev_id ev <> id) l).
Proof.
  induction l as [|ev l IH]; intros Hnd Hin; [by apply not_elem_of_nil in Hin|]. cbn [ids fmap list_fmap] in *.
  apply NoDup_cons in Hnd as [Hx Hnd]. cbn [remove_event]. destruct (Z.eqb_spec (tev_id ev) id) as [<-|E].
  - rewrite filter_cons_False by tauto. f_equal. symmetry. apply filter_keeps, Forall_forall. intros ev' Hin' E. apply Hx. rewrite <- E.
    by apply list_elem_of_fmap_2.
  - rewrite filter_cons_True by done. apply elem_of_cons in Hin as [?|Hin]; [done|]. by rewrite (IH Hnd Hin).
Qed.

(** Events that fire once: those that are due fire and are gone. *)
Lemma handle_events_one_shot now l : Forall (λ ev, tev_count ev = 1) l -> forall clock,
  handle_events now clock l = (filter (λ ev, now < tev_when ev) l, tev_id <$> filter (λ ev, tev_when ev <= now) l).
Proof.
  intros H. induction H as [|ev l Hc H IH]; intros clock; [done|]. cbn [handle_events]. unfold handle_event, CanFire, FireForever.
  destruct (Z.leb_spec (tev_when ev) now).
  - rewrite (filter_cons_False (λ ev, now < tev_when ev)), (filter_cons_True (λ ev, tev_when ev <= now)) by lia.
    rewrite Hc. cbn [Z.gtb Z.compare orb Z.ltb negb andb]. unfold CannotFire, Consume. cbn [tev_count]. rewrite Hc.
    change (1 - 1 =? 0) with true. cbv iota beta. by rewrite IH.
  - rewrite (filter_cons_True (λ ev, now < tev_when ev)), (filter_cons_False (λ ev, tev_when ev <= now)) by lia.
    cbn [andb]. unfold CannotFire. rewrite Hc. cbn [Z.eqb]. by rewrite IH.
Qed.

(** ** One timer *)

Section OneTimer.

Variables (now interval : Z) (e : Engine) (key : list ascii).
Hypothesis (Hok : timers_ok e).

Let when : Z := AddMillSecToNowMillSec now interval.

(** The engine [e'] has the deadlines of [e], except that of [key]. *)
Definition sets (e' : Engine) (d : option Z) : Prop :=
  timers_ok e' /\ deadline e' key = d /\ forall key', key' <> key -> deadline e' key' = deadline e key'.

Lemma create_sets : sExpiresMap e !! key = None ->
  let '(h, tev) := CreateTimeEvent now (tev_holder e) interval 1 in
  sets (with_timers h (<[key := tev_id tev]> (sExpiresMap e)) (<[tev_id tev := key]> (callbacks e)) e) (Some when).
Proof.
  intros Hnone. cbn [CreateTimeEvent]. cbv zeta. cbn [TimeEvent_new tev_id].
  set (id := sTimeEventId (tev_holder e) + 1). set (tev := mkTev id when interval 1).
  assert (forall ev, ev ∈ event_list_ (tev_holder e) -> tev_id ev <> id) as Hfresh.
  { intros ev Hin. destruct (t_ids e Hok) as [_ Hle]. rewrite Forall_forall in Hle.
    specialize (Hle _ (list_elem_of_fmap_2 tev_id _ _ Hin)). unfold id. lia. }
  set (e' := with_timers _ _ _ e).
  assert (timers_ok e') as Hok'.
  { split.
    - apply (holder_ok_create now (tev_holder e) interval 1), Hok.
    - intros k i Hk. cbn in Hk. destruct (decide (k = key)) as [->|Hkk].
      + rewrite lookup_insert_eq in Hk. injection Hk as <-. cbn. rewrite lookup_insert_eq. split; [done|].
        exists tev. split; [by left|done].
      + rewrite lookup_insert_ne in Hk by done. destruct (t_entry e Hok k i Hk) as (Hc & ev & Hin & <-).
        cbn. rewrite lookup_insert_ne by (intros E; by apply (Hfresh ev)). split; [done|]. exists ev. split; [by right|done].
    - intros ev Hin. cbn in Hin. apply elem_of_cons in Hin as [->|Hin].
      + split; [done|]. exists key. cbn. by rewrite !lookup_insert_eq.
      + destruct (t_event e Hok ev Hin) as (Hone & k & Hc & Hm). split; [done|]. exists k. cbn.
        rewrite lookup_insert_ne by (intros E; by apply (Hfresh ev)). split; [done|].
        rewrite lookup_insert_ne; [done|]. intros <-. by rewrite Hnone in Hm. }
  split; [done|]. split.
  - apply (deadline_event e' key when Hok'). exists tev. split; [by left|]. split; [|done]. cbn. by rewrite lookup_insert_eq.
  - intros key' Hk. unfold deadline at 1. cbn [sExpiresMap with_timers e']. rewrite lookup_insert_ne by done.
    unfold deadline. destruct (sExpiresMap e !! key') as [i|] eqn:Em; [|done]. cbn [mbind option_bind].
    destruct (entry_deref e key' i Hok Em) as (ev & -> & Hin & <- & _).
    rewrite (deref_in e' ev (t_ids e' Hok')); [done|]. by right.
Qed.

Lemma update_sets id : sExpiresMap e !! key = Some id ->
  let '(h, ok) := UpdateTimeEvent now (tev_holder e) id interval 1 in
  ok = true /\ sets (with_timers h (sExpiresMap e) (callbacks e) e) (Some when).
Proof.
  intros Hm. destruct (entry_deref e key id Hok Hm) as (ev & _ & Hin & Eid & Hc). unfold UpdateTimeEvent.
  rewrite update_event_map; [|apply Hok|rewrite <- Eid; by apply list_elem_of_fmap_2]. split; [done|].
  set (e' := with_timers _ _ _ e). set (r := restarted now id interval).
  assert (forall ev, tev_id (r ev) = tev_id ev) as Hid.
  { intros x. unfold r, restarted. by destruct (Z.eqb_spec (tev_id x) id). }
  assert (ids (event_list_ (tev_holder e')) = ids (event_list_ (tev_holder e))) as Hids.
  { cbn. unfold ids. rewrite <- list_fmap_compose. apply list_fmap_ext. intros i x _. apply Hid. }
  assert (timers_ok e') as Hok'.
  { split.
    - destruct (t_ids e Hok). unfold holder_ok. rewrite Hids. done.
    - intros k i Hk. destruct (t_entry e Hok k i Hk) as (Hck & x & Hx & <-). split; [done|]. exists (r x).
      split; [by apply list_elem_of_fmap_2|done].
    - intros x' Hx. apply list_elem_of_fmap in Hx as (x & -> & Hx). rewrite Hid. destruct (t_event e Hok x Hx) as [Hone Hk].
      split; [|done]. unfold restarted. by destruct (tev_id x =? id). }
  split; [done|]. split.
  - apply (deadline_event e' key when Hok'). exists (r ev). split; [by apply list_elem_of_fmap_2|]. rewrite Hid, Eid.
    split; [done|]. unfold r, restarted. by rewrite Eid, Z.eqb_refl.
  - intros key' Hk. unfold deadline. cbn [sExpiresMap with_timers e'].
    destruct (sExpiresMap e !! key') as [i|] eqn:Em; [|done]. cbn [mbind option_bind].
    destruct (entry_deref e key' i Hok Em) as (x & -> & Hx & <- & Hcx).
    rewrite <- (Hid x), (deref_in e' (r x) (t_ids e' Hok')) by (by apply list_elem_of_fmap_2).
    unfold r. rewrite restarted_other; [done|]. intros E. rewrite E, Hc in Hcx. by injection Hcx.
Qed.

Lemma remove_sets id : sExpiresMap e !! key = Some id ->
  let '(h, ok) := RemoveTimeEvent (tev_holder e) id in
  ok = true /\ sets (with_timers h (delete key (sExpiresMap e)) (callbacks e) e) None.
Proof.
  intros Hm. destruct (entry_deref e key id Hok Hm) as (ev & _ & Hin & Eid & Hc). unfold RemoveTimeEvent.
  rewrite remove_event_filter; [|apply Hok|rewrite <- Eid; by apply list_elem_of_fmap_2]. split; [done|].
  set (e' := with_timers _ _ _ e).
  assert (forall x, x ∈ event_list_ (tev_holder e') <-> x ∈ event_list_ (tev_holder e) /\ tev_id x <> id) as Hl.
  { intros x. cbn. rewrite list_elem_of_filter. tauto. }
  assert (timers_ok e') as Hok'.
  { split.
    - destruct (t_ids e Hok) as [Hnd Hle]. assert (ids (event_list_ (tev_holder e')) `sublist_of` ids (event_list_ (tev_holder e))) as Hs
        by (apply (fmap_sublist tev_id), sublist_filter).
      split; [by eapply sublist_NoDup|]. rewrite Forall_forall in Hle |- *. intros i Hi. apply Hle. by eapply elem_of_sublist.
    - intros k i Hk. cbn in Hk. apply lookup_delete_Some in Hk as [Hne Hk].
      destruct (t_entry e Hok k i Hk) as (Hck & x & Hx & <-). split; [done|]. exists x. split; [|done]. apply Hl.
      split; [done|]. intros E. rewrite E, Hc in Hck. by injection Hck.
    - intros x Hx. apply Hl in Hx as [Hx Hi]. destruct (t_event e Hok x Hx) as (Hone & k & Hck & Hk). split; [done|]. exists k.
      split; [done|]. cbn. rewrite lookup_delete_ne; [done|]. intros <-. rewrite Hm in Hk. by injection Hk. }
  split; [done|]. split; [by unfold deadline; cbn; rewrite lookup_delete_eq|].
  intros key' Hk. unfold deadline. cbn [sExpiresMap with_timers e']. rewrite lookup_delete_ne by done.
  destruct (sExpiresMap e !! key') as [i|] eqn:Em; [|done]. cbn [mbind option_bind].
  destruct (entry_deref e key' i Hok Em) as (x & -> & Hx & <- & Hcx).
  rewrite (deref_in e' x (t_ids e' Hok')); [done|]. apply Hl. split; [done|]. intros E. rewrite E, Hc in Hcx. by injection Hcx.
Qed.

End OneTimer.

(** ** The expire commands *)

Lemma deadline_none e key : timers_ok e -> sExpiresMap e !! key = None <-> deadline e key = None.
Proof.
  intros H. unfold deadline. destruct (sExpiresMap e !! key) as [id|] eqn:Em; [|done]. cbn [mbind option_bind].
  by destruct (entry_deref e key id H Em) as (ev & -> & _).
Qed.

(** The deadline after [expire key n]. *)
Definition new_deadline (now : Z) (old : option Z) (n : Z) : option Z :=
  if (n >? 0) || ((n =? 0) && bool_decide (is_Some old)) then Some (u64 (now + u64 (n * 1000))) else None.

Lemma sets_same e key c ap : timers_ok e -> sExpiresMap e !! key = None -> sets e key (with_data c ap e) None.
Proof. intros H Hm. split; [by apply timers_ok_data|]. split; [|done]. by apply (deadline_none e key H). Qed.

Lemma expire_timer_sets (env : Env) (e : Engine) (key : list ascii) (n : Z) : timers_ok e ->
  exists e', expire_timer env e key n = Some (e', true) /\
    sets e key e' (new_deadline (now_ms env) (deadline e key) n) /\
    container_ e' = (if (n =? 0) && bool_decide (deadline e key = None) then (Delete_skey (container_ e) key).1
                     else container_ e) /\
    appending_ e' = appending_ e.
Proof.
  intros H. unfold expire_timer, new_deadline. destruct (sExpiresMap e !! key) as [id|] eqn:Em.
  - destruct (entry_deref e key id H Em) as (ev & Ed & Hin & Eid & Hc). rewrite Ed. cbn [mbind option_bind]. rewrite Eid.
    assert (is_Some (deadline e key)) as Hs by (unfold deadline; rewrite Em; cbn [mbind option_bind]; rewrite Ed; by eexists).
    rewrite (bool_decide_true (is_Some _)) by done. rewrite (bool_decide_false (_ = None)) by (destruct Hs as [? ->]; done).
    rewrite andb_true_r, andb_false_r. destruct (Z.geb_spec n 0).
    + pose proof (update_sets (now_ms env) (u64 (n * 1000)) e key H id Em) as Hu. destruct (UpdateTimeEvent _ _ _ _ _) as [h ok].
      destruct Hu as [-> Hu]. eexists. split; [done|]. split; [|done].
      replace ((n >? 0) || (n =? 0)) with true; [exact Hu|]. symmetry. apply orb_true_iff. rewrite Z.gtb_lt, Z.eqb_eq. lia.
    + pose proof (remove_sets e key H id Em) as Hu. destruct (RemoveTimeEvent _ _) as [h ok].
      destruct Hu as [-> Hu]. eexists. split; [done|]. split; [|done].
      replace ((n >? 0) || (n =? 0)) with false; [exact Hu|]. symmetry. apply orb_false_iff. rewrite Z.eqb_neq. lia.
  - pose proof (proj1 (deadline_none e key H) Em) as Hd. rewrite Hd. rewrite bool_decide_false by (by intros [? ?]).
    rewrite (bool_decide_true (None = None)) by done. rewrite andb_false_r, orb_false_r, andb_true_r.
    destruct (Z.gtb_spec n 0).
    + pose proof (create_sets (now_ms env) (u64 (n * 1000)) e key H Em) as Hu. destruct (CreateTimeEvent _ _ _ _) as [h tev].
      eexists. split; [done|]. split; [exact Hu|]. by replace (n =? 0) with false by lia.
    + destruct (Z.eqb_spec n 0) as [->|].
      * eexists. split; [done|]. split; [by apply sets_same|done].
      * eexists. split; [done|]. split; [|done]. split; [done|]. by split.
Qed.

(** ** Every command keeps the invariant *)

Lemma expire_timer_ok env e key n e' ok : timers_ok e -> expire_timer env e key n = Some (e', ok) -> timers_ok e'.
Proof. intros H E. destruct (expire_timer_sets env e key n H) as (e1 & E1 & [Hs _] & _). rewrite E1 in E. by injection E as <- _. Qed.

Lemma Expire_timers env e cmds sync e' r : timers_ok e -> ExpireCommand env e cmds sync = Some (e', r) -> timers_ok e'.
Proof.
  intros H E. unfold ExpireCommand in E. destruct (CheckSyntax _ _ _ _); [|by injection E as <- _].
  destruct (argv cmds !! 1%nat) as [key|]; [|done]. cbn [mbind option_bind] in E.
  destruct (KeyExists_skey _ _); cbn [negb] in E; [|by injection E as <- _].
  destruct (argv cmds !! 2%nat) as [time|]; [|done]. cbn [mbind option_bind] in E.
  destruct (CanConvertToInt64 time) as [n|]; [|by injection E as <- _].
  destruct (expire_timer env e key n) as [[e1 ok]|] eqn:Et; [|done]. cbn [mbind option_bind] in E.
  apply (expire_timer_ok _ _ _ _ _ _ H) in Et. destruct ok; [|by injection E as <- _].
  destruct (expire_log _ _ _ _ _ _); [|done]. injection E as <- _. by apply timers_ok_data.
Qed.

Lemma engine_handlers_timers name h env e cmds sync e' r : find_op sOpCommandMap name = Some (OnEngine h) ->
  timers_ok e -> h env e cmds sync = Some (e', r) -> timers_ok e'.
Proof.
  intros Hf H E. assert (h = EvictCommand \/ h = ExpireCommand \/ h = ExpireAtCommand \/ h = TTLCommand) as Hh.
  { revert Hf. cbn [find_op sOpCommandMap]. repeat case_decide; intros [= <-]; tauto. }
  destruct Hh as [->|[->|[->| ->]]].
  - unfold EvictCommand in E. destruct (CheckSyntax _ _ _ _); [|by injection E as <- _].
    destruct (argv cmds !! 1%nat); [|done]. cbn [mbind option_bind] in E.
    destruct (CanConvertToUInt64 _); [|by injection E as <- _].
    destruct (KeyEviction_env _ _ _ _) as [[c ans]|]; [|done]. cbn [mbind option_bind] in E.
    destruct (appending_ e); [destruct sync|]; injection E as <- _; by apply timers_ok_data.
  - by eapply Expire_timers.
  - unfold ExpireAtCommand in E. destruct (CheckSyntax _ _ _ _); [|by injection E as <- _].
    destruct (argv cmds !! 2%nat); [|done]. cbn [mbind option_bind] in E.
    destruct (CanConvertToInt64 _); [|by injection E as <- _].
    destruct (chk64 _); [|done]. cbn [mbind option_bind] in E. by eapply Expire_timers.
  - unfold TTLCommand in E. destruct (CheckSyntax _ _ _ _); [|by injection E as <- _].
    destruct (argv cmds !! 1%nat); [|done]. cbn [mbind option_bind] in E.
    destruct (KeyExists_skey _ _); cbn [negb] in E; [|by injection E as <- _].
    destruct (sExpiresMap e !! _); [|by injection E as <- _]. destruct (deref e _); [|done]. by injection E as <- _.
Qed.

Lemma HandleCommand_timers env sync e sv sess cmds e' sv' r : timers_ok e ->
  HandleCommand env sync e sv sess cmds = Some (e', sv', r) -> timers_ok e'.
Proof.
  intros H E. unfold HandleCommand in E. destruct (negb _); [done|]. destruct (argv cmds !! O) as [op|]; [|done].
  cbn [mbind option_bind] in E. destruct (find_op sOpCommandMap (tolower <$> op)) as [h|] eqn:Ef; [|by injection E as <- _ _].
  destruct (lazy_eviction _ _) as [e1|] eqn:El; [|done]. cbn [mbind option_bind] in E.
  assert (timers_ok e1) as H1.
  { unfold lazy_eviction in El. destruct (IfNeedKeyEviction _ _); [|injection El as <-; by apply timers_ok_data].
    destruct (KeyEviction_env _ _ _ _) as [[c ans]|]; [|done]. cbn [mbind option_bind] in El. injection El as <-.
    by apply timers_ok_data, timers_ok_data. }
  destruct h as [h|h|h]; cbn [run_handler] in E.
  - destruct (h _ _ _ _ _) as [[[c ap] reply]|]; [|done]. cbn [mbind option_bind] in E. injection E as <- _ _. by apply timers_ok_data.
  - destruct (h _ _ _ _) as [[e2 reply]|] eqn:Eh; [|done]. cbn [mbind option_bind] in E. injection E as <- _ _.
    by eapply engine_handlers_timers.
  - destruct (h _ _ _ _) as [[[sv2 sent] reply]|]; [|done]. cbn [mbind option_bind] in E. injection E as <- _ _.
    destruct H1 as [I1 I2 I3]. split; [exact I1|exact I2|exact I3].
Qed.

(** ** Firing *)

(** A callback: the events [l] are still listed, [ev] has been freed or will be. *)
Lemma run_callback_spec e ev key : callbacks e !! tev_id ev = Some key ->
  run_callback e (tev_id ev) =
    with_timers (tev_holder e) (delete key (sExpiresMap e)) (callbacks e)
      (with_data (Delete_skey (container_ e) key).1 (appending_ e) e).
Proof. intros H. unfold run_callback. by rewrite H. Qed.

Definition due_keys (now : Z) (e : Engine) (l : list TimeEvent) : list (list ascii) :=
  ev ← filter (λ ev, tev_when ev <= now) l; option_list (callbacks e !! tev_id ev).

(** What the callbacks of the events [l] do. *)
Lemma run_callbacks (l : list TimeEvent) : forall e, (forall ev, ev ∈ l -> is_Some (callbacks e !! tev_id ev)) ->
  let keys := ev ← l; option_list (callbacks e !! tev_id ev) in
  foldl run_callback e (ids l) =
    with_timers (tev_holder e) (foldl (λ ex key, delete key ex) (sExpiresMap e) keys) (callbacks e)
      (with_data (foldl (λ c key, (Delete_skey c key).1) (container_ e) keys) (appending_ e) e).
Proof.
  induction l as [|ev l IH]; intros e Hc; [by destruct e|].
  destruct (Hc ev ltac:(by left)) as [key Hk]. cbn [ids fmap list_fmap foldl]. rewrite (run_callback_spec e ev key Hk).
  set (e1 := with_timers _ _ _ _). specialize (IH e1). cbv zeta in IH. unfold ids in IH. rewrite IH.
  - cbn [callbacks with_timers e1 mbind list_bind]. by rewrite Hk.
  - intros x Hx. apply Hc. by right.
Qed.

Lemma deletes_lookup {A : Type} (keys : list (list ascii)) : forall (x : gmap (list ascii) A) (k : list ascii),
  foldl (λ x key, delete key x) x keys !! k = if decide (k ∈ keys) then None else x !! k.
Proof.
  induction keys as [|key keys IH]; intros x k; [done|]. cbn [foldl]. rewrite IH.
  destruct (decide (k ∈ keys)) as [Hin|Hin]; [by rewrite decide_True by (by right)|].
  destruct (decide (k = key)) as [->|Hk].
  - rewrite decide_True by (by left). by rewrite lookup_delete_eq.
  - rewrite decide_False by (rewrite elem_of_cons; tauto). by rewrite lookup_delete_ne.
Qed.

Lemma foldl_deletes {A : Type} (keys : list (list ascii)) : forall (x : gmap (list ascii) A),
  foldl (λ x key, delete (Key_std key) x) x keys = foldl (λ x key, delete key x) x (Key_std <$> keys).
Proof. induction keys as [|key keys IH]; intros x; [done|]. apply IH. Qed.

(** A key is due when it has a deadline that has come. *)
Definition due (now : Z) (e : Engine) (key : list ascii) : Prop :=
  match deadline e key with Some w => w <= now | None => False end.

#[export] Instance due_dec now e key : Decision (due now e key).
Proof. unfold due. destruct (deadline e key); apply _. Defined.

Lemma due_iff now e key : due now e key <-> exists w, deadline e key = Some w /\ w <= now.
Proof. unfold due. split; [destruct (deadline e key) as [w|]; [by exists w|done]|by intros (w & -> & H)]. Qed.

Lemma in_option_list {A : Type} (x : A) (o : option A) : x ∈ option_list o <-> o = Some x.
Proof. destruct o as [y|]; cbn; [rewrite list_elem_of_singleton; split; congruence|by split; [intros H; apply not_elem_of_nil in H|]]. Qed.

Lemma due_keys_spec now e key : timers_ok e ->
  key ∈ due_keys now e (event_list_ (tev_holder e)) <-> due now e key.
Proof.
  intros H. rewrite due_iff. unfold due_keys. rewrite list_elem_of_bind. split.
  - intros (ev & Hk & Hin). apply list_elem_of_filter in Hin as [Hw Hin].
    apply in_option_list in Hk. exists (tev_when ev). split; [|done]. apply (deadline_event e key _ H). by exists ev.
  - intros (w & Hd & Hw). apply (deadline_event e key w H) in Hd as (ev & Hin & Hc & <-). exists ev.
    split; [by apply in_option_list|]. apply list_elem_of_filter. by split.
Qed.

(** The store after the keys that are due are gone. *)
Definition without_due (now : Z) (e : Engine) (m : astore) : astore :=
  foldl (λ m key, delete (Key_std key) m) m (due_keys now e (event_list_ (tev_holder e))).

Lemma fire_timers_spec (e : Engine) (now : Z) (clock : list Z) : timers_ok e ->
  let keys := due_keys now e (event_list_ (tev_holder e)) in
  fire_timers now clock e =
    with_timers (mkHolder (filter (λ ev, now < tev_when ev) (event_list_ (tev_holder e))) (sTimeEventId (tev_holder e)))
      (foldl (λ ex key, delete key ex) (sExpiresMap e) keys) (callbacks e)
      (with_data (foldl (λ c key, (Delete_skey c key).1) (container_ e) keys) (appending_ e) e).
Proof.
  intros H. unfold fire_timers, HandleFiredTimeEvent.
  rewrite handle_events_one_shot by (apply Forall_forall; intros ev Hin; by apply (t_event e H ev)).
  apply (run_callbacks (filter (λ ev, tev_when ev <= now) (event_list_ (tev_holder e)))
    (with_timers (mkHolder (filter (λ ev, now < tev_when ev) (event_list_ (tev_holder e))) (sTimeEventId (tev_holder e)))
       (sExpiresMap e) (callbacks e) e)).
  intros ev Hin. apply list_elem_of_filter in Hin as [_ Hin]. destruct (t_event e H ev Hin) as (_ & key & Hc & _). by exists key.
Qed.

Lemma fire_timers_repr (e : Engine) (m : astore) (now : Z) (clock : list Z) :
  timers_ok e -> kv_repr (container_ e) m -> kv_repr (container_ (fire_timers now clock e)) (without_due now e m).
Proof.
  intros H. rewrite fire_timers_spec by done. cbn [container_ with_timers with_data]. unfold without_due.
  generalize (due_keys now e (event_list_ (tev_holder e))) (container_ e). intros keys. revert m.
  induction keys as [|key keys IH]; intros m c Hr; [done|]. apply IH. by apply kv_Delete_repr.
Qed.

Lemma fire_timers_ok (e : Engine) (now : Z) (clock : list Z) : timers_ok e -> timers_ok (fire_timers now clock e).
Proof.
  intros H. rewrite fire_timers_spec by done. split.
  - destruct (t_ids e H) as [Hnd Hle]. set (l := filter _ _).
    assert (ids l `sublist_of` ids (event_list_ (tev_holder e))) as Hs by (apply (fmap_sublist tev_id), sublist_filter).
    split; [by eapply sublist_NoDup|]. rewrite Forall_forall in Hle |- *. intros i Hi. apply Hle. by eapply elem_of_sublist.
  - intros key id Hk. cbn [sExpiresMap with_timers] in Hk. rewrite deletes_lookup in Hk. case_decide as Hd; [done|].
    destruct (t_entry e H key id Hk) as (Hc & ev & Hin & <-). split; [done|]. exists ev. split; [|done].
    apply list_elem_of_filter. split; [|done]. apply Z.nle_gt. intros Hw. apply Hd, (due_keys_spec now e key H), due_iff.
    exists (tev_when ev). split; [|done]. apply (deadline_event e key _ H). by exists ev.
  - intros ev Hin. cbn [tev_holder event_list_ with_timers] in Hin. apply list_elem_of_filter in Hin as [Hw Hin].
    destruct (t_event e H ev Hin) as (Hone & key & Hc & Hk). split; [done|]. exists key. split; [done|].
    cbn [sExpiresMap with_timers]. rewrite deletes_lookup, decide_False; [done|]. intros Hd.
    apply (due_keys_spec now e key H), due_iff in Hd as (w & Hd & Hw'). 
    assert (deadline e key = Some (tev_when ev)) as E by (apply (deadline_event e key _ H); by exists ev).
    rewrite E in Hd. injection Hd as <-. lia.
Qed.

Lemma fire_timers_deadline (e : Engine) (now : Z) (clock : list Z) (key : list ascii) : timers_ok e ->
  deadline (fire_timers now clock e) key = if decide (due now e key) then None else deadline e key.
Proof.
  intros H. pose proof (fire_timers_ok e now clock H) as H'. rewrite fire_timers_spec in * by done.
  destruct (decide (due now e key)) as [Hd|Hd].
  - apply (deadline_none _ key H'). cbn [sExpiresMap with_timers].
    by rewrite deletes_lookup, decide_True by (by apply due_keys_spec).
  - apply option_eq. intros w. rewrite !deadline_event by done. cbn [tev_holder event_list_ with_timers callbacks].
    split; intros (ev & Hin & Hc & <-).
    + apply list_elem_of_filter in Hin as [_ Hin]. by exists ev.
    + exists ev. split; [|done]. apply list_elem_of_filter. split; [|done]. apply Z.nle_gt. intros Hw. apply Hd, due_iff.
      exists (tev_when ev). split; [|done]. apply (deadline_event e key _ H). by exists ev.
Qed.

Lemma without_due_lookup (e : Engine) (m : astore) (now : Z) (k : list ascii) : timers_ok e ->
  (without_due now e m !! k = None /\ exists key, Key_std key = k /\ due now e key) \/
  (without_due now e m !! k = m !! k /\ forall key, Key_std key = k -> ~ due now e key).
Proof.
  intros H. unfold without_due. rewrite foldl_deletes, deletes_lookup. case_decide as Hk.
  - left. split; [done|]. apply list_elem_of_fmap in Hk as (key & -> & Hk). exists key. split; [done|]. by apply due_keys_spec.
  - right. split; [done|]. intros key <- Hd. apply Hk, list_elem_of_fmap_2, due_keys_spec; done.
Qed.

(** ** Properties *)

(** What happens to an engine: requests and rounds of the timers. *)
Inductive engine_run (e0 : Engine) : Engine -> Prop :=
  | run_start : engine_run e0 e0
  | run_command e env sync sv sess cmds e' sv' reply :
      engine_run e0 e -> HandleCommand env sync e sv sess cmds = Some (e', sv', reply) -> engine_run e0 e'
  | run_timers e now clock : engine_run e0 e -> engine_run e0 (fire_timers now clock e).

Lemma Engine_new_timers policy limit : timers_ok (Engine_new policy limit).
Proof.
  split; [split; apply NoDup_nil_2 || apply Forall_nil_2|intros key id H; cbn in H; by rewrite lookup_empty in H|intros ev H; by apply not_elem_of_nil in H].
Qed.

Lemma engine_run_timers policy limit e : engine_run (Engine_new policy limit) e -> timers_ok e.
Proof.
  intros H. induction H as [|e env sync sv sess cmds e' sv' reply Hrun IH E|e now clock Hrun IH].
  - apply Engine_new_timers.
  - by eapply HandleCommand_timers.
  - by apply fire_timers_ok.
Qed.

(** C27. The expirations never dangle: whatever requests are served (well formed or
    not, replayed or not, with evictions or without) and whatever timers fire, in
    any order and at any clock, every [TimeEvent *] of [sExpiresMap] points to a
    live event, which fires once and whose callback removes that very key, and no
    key has two timers. *)
Theorem expirations_never_dangle (policy limit : Z) (e : Engine) (key : list ascii) (id : Z) :
  engine_run (Engine_new policy limit) e -> sExpiresMap e !! key = Some id ->
  exists ev, deref e id = Some ev /\ tev_count ev = 1 /\ callbacks e !! id = Some key /\
    forall ev', ev' ∈ event_list_ (tev_holder e) -> callbacks e !! tev_id ev' = Some key -> ev' = ev.
Proof.
  intros Hrun Hm. pose proof (engine_run_timers _ _ _ Hrun) as H.
  destruct (entry_deref e key id H Hm) as (ev & Ed & Hin & Eid & Hc). exists ev. split; [done|].
  split; [by apply (t_event e H ev)|]. split; [done|]. intros ev' Hin' Hc'.
  destruct (t_event e H ev' Hin') as (_ & key' & Hk & Hm'). rewrite Hc' in Hk. injection Hk as <-.
  rewrite Hm in Hm'. injection Hm' as ->. pose proof (deref_in e ev' (t_ids e H) Hin') as E. rewrite E in Ed. by injection Ed.
Qed.

(** The rounds of the timers, and the keys that are due in one of them. *)
Definition fire_rounds (rounds : list (Z * list Z)) (e : Engine) : Engine :=
  foldl (λ e r, fire_timers r.1 r.2 e) e rounds.

Definition due_in (rounds : list (Z * list Z)) (e : Engine) (key : list ascii) : Prop :=
  Exists (λ r, due r.1 e key) rounds.

(** C29. A key with an expiration is removed, and no other: over any number of rounds
    of the event loop, the keys whose deadline some round has reached are gone from
    the store, with their expiration, and every other key keeps its value and its
    deadline. *)
Theorem expired_keys_removed (rounds : list (Z * list Z)) : forall (e : Engine) (m : astore),
  timers_ok e -> kv_repr (container_ e) m ->
  exists m', kv_repr (container_ (fire_rounds rounds e)) m' /\
    (forall key, due_in rounds e key -> m' !! Key_std key = None /\ deadline (fire_rounds rounds e) key = None) /\
    (forall key, ~ due_in rounds e key -> deadline (fire_rounds rounds e) key = deadline e key) /\
    (forall k, (forall key, Key_std key = k -> ~ due_in rounds e key) -> m' !! k = m !! k) /\
    (forall k, m !! k = None -> m' !! k = None).
Proof.
  induction rounds as [|[now clock] rounds IH]; intros e m H Hr.
  { exists m. split; [done|]. split; [|done]. intros key Hd. by inversion Hd. }
  cbn [fire_rounds foldl fst snd]. set (e1 := fire_timers now clock e).
  destruct (IH e1 (without_due now e m)) as (m' & Hr' & Hdue & Hnot & Hsame & Hnone);
    [by apply fire_timers_ok|by apply fire_timers_repr|].
  assert (forall key, due now e key -> ~ due_in rounds e1 key) as Hgone.
  { intros key Hd Hx. apply Exists_exists in Hx as (r & _ & Hr1). unfold due in Hr1. revert Hr1.
    unfold e1. by rewrite fire_timers_deadline, decide_True. }
  assert (forall key, ~ due now e key -> deadline e1 key = deadline e key) as Hkeep.
  { intros key Hd. unfold e1. by rewrite fire_timers_deadline, decide_False. }
  assert (forall key, due_in ((now, clock) :: rounds) e key <-> due now e key \/ due_in rounds e1 key) as Hin.
  { intros key. unfold due_in. rewrite Exists_cons. cbn [fst]. destruct (decide (due now e key)) as [Hd|Hd]; [tauto|].
    rewrite !Exists_exists. unfold due. rewrite (Hkeep key Hd). tauto. }
  exists m'. split; [exact Hr'|]. split; [|split; [|split]].
  - intros key Hd. apply Hin in Hd as [Hd|Hd]; [|by apply Hdue]. split.
    + apply Hnone. destruct (without_due_lookup e m now (Key_std key) H) as [[E _]|[_ E]]; [done|by destruct (E key)].
    + rewrite Hnot by (by apply Hgone). unfold e1. by rewrite fire_timers_deadline, decide_True.
  - intros key Hd. rewrite Hin in Hd. rewrite Hnot by tauto. apply Hkeep. tauto.
  - intros k Hd. rewrite Hsame by (intros key Ek Hx; apply (Hd key Ek), Hin; by right).
    destruct (without_due_lookup e m now k H) as [[_ (key & Ek & Hx)]|[E _]]; [|done].
    destruct (Hd key Ek). apply Hin. by left.
  - intros k Hk. apply Hnone. by destruct (without_due_lookup e m now k H) as [[E _]|[E _]]; rewrite E.
Qed.

(** A small run: two keys with an expiration. *)
Definition exec (e : Engine) (args : list (list ascii)) : Engine :=
  default e ((λ x, x.1.1) <$> HandleCommand quiet_env true e no_server None (request args)).

Lemma exec_run e0 e args : engine_run e0 e -> engine_run e0 (exec e args).
Proof.
  intros H. unfold exec. destruct (HandleCommand _ _ _ _ _ _) as [[[e' sv] r]|] eqn:E; [|done]. by eapply run_command.
Qed.

Definition soon_engine : Engine :=
  foldl exec (Engine_new EVICTION_POLICY_RANDOM 1000000)
    [[bs "set"; bs "a"; bs "1"]; [bs "set"; bs "b"; bs "2"]; [bs "expire"; bs "a"; bs "5"]; [bs "expire"; bs "b"; bs "60"]].

Lemma soon_engine_run : engine_run (Engine_new EVICTION_POLICY_RANDOM 1000000) soon_engine.
Proof. unfold soon_engine. cbn [foldl]. repeat apply exec_run. apply run_start. Qed.

Lemma soon_engine_holds : sExpiresMap soon_engine !! bs "b" = Some 2 /\ deadline soon_engine (bs "a") = Some 6000 /\
  deadline soon_engine (bs "b") = Some 61000.
Proof. by vm_compute. Qed.

Lemma expirations_never_dangle_witness : exists ev, deref soon_engine 2 = Some ev /\ tev_count ev = 1 /\
  callbacks soon_engine !! 2 = Some (bs "b") /\
  forall ev', ev' ∈ event_list_ (tev_holder soon_engine) -> callbacks soon_engine !! tev_id ev' = Some (bs "b") -> ev' = ev.
Proof.
  exact (expirations_never_dangle EVICTION_POLICY_RANDOM 1000000 soon_engine (bs "b") 2 soon_engine_run (proj1 soon_engine_holds)).
Defined.

(** The same timers beside a container of which the store is known. *)
Lemma soon_store : exists e, timers_ok e /\ kv_repr (container_ e) (<[Key_std (bs "a") := AInt 1]> ∅) /\
  deadline e (bs "a") = Some 6000 /\ (forall key, deadline e key = deadline soon_engine key) /\ rss_limit e = 1000000 /\
  appending_ e = None.
Proof.
  destruct (HandleCommand_serves quiet_env true new_engine ∅ (CSet (bs "a") (bs "1")) (bs "set"))
    as (e & reply & _ & _ & Hr & _); [apply KVContainer_new_repr|apply set_ok; unfold small; by vm_compute|by vm_compute..|].
  exists (with_data (container_ e) None soon_engine). split; [apply timers_ok_data; by eapply engine_run_timers, soon_engine_run|].
  split; [exact Hr|]. split; [apply soon_engine_holds|]. split; [done|]. split; [by vm_compute|done].
Qed.

Lemma expired_keys_removed_witness : exists e m', deadline e (bs "a") = Some 6000 /\
  kv_repr (container_ (fire_rounds [(5000, []); (7000, [])] e)) m' /\ m' !! Key_std (bs "a") = None.
Proof.
  destruct soon_store as (e & H & Hr & Hd & _).
  destruct (expired_keys_removed [(5000, []); (7000, [])] e _ H Hr) as (m' & Hr' & Hdue & _).
  exists e, m'. split; [done|]. split; [done|]. apply Hdue. right; left. unfold due. rewrite Hd. cbn [fst]. lia.
Defined.

(** A command of the engine, without eviction. *)
Lemma engine_command env sync e sv sess name args h : IfNeedKeyEviction env e = false ->
  find_op sOpCommandMap name = Some (OnEngine h) -> tolower <$> name = name ->
  HandleCommand env sync e sv sess (request (name :: args)) =
    ('(e', reply) ← h env (with_data (container_ e) ((λ a, SetAutoFlush a sync) <$> appending_ e) e) (request (name :: args)) sync;
     Some (e', sv, reply)).
Proof.
  intros He Hf Hl. unfold HandleCommand. cbn [argc argv request inited]. rewrite Z.eqb_refl.
  cbn [negb lookup list_lookup mbind option_bind]. rewrite Hl, Hf. unfold lazy_eviction.
  change (IfNeedKeyEviction env (with_data _ _ e)) with (IfNeedKeyEviction env e). rewrite He. done.
Qed.

(** C30. [expire key n], for [n >= 0] seconds: an absent key answers 0 and nothing
    changes; otherwise the answer is 1, the deadline of the key becomes the clock and
    [n] seconds, whether it had one or not, no other deadline changes, and the log
    gets [expireat] with the absolute time. With [n = 0] a key without a deadline is
    removed at once, one with a deadline by the next round of the timers. *)
Theorem expire_command (env : Env) (e : Engine) (sv : Server) (sess : option (list ascii)) (m : astore)
    (key : list ascii) (n : Z) :
  kv_repr (container_ e) m -> timers_ok e -> IfNeedKeyEviction env e = false -> 0 <= n <= INT64_MAX ->
  exists e' reply, HandleCommand env true e sv sess (request [bs "expire"; key; to_string n]) = Some (e', sv, reply) /\
    match m !! Key_std key with
    | None => reply = bs ":0" ++ CRLF /\ container_ e' = container_ e /\ sExpiresMap e' = sExpiresMap e /\
        tev_holder e' = tev_holder e /\ appending_ e' = (λ a, SetAutoFlush a true) <$> appending_ e
    | Some _ =>
        let now_or_never := (n =? 0) && bool_decide (deadline e key = None) in
        reply = bs ":1" ++ CRLF /\ timers_ok e' /\
        deadline e' key = (if now_or_never then None else Some (u64 (now_ms env + u64 (n * 1000)))) /\
        (forall key', key' <> key -> deadline e' key' = deadline e key') /\
        kv_repr (container_ e') (if now_or_never then delete (Key_std key) m else m) /\
        appending_ e' = (λ a, aof_Append (SetAutoFlush a true)
          (request [bs "expireat"; key; to_string (u64 (log_sec env + n))])) <$> appending_ e
    end.
Proof.
  intros Hr Ht He Hn. rewrite (engine_command env true e sv sess (bs "expire") _ ExpireCommand) by done.
  set (e0 := with_data _ _ e). unfold ExpireCommand. change (CheckSyntax _ 1 1 false) with true.
  cbn [argv request lookup list_lookup mbind option_bind]. unfold KeyExists_skey.
  change (container_ e0) with (container_ e). rewrite (KeyExists_spec _ _ Hr).
  destruct (m !! Key_std key) as [a|] eqn:Em.
  2: { rewrite bool_decide_false by (by intros [? ?]). eexists _, _. split; [done|]. done. }
  rewrite bool_decide_true by done. cbn [negb].
  rewrite (proj2 (CanConvertToInt64_iff (to_string n) n)) by (split; [unfold in_i64, INT64_MIN, INT64_MAX in *; lia|done]).
  assert (timers_ok e0) as Ht0 by (by apply timers_ok_data).
  destruct (expire_timer_sets env e0 key n Ht0) as (e1 & -> & (Hok & Hd & Ho) & Hc & Ha). cbn [mbind option_bind].
  change (deadline e0 key) with (deadline e key) in *.
  assert (expire_log env e1 (request [bs "expire"; key; to_string n]) key n true =
    Some ((λ a, aof_Append (SetAutoFlush a true) (request [bs "expireat"; key; to_string (u64 (log_sec env + n))])) <$>
            appending_ e)) as ->.
  { unfold expire_log. replace (n >=? 0) with true by lia. rewrite Ha. cbn [appending_ with_data e0]. by destruct (appending_ e). }
  cbn [mbind option_bind]. eexists _, _. split; [reflexivity|]. split; [done|]. split; [by apply timers_ok_data|].
  split; [|split; [exact Ho|split; [|done]]].
  - change (deadline (with_data _ _ e1) key) with (deadline e1 key). rewrite Hd. unfold new_deadline.
    destruct (Z.eqb_spec n 0) as [->|Hz]; [|by replace (n >? 0) with true by lia].
    cbn [Z.gtb Z.compare orb andb]. by destruct (deadline e key) as [w|].
  - cbn [container_ with_data]. rewrite Hc. destruct ((n =? 0) && _); [by apply kv_Delete_repr|done].
Qed.

Lemma expire_command_witness : exists e e' reply,
  HandleCommand quiet_env true e no_server None (request [bs "expire"; bs "a"; bs "30"]) = Some (e', no_server, reply) /\
  reply = bs ":1" ++ CRLF /\ deadline e' (bs "a") = Some 31000 /\ deadline e' (bs "b") = Some 61000.
Proof.
  destruct soon_store as (e & H & Hr & Hd & Hall & Hrss & _).
  destruct (expire_command quiet_env e no_server None _ (bs "a") 30 Hr H) as (e' & reply & E & Hm).
  - unfold IfNeedKeyEviction. by rewrite Hrss.
  - unfold INT64_MAX. lia.
  - rewrite lookup_insert_eq in Hm. destruct Hm as (E1 & _ & E2 & E3 & _). exists e, e', reply. split; [exact E|].
    split; [done|]. split; [rewrite E2; by vm_compute|]. rewrite E3 by done. rewrite Hall. apply soon_engine_holds.
Defined.

(** [ttl key] changes nothing and answers -2 for an absent key, -1 for a key
    that does not expire, and otherwise the whole seconds from the clock to the
    deadline; but when the deadline is past and its timer has still to fire, the
    difference wraps around and the answer is some 584 million years. *)
Lemma ttl_command (env : Env) (sync : bool) (e : Engine) (sv : Server) (sess : option (list ascii)) (m : astore)
    (key : list ascii) :
  kv_repr (container_ e) m -> timers_ok e -> IfNeedKeyEviction env e = false -> in_u64 (now_ms env) ->
  (forall w, deadline e key = Some w -> in_u64 w) ->
  HandleCommand env sync e sv sess (request [bs "ttl"; key]) =
    Some (with_data (container_ e) ((λ a, SetAutoFlush a sync) <$> appending_ e) e, sv,
      bs ":" ++ to_string
        (match m !! Key_std key, deadline e key with
         | None, _ => -2
         | Some _, None => -1
         | Some _, Some w => (if now_ms env <=? w then w - now_ms env else 2 ^ 64 + w - now_ms env) / 1000
         end) ++ CRLF).
Proof.
  intros Hr Ht He Hnow Hw. rewrite (engine_command env sync e sv sess (bs "ttl") _ TTLCommand) by done.
  set (e0 := with_data _ _ e). unfold TTLCommand. change (CheckSyntax _ 1 0 false) with true.
  cbn [argv request lookup list_lookup mbind option_bind]. unfold KeyExists_skey.
  change (container_ e0) with (container_ e). rewrite (KeyExists_spec _ _ Hr).
  destruct (m !! Key_std key) as [a|]; [|by rewrite bool_decide_false by (by intros [? ?])].
  rewrite bool_decide_true by done. cbn [negb]. change (sExpiresMap e0) with (sExpiresMap e).
  destruct (sExpiresMap e !! key) as [id|] eqn:Em; [|by rewrite (proj1 (deadline_none e key Ht) Em)].
  destruct (entry_deref e key id Ht Em) as (ev & Ed & _). change (deref e0 id) with (deref e id).
  assert (deadline e key = Some (tev_when ev)) as E by (unfold deadline; rewrite Em; cbn [mbind option_bind]; by rewrite Ed).
  rewrite Ed, E in *. cbn [mbind option_bind]. specialize (Hw _ eq_refl). unfold in_u64, PackIntReply in *.
  set (d := if now_ms env <=? tev_when ev then tev_when ev - now_ms env else 2 ^ 64 + tev_when ev - now_ms env).
  assert (u64 (tev_when ev - now_ms env) = d /\ in_u64 d) as [-> Hd].
  { unfold d, in_u64, UINT64_MAX in *. destruct (Z.leb_spec (now_ms env) (tev_when ev)).
    - split; [apply u64_small; unfold in_u64, UINT64_MAX; lia|lia].
    - split; [|lia]. unfold u64, uwrap. rewrite <- (Z.mod_add _ 1) by lia. rewrite Z.mod_small by lia. lia. }
  rewrite i64_small; [done|]. unfold in_i64, in_u64, INT64_MIN, INT64_MAX, UINT64_MAX in *.
  pose proof (Z.div_pos d 1000 ltac:(lia) ltac:(lia)). pose proof (Z.div_le_upper_bound d 1000 (2 ^ 62) ltac:(lia)). lia.
Qed.

Lemma ttl_command_witness : exists e,
  HandleCommand (mkEnv 7000 7 7 0 (mkDraws [] 0 []) (mkDraws [] 0 []) [] false) true e no_server None (request [bs "ttl"; bs "a"]) =
    Some (with_data (container_ e) ((λ a, SetAutoFlush a true) <$> appending_ e) e, no_server,
      bs ":18446744073709550" ++ CRLF).
Proof.
  destruct soon_store as (e & H & Hr & Hd & _ & Hrss & _). exists e.
  rewrite (ttl_command _ true e no_server None _ (bs "a") Hr H).
  - rewrite Hd, lookup_insert_eq. by vm_compute.
  - unfold IfNeedKeyEviction. by rewrite Hrss.
  - split; by vm_compute.
  - intros w E. rewrite Hd in E. injection E as <-. by split.
Defined.
