(* ===== verification/Skiplist.v ===== *)
(** * Skiplist: the skip list (src/skiplist.h, skiplist.cpp)

    A list of nodes ordered by a score and a string, with shortcuts at up to
    [kMaxLevel] levels. The nodes are in a heap indexed by address; [None] is an
    access through a null or freed pointer or outside an array of pointers. The
    random levels are drawn from a list of coin throws. *)

From S2P Require Import Prelude Str Numerals.
From stdpp Require Import list gmap fin_maps.

Local Open Scope Z_scope.

Definition kMaxLevel : nat := 32.

(** ** Nodes *)

Record SKNode := mkSKNode {
  sk_score : Z;
  sk_data : DynamicString;
  sk_prev : option nat;
  sk_nexts : list (option nat);   (* an array of [sk_level] pointers *)
  sk_level : nat
}.

Definition SKNode_new (score : Z) (data : DynamicString) (lv : nat) : option SKNode :=
  data ← DynamicString_copy always_ok data;
  Some (mkSKNode score data None (replicate lv None) lv).

(** The constructor that moves the string in. *)
Definition SKNode_move (score : Z) (data : DynamicString) (lv : nat) : SKNode :=
  mkSKNode score (DynamicString_move data).1 None (replicate lv None) lv.

(** [strncmp] on the two buffers, [n] being at most both lengths. *)
Fixpoint strncmp (a b : list ascii) (n : nat) : comparison :=
  match n, a, b with
  | S n, x :: a, y :: b =>
      match Z.compare (Z_of_byte x) (Z_of_byte y) with
      | Eq => if decide (x = NUL) then Eq else strncmp a b n
      | c => c
      end
  | _, _, _ => Eq
  end.

(** [SKNode::operator==]. *)
Definition SKNode_eqb (a b : SKNode) : bool :=
  (ds_len (sk_data a) =? ds_len (sk_data b)) &&
  match strncmp (ds_data (sk_data a)) (ds_data (sk_data b)) (Z.to_nat (ds_len (sk_data a))) with Eq => true | _ => false end.

(** [SKNodeComparator]. *)
Definition comparator_ (score : Z) (data : DynamicString) (b : SKNode) : Z :=
  if score =? sk_score b then
    let len1 := ds_len data in
    let len2 := ds_len (sk_data b) in
    match strncmp (ds_data data) (ds_data (sk_data b)) (Z.to_nat (Z.min len1 len2)) with
    | Eq => if len1 =? len2 then 0 else if len1 <? len2 then -1 else 1
    | Lt => -1
    | Gt => 1
    end
  else if score <? sk_score b then -1 else 1.

(** ** The list *)

Abbreviation heap := (gmap nat SKNode).

Record Skiplist := mkSkiplist {
  sk_heap : heap;
  sk_fresh : nat;            (* the next address [new] returns *)
  head_ : option nat;
  count_ : Z;                (* size_t *)
  cur_max_level_ : Z         (* uint8_t *)
}.

Definition Skiplist_new : option Skiplist :=
  data ← DynamicString_std always_ok [];
  Some (mkSkiplist {[ O := SKNode_move INT64_MIN data kMaxLevel ]} 1 (Some O) 0 0).

(** The constructors that take a list ignore it. *)
Definition Skiplist_of {A : Type} (list : list A) : option Skiplist :=
  data ← DynamicString_std always_ok [];
  Some (mkSkiplist {[ O := SKNode_move 0 data kMaxLevel ]} 1 (Some O) 0 0).

(** *** Pointers *)

(** [p->nexts\[l\]]. *)
Definition next_at (h : heap) (p l : nat) : option (option nat) :=
  n ← h !! p; sk_nexts n !! l.

(** [p->nexts\[l\] = q]. *)
Definition set_next (h : heap) (p l : nat) (q : option nat) : option heap :=
  n ← h !! p;
  _ ← sk_nexts n !! l;
  Some (<[p := mkSKNode (sk_score n) (sk_data n) (sk_prev n) (<[l := q]> (sk_nexts n)) (sk_level n)]> h).

(** [p->prev = q]. *)
Definition set_prev (h : heap) (p : nat) (q : option nat) : option heap :=
  n ← h !! p;
  Some (<[p := mkSKNode (sk_score n) (sk_data n) q (sk_nexts n) (sk_level n)]> h).

(** [comparator_(score, target, *q)]. *)
Definition compare_at (h : heap) (score : Z) (target : DynamicString) (q : nat) : option Z :=
  n ← h !! q; Some (comparator_ score target n).

(** *** Searching *)

(** [while (cur->nexts\[l\] && comparator_(...) > 0) cur = cur->nexts\[l\];] *)
Fixpoint walk (fuel : nat) (h : heap) (score : Z) (target : DynamicString) (l cur : nat) : option nat :=
  match fuel with
  | O => None
  | S fuel =>
      nx ← next_at h cur l;
      match nx with
      | None => Some cur
      | Some q =>
          c ← compare_at h score target q;
          if c >? 0 then walk fuel h score target l q else Some cur
      end
  end.

(** No list is longer than the heap. *)
Definition walk_level (h : heap) := walk (S (size h)) h.

(** The loop over the levels [n - 1], ..., 0. *)
Fixpoint find_path (h : heap) (score : Z) (target : DynamicString) (n cur : nat) (path : list (option nat))
  : option (nat * list (option nat)) :=
  match n with
  | O => Some (cur, path)
  | S l =>
      cur ← walk_level h score target l cur;
      find_path h score target l cur (<[l := Some cur]> path)
  end.

(** [Find] with a path, and without. *)
Definition Find_path (s : Skiplist) (score : Z) (target : DynamicString) (start : Z) (path : list (option nat))
  : option (nat * list (option nat)) :=
  cur ← head_ s;
  find_path (sk_heap s) score target (Z.to_nat (start + 1)) cur path.

Fixpoint find_down (h : heap) (score : Z) (target : DynamicString) (n cur : nat) : option nat :=
  match n with
  | O => Some cur
  | S l => cur ← walk_level h score target l cur; find_down h score target l cur
  end.

Definition Find (s : Skiplist) (score : Z) (target : DynamicString) (start : Z) : option nat :=
  cur ← head_ s;
  find_down (sk_heap s) score target (Z.to_nat (start + 1)) cur.

(** *** Insertion *)

(** [GenRandomLevel], from the throws of [ZeroOrOne]. *)
Fixpoint gen_level (fuel : nat) (level : nat) (throws : list bool) : nat :=
  match fuel, throws with
  | S fuel, true :: throws => gen_level fuel (S level) throws
  | _, _ => level
  end.

Definition GenRandomLevel (throws : list bool) : nat := gen_level (kMaxLevel - 1) 1 throws.

Definition empty_path : list (option nat) := replicate kMaxLevel None.

(** The loop that links the new node in at each of its levels. *)
Fixpoint link (h : heap) (new_node : nat) (path : list (option nat)) (levels : list nat) : option heap :=
  match levels with
  | [] => Some h
  | l :: levels =>
      p ← path !! l; p ← p;
      nx ← next_at h p l;
      h ← set_next h new_node l nx;
      h ← set_next h p l (Some new_node);
      link h new_node path levels
  end.

Definition Insert (throws : list bool) (s : Skiplist) (score : Z) (target : DynamicString)
  : option (Skiplist * bool) :=
  match head_ s with
  | None => Some (s, false)
  | Some head =>
      first ← next_at (sk_heap s) head 0;
      match first with
      | None =>
          node ← SKNode_new score target 1;
          let new_node := sk_fresh s in
          h ← set_next (<[new_node := node]> (sk_heap s)) head 0 (Some new_node);
          h ← set_prev h new_node (Some head);
          Some (mkSkiplist h (S (sk_fresh s)) (Some head) (u64 (count_ s + 1)) 1, true)
      | Some _ =>
          let level := GenRandomLevel throws in
          '(cur, path) ← Find_path s score target (Z.of_nat level - 1) empty_path;
          after ← next_at (sk_heap s) cur 0;
          same ← match after with
                 | Some q => c ← compare_at (sk_heap s) score target q; Some (c =? 0)
                 | None => Some false
                 end;
          if same : bool then Some (s, false)
          else
            node ← SKNode_new score target level;
            let new_node := sk_fresh s in
            h ← link (<[new_node := node]> (sk_heap s)) new_node path (seq 0 level);
            h ← match after with Some q => set_prev h q (Some new_node) | None => Some h end;
            h ← set_prev h new_node (Some cur);
            Some (mkSkiplist h (S (sk_fresh s)) (Some head) (u64 (count_ s + 1))
                    (Z.max (cur_max_level_ s) (Z.of_nat level)), true)
      end
  end.

Definition Contains (s : Skiplist) (score : Z) (target : DynamicString) : option bool :=
  match head_ s with
  | None => Some false
  | Some head =>
      first ← next_at (sk_heap s) head 0;
      match first with
      | None => Some false
      | Some _ =>
          node ← Find s score target (cur_max_level_ s - 1);
          nx ← next_at (sk_heap s) node 0;
          match nx with
          | None => Some false
          | Some q => c ← compare_at (sk_heap s) score target q; Some (c =? 0)
          end
      end
  end.

(** *** Removal *)

(** The loop over the levels [n - 1], ..., 0. *)
Fixpoint unlink (h : heap) (score : Z) (target : DynamicString) (del_node : nat) (path : list (option nat)) (n : nat)
  : option heap :=
  match n with
  | O => Some h
  | S l =>
      p ← path !! l;
      h ← match p with
          | None => Some h
          | Some p =>
              nx ← next_at h p l;
              match nx with
              | None => Some h
              | Some q =>
                  c ← compare_at h score target q;
                  if c =? 0 then
                    nx ← next_at h del_node l;
                    set_next h p l nx
                  else Some h
              end
          end;
      unlink h score target del_node path l
  end.

(** [while (head_->nexts\[cur_max_level_ - 1\] == nullptr && cur_max_level_ > 0) --cur_max_level_;]:
    the array is read before the level is tested. *)
Fixpoint lower_level (h : heap) (head n : nat) : option nat :=
  match n with
  | O => None
  | S l =>
      nx ← next_at h head l;
      match nx with
      | None => lower_level h head l
      | Some _ => Some n
      end
  end.

Definition Remove (s : Skiplist) (score : Z) (target : DynamicString) : option (Skiplist * bool) :=
  match head_ s with
  | None => Some (s, false)
  | Some head =>
      first ← next_at (sk_heap s) head 0;
      match first with
      | None => Some (s, false)
      | Some _ =>
          '(cur, path) ← Find_path s score target (cur_max_level_ s - 1) empty_path;
          nx ← next_at (sk_heap s) cur 0;
          match nx with
          | None => Some (s, false)
          | Some del_node =>
              c ← compare_at (sk_heap s) score target del_node;
              if negb (c =? 0) then Some (s, false)
              else
                h ← unlink (sk_heap s) score target del_node path (Z.to_nat (cur_max_level_ s));
                after ← next_at h del_node 0;
                h ← match after with Some q => set_prev h q (Some cur) | None => Some h end;
                node ← h !! del_node;
                level ← if Z.of_nat (sk_level node) =? cur_max_level_ s
                        then Z.of_nat <$> lower_level h head (Z.to_nat (cur_max_level_ s))
                        else Some (cur_max_level_ s);
                Some (mkSkiplist (delete del_node h) (sk_fresh s) (Some head) (u64 (count_ s - 1)) level, true)
          end
      end
  end.

(** *** The whole list *)

Fixpoint gather (fuel : nat) (h : heap) (cur : option nat) : option (list nat) :=
  match cur with
  | None => Some []
  | Some p =>
      match fuel with
      | O => None
      | S fuel =>
          nx ← next_at h p 0;
          nodes ← gather fuel h nx;
          Some (p :: nodes)
      end
  end.

Definition GatherAllNodes (s : Skiplist) (include_head : bool) : option (list nat) :=
  head ← head_ s;
  start ← if include_head then Some (Some head) else next_at (sk_heap s) head 0;
  gather (size (sk_heap s)) (sk_heap s) start.

Definition GetAllSKNodes (s : Skiplist) : option (list nat) := GatherAllNodes s false.

(** [delete node] for each. *)
Fixpoint delete_all (h : heap) (nodes : list nat) : option heap :=
  match nodes with
  | [] => Some h
  | p :: nodes => _ ← h !! p; delete_all (delete p h) nodes
  end.

Fixpoint null_nexts (h : heap) (head : nat) (levels : list nat) : option heap :=
  match levels with
  | [] => Some h
  | l :: levels => h ← set_next h head l None; null_nexts h head levels
  end.

Definition sk_Clear (s : Skiplist) : option Skiplist :=
  match head_ s with
  | None => Some s
  | Some head =>
      if count_ s =? 0 then Some s
      else
        nodes ← GatherAllNodes s false;
        h ← delete_all (sk_heap s) nodes;
        h ← null_nexts h head (seq 0 kMaxLevel);
        Some (mkSkiplist h (sk_fresh s) (Some head) 0 0)
  end.

(** [~Skiplist]. *)
Definition Skiplist_free (s : Skiplist) : option Skiplist :=
  nodes ← GatherAllNodes s true;
  h ← delete_all (sk_heap s) nodes;
  Some (mkSkiplist h (sk_fresh s) None 0 0).

Definition sk_Count (s : Skiplist) : Z := count_ s.
Definition sk_Empty (s : Skiplist) : bool := count_ s =? 0.
Definition CurMaxLevel (s : Skiplist) : Z := cur_max_level_ s.

Definition Begin (s : Skiplist) : option (option nat) := head ← head_ s; next_at (sk_heap s) head 0.

(** [while (cur->nexts\[l\]) cur = cur->nexts\[l\];] *)
Fixpoint walk_end (fuel : nat) (h : heap) (l cur : nat) : option nat :=
  match fuel with
  | O => None
  | S fuel =>
      nx ← next_at h cur l;
      match nx with None => Some cur | Some q => walk_end fuel h l q end
  end.

Fixpoint end_down (h : heap) (n cur : nat) : option nat :=
  match n with
  | O => Some cur
  | S l => cur ← walk_end (S (size h)) h l cur; end_down h l cur
  end.

Definition End (s : Skiplist) : option (option nat) :=
  head ← head_ s;
  first ← next_at (sk_heap s) head 0;
  match first with
  | None => Some None
  | Some _ => cur ← end_down (sk_heap s) kMaxLevel head; Some (Some cur)
  end.

(** [operator\[\]]: [inl] is the exception, and the element is always the first. *)
Definition sk_index (s : Skiplist) (idx : Z) : option (unit + nat) :=
  if idx >=? count_ s then Some (inl tt)
  else
    head ← head_ s;
    first ← next_at (sk_heap s) head 0;
    p ← first;
    _ ← sk_heap s !! p;
    Some (inr p).

(** [operator<<]: the elements, with an arrow behind all but the last. *)
Fixpoint print_nodes (fuel : nat) (h : heap) (p : option nat) (cnt idx : Z) : option (list ascii) :=
  match p with
  | None => Some []
  | Some p =>
      match fuel with
      | O => None
      | S fuel =>
          p ← next_at h p 0;
          match p with
          | None => Some []
          | Some q =>
              n ← h !! q;
              rest ← print_nodes fuel h p cnt (u64 (idx + 1));
              Some (bs "[" ++ to_string (sk_score n) ++ bs ", " ++ ds_stream (sk_data n) ++ bs ", " ++
                    to_string (Z.of_nat (sk_level n)) ++ bs "]" ++ (if idx =? cnt then [] else bs " -> ") ++ rest)
          end
      end
  end.

Definition sk_print (s : Skiplist) : option (list ascii) :=
  print_nodes (size (sk_heap s)) (sk_heap s) (head_ s) (count_ s) 1.
