(* ===== verification/SkiplistOrder.v ===== *)
(** * SkiplistOrder: the order of the skip list's comparator

    [comparator_] is a total order on what it reads of a node. *)

From S2P Require Import Prelude Str.
From stdpp Require Import list sorting.
From S2P Require Import Skiplist.

Local Open Scope Z_scope.

(** ** The order

    What the comparator tells apart: the score, the string up to its first NUL, and
    its length. *)

Definition skey : Type := Z * (list ascii * nat).

Definition key_of (score : Z) (x : list ascii) : skey := (score, (c_str x, length x)).

Definition cmpk (a b : skey) : comparison :=
  match Z.compare a.1 b.1 with
  | Eq => match lex a.2.1 b.2.1 with Eq => Nat.compare a.2.2 b.2.2 | c => c end
  | c => c
  end.

Definition klt (a b : skey) : Prop := cmpk a b = Lt.

Definition sign (c : comparison) : Z := match c with Lt => -1 | Eq => 0 | Gt => 1 end.

Lemma lex_Eq s : forall t, lex s t = Eq <-> s = t.
Proof.
  induction s as [|x s IH]; intros [|y t]; cbn; [done..|]. destruct (Z.compare_spec (Z_of_byte x) (Z_of_byte y)) as [E|E|E].
  - apply Z_of_byte_inj in E as ->. rewrite IH. split; congruence.
  - split; [done|]. intros [= -> _]. lia.
  - split; [done|]. intros [= -> _]. lia.
Qed.

Lemma lex_opp s : forall t, lex t s = CompOpp (lex s t).
Proof.
  induction s as [|x s IH]; intros [|y t]; cbn; [done..|]. rewrite Z.compare_antisym.
  destruct (Z_of_byte x ?= Z_of_byte y); cbn; [apply IH|done|done].
Qed.

Lemma lex_trans s : forall t u, lex s t = Lt -> lex t u = Lt -> lex s u = Lt.
Proof.
  induction s as [|x s IH]; intros [|y t] [|z u]; cbn; try done.
  destruct (Z.compare_spec (Z_of_byte x) (Z_of_byte y)), (Z.compare_spec (Z_of_byte y) (Z_of_byte z));
    destruct (Z.compare_spec (Z_of_byte x) (Z_of_byte z)); try done; try lia. apply IH.
Qed.

Lemma cmpk_Eq a b : cmpk a b = Eq <-> a = b.
Proof.
  destruct a as [s [x n]], b as [t [y m]]. unfold cmpk. cbn.
  destruct (Z.compare_spec s t) as [->|?|?]; [|split; [done|]; intros [= -> _ _]; lia..].
  destruct (lex x y) eqn:E.
  - apply lex_Eq in E as ->. rewrite Nat.compare_eq_iff. split; congruence.
  - split; [done|]. intros [= -> _]. by rewrite (proj2 (lex_Eq y y)) in E.
  - split; [done|]. intros [= -> _]. by rewrite (proj2 (lex_Eq y y)) in E.
Qed.

Lemma cmpk_opp a b : cmpk b a = CompOpp (cmpk a b).
Proof.
  unfold cmpk. rewrite (Z.compare_antisym a.1), (lex_opp a.2.1), (Nat.compare_antisym a.2.2).
  destruct (a.1 ?= b.1), (lex a.2.1 b.2.1); done.
Qed.

Lemma cmpk_Gt a b : cmpk a b = Gt <-> klt b a.
Proof. unfold klt. rewrite (cmpk_opp a b). by destruct (cmpk a b). Qed.

#[export] Instance klt_trans : Transitive klt.
Proof.
  intros [s [x n]] [t [y m]] [u [z k]]. unfold klt, cmpk. cbn.
  destruct (Z.compare_spec s t), (Z.compare_spec t u); destruct (Z.compare_spec s u); try done; try lia.
  destruct (lex x y) eqn:Exy, (lex y z) eqn:Eyz; try done.
  - apply lex_Eq in Exy as ->, Eyz as ->. rewrite (proj2 (lex_Eq z z)) by done. rewrite !Nat.compare_lt_iff. lia.
  - apply lex_Eq in Exy as ->. by rewrite Eyz.
  - apply lex_Eq in Eyz as ->. by rewrite Exy.
  - by rewrite (lex_trans _ _ _ Exy Eyz).
Qed.

Lemma klt_irrefl a : ~ klt a a.
Proof. unfold klt. by rewrite (proj2 (cmpk_Eq a a)). Qed.

#[export] Instance klt_dec a b : Decision (klt a b).
Proof. unfold klt. apply _. Defined.

Lemma c_str_cases a x : (a = NUL /\ c_str (a :: x) = []) \/ (a <> NUL /\ c_str (a :: x) = a :: c_str x).
Proof. cbn [c_str]. destruct (Ascii.eqb_spec a NUL); [by left|by right]. Qed.

(** [strncmp] on a common length, and the lengths, compare the C strings first. *)
Lemma strncmp_lex x : forall y,
  match strncmp x y (min (length x) (length y)) with Eq => Nat.compare (length x) (length y) | c => c end =
  match lex (c_str x) (c_str y) with Eq => Nat.compare (length x) (length y) | c => c end.
Proof.
  induction x as [|a x IH]; intros [|b y]; cbn [length min strncmp]; [done| | |].
  - destruct (c_str_cases b y) as [[_ ->]|[_ ->]]; done.
  - destruct (c_str_cases a x) as [[_ ->]|[_ ->]]; done.
  - cbn [Nat.compare]. pose proof (Z_of_byte_range a). pose proof (Z_of_byte_range b).
    destruct (Z.compare_spec (Z_of_byte a) (Z_of_byte b)) as [E|E|E].
    + apply Z_of_byte_inj in E as ->. destruct (c_str_cases b y) as [[Hb Ey]|[Hb Ey]];
        destruct (c_str_cases b x) as [[Hb' Ex]|[Hb' Ex]]; try done; rewrite Ex, Ey.
      * by rewrite decide_True.
      * rewrite decide_False by done. cbn [lex]. rewrite Z.compare_refl. apply IH.
    + destruct (c_str_cases b y) as [[Hb _]|[_ ->]]; [subst b; change (Z_of_byte NUL) with 0 in E; lia|].
      destruct (c_str_cases a x) as [[_ ->]|[_ ->]]; [done|]. cbn [lex]. by rewrite (proj2 (Z.compare_lt_iff _ _) E).
    + destruct (c_str_cases a x) as [[Ha _]|[_ ->]]; [subst a; change (Z_of_byte NUL) with 0 in E; lia|].
      destruct (c_str_cases b y) as [[_ ->]|[_ ->]]; [done|]. cbn [lex]. by rewrite (proj2 (Z.compare_gt_iff _ _) E).
Qed.

(** What the comparator sees of a node. *)
Definition node_key (n : SKNode) : skey := key_of (sk_score n) (ds_data (sk_data n)).

Definition str_ok (d : DynamicString) : Prop := ds_repr d (ds_data d).

Lemma comparator_spec (score : Z) (d : DynamicString) (n : SKNode) : str_ok d -> str_ok (sk_data n) ->
  comparator_ score d n = sign (cmpk (key_of score (ds_data d)) (node_key n)).
Proof.
  intros Hd Hn. unfold comparator_, cmpk, node_key, key_of. cbn [fst snd].
  rewrite (ds_repr_len _ _ Hd), (ds_repr_len _ _ Hn). destruct (Z.eqb_spec score (sk_score n)) as [->|Hs].
  - rewrite Z.compare_refl. rewrite <- strncmp_lex.
    replace (Z.to_nat _) with (min (length (ds_data d)) (length (ds_data (sk_data n)))) by lia.
    destruct (strncmp _ _ _); [|done..].
    destruct (Z.eqb_spec (Z.of_nat (length (ds_data d))) (Z.of_nat (length (ds_data (sk_data n))))) as [E|E].
    + by rewrite (proj2 (Nat.compare_eq_iff _ _)) by lia.
    + destruct (Z.ltb_spec (Z.of_nat (length (ds_data d))) (Z.of_nat (length (ds_data (sk_data n))))).
      * by rewrite (proj2 (Nat.compare_lt_iff _ _)) by lia.
      * by rewrite (proj2 (Nat.compare_gt_iff _ _)) by lia.
  - destruct (Z.ltb_spec score (sk_score n)).
    + by rewrite (proj2 (Z.compare_lt_iff _ _)).
    + by rewrite (proj2 (Z.compare_gt_iff _ _)) by lia.
Qed.
