(* ===== verification/SkiplistFacts.v ===== *)
(** * SkiplistFacts: the linked structure of the skip list

    The invariant of the nodes, what the search finds, and that it survives a node
    that is linked in or taken out. *)

From S2P Require Import Prelude Str.
From stdpp Require Import list gmap fin_maps fin_sets sorting.
From S2P Require Import Skiplist SkiplistOrder.

Local Open Scope Z_scope.

(** ** The heap *)

(** What the operations do not change in a node, and its back pointer. *)
Definition info (h : heap) (x : nat) : option (Z * DynamicString * nat * nat) :=
  (λ n, (sk_score n, sk_data n, sk_level n, length (sk_nexts n))) <$> h !! x.

Definition prev_at (h : heap) (x : nat) : option (option nat) := sk_prev <$> h !! x.

(** The heaps have the same nodes with the same keys and levels. *)
Definition same_nodes (h h' : heap) : Prop := forall x, info h' x = info h x.

Lemma same_nodes_trans h1 h2 h3 : same_nodes h1 h2 -> same_nodes h2 h3 -> same_nodes h1 h3.
Proof. intros H1 H2 x. by rewrite H2, H1. Qed.

Lemma same_nodes_dom h h' : same_nodes h h' -> dom h' = dom h.
Proof.
  intros H. apply set_eq. intros x. rewrite !elem_of_dom. specialize (H x). unfold info in H.
  destruct (h !! x), (h' !! x); cbn in H; split; intros [? ?]; try done; by eexists.
Qed.

Lemma next_at_some h p l q : next_at h p l = Some q -> exists n, h !! p = Some n /\ sk_nexts n !! l = Some q.
Proof. unfold next_at. destruct (h !! p) as [n|]; [|done]. intros H. by exists n. Qed.

Lemma set_next_spec (h : heap) (p l : nat) (q : option nat) : is_Some (next_at h p l) ->
  exists h', set_next h p l q = Some h' /\ same_nodes h h' /\ (forall x, prev_at h' x = prev_at h x) /\
    forall x m, next_at h' x m = if decide (x = p /\ m = l) then Some q else next_at h x m.
Proof.
  intros [q0 H]. apply next_at_some in H as (n & Hp & Hl). unfold set_next. rewrite Hp. cbn [mbind option_bind]. rewrite Hl.
  eexists. split; [done|]. assert (l < length (sk_nexts n))%nat as Hlt by (by eapply lookup_lt_Some).
  split; [|split].
  - intros x. unfold info. destruct (decide (x = p)) as [->|Hx]; [|by rewrite lookup_insert_ne by done].
    rewrite lookup_insert_eq, Hp. cbn. by rewrite length_insert.
  - intros x. unfold prev_at. destruct (decide (x = p)) as [->|Hx]; [|by rewrite lookup_insert_ne by done].
    by rewrite lookup_insert_eq, Hp.
  - intros x m. unfold next_at. destruct (decide (x = p)) as [->|Hx].
    + rewrite lookup_insert_eq, Hp. cbn [mbind option_bind sk_nexts]. destruct (decide (m = l)) as [->|Hm].
      * rewrite decide_True by done. by rewrite list_lookup_insert_eq.
      * rewrite decide_False by tauto. by rewrite list_lookup_insert_ne.
    + rewrite decide_False by tauto. by rewrite lookup_insert_ne.
Qed.

Lemma set_prev_spec (h : heap) (p : nat) (q : option nat) : is_Some (h !! p) ->
  exists h', set_prev h p q = Some h' /\ same_nodes h h' /\ (forall x m, next_at h' x m = next_at h x m) /\
    forall x, prev_at h' x = if decide (x = p) then Some q else prev_at h x.
Proof.
  intros [n Hp]. unfold set_prev. rewrite Hp. eexists. split; [done|]. split; [|split].
  - intros x. unfold info. destruct (decide (x = p)) as [->|Hx]; [|by rewrite lookup_insert_ne by done].
    by rewrite lookup_insert_eq, Hp.
  - intros x m. unfold next_at. destruct (decide (x = p)) as [->|Hx]; [|by rewrite lookup_insert_ne by done].
    by rewrite lookup_insert_eq, Hp.
  - intros x. unfold prev_at. destruct (decide (x = p)) as [->|Hx].
    + by rewrite lookup_insert_eq.
    + by rewrite lookup_insert_ne by done.
Qed.

Lemma set_prev_opt (h : heap) (oq : option nat) (p : option nat) : (forall q, oq = Some q -> is_Some (h !! q)) ->
  exists h', match oq with Some q => set_prev h q p | None => Some h end = Some h' /\ same_nodes h h' /\
    (forall x m, next_at h' x m = next_at h x m) /\
    forall x, prev_at h' x = if decide (oq = Some x) then Some p else prev_at h x.
Proof.
  intros Hq. destruct oq as [q|]; [|by exists h].
  destruct (set_prev_spec h q p (Hq q eq_refl)) as (h' & E & Hs & Hn & Hp). exists h'.
  split; [done|]. split; [done|]. split; [done|]. intros x. rewrite Hp.
  destruct (decide (x = q)) as [->|Hx]; [by rewrite decide_True|]. rewrite decide_False; [done|]. by intros [= ->].
Qed.

(** ** Chains

    [links h l p xs]: at level [l] the pointers lead from [p] through [xs] to null. *)

Fixpoint links (h : heap) (l p : nat) (xs : list nat) : Prop :=
  match xs with
  | [] => next_at h p l = Some None
  | q :: xs => next_at h p l = Some (Some q) /\ links h l q xs
  end.

Fixpoint tip (p : nat) (xs : list nat) : nat := match xs with [] => p | x :: xs => tip x xs end.

Lemma tip_app p xs ys : tip p (xs ++ ys) = tip (tip p xs) ys.
Proof. revert p. induction xs as [|x xs IH]; intros p; [done|]. apply IH. Qed.

Lemma tip_in p xs : tip p xs ∈ p :: xs.
Proof.
  revert p. induction xs as [|x xs IH]; intros p; [by left|]. cbn [tip]. right. apply IH.
Qed.

Lemma links_next h l p xs : links h l p xs -> next_at h p l = Some (head xs).
Proof. destruct xs; [done|]. by intros [? _]. Qed.

Lemma links_app h l xs ys : forall p, links h l p (xs ++ ys) -> links h l (tip p xs) ys.
Proof. induction xs as [|x xs IH]; intros p H; [done|]. apply IH, H. Qed.

Lemma links_frame h h' l xs : forall p, (forall x, x ∈ p :: xs -> next_at h' x l = next_at h x l) ->
  links h l p xs -> links h' l p xs.
Proof.
  induction xs as [|q xs IH]; intros p Hf H; cbn [links] in *; [by rewrite Hf by (by left)|].
  destruct H as [Hp H]. split; [by rewrite Hf by (by left)|]. apply IH; [|done]. intros x Hx. apply Hf. by right.
Qed.

(** Linking a node in behind [xs]. *)
Lemma links_insert h h' l new ys : forall xs p, NoDup (p :: xs ++ ys) -> links h l p (xs ++ ys) ->
  (forall x, x ∈ p :: xs ++ ys -> x <> tip p xs -> next_at h' x l = next_at h x l) ->
  next_at h' (tip p xs) l = Some (Some new) -> next_at h' new l = next_at h (tip p xs) l ->
  links h' l p (xs ++ new :: ys).
Proof.
  induction xs as [|x xs IH]; intros p Hnd H Hf Ht Hn; cbn [app tip links] in *.
  - split; [done|]. apply NoDup_cons in Hnd as [Hp Hnd]. destruct ys as [|y ys]; cbn [links] in *; [by rewrite Hn|].
    destruct H as [Hpy H]. split; [by rewrite Hn|]. apply (links_frame h); [|done].
    intros z Hz. apply Hf; [by right|]. intros ->. done.
  - apply NoDup_cons in Hnd as [Hp Hnd]. destruct H as [Hpx H]. split.
    + rewrite Hf; [done|by left|]. intros E. apply Hp. rewrite E. pose proof (tip_in x xs) as Hin.
      apply elem_of_cons in Hin as [->|Hin]; [by left|]. right. apply elem_of_app. by left.
    + apply IH; [done..| |done|done]. intros z Hz Hne. apply Hf; [by right|done].
Qed.

(** Unlinking the node [d] behind [xs]. *)
Lemma links_delete h h' l d ys : forall xs p, NoDup (p :: xs ++ d :: ys) -> links h l p (xs ++ d :: ys) ->
  (forall x, x ∈ p :: xs ++ ys -> x <> tip p xs -> next_at h' x l = next_at h x l) ->
  next_at h' (tip p xs) l = next_at h d l ->
  links h' l p (xs ++ ys).
Proof.
  induction xs as [|x xs IH]; intros p Hnd H Hf Ht; cbn [app tip links] in *.
  - apply NoDup_cons in Hnd as [Hp Hnd]. apply NoDup_cons in Hnd as [Hd Hnd]. destruct H as [Hpd H].
    destruct ys as [|y ys]; cbn [links] in *; [by rewrite Ht|]. destruct H as [Hdy H]. split; [by rewrite Ht|].
    apply (links_frame h); [|done]. intros z Hz. apply Hf; [by right|]. intros ->. apply Hp. by right.
  - apply NoDup_cons in Hnd as [Hp Hnd]. destruct H as [Hpx H]. split.
    + rewrite Hf; [done|by left|]. intros E. apply Hp. rewrite E. pose proof (tip_in x xs) as Hin.
      apply elem_of_cons in Hin as [->|Hin]; [by left|]. right. apply elem_of_app. by left.
    + apply IH; [done..| |done]. intros z Hz Hne. apply Hf; [by right|done].
Qed.

(** The back pointers of [xs], which follows [p]. *)
Fixpoint prevs (h : heap) (p : nat) (xs : list nat) : Prop :=
  match xs with
  | [] => True
  | x :: xs => prev_at h x = Some (Some p) /\ prevs h x xs
  end.

Lemma prevs_frame h h' xs : forall p, (forall x, x ∈ xs -> prev_at h' x = prev_at h x) -> prevs h p xs -> prevs h' p xs.
Proof.
  induction xs as [|x xs IH]; intros p Hf H; [done|]. destruct H as [Hx H]. split; [by rewrite Hf by (by left)|].
  apply IH; [|done]. intros y Hy. apply Hf. by right.
Qed.

Lemma prevs_replace h h' xs ys ys' : forall p, NoDup (xs ++ ys) ->
  prevs h p (xs ++ ys) -> (forall x, x ∈ xs -> prev_at h' x = prev_at h x) ->
  (prevs h (tip p xs) ys -> prevs h' (tip p xs) ys') -> prevs h' p (xs ++ ys').
Proof.
  induction xs as [|x xs IH]; intros p Hnd H Hf Ht; cbn [app prevs tip] in *; [by apply Ht|].
  apply NoDup_cons in Hnd as [_ Hnd]. destruct H as [Hx H]. split; [by rewrite Hf by (by left)|].
  apply IH; [done..| |done]. intros y Hy. apply Hf. by right.
Qed.

(** ** The invariant *)

(** A node: its address, its key, its level. *)
Record elem := mkElem { e_id : nat; e_key : skey; e_lv : nat }.

Definition ids (es : list elem) : list nat := e_id <$> es.
Definition keys (es : list elem) : list skey := e_key <$> es.

(** The nodes that take part in level [l]. *)
Definition at_level (l : nat) (es : list elem) : list nat := ids (filter (λ e, l < e_lv e)%nat es).

Lemma at_level_app l a b : at_level l (a ++ b) = at_level l a ++ at_level l b.
Proof. unfold at_level, ids. by rewrite filter_app, fmap_app. Qed.

Lemma at_level_cons l e es : at_level l (e :: es) = (if decide (l < e_lv e)%nat then [e_id e] else []) ++ at_level l es.
Proof.
  unfold at_level, ids. destruct (decide (l < e_lv e)%nat); [by rewrite filter_cons_True|by rewrite filter_cons_False].
Qed.

Lemma at_level_sublist l es : at_level l es `sublist_of` ids es.
Proof. apply (fmap_sublist e_id), sublist_filter. Qed.

Lemma at_level_elem l es x : x ∈ at_level l es <-> exists e, e ∈ es /\ e_id e = x /\ (l < e_lv e)%nat.
Proof.
  unfold at_level, ids. rewrite list_elem_of_fmap. split.
  - intros (e & -> & He). apply list_elem_of_filter in He as [Hl He]. by exists e.
  - intros (e & He & <- & Hl). exists e. split; [done|]. by apply list_elem_of_filter.
Qed.

Record elem_ok (h : heap) (e : elem) : Prop := {
  eo_info : exists sc d, info h (e_id e) = Some (sc, d, e_lv e, e_lv e) /\ str_ok d /\ e_key e = key_of sc (ds_data d);
  eo_level : (1 <= e_lv e <= kMaxLevel)%nat
}.

Record sk_ok (h : heap) (hd : nat) (es : list elem) : Prop := {
  ok_head : exists sc d, info h hd = Some (sc, d, kMaxLevel, kMaxLevel);
  ok_elem : Forall (elem_ok h) es;
  ok_ids : NoDup (hd :: ids es);
  ok_dom : forall x, x ∈ dom h <-> x ∈ hd :: ids es;
  ok_sorted : StronglySorted klt (keys es);
  ok_links : forall l, (l < kMaxLevel)%nat -> links h l hd (at_level l es);
  ok_prev : prevs h hd (ids es)
}.

Lemma at_level_0 h es : Forall (elem_ok h) es -> at_level 0 es = ids es.
Proof.
  intros H. induction H as [|e es He H IH]; [done|]. rewrite at_level_cons, IH.
  by rewrite decide_True by (pose proof (eo_level h e He); lia).
Qed.

Lemma elem_ok_same h h' e : same_nodes h h' -> elem_ok h e -> elem_ok h' e.
Proof. intros Hs [(sc & d & Hi & H) Hl]. split; [|done]. exists sc, d. by rewrite Hs. Qed.

Lemma size_ok h hd es : sk_ok h hd es -> size h = S (length es).
Proof.
  intros H. rewrite <- size_dom. assert (dom h = list_to_set (hd :: ids es)) as ->.
  { apply set_eq. intros x. rewrite (ok_dom h hd es H x). by rewrite elem_of_list_to_set. }
  rewrite size_list_to_set by apply H. cbn. unfold ids. by rewrite length_fmap.
Qed.

(** The comparator on a node of the list. *)
Lemma compare_at_elem h e sc t : elem_ok h e -> str_ok t ->
  compare_at h sc t (e_id e) = Some (sign (cmpk (key_of sc (ds_data t)) (e_key e))).
Proof.
  intros [(sc' & d & Hi & Hd & ->) _] Ht. unfold info in Hi. unfold compare_at.
  destruct (h !! e_id e) as [n|]; [|done]. cbn in Hi. injection Hi as <- <- _ _. cbn [mbind option_bind].
  by rewrite comparator_spec.
Qed.

(** ** Searching *)

Section Search.

Variables (h : heap) (hd : nat) (sc : Z) (t : DynamicString).
Hypothesis (Ht : str_ok t).

Let tk : skey := key_of sc (ds_data t).

(** The list around the target: the nodes before it and the others. *)
Definition split_at (below above : list elem) : Prop :=
  sk_ok h hd (below ++ above) /\ Forall (λ e, klt (e_key e) tk) below /\ Forall (λ e, ~ klt (e_key e) tk) above.

Lemma split_exists es : sk_ok h hd es -> exists below above, es = below ++ above /\ split_at below above.
Proof.
  intros H. assert (exists below above, es = below ++ above /\ Forall (λ e, klt (e_key e) tk) below /\
    Forall (λ e, ~ klt (e_key e) tk) above) as (b & a & -> & Hb & Ha).
  2: { by exists b, a. }
  pose proof (ok_sorted h hd es H) as Hs. clear H. induction es as [|e es IH]; [by exists [], []|].
  cbn [keys fmap list_fmap] in Hs. apply StronglySorted_cons in Hs as [He Hs].
  destruct (decide (klt (e_key e) tk)) as [Hlt|Hlt].
  - destruct (IH Hs) as (b & a & -> & Hb & Ha). exists (e :: b), a. split; [done|]. split; [by constructor|done].
  - exists [], (e :: es). split; [done|]. split; [constructor|]. constructor; [done|].
    apply Forall_forall. intros e' He' Hlt'. apply Hlt. rewrite Forall_forall in He.
    transitivity (e_key e'); [|done]. apply He. by apply list_elem_of_fmap_2.
Qed.

Lemma walk_spec l : forall xs p ys fuel, links h l p (xs ++ ys) ->
  (forall x, x ∈ xs -> exists c, compare_at h sc t x = Some c /\ 0 < c) ->
  (forall y, head ys = Some y -> exists c, compare_at h sc t y = Some c /\ c <= 0) ->
  (length xs < fuel)%nat -> walk fuel h sc t l p = Some (tip p xs).
Proof.
  induction xs as [|x xs IH]; intros p ys fuel H Hx Hy Hf; (destruct fuel as [|fuel]; [lia|]); cbn [app links walk tip] in *.
  - rewrite (links_next _ _ _ _ H). cbn [mbind option_bind]. destruct (head ys) as [y|]; [|done].
    destruct (Hy y eq_refl) as (c & -> & Hc). cbn [mbind option_bind]. by replace (c >? 0) with false by lia.
  - destruct H as [Hp H]. rewrite Hp. cbn [mbind option_bind]. destruct (Hx x ltac:(by left)) as (c & -> & Hc).
    cbn [mbind option_bind]. replace (c >? 0) with true by lia. apply (IH x ys); [done| |done|cbn in Hf; lia].
    intros z Hz. apply Hx. by right.
Qed.

Context (below above : list elem) (Hsplit : split_at below above).

(** The node from which level [l] goes past the target; from level [kMaxLevel] on,
    the head. *)
Definition before (l : nat) : nat := tip hd (at_level l below).

(** Going down from level [m], the walk at level [l] covers what [m] has skipped. *)
Lemma before_split l m : (l <= m)%nat ->
  exists ys zs, at_level l below = ys ++ zs /\ tip hd ys = before m.
Proof.
  intros Hlm. unfold before. clear Hsplit. induction below as [|e es IH] using rev_ind; [by exists [], []|].
  destruct IH as (ys & zs & E & Et). rewrite !at_level_app, !at_level_cons. change (at_level ?k []) with (@nil nat).
  destruct (decide (m < e_lv e)%nat) as [Hm|Hm].
  - rewrite decide_True by lia. exists (at_level l es ++ [e_id e]), []. cbn [app].
    split; [by rewrite app_nil_r|]. by rewrite !tip_app.
  - exists ys, (zs ++ (if decide (l < e_lv e)%nat then [e_id e] else []) ++ []). rewrite E, <- app_assoc.
    split; [done|]. cbn [app]. by rewrite app_nil_r.
Qed.

Lemma walk_level_spec l m : (l < kMaxLevel)%nat -> (l <= m)%nat -> walk_level h sc t l (before m) = Some (before l).
Proof.
  intros Hl Hlm. destruct Hsplit as (Hok & Hb & Ha). destruct (before_split l m Hlm) as (ys & zs & E & Et).
  pose proof (ok_links h hd _ Hok l Hl) as Hlinks. rewrite at_level_app, E, <- app_assoc in Hlinks.
  apply links_app in Hlinks. rewrite Et in Hlinks. pose proof (ok_elem h hd _ Hok) as Hel. rewrite Forall_app in Hel.
  destruct Hel as [Helb Hela]. unfold walk_level. rewrite (walk_spec l zs (before m) (at_level l above) _ Hlinks).
  - unfold before. rewrite E, tip_app. by rewrite Et.
  - intros x Hx. assert (x ∈ at_level l below) as Hin by (rewrite E; apply elem_of_app; by right).
    apply at_level_elem in Hin as (e & He & <- & _). rewrite Forall_forall in Hb, Helb.
    rewrite (compare_at_elem h e sc t (Helb e He) Ht). eexists. split; [done|]. specialize (Hb e He).
    apply cmpk_Gt in Hb. unfold tk in Hb. by rewrite Hb.
  - intros y Hy. assert (y ∈ at_level l above) as Hin by (destruct (at_level l above); [done|]; injection Hy as <-; by left).
    apply at_level_elem in Hin as (e & He & <- & _). rewrite Forall_forall in Ha, Hela.
    rewrite (compare_at_elem h e sc t (Hela e He) Ht). eexists. split; [done|]. specialize (Ha e He).
    destruct (cmpk _ _) eqn:Ec; cbn; [lia|lia|]. destruct Ha. by apply cmpk_Gt.
  - rewrite (size_ok h hd _ Hok). pose proof (sublist_length _ _ (at_level_sublist l below)) as Hlen.
    unfold ids in Hlen. rewrite length_fmap, E, length_app in Hlen. rewrite length_app. lia.
Qed.

Lemma find_down_spec n : forall m, (n <= m)%nat -> (n <= kMaxLevel)%nat ->
  find_down h sc t n (before m) = Some (before (if decide (n = O) then m else 0)).
Proof.
  induction n as [|l IH]; intros m Hm Hn; [done|]. cbn [find_down]. rewrite walk_level_spec by lia. cbn [mbind option_bind].
  rewrite IH by lia. by destruct l.
Qed.

Lemma find_path_spec n : forall m path, (n <= m)%nat -> (n <= kMaxLevel)%nat -> length path = kMaxLevel ->
  exists path', find_path h sc t n (before m) path = Some (before (if decide (n = O) then m else 0), path') /\
    length path' = kMaxLevel /\
    forall l, path' !! l = if decide (l < n)%nat then Some (Some (before l)) else path !! l.
Proof.
  induction n as [|l IH]; intros m path Hm Hn Hp; [by exists path|]. cbn [find_path]. rewrite walk_level_spec by lia.
  cbn [mbind option_bind]. destruct (IH l (<[l := Some (before l)]> path)) as (path' & E & Hlen & H);
    [lia|lia|by rewrite length_insert|].
  exists path'. split; [rewrite E; by destruct l|]. split; [done|]. intros k. rewrite H.
  destruct (decide (k < l)%nat); [by rewrite decide_True by lia|]. destruct (decide (k = l)) as [->|Hk].
  - rewrite decide_True by lia. rewrite list_lookup_insert_eq; [done|]. rewrite Hp. lia.
  - rewrite decide_False by lia. by rewrite list_lookup_insert_ne.
Qed.

Lemma before_max : before kMaxLevel = hd.
Proof.
  destruct Hsplit as (Hok & _). unfold before. destruct (at_level kMaxLevel below) as [|x xs] eqn:E; [done|].
  assert (x ∈ at_level kMaxLevel below) as Hx by (rewrite E; by left).
  apply at_level_elem in Hx as (e & He & _ & Hl). pose proof (ok_elem h hd _ Hok) as Hel. rewrite Forall_forall in Hel.
  pose proof (eo_level h e (Hel e ltac:(apply elem_of_app; by left))). lia.
Qed.

End Search.

(** ** Linking and unlinking *)

Lemma link_levels (new : nat) (pl : nat -> nat) (path : list (option nat)) (levels : list nat) : forall h, NoDup levels ->
  (forall l, l ∈ levels -> path !! l = Some (Some (pl l)) /\ pl l <> new /\ is_Some (next_at h (pl l) l) /\ is_Some (next_at h new l)) ->
  exists h', link h new path levels = Some h' /\ same_nodes h h' /\ (forall x, prev_at h' x = prev_at h x) /\
    forall x m, next_at h' x m =
      if decide (m ∈ levels)
      then if decide (x = new) then next_at h (pl m) m else if decide (x = pl m) then Some (Some new) else next_at h x m
      else next_at h x m.
Proof.
  induction levels as [|l levels IH]; intros h Hnd H; [by exists h|]. apply NoDup_cons in Hnd as [Hl Hnd].
  destruct (H l ltac:(by left)) as (Hpath & Hne & [q Hq] & Hnew). cbn [link]. rewrite Hpath. cbn [mbind option_bind].
  rewrite Hq. cbn [mbind option_bind].
  destruct (set_next_spec h new l q Hnew) as (h1 & -> & Hs1 & Hp1 & Hn1). cbn [mbind option_bind].
  destruct (set_next_spec h1 (pl l) l (Some new)) as (h2 & -> & Hs2 & Hp2 & Hn2).
  { rewrite Hn1, decide_False by (intros [? _]; done). by rewrite Hq. }
  cbn [mbind option_bind]. assert (forall x m, m ∈ levels -> next_at h2 x m = next_at h x m) as Hsame.
  { intros x m Hm. assert (m <> l) by (intros ->; done). rewrite Hn2, Hn1. by rewrite !decide_False by (intros [_ ?]; done). }
  destruct (IH h2 Hnd) as (h' & E & Hs & Hp & Hn).
  { intros m Hm. destruct (H m ltac:(by right)) as (? & ? & ? & ?). by rewrite !Hsame. }
  exists h'. split; [exact E|]. split; [by eapply same_nodes_trans, same_nodes_trans|].
  split; [intros x; by rewrite Hp, Hp2, Hp1|]. intros x m. rewrite Hn. destruct (decide (m ∈ levels)) as [Hm|Hm].
  - rewrite (decide_True (P := m ∈ l :: levels)) by (by right). by rewrite !Hsame by done.
  - rewrite Hn2, Hn1. destruct (decide (m = l)) as [->|Hml].
    + rewrite (decide_True (P := l ∈ l :: levels)) by (by left). destruct (decide (x = new)) as [->|Hx].
      * rewrite decide_False by (intros [E' _]; congruence). rewrite decide_True by done. by rewrite Hq.
      * destruct (decide (x = pl l)) as [->|Hxl]; [by rewrite decide_True|].
        by rewrite !decide_False by tauto.
    + rewrite (decide_False (P := m ∈ l :: levels)) by (rewrite elem_of_cons; tauto). by rewrite !decide_False by tauto.
Qed.

(** What is known of the path when [unlink] runs: it sk_holds the node before [del] at
    each level, and nothing else compares equal. *)
Lemma unlink_spec (sc : Z) (t : DynamicString) (del : nat) (pl : nat -> nat) (path : list (option nat)) (n : nat) :
  forall h,
  (forall l, (l < n)%nat -> path !! l = Some (Some (pl l)) /\ pl l <> del /\
    exists q, next_at h (pl l) l = Some q /\
      match q with
      | Some q => (exists c, compare_at h sc t q = Some c /\ (c = 0 <-> q = del)) /\ (q = del -> is_Some (next_at h del l))
      | None => True
      end) ->
  exists h', unlink h sc t del path n = Some h' /\ same_nodes h h' /\ (forall x, prev_at h' x = prev_at h x) /\
    forall x m, next_at h' x m =
      if decide ((m < n)%nat /\ x = pl m /\ next_at h x m = Some (Some del)) then next_at h del m else next_at h x m.
Proof.
  induction n as [|l IH]; intros h H.
  { exists h. split; [done|]. split; [done|]. split; [done|]. intros x m. by rewrite decide_False by (intros [? _]; lia). }
  destruct (H l ltac:(lia)) as (Hpath & Hne & q & Hq & Hd). cbn [unlink]. rewrite Hpath. cbn [mbind option_bind].
  rewrite Hq. cbn [mbind option_bind].
  assert (exists h1, (match q with
      | None => Some h
      | Some q => c ← compare_at h sc t q; if c =? 0 then nx ← next_at h del l; set_next h (pl l) l nx else Some h
      end) = Some h1 /\ same_nodes h h1 /\ (forall x, prev_at h1 x = prev_at h x) /\
      forall x m, next_at h1 x m = if decide (m = l /\ x = pl l /\ q = Some del) then next_at h del l else next_at h x m)
    as (h1 & E1 & Hs1 & Hp1 & Hn1).
  { destruct q as [q|].
    2: { exists h. split; [done|]. split; [done|]. split; [done|]. intros x m. by rewrite decide_False by (intros (_ & _ & ?); done). }
    destruct Hd as ((c & -> & Hc) & Hdel). cbn [mbind option_bind]. destruct (Z.eqb_spec c 0) as [E|E].
    - apply Hc in E as ->. destruct (Hdel eq_refl) as [nx Hnx]. rewrite Hnx. cbn [mbind option_bind].
      destruct (set_next_spec h (pl l) l nx) as (h1 & E1 & Hs1 & Hp1 & Hn1); [by rewrite Hq|].
      exists h1. split; [done|]. split; [done|]. split; [done|]. intros x m. rewrite Hn1.
      destruct (decide (x = pl l /\ m = l)) as [[-> ->]|Hx]; [by rewrite decide_True|by rewrite decide_False by tauto].
    - exists h. split; [done|]. split; [done|]. split; [done|]. intros x m. rewrite decide_False; [done|].
      intros (_ & _ & [= ->]). by apply E, Hc. }
  rewrite E1. cbn [mbind option_bind]. assert (forall x m, (m < l)%nat -> next_at h1 x m = next_at h x m) as Hsame.
  { intros x m Hm. by rewrite Hn1, decide_False by (intros [? _]; lia). }
  assert (forall q, compare_at h1 sc t q = compare_at h sc t q) as Hcmp.
  { intros q'. unfold compare_at. specialize (Hs1 q'). unfold info in Hs1.
    destruct (h !! q') as [a|], (h1 !! q') as [b|]; cbn in Hs1; try done. injection Hs1 as E2 E3 _ _.
    cbn [mbind option_bind]. unfold comparator_. by rewrite E2, E3. }
  destruct (IH h1) as (h' & E & Hs & Hp & Hn).
  { intros m Hm. destruct (H m ltac:(lia)) as (Hpm & Hnem & qm & Hqm & Hdm). split; [done|]. split; [done|].
    exists qm. rewrite Hsame by lia. split; [done|]. destruct qm as [qm|]; [|done]. by rewrite Hcmp, Hsame by lia. }
  exists h'. split; [exact E|]. split; [by eapply same_nodes_trans|]. split; [intros x; by rewrite Hp, Hp1|].
  intros x m. rewrite Hn. destruct (decide (m < l)%nat) as [Hm|Hm].
  - rewrite !Hsame by lia. destruct (decide (_ /\ x = pl m /\ _)) as [(_ & Hx & Hnx)|Hx].
    + by rewrite decide_True by (split; [lia|done]).
    + rewrite decide_False; [done|]. intros (_ & ? & ?). by apply Hx.
  - rewrite decide_False by (intros [? _]; lia). rewrite Hn1. destruct (decide (m = l /\ x = pl l /\ q = Some del)) as [(-> & -> & ->)|Hx].
    + by rewrite decide_True by (split; [lia|done]).
    + rewrite decide_False; [done|]. intros (Hm' & -> & Hnx). assert (m = l) as -> by lia. rewrite Hq in Hnx.
      injection Hnx as ->. by apply Hx.
Qed.

(** ** A node comes, a node goes *)

Lemma info_dom h x : x ∈ dom h <-> is_Some (info h x).
Proof. unfold info. rewrite elem_of_dom. destruct (h !! x); cbn; split; intros [? ?]; try done; by eexists. Qed.

Lemma ids_app a b : ids (a ++ b) = ids a ++ ids b.
Proof. apply fmap_app. Qed.

Lemma keys_app a b : keys (a ++ b) = keys a ++ keys b.
Proof. apply fmap_app. Qed.

Lemma NoDup_middle {A : Type} (p x : A) xs ys : NoDup (p :: xs ++ ys) -> x ∉ p :: xs ++ ys -> NoDup (p :: xs ++ x :: ys).
Proof.
  intros Hnd Hx. rewrite NoDup_cons in *. rewrite !NoDup_app in *. rewrite NoDup_cons.
  rewrite elem_of_cons, elem_of_app in *. setoid_rewrite elem_of_cons. naive_solver.
Qed.

Lemma NoDup_middle_inv {A : Type} (p x : A) xs ys : NoDup (p :: xs ++ x :: ys) -> NoDup (p :: xs ++ ys) /\ x ∉ p :: xs ++ ys.
Proof.
  intros Hnd. rewrite NoDup_cons in *. rewrite !NoDup_app in *. rewrite NoDup_cons in Hnd.
  rewrite elem_of_cons, !elem_of_app, elem_of_cons in *. setoid_rewrite elem_of_cons in Hnd. naive_solver.
Qed.

Lemma at_level_NoDup h hd es l : sk_ok h hd es -> NoDup (hd :: at_level l es).
Proof. intros H. eapply sublist_NoDup; [apply H|]. apply sublist_skip, at_level_sublist. Qed.

Lemma at_level_in l es x : x ∈ at_level l es -> x ∈ ids es.
Proof. intros H. eapply elem_of_sublist; [exact H|apply at_level_sublist]. Qed.

(** Every node of the list can be followed at its levels. *)
Lemma next_at_elem h hd es e l : sk_ok h hd es -> e ∈ es -> (l < e_lv e)%nat -> is_Some (next_at h (e_id e) l).
Proof.
  intros H He Hl. pose proof (ok_elem h hd es H) as Hel. rewrite Forall_forall in Hel.
  destruct (Hel e He) as [(sc & d & Hi & _) _]. unfold info in Hi. unfold next_at.
  destruct (h !! e_id e) as [n|]; [|done]. cbn in Hi. injection Hi as _ _ _ E. cbn [mbind option_bind].
  apply lookup_lt_is_Some. lia.
Qed.

Lemma next_at_head h hd es l : sk_ok h hd es -> (l < kMaxLevel)%nat -> is_Some (next_at h hd l).
Proof.
  intros H Hl. destruct (ok_head h hd es H) as (sc & d & Hi). unfold info in Hi. unfold next_at.
  destruct (h !! hd) as [n|]; [|done]. cbn in Hi. injection Hi as _ _ _ E. cbn [mbind option_bind].
  apply lookup_lt_is_Some. lia.
Qed.

Lemma insert_ok h hd below above e h' :
  sk_ok h hd (below ++ above) -> e_id e ∉ dom h ->
  (forall x, x <> e_id e -> info h' x = info h x) -> elem_ok h' e ->
  Forall (λ k, klt k (e_key e)) (keys below) -> Forall (klt (e_key e)) (keys above) ->
  (forall l x, (l < kMaxLevel)%nat -> x <> e_id e -> next_at h' x l =
    if decide ((l < e_lv e)%nat /\ x = tip hd (at_level l below)) then Some (Some (e_id e)) else next_at h x l) ->
  (forall l, (l < e_lv e)%nat -> next_at h' (e_id e) l = next_at h (tip hd (at_level l below)) l) ->
  prev_at h' (e_id e) = Some (Some (tip hd (ids below))) ->
  (forall x, x <> e_id e -> prev_at h' x = if decide (head (ids above) = Some x) then Some (Some (e_id e)) else prev_at h x) ->
  sk_ok h' hd (below ++ e :: above).
Proof.
  intros H Hnew Hinfo He Hb Ha Hnx Hnew_nx Hnew_prev Hprev.
  assert (e_id e ∉ hd :: ids (below ++ above)) as Hfresh by (by rewrite <- (ok_dom h hd _ H)).
  rewrite ids_app in Hfresh.
  assert (hd <> e_id e) as Hhd by (intros E; apply Hfresh; rewrite E; by left).
  assert (forall x, x ∈ hd :: ids below ++ ids above -> x <> e_id e) as Hne by (intros x Hx ->; done).
  split.
  - destruct (ok_head h hd _ H) as (sc & d & Hi). exists sc, d. by rewrite Hinfo.
  - pose proof (ok_elem h hd _ H) as Hel. rewrite Forall_app in Hel. destruct Hel as [Hel1 Hel2].
    assert (forall es, (forall x, x ∈ es -> e_id x ∈ hd :: ids below ++ ids above) -> Forall (elem_ok h) es -> Forall (elem_ok h') es) as Hmono.
    { intros es Hin Hes. rewrite Forall_forall in *. intros x Hx. destruct (Hes x Hx) as [(sc & d & Hi & Hr) Hl].
      split; [|done]. exists sc, d. rewrite Hinfo; [done|]. apply Hne, Hin, Hx. }
    apply Forall_app. split; [apply Hmono; [|done]|constructor; [done|apply Hmono; [|done]]];
      intros x Hx; right; apply elem_of_app; [left|right]; by apply list_elem_of_fmap_2.
  - rewrite ids_app. cbn [ids fmap list_fmap]. apply NoDup_middle; [|done]. rewrite <- ids_app. apply H.
  - intros x. rewrite info_dom. destruct (decide (x = e_id e)) as [->|Hx].
    + destruct He as [(sc & d & Hi & _) _]. rewrite Hi. split; [|by eexists]. intros _. rewrite ids_app. right.
      apply elem_of_app. right. by left.
    + rewrite Hinfo by done. rewrite <- info_dom, (ok_dom h hd _ H), !ids_app. cbn [ids fmap list_fmap].
      rewrite !elem_of_cons, !elem_of_app, elem_of_cons. tauto.
  - rewrite keys_app. cbn [keys fmap list_fmap]. pose proof (ok_sorted h hd _ H) as Hs. rewrite keys_app in Hs.
    apply StronglySorted_app in Hs as (Hs1 & Hs2 & Hs3). apply StronglySorted_app. rewrite Forall_forall in Hb.
    split; [|split; [done|by apply StronglySorted_cons]]. intros x y Hx Hy. apply elem_of_cons in Hy as [->|Hy]; [by apply Hb|by apply Hs1].
  - intros l Hl. pose proof (ok_links h hd _ H l Hl) as Hlinks. pose proof (at_level_NoDup h hd _ l H) as Hnd.
    rewrite at_level_app in Hlinks, Hnd. rewrite at_level_app, at_level_cons.
    assert (forall x, x ∈ hd :: at_level l below ++ at_level l above -> x <> e_id e) as Hne'.
    { intros x Hx. apply Hne. apply elem_of_cons in Hx as [->|Hx]; [by left|]. right. rewrite elem_of_app in *.
      destruct Hx as [Hx|Hx]; [left|right]; by eapply at_level_in. }
    destruct (decide (l < e_lv e)%nat) as [Hlv|Hlv]; cbn [app].
    + apply (links_insert h); [done|done| | |by apply Hnew_nx].
      * intros x Hx Ht. rewrite Hnx by (by auto). by rewrite decide_False by (intros [_ ?]; done).
      * rewrite Hnx; [by rewrite decide_True|done|]. apply Hne'. pose proof (tip_in hd (at_level l below)) as Hin.
        apply elem_of_cons in Hin as [->|Hin]; [by left|]. right. apply elem_of_app. by left.
    + apply (links_frame h); [|done]. intros x Hx. rewrite Hnx by (by auto). by rewrite decide_False by (intros [? _]; done).
  - rewrite ids_app. change (ids (e :: above)) with (e_id e :: ids above). pose proof (ok_ids h hd _ H) as Hnd. rewrite ids_app in Hnd.
    apply NoDup_cons in Hnd as [_ Hnd]. pose proof (ok_prev h hd _ H) as Hp. rewrite ids_app in Hp.
    assert (forall x, x ∈ ids below ++ ids above -> x <> e_id e) as Hne' by (intros x Hx; apply Hne; by right).
    apply (prevs_replace h h' (ids below) (ids above)); [done|done| |].
    + intros x Hx. rewrite Hprev by (apply Hne', elem_of_app; by left). rewrite decide_False; [done|]. intros E.
      apply NoDup_app in Hnd as (_ & Hd & _). apply (Hd x Hx). destruct (ids above); [done|]. injection E as ->. by left.
    + intros Habove. cbn [prevs]. split; [done|]. destruct (ids above) as [|a as'] eqn:Ea; [done|]. cbn [prevs] in *.
      split; [rewrite Hprev by (apply Hne', elem_of_app; right; by left); by rewrite decide_True|].
      apply (prevs_frame h); [|apply Habove]. intros x Hx. rewrite Hprev by (apply Hne', elem_of_app; right; by right).
      rewrite decide_False; [done|]. cbn [head]. intros [= ->]. apply NoDup_app in Hnd as (_ & _ & Hnd).
      by apply NoDup_cons in Hnd as [? _].
Qed.

Lemma remove_ok h hd below above e h' :
  sk_ok h hd (below ++ e :: above) ->
  (forall x, info h' x = if decide (x = e_id e) then None else info h x) ->
  (forall l x, (l < kMaxLevel)%nat -> x <> e_id e -> next_at h' x l =
    if decide ((l < e_lv e)%nat /\ x = tip hd (at_level l below)) then next_at h (e_id e) l else next_at h x l) ->
  (forall x, x <> e_id e -> prev_at h' x = if decide (head (ids above) = Some x) then Some (Some (tip hd (ids below))) else prev_at h x) ->
  sk_ok h' hd (below ++ above).
Proof.
  intros H Hinfo Hnx Hprev. pose proof (ok_ids h hd _ H) as Hnd. rewrite ids_app in Hnd. cbn [ids fmap list_fmap] in Hnd.
  apply NoDup_middle_inv in Hnd as [Hnd Hgone]. change (e_id <$> above) with (ids above) in *.
  assert (forall x, x ∈ hd :: ids below ++ ids above -> x <> e_id e) as Hne by (intros x Hx ->; done).
  split.
  - destruct (ok_head h hd _ H) as (sc & d & Hi). exists sc, d. rewrite Hinfo, decide_False; [done|]. apply Hne. by left.
  - pose proof (ok_elem h hd _ H) as Hel. rewrite Forall_forall in Hel |- *. intros x Hx.
    assert (x ∈ below ++ e :: above) as Hx' by (rewrite !elem_of_app, elem_of_cons in *; tauto).
    destruct (Hel x Hx') as [(sc & d & Hi & Hr) Hl]. split; [|done]. exists sc, d. rewrite Hinfo, decide_False; [done|].
    apply Hne. right. rewrite <- ids_app. by apply list_elem_of_fmap_2.
  - by rewrite ids_app.
  - intros x. rewrite info_dom, Hinfo, ids_app. destruct (decide (x = e_id e)) as [->|Hx].
    + split; [by intros [? ?]|done].
    + rewrite <- info_dom, (ok_dom h hd _ H), ids_app. cbn [ids fmap list_fmap].
      rewrite !elem_of_cons, !elem_of_app, elem_of_cons. tauto.
  - pose proof (ok_sorted h hd _ H) as Hs. rewrite keys_app in *. cbn [keys fmap list_fmap] in Hs.
    apply StronglySorted_app in Hs as (Hs1 & Hs2 & Hs3). apply StronglySorted_cons in Hs3 as [_ Hs3].
    apply StronglySorted_app. split; [|by split]. intros x y Hx Hy. apply Hs1; [done|by right].
  - intros l Hl. pose proof (ok_links h hd _ H l Hl) as Hlinks. pose proof (at_level_NoDup h hd _ l H) as Hndl.
    rewrite at_level_app, at_level_cons in Hlinks, Hndl. rewrite at_level_app.
    assert (forall x, x ∈ hd :: at_level l below ++ at_level l above -> x <> e_id e) as Hne'.
    { intros x Hx. apply Hne. apply elem_of_cons in Hx as [->|Hx]; [by left|]. right. rewrite elem_of_app in *.
      destruct Hx as [Hx|Hx]; [left|right]; by eapply at_level_in. }
    destruct (decide (l < e_lv e)%nat) as [Hlv|Hlv]; cbn [app] in Hlinks, Hndl.
    + apply (links_delete h h' l (e_id e)); [done|done| |].
      * intros x Hx Ht. rewrite Hnx by (by auto). by rewrite decide_False by (intros [_ ?]; done).
      * rewrite Hnx; [by rewrite decide_True|done|]. apply Hne'. pose proof (tip_in hd (at_level l below)) as Hin.
        apply elem_of_cons in Hin as [->|Hin]; [by left|]. right. apply elem_of_app. by left.
    + apply (links_frame h); [|done]. intros x Hx. rewrite Hnx by (by auto). by rewrite decide_False by (intros [? _]; done).
  - rewrite ids_app. pose proof (ok_ids h hd _ H) as Hnd0. rewrite ids_app in Hnd0. apply NoDup_cons in Hnd0 as [_ Hnd0].
    pose proof (ok_prev h hd _ H) as Hp. rewrite ids_app in Hp. cbn [ids fmap list_fmap] in *.
    apply NoDup_cons in Hnd as [_ Hnd]. change (e_id <$> above) with (ids above) in *. change (e_id <$> below) with (ids below) in *.
    assert (forall x, x ∈ ids below ++ ids above -> x <> e_id e) as Hne' by (intros x Hx; apply Hne; by right).
    apply (prevs_replace h h' (ids below) (e_id e :: ids above)); [done|done| |].
    + intros x Hx. rewrite Hprev by (apply Hne', elem_of_app; by left). rewrite decide_False; [done|]. intros E.
      apply NoDup_app in Hnd as (_ & Hd & _). apply (Hd x Hx). destruct (ids above); [done|]. injection E as ->. by left.
    + intros [_ Habove]. destruct (ids above) as [|a as'] eqn:Ea; [done|]. cbn [prevs] in *.
      split; [rewrite Hprev by (apply Hne', elem_of_app; right; by left); by rewrite decide_True|].
      apply (prevs_frame h); [|apply Habove]. intros x Hx. rewrite Hprev by (apply Hne', elem_of_app; right; by right).
      rewrite decide_False; [done|]. cbn [head]. intros [= ->]. apply NoDup_app in Hnd as (_ & _ & Hnd).
      by apply NoDup_cons in Hnd as [? _].
Qed.

(** ** The current level *)

Definition max_lv (es : list elem) : nat := foldr (λ e m, max (e_lv e) m) O es.

Lemma max_lv_app a b : max_lv (a ++ b) = max (max_lv a) (max_lv b).
Proof. unfold max_lv. induction a as [|e a IH]; cbn; [done|]. rewrite IH. lia. Qed.

Lemma max_lv_middle a e b : max_lv (a ++ e :: b) = max (e_lv e) (max_lv (a ++ b)).
Proof. rewrite !max_lv_app. unfold max_lv at 2. cbn [foldr]. fold (max_lv b). lia. Qed.

Lemma at_level_empty l es : at_level l es = [] <-> (max_lv es <= l)%nat.
Proof.
  induction es as [|e es IH]; [by cbn; split; [lia|]|]. rewrite at_level_cons. unfold max_lv. cbn [foldr]. fold (max_lv es).
  destruct (decide (l < e_lv e)%nat); cbn [app].
  - split; [done|lia].
  - rewrite IH. lia.
Qed.

Lemma max_lv_le h es : Forall (elem_ok h) es -> (max_lv es <= kMaxLevel)%nat.
Proof.
  induction 1 as [|e es He H IH]; [cbn; lia|]. unfold max_lv. cbn [foldr]. fold (max_lv es). pose proof (eo_level h e He). lia.
Qed.

Lemma max_lv_pos h es : Forall (elem_ok h) es -> es <> [] -> (1 <= max_lv es)%nat.
Proof.
  destruct 1 as [|e es He H]; [done|]. intros _. unfold max_lv. cbn [foldr]. pose proof (eo_level h e He). lia.
Qed.

Lemma lower_level_spec (h : heap) hd es n : (forall l, (l < n)%nat -> next_at h hd l = Some (head (at_level l es))) ->
  (1 <= max_lv es <= n)%nat -> lower_level h hd n = Some (max_lv es).
Proof.
  induction n as [|l IH]; intros H Hn; [lia|]. cbn [lower_level]. rewrite (H l) by lia. cbn [mbind option_bind].
  destruct (at_level l es) as [|x xs] eqn:E; cbn [head].
  - apply at_level_empty in E. apply IH; [|lia]. intros m Hm. apply H. lia.
  - replace (max_lv es) with (S l); [done|]. assert (~ (max_lv es <= l)%nat); [|lia].
    intros Hle. apply at_level_empty in Hle. congruence.
Qed.

(** On an empty list the loop runs down to [nexts\[-1\]]. *)
Lemma lower_level_nothing (h : heap) hd n : (forall l, (l < n)%nat -> next_at h hd l = Some None) -> lower_level h hd n = None.
Proof.
  induction n as [|l IH]; intros H; [done|]. cbn [lower_level]. rewrite (H l) by lia. cbn [mbind option_bind].
  apply IH. intros m Hm. apply H. lia.
Qed.

(** ** What the pointers of the list are *)

Lemma next_before h hd below above l : sk_ok h hd (below ++ above) -> (l < kMaxLevel)%nat ->
  next_at h (tip hd (at_level l below)) l = Some (head (at_level l above)).
Proof.
  intros H Hl. pose proof (ok_links h hd _ H l Hl) as Hlinks. rewrite at_level_app in Hlinks.
  by apply links_app, links_next in Hlinks.
Qed.

Lemma at_level_0_app h hd below above : sk_ok h hd (below ++ above) ->
  at_level 0 below = ids below /\ at_level 0 above = ids above.
Proof.
  intros H. pose proof (ok_elem h hd _ H) as Hel. apply Forall_app in Hel as [Hb Ha]. by split; eapply at_level_0.
Qed.

Lemma next_after h hd below above : sk_ok h hd (below ++ above) ->
  next_at h (tip hd (ids below)) 0 = Some (head (ids above)).
Proof.
  intros H. destruct (at_level_0_app h hd below above H) as [<- <-]. apply next_before; [done|unfold kMaxLevel; lia].
Qed.

Lemma first_spec h hd es : sk_ok h hd es -> next_at h hd 0 = Some (head (ids es)).
Proof. apply (next_after h hd [] es). Qed.

Lemma tip_level_in h hd below above l : sk_ok h hd (below ++ above) -> tip hd (at_level l below) ∈ hd :: ids below.
Proof.
  intros _. pose proof (tip_in hd (at_level l below)) as Hin. apply elem_of_cons in Hin as [->|Hin]; [by left|].
  right. by eapply at_level_in.
Qed.

(** The target is in the list when it is the first of those not before it. *)
Lemma key_in below above tk : StronglySorted klt (keys (below ++ above)) -> Forall (λ e, klt (e_key e) tk) below ->
  Forall (λ e, ~ klt (e_key e) tk) above -> tk ∈ keys (below ++ above) <-> head (keys above) = Some tk.
Proof.
  intros Hs Hb Ha. rewrite keys_app in *. apply StronglySorted_app in Hs as (_ & _ & Hs). rewrite elem_of_app. split.
  - intros [Hin|Hin].
    + apply list_elem_of_fmap in Hin as (e & -> & He). rewrite Forall_forall in Hb. by destruct (klt_irrefl (e_key e)); apply Hb.
    + destruct above as [|a above]; [by apply not_elem_of_nil in Hin|]. cbn in *. apply elem_of_cons in Hin as [->|Hin]; [done|].
      apply StronglySorted_cons in Hs as [Hs _]. rewrite Forall_forall in Hs. apply Forall_cons in Ha as [Ha _].
      by destruct Ha; apply Hs.
  - intros Hh. right. destruct above as [|a above]; [done|]. injection Hh as <-. by left.
Qed.

Lemma klt_total a b : ~ klt a b -> a <> b -> klt b a.
Proof.
  intros Hab Hne. unfold klt in *. rewrite (cmpk_opp a b). destruct (cmpk a b) eqn:E; [by apply cmpk_Eq in E|done|done].
Qed.

(** The test whether the node behind the path has the key. *)
Lemma same_spec h hd below above sc t : str_ok t -> split_at h hd sc t below above ->
  match head (ids above) with Some q => c ← compare_at h sc t q; Some (c =? 0) | None => Some false end =
  Some (bool_decide (key_of sc (ds_data t) ∈ keys (below ++ above))).
Proof.
  intros Ht (H & Hb & Ha). pose proof (key_in below above (key_of sc (ds_data t)) (ok_sorted h hd _ H) Hb Ha) as Hk.
  pose proof (ok_elem h hd _ H) as Hel. apply Forall_app in Hel as [_ Hel].
  destruct above as [|a above]; cbn [ids fmap list_fmap head] in *.
  - rewrite bool_decide_eq_false_2; [done|]. intros Hin. by apply Hk in Hin.
  - apply Forall_cons in Hel as [He _]. rewrite (compare_at_elem h a sc t He Ht). cbn [mbind option_bind].
    f_equal. symmetry. cbn [keys fmap list_fmap head] in Hk. pose proof (cmpk_Eq (key_of sc (ds_data t)) (e_key a)) as HE.
    destruct (cmpk (key_of sc (ds_data t)) (e_key a)) eqn:Ec; cbn;
      [apply bool_decide_eq_true_2|apply bool_decide_eq_false_2..]; rewrite Hk; [by rewrite (proj1 HE)|..];
      intros [= E]; by apply eq_sym, HE in E.
Qed.
