(* ===== verification/SkiplistOps.v ===== *)
(** * SkiplistOps: what each operation of the skip list does

    Insertion, search, removal, clearing, destruction and the traversals, on a list
    that represents a sequence of nodes. *)

From S2P Require Import Prelude Str.
From stdpp Require Import list gmap fin_maps fin_sets sorting.
From S2P Require Import Skiplist SkiplistOrder SkiplistFacts.

Local Open Scope Z_scope.

(** ** Insertion *)

Definition new_sknode (sc : Z) (d : DynamicString) (lv : nat) : SKNode := mkSKNode sc d None (replicate lv None) lv.

Lemma SKNode_new_spec sc t lv : str_ok t ->
  exists d, SKNode_new sc t lv = Some (new_sknode sc d lv) /\ str_ok d /\ ds_data d = ds_data t.
Proof.
  intros Ht. destruct (DynamicString_copy_repr t _ Ht) as (d & E & Hd & _). exists d. unfold SKNode_new. rewrite E.
  split; [done|]. pose proof (ds_data_repr d _ Hd) as Ed. unfold str_ok. by rewrite Ed.
Qed.

(** A new node in the heap, not yet linked. *)
Lemma fresh_node (h : heap) new sc d lv : h !! new = None ->
  (forall x, x <> new -> info (<[new := new_sknode sc d lv]> h) x = info h x /\ prev_at (<[new := new_sknode sc d lv]> h) x = prev_at h x) /\
  (forall x l, x <> new -> next_at (<[new := new_sknode sc d lv]> h) x l = next_at h x l) /\
  info (<[new := new_sknode sc d lv]> h) new = Some (sc, d, lv, lv) /\
  (forall l, (l < lv)%nat -> next_at (<[new := new_sknode sc d lv]> h) new l = Some None).
Proof.
  intros Hnew. split; [|split; [|split]].
  - intros x Hx. unfold info, prev_at. by rewrite !lookup_insert_ne by done.
  - intros x l Hx. unfold next_at. by rewrite lookup_insert_ne by done.
  - unfold info. rewrite lookup_insert_eq. cbn. by rewrite length_replicate.
  - intros l Hl. unfold next_at. rewrite lookup_insert_eq. cbn [mbind option_bind new_sknode sk_nexts].
    by apply lookup_replicate_2.
Qed.

Lemma insert_heap h hd below above new sc d lv path :
  sk_ok h hd (below ++ above) -> h !! new = None -> str_ok d -> (1 <= lv <= kMaxLevel)%nat ->
  (forall l, (l < lv)%nat -> path !! l = Some (Some (tip hd (at_level l below)))) ->
  Forall (λ e, klt (e_key e) (key_of sc (ds_data d))) below -> Forall (λ e, klt (key_of sc (ds_data d)) (e_key e)) above ->
  exists h1 h2 h3, link (<[new := new_sknode sc d lv]> h) new path (seq 0 lv) = Some h1 /\
    match head (ids above) with Some q => set_prev h1 q (Some new) | None => Some h1 end = Some h2 /\
    set_prev h2 new (Some (tip hd (ids below))) = Some h3 /\
    sk_ok h3 hd (below ++ mkElem new (key_of sc (ds_data d)) lv :: above).
Proof.
  intros H Hnew Hd Hlv Hpath Hb Ha. destruct (fresh_node h new sc d lv Hnew) as (Hi0 & Hn0 & Hin & Hnn).
  assert (new ∉ hd :: ids (below ++ above)) as Hfresh.
  { rewrite <- (ok_dom h hd _ H). by apply not_elem_of_dom. }
  assert (forall l, tip hd (at_level l below) <> new) as Hpl.
  { intros l E. apply Hfresh. pose proof (tip_level_in h hd below above l H) as Hin'. rewrite E in Hin'.
    rewrite ids_app. apply elem_of_cons in Hin' as [->|Hin']; [by left|]. right. apply elem_of_app. by left. }
  destruct (link_levels new (λ l, tip hd (at_level l below)) path (seq 0 lv) (<[new := new_sknode sc d lv]> h))
    as (h1 & E1 & Hs1 & Hp1 & Hn1); [apply NoDup_seq| |].
  { intros l Hl. apply elem_of_seq in Hl. split; [apply Hpath; lia|]. split; [apply Hpl|]. split; [|rewrite Hnn by lia; by eexists].
    rewrite Hn0 by apply Hpl. rewrite (next_before h hd below above l H) by lia. by eexists. }
  assert (exists h2, match head (ids above) with Some q => set_prev h1 q (Some new) | None => Some h1 end = Some h2 /\
    same_nodes h1 h2 /\ (forall x m, next_at h2 x m = next_at h1 x m) /\
    forall x, prev_at h2 x = if decide (head (ids above) = Some x) then Some (Some new) else prev_at h1 x)
    as (h2 & E2 & Hs2 & Hn2 & Hp2).
  { apply set_prev_opt. intros q Eq.
    assert (q ∈ hd :: ids (below ++ above)) as Hq.
    { rewrite ids_app. right. apply elem_of_app. right. destruct (ids above); [done|]. injection Eq as ->. by left. }
    assert (q <> new) as Hqn by (intros ->; done). apply (ok_dom h hd _ H), info_dom in Hq.
    destruct (Hi0 q Hqn) as [Ei _]. apply elem_of_dom, info_dom. by rewrite (Hs1 q), Ei. }
  assert (forall x, x <> new -> info h2 x = info h x) as Hi2 by (intros x Hx; rewrite Hs2, Hs1; by apply Hi0).
  assert (info h2 new = Some (sc, d, lv, lv)) as Hin2 by (by rewrite Hs2, Hs1).
  destruct (set_prev_spec h2 new (Some (tip hd (ids below)))) as (h3 & E3 & Hs3 & Hn3 & Hp3).
  { apply elem_of_dom, info_dom. rewrite Hin2. by eexists. }
  exists h1, h2, h3. split; [done|]. split; [done|]. split; [done|].
  apply (insert_ok h hd below above); cbn [e_id e_key e_lv]; [done|by apply not_elem_of_dom| | | | | | | |].
  - intros x Hx. by rewrite Hs3, Hi2.
  - split; [|done]. exists sc, d. by rewrite Hs3.
  - by apply Forall_fmap.
  - by apply Forall_fmap.
  - intros l x Hl Hx. rewrite Hn3, Hn2, Hn1. rewrite (decide_False (P := x = new)) by done.
    rewrite Hn0 by done. destruct (decide (l ∈ seq 0 lv)) as [Hls|Hls]; rewrite elem_of_seq in Hls;
      destruct (decide (x = tip hd (at_level l below))) as [->|Hxt];
      first [by rewrite decide_True by (split; [lia|done])|by rewrite decide_False by (intros [? ?]; (done||lia))].
  - intros l Hl. rewrite Hn3, Hn2, Hn1. rewrite decide_True by (apply elem_of_seq; lia). rewrite decide_True by done. by apply Hn0.
  - rewrite Hp3. by rewrite decide_True.
  - intros x Hx. rewrite Hp3, decide_False by done. rewrite Hp2, Hp1. destruct (decide _); [done|]. by apply Hi0.
Qed.

(** The list [s] sk_holds the nodes [es]. *)
Record sk_repr (s : Skiplist) (es : list elem) : Prop := {
  sr_ok : exists hd, head_ s = Some hd /\ sk_ok (sk_heap s) hd es;
  sr_count : count_ s = Z.of_nat (length es);
  sr_level : cur_max_level_ s = Z.of_nat (max_lv es);
  sr_fresh : forall x, x ∈ dom (sk_heap s) -> (x < sk_fresh s)%nat
}.

Lemma gen_level_bounds fuel : forall level throws,
  (level <= gen_level fuel level throws <= level + fuel)%nat.
Proof.
  induction fuel as [|fuel IH]; intros level [|[] throws]; cbn [gen_level]; try lia.
  specialize (IH (S level) throws). lia.
Qed.

Lemma GenRandomLevel_bounds throws : (1 <= GenRandomLevel throws <= kMaxLevel)%nat.
Proof. unfold GenRandomLevel. pose proof (gen_level_bounds (kMaxLevel - 1) 1 throws). unfold kMaxLevel in *. lia. Qed.

Lemma empty_path_length : length empty_path = kMaxLevel.
Proof. apply length_replicate. Qed.

(** The search from the head, with and without the path. *)
Lemma Find_path_spec s hd below above sc t n : head_ s = Some hd -> str_ok t ->
  split_at (sk_heap s) hd sc t below above -> (1 <= n <= kMaxLevel)%nat ->
  exists path, Find_path s sc t (Z.of_nat n - 1) empty_path = Some (tip hd (ids below), path) /\
    forall l, path !! l = if decide (l < n)%nat then Some (Some (tip hd (at_level l below))) else empty_path !! l.
Proof.
  intros Hh Ht Hsp Hn. unfold Find_path. rewrite Hh. cbn [mbind option_bind].
  replace (Z.to_nat (Z.of_nat n - 1 + 1)) with n by lia.
  destruct (find_path_spec (sk_heap s) hd sc t Ht below above Hsp n kMaxLevel empty_path) as (path & E & _ & H);
    [lia|lia|apply empty_path_length|].
  rewrite (before_max (sk_heap s) hd sc t below above Hsp) in E. exists path. rewrite E.
  split; [|exact H]. rewrite decide_False by lia. unfold before. by rewrite (proj1 (at_level_0_app _ _ _ _ (proj1 Hsp))).
Qed.

Lemma Find_spec s hd below above sc t n : head_ s = Some hd -> str_ok t ->
  split_at (sk_heap s) hd sc t below above -> (1 <= n <= kMaxLevel)%nat ->
  Find s sc t (Z.of_nat n - 1) = Some (tip hd (ids below)).
Proof.
  intros Hh Ht Hsp Hn. unfold Find. rewrite Hh. cbn [mbind option_bind].
  replace (Z.to_nat (Z.of_nat n - 1 + 1)) with n by lia.
  pose proof (find_down_spec (sk_heap s) hd sc t Ht below above Hsp n kMaxLevel ltac:(lia) ltac:(lia)) as E.
  rewrite (before_max (sk_heap s) hd sc t below above Hsp), decide_False in E by lia. rewrite E. unfold before. by rewrite (proj1 (at_level_0_app _ _ _ _ (proj1 Hsp))).
Qed.

(** On an empty list the node is linked at level 0 only. *)
Lemma link_first (h : heap) hd new sc d : hd <> new -> next_at h hd 0 = Some None ->
  link (<[new := new_sknode sc d 1]> h) new [Some hd] (seq 0 1) = set_next (<[new := new_sknode sc d 1]> h) hd 0 (Some new).
Proof.
  intros Hne Hn. cbn [seq link lookup list_lookup mbind option_bind].
  assert (next_at (<[new := new_sknode sc d 1]> h) hd 0 = Some None) as -> by (unfold next_at in *; by rewrite lookup_insert_ne).
  cbn [mbind option_bind].
  assert (set_next (<[new := new_sknode sc d 1]> h) new 0 None = Some (<[new := new_sknode sc d 1]> h)) as ->.
  { unfold set_next. rewrite lookup_insert_eq. cbn. f_equal. by rewrite insert_insert_eq. }
  cbn [mbind option_bind]. by destruct (set_next _ hd 0 (Some new)).
Qed.

Lemma Insert_first throws (s : Skiplist) sc t : sk_repr s [] -> str_ok t ->
  exists s', Insert throws s sc t = Some (s', true) /\ sk_repr s' [mkElem (sk_fresh s) (key_of sc (ds_data t)) 1].
Proof.
  intros [(hd & Hh & H) Hc Hl Hf] Ht. destruct (SKNode_new_spec sc t 1 Ht) as (d & Ed & Hd & Edd).
  assert (sk_heap s !! sk_fresh s = None) as Hnew.
  { apply not_elem_of_dom. intros Hin. apply Hf in Hin. lia. }
  assert (hd <> sk_fresh s) as Hne by (intros E; assert (hd < sk_fresh s)%nat by (apply Hf, (ok_dom _ _ _ H); by left); lia).
  destruct (insert_heap (sk_heap s) hd [] [] (sk_fresh s) sc d 1 [Some hd] H Hnew Hd) as (h1 & h2 & h3 & E1 & E2 & E3 & Hok);
    [unfold kMaxLevel; lia| |constructor..|].
  { intros l Hlv. by assert (l = O) as -> by lia. }
  rewrite link_first in E1; [|done|by apply (first_spec _ hd [])].
  unfold Insert. rewrite Hh, (first_spec _ hd [] H). cbn [ids fmap list_fmap head mbind option_bind]. rewrite Ed.
  cbn [mbind option_bind]. rewrite E1. cbn [mbind option_bind]. cbn in E2. injection E2 as <-. cbn in E3. rewrite E3.
  cbn [mbind option_bind]. eexists. split; [done|]. rewrite <- Edd. split.
  - exists hd. by split.
  - cbn [count_]. rewrite Hc. done.
  - done.
  - cbn [sk_heap sk_fresh]. intros x Hx. apply (ok_dom _ _ _ Hok) in Hx. cbn in Hx.
    rewrite !elem_of_cons in Hx. destruct Hx as [->|[->|Hx]]; [|lia|by apply not_elem_of_nil in Hx].
    assert (hd < sk_fresh s)%nat by (apply Hf, (ok_dom _ _ _ H); by left). lia.
Qed.

Lemma Insert_spec throws (s : Skiplist) es sc t : sk_repr s es -> str_ok t -> Z.of_nat (length es) + 1 < 2 ^ 64 ->
  if decide (key_of sc (ds_data t) ∈ keys es) then Insert throws s sc t = Some (s, false)
  else exists s' es', Insert throws s sc t = Some (s', true) /\ sk_repr s' es' /\
    keys es' ≡ₚ key_of sc (ds_data t) :: keys es.
Proof.
  intros Hs Ht Hlen. destruct es as [|e0 es0] eqn:Ees.
  { rewrite decide_False by apply not_elem_of_nil. destruct (Insert_first throws s sc t Hs Ht) as (s' & E & Hs').
    eexists s', _. split; [exact E|]. split; [exact Hs'|done]. }
  rewrite <- Ees in *. destruct Hs as [(hd & Hh & H) Hc Hl Hf].
  destruct (split_exists (sk_heap s) hd sc t es H) as (below & above & E & Hsp). rewrite E in *.
  destruct (Find_path_spec s hd below above sc t (GenRandomLevel throws) Hh Ht Hsp (GenRandomLevel_bounds throws)) as (path & Ep & Hp).
  pose proof (same_spec (sk_heap s) hd below above sc t Ht Hsp) as Hsame.
  unfold Insert. rewrite Hh, (first_spec _ hd _ H). cbn [mbind option_bind].
  assert (exists q, head (ids (below ++ above)) = Some q) as [q ->] by (rewrite Ees; by eexists).
  rewrite Ep. cbn [mbind option_bind]. rewrite (next_after _ _ _ _ H). cbn [mbind option_bind].
  rewrite Hsame. cbn [mbind option_bind]. destruct (decide (_ ∈ keys _)) as [Hk|Hk]; [by rewrite bool_decide_eq_true_2|].
  rewrite bool_decide_eq_false_2 by done. destruct (SKNode_new_spec sc t (GenRandomLevel throws) Ht) as (d & -> & Hd & Edd).
  cbn [mbind option_bind].
  assert (sk_heap s !! sk_fresh s = None) as Hnew.
  { apply not_elem_of_dom. intros Hin. apply Hf in Hin. lia. }
  destruct Hsp as (_ & Hb & Ha). rewrite <- Edd in Hk |- *.
  destruct (insert_heap (sk_heap s) hd below above (sk_fresh s) sc d (GenRandomLevel throws) path H Hnew Hd
    (GenRandomLevel_bounds throws)) as (h1 & h2 & h3 & E1 & E2 & E3 & Hok).
  { intros l Hlv. by rewrite Hp, decide_True. }
  { by rewrite Edd. }
  { rewrite Edd in Hk |- *. rewrite Forall_forall in Ha |- *. intros e He. apply klt_total; [by apply Ha|].
    intros Ek. apply Hk. rewrite <- Ek. apply list_elem_of_fmap_2, elem_of_app. by right. }
  rewrite E1. cbn [mbind option_bind]. rewrite E2. cbn [mbind option_bind]. rewrite E3. cbn [mbind option_bind].
  eexists _, _. split; [done|]. split.
  - split; cbn [head_ sk_heap count_ cur_max_level_ sk_fresh].
    + exists hd. by split.
    + rewrite Hc, u64_small by (unfold in_u64, UINT64_MAX; lia). rewrite !length_app in *. cbn [length]. lia.
    + rewrite Hl, max_lv_middle. cbn [e_lv]. lia.
    + intros x Hx. apply (ok_dom _ _ _ Hok) in Hx. rewrite ids_app in Hx.
      change (ids (mkElem ?i ?k ?l :: above)) with (i :: ids above) in Hx.
      assert (x = sk_fresh s \/ x ∈ hd :: ids (below ++ above)) as [->|Hx']; [|lia|].
      { rewrite ids_app. rewrite !elem_of_cons, !elem_of_app, !elem_of_cons in *. tauto. }
      apply (ok_dom _ _ _ H), Hf in Hx'. lia.
  - rewrite !keys_app. cbn [keys fmap list_fmap e_key]. by rewrite <- Permutation_middle.
Qed.

(** ** Search and removal *)

Lemma max_lv_bounds (h : heap) hd es : sk_ok h hd es -> es <> [] -> (1 <= max_lv es <= kMaxLevel)%nat.
Proof.
  intros H Hne. pose proof (ok_elem h hd es H) as Hel. split; [by eapply max_lv_pos|by eapply max_lv_le].
Qed.

Lemma Contains_spec (s : Skiplist) es sc t : sk_repr s es -> str_ok t ->
  Contains s sc t = Some (bool_decide (key_of sc (ds_data t) ∈ keys es)).
Proof.
  intros [(hd & Hh & H) Hc Hl Hf] Ht. unfold Contains. rewrite Hh, (first_spec _ hd _ H). cbn [mbind option_bind].
  destruct es as [|e0 es0] eqn:Ees; [done|]. rewrite <- Ees in *.
  assert (exists q, head (ids es) = Some q) as [q ->] by (rewrite Ees; by eexists).
  destruct (split_exists (sk_heap s) hd sc t es H) as (below & above & E & Hsp). rewrite Hl.
  rewrite (Find_spec s hd below above sc t (max_lv es) Hh Ht Hsp) by (apply (max_lv_bounds (sk_heap s) hd); [done|by rewrite Ees]).
  cbn [mbind option_bind]. rewrite E in *. rewrite (next_after _ _ _ _ H). cbn [mbind option_bind].
  rewrite <- (same_spec (sk_heap s) hd below above sc t Ht Hsp). by destruct (head (ids above)).
Qed.

(** Of the nodes from the target on, only the first compares equal. *)
Lemma equal_only_first (h : heap) hd below e above sc t q l : sk_ok h hd (below ++ e :: above) -> str_ok t ->
  e_key e = key_of sc (ds_data t) -> q ∈ at_level l (e :: above) ->
  exists c, compare_at h sc t q = Some c /\ (c = 0 <-> q = e_id e).
Proof.
  intros H Ht Ek Hq. apply at_level_elem in Hq as (e' & He' & <- & _). pose proof (ok_elem h hd _ H) as Hel.
  rewrite Forall_forall in Hel. assert (e' ∈ below ++ e :: above) as Hin by (apply elem_of_app; by right).
  rewrite (compare_at_elem h e' sc t (Hel e' Hin) Ht). eexists. split; [done|]. rewrite <- Ek.
  apply elem_of_cons in He' as [->|He'].
  - rewrite (proj2 (cmpk_Eq _ _)) by done. done.
  - pose proof (ok_sorted h hd _ H) as Hs. rewrite keys_app in Hs. apply StronglySorted_app in Hs as (_ & _ & Hs).
    apply StronglySorted_cons in Hs as [Hs _]. rewrite Forall_forall in Hs.
    assert (klt (e_key e) (e_key e')) as Hlt by (apply Hs; by apply list_elem_of_fmap_2).
    unfold klt in Hlt. rewrite Hlt. split; [done|]. intros Ei. pose proof (ok_ids h hd _ H) as Hnd. rewrite ids_app in Hnd.
    apply NoDup_cons in Hnd as [_ Hnd]. apply NoDup_app in Hnd as (_ & _ & Hnd). apply NoDup_cons in Hnd as [Hnd _].
    destruct Hnd. rewrite <- Ei. by apply list_elem_of_fmap_2.
Qed.

(** The node behind the path at level [l] is the deleted one on the levels of that. *)
Lemma head_level h hd below e above l : sk_ok h hd (below ++ e :: above) ->
  head (at_level l (e :: above)) = Some (e_id e) <-> (l < e_lv e)%nat.
Proof.
  intros H. rewrite at_level_cons. destruct (decide (l < e_lv e)%nat) as [Hl|Hl]; cbn [app head]; [done|].
  split; [|done]. intros Hh. pose proof (ok_ids h hd _ H) as Hnd. rewrite ids_app in Hnd.
  apply NoDup_cons in Hnd as [_ Hnd]. apply NoDup_app in Hnd as (_ & _ & Hnd). apply NoDup_cons in Hnd as [Hnd _].
  destruct Hnd. apply (at_level_in l). destruct (at_level l above); [done|]. injection Hh as ->. by left.
Qed.

Lemma delete_frame (h : heap) d x : x <> d ->
  info (delete d h) x = info h x /\ prev_at (delete d h) x = prev_at h x /\
  forall l, next_at (delete d h) x l = next_at h x l.
Proof. intros Hx. unfold info, prev_at, next_at. by rewrite lookup_delete_ne by done. Qed.

Lemma remove_heap h hd below e above sc t path n :
  sk_ok h hd (below ++ e :: above) -> str_ok t -> e_key e = key_of sc (ds_data t) ->
  (max_lv (below ++ e :: above) <= n <= kMaxLevel)%nat ->
  (forall l, (l < n)%nat -> path !! l = Some (Some (tip hd (at_level l below)))) ->
  exists h1 h2, unlink h sc t (e_id e) path n = Some h1 /\ next_at h1 (e_id e) 0 = Some (head (ids above)) /\
    match head (ids above) with Some q => set_prev h1 q (Some (tip hd (ids below))) | None => Some h1 end = Some h2 /\
    info h2 (e_id e) = info h (e_id e) /\ sk_ok (delete (e_id e) h2) hd (below ++ above).
Proof.
  intros H Ht Ek Hn Hpath.
  pose proof (ok_elem h hd _ H) as Hel. rewrite Forall_forall in Hel.
  assert (elem_ok h e) as He by (apply Hel, elem_of_app; right; by left). pose proof (eo_level h e He) as Hlv.
  assert (forall l, tip hd (at_level l below) <> e_id e) as Hpl.
  { intros l E. pose proof (tip_level_in h hd below _ l H) as Hin. pose proof (ok_ids h hd _ H) as Hnd.
    rewrite ids_app in Hnd. apply NoDup_middle_inv in Hnd as [_ Hnd]. apply Hnd. rewrite E in Hin.
    apply elem_of_cons in Hin as [->|Hin]; [by left|]. right. apply elem_of_app. by left. }
  assert (forall l, (l < e_lv e)%nat -> is_Some (next_at h (e_id e) l)) as Hnext.
  { intros l Hl. eapply (next_at_elem h hd); [done| |done]. apply elem_of_app. right. by left. }
  destruct (unlink_spec sc t (e_id e) (λ l, tip hd (at_level l below)) path n h) as (h1 & E1 & Hs1 & Hp1 & Hn1).
  { intros l Hl. split; [by apply Hpath|]. split; [apply Hpl|]. eexists.
    split; [apply (next_before h hd below _ l H); lia|]. destruct (head _) as [q|] eqn:Eq; [|done].
    split; [|intros ->; by eapply Hnext, head_level].
    apply (equal_only_first h hd below e above sc t q l H Ht Ek). destruct (at_level l (e :: above)); [done|].
    injection Eq as ->. by left. }
  assert (forall l x, (l < kMaxLevel)%nat -> next_at h1 x l =
    if decide ((l < e_lv e)%nat /\ x = tip hd (at_level l below)) then next_at h (e_id e) l else next_at h x l) as Hn1'.
  { intros l x Hl. rewrite Hn1. rewrite max_lv_middle in Hn.
    destruct (decide (l < e_lv e /\ x = _)%nat) as [[Hle ->]|Hx].
    - rewrite decide_True; [done|]. split; [lia|]. split; [done|].
      rewrite (next_before h hd below _ l H Hl). f_equal. by eapply head_level.
    - rewrite decide_False; [done|]. intros (Hl' & -> & Hnx). apply Hx. split; [|done].
      rewrite (next_before h hd below _ l H Hl) in Hnx. injection Hnx as Hnx. by eapply head_level. }
  assert (next_at h1 (e_id e) 0 = Some (head (ids above))) as Hafter.
  { rewrite Hn1' by (unfold kMaxLevel; lia). rewrite decide_False by (intros [_ E]; by apply (Hpl O)).
    pose proof (next_after h hd (below ++ [e]) above) as Ha. rewrite <- app_assoc in Ha. specialize (Ha H).
    by rewrite ids_app, tip_app in Ha. }
  assert (exists h2, match head (ids above) with Some q => set_prev h1 q (Some (tip hd (ids below))) | None => Some h1 end = Some h2 /\
    same_nodes h1 h2 /\ (forall x m, next_at h2 x m = next_at h1 x m) /\
    forall x, prev_at h2 x = if decide (head (ids above) = Some x) then Some (Some (tip hd (ids below))) else prev_at h1 x)
    as (h2 & E2 & Hs2 & Hn2 & Hp2).
  { apply set_prev_opt. intros q Hq. apply elem_of_dom, info_dom. rewrite (Hs1 q). apply info_dom, (ok_dom h hd _ H).
    rewrite ids_app. change (ids (e :: above)) with (e_id e :: ids above). right. apply elem_of_app. right. right. destruct (ids above); [done|]. injection Hq as ->. by left. }
  exists h1, h2. split; [done|]. split; [done|]. split; [done|]. split; [by rewrite Hs2, Hs1|].
  apply (remove_ok h hd below above e); [done| | |].
  - intros x. destruct (decide (x = e_id e)) as [->|Hx]; [unfold info; by rewrite lookup_delete_eq|].
    by rewrite (proj1 (delete_frame h2 _ x Hx)), Hs2, Hs1.
  - intros l x Hl Hx. destruct (delete_frame h2 _ x Hx) as (_ & _ & ->). by rewrite Hn2, Hn1'.
  - intros x Hx. destruct (delete_frame h2 _ x Hx) as (_ & -> & _). by rewrite Hp2, Hp1.
Qed.

(** The search of [Remove] on a list that has nodes, and its three ends. *)
Section Removal.

Context (s : Skiplist) (hd : nat) (es below above : list elem) (sc : Z) (t : DynamicString).
Hypothesis (Hh : head_ s = Some hd) (Hl : cur_max_level_ s = Z.of_nat (max_lv es)) (Ht : str_ok t).
Hypothesis (E : es = below ++ above) (Hne : es <> []) (Hsp : split_at (sk_heap s) hd sc t below above).

Lemma Remove_search : sk_ok (sk_heap s) hd es -> exists path,
  (forall l, (l < max_lv es)%nat -> path !! l = Some (Some (tip hd (at_level l below)))) /\
  Remove s sc t =
    match head (ids above) with
    | None => Some (s, false)
    | Some del_node =>
        c ← compare_at (sk_heap s) sc t del_node;
        if negb (c =? 0) then Some (s, false)
        else
          h ← unlink (sk_heap s) sc t del_node path (max_lv es);
          after ← next_at h del_node 0;
          h ← match after with Some q => set_prev h q (Some (tip hd (ids below))) | None => Some h end;
          node ← h !! del_node;
          level ← if Z.of_nat (sk_level node) =? cur_max_level_ s
                  then Z.of_nat <$> lower_level h hd (max_lv es)
                  else Some (cur_max_level_ s);
          Some (mkSkiplist (delete del_node h) (sk_fresh s) (Some hd) (u64 (count_ s - 1)) level, true)
    end.
Proof.
  intros H. destruct (Find_path_spec s hd below above sc t (max_lv es) Hh Ht Hsp) as (path & Ep & Hp).
  { by apply (max_lv_bounds (sk_heap s) hd). }
  exists path. split; [intros l Hlt; by rewrite Hp, decide_True|].
  unfold Remove. rewrite Hh, (first_spec _ hd _ H). cbn [mbind option_bind].
  assert (exists q, head (ids es) = Some q) as [q ->] by (destruct es; [done|by eexists]).
  rewrite Hl, Ep. cbn [mbind option_bind]. subst es. rewrite (next_after _ _ _ _ H). cbn [mbind option_bind].
  by rewrite Nat2Z.id.
Qed.

End Removal.

Lemma node_level (h : heap) x sc d lv n : info h x = Some (sc, d, lv, n) ->
  exists node, h !! x = Some node /\ sk_level node = lv.
Proof. unfold info. destruct (h !! x) as [node|]; [|done]. cbn. intros [= _ _ <- _]. by exists node. Qed.

(** The levels of the head, read before the node is deleted. *)
Lemma head_links (h : heap) hd es d : hd <> d -> sk_ok (delete d h) hd es ->
  forall l, (l < kMaxLevel)%nat -> next_at h hd l = Some (head (at_level l es)).
Proof.
  intros Hd H l Hl. pose proof (ok_links _ _ _ H l Hl) as Hlinks. apply links_next in Hlinks.
  by rewrite (proj2 (proj2 (delete_frame h d hd Hd))) in Hlinks.
Qed.

Lemma Remove_absent (s : Skiplist) es sc t : sk_repr s es -> str_ok t -> key_of sc (ds_data t) ∉ keys es ->
  Remove s sc t = Some (s, false).
Proof.
  intros [(hd & Hh & H) Hc Hl Hf] Ht Hk. destruct es as [|e0 es0] eqn:Ees.
  { unfold Remove. by rewrite Hh, (first_spec _ hd _ H). }
  rewrite <- Ees in *. destruct (split_exists (sk_heap s) hd sc t es H) as (below & above & E & Hsp).
  destruct (Remove_search s hd es below above sc t Hh Hl Ht E ltac:(by rewrite Ees) Hsp H) as (path & _ & ->).
  pose proof (same_spec (sk_heap s) hd below above sc t Ht Hsp) as Hsame. rewrite <- E, bool_decide_eq_false_2 in Hsame by done.
  destruct (head (ids above)) as [q|]; [|done]. destruct (compare_at (sk_heap s) sc t q) as [c|]; [|done].
  injection Hsame as Ec. cbn [mbind option_bind]. by rewrite Ec.
Qed.

(** The deletion itself, up to the level. *)
Lemma Remove_step (s : Skiplist) hd es sc t : head_ s = Some hd -> sk_ok (sk_heap s) hd es ->
  cur_max_level_ s = Z.of_nat (max_lv es) -> str_ok t -> key_of sc (ds_data t) ∈ keys es ->
  exists below e above h node, es = below ++ e :: above /\ e_key e = key_of sc (ds_data t) /\
    hd <> e_id e /\ sk_level node = e_lv e /\ sk_ok (delete (e_id e) h) hd (below ++ above) /\
    Remove s sc t =
      level ← if Z.of_nat (sk_level node) =? cur_max_level_ s
              then Z.of_nat <$> lower_level h hd (max_lv es)
              else Some (cur_max_level_ s);
      Some (mkSkiplist (delete (e_id e) h) (sk_fresh s) (Some hd) (u64 (count_ s - 1)) level, true).
Proof.
  intros Hh H Hl Ht Hk. destruct (split_exists (sk_heap s) hd sc t es H) as (below & above & E & Hsp).
  assert (es <> []) as Hne by (intros ->; by apply not_elem_of_nil in Hk).
  destruct (Remove_search s hd es below above sc t Hh Hl Ht E Hne Hsp H) as (path & Hpath & ->).
  destruct Hsp as (_ & Hb & Ha). subst es. apply (key_in below above _ (ok_sorted _ _ _ H) Hb Ha) in Hk.
  destruct above as [|e above]; [done|]. injection Hk as Ek.
  destruct (remove_heap (sk_heap s) hd below e above sc t path (max_lv (below ++ e :: above)) H Ht Ek)
    as (h1 & h2 & E1 & Hafter & E2 & Hi & Hok); [|done|].
  { split; [done|]. by apply (max_lv_bounds (sk_heap s) hd). }
  assert (elem_ok (sk_heap s) e) as He.
  { pose proof (ok_elem _ _ _ H) as Hel. rewrite Forall_forall in Hel. apply Hel, elem_of_app. right. by left. }
  destruct (eo_info _ _ He) as (sc' & d' & Hinfo & _). rewrite Hinfo in Hi. destruct (node_level _ _ _ _ _ _ Hi) as (node & En & Elv).
  exists below, e, above, h2, node. split; [done|]. split; [done|]. split.
  { intros Ehd. pose proof (ok_ids _ _ _ H) as Hnd. rewrite ids_app in Hnd. apply NoDup_cons in Hnd as [Hnd _]. apply Hnd.
    rewrite Ehd. apply elem_of_app. right. by left. }
  split; [done|]. split; [done|]. cbn [ids fmap list_fmap head].
  rewrite (compare_at_elem _ e sc t He Ht), Ek, (proj2 (cmpk_Eq _ _)) by done. cbn [mbind option_bind sign Z.eqb negb].
  rewrite E1. cbn [mbind option_bind]. rewrite Hafter. cbn [mbind option_bind]. rewrite E2. cbn [mbind option_bind].
  rewrite En. done.
Qed.

Lemma Remove_present (s : Skiplist) es sc t : sk_repr s es -> str_ok t -> key_of sc (ds_data t) ∈ keys es ->
  (1 < length es)%nat -> Z.of_nat (length es) < 2 ^ 64 ->
  exists s' es', Remove s sc t = Some (s', true) /\ sk_repr s' es' /\ keys es ≡ₚ key_of sc (ds_data t) :: keys es'.
Proof.
  intros [(hd & Hh & H) Hc Hl Hf] Ht Hk Hlen Hmax.
  destruct (Remove_step s hd es sc t Hh H Hl Ht Hk) as (below & e & above & h & node & E & Ek & Hhd & Elv & Hok & ->).
  assert (below ++ above <> []) as Hne.
  { intros En. apply app_eq_nil in En as [-> ->]. rewrite E in Hlen. cbn in Hlen. lia. }
  pose proof (max_lv_bounds _ _ _ Hok Hne) as Hlv. pose proof (head_links h hd (below ++ above) (e_id e) Hhd Hok) as Hlinks.
  assert (max_lv es = max (e_lv e) (max_lv (below ++ above))) as Emax by (subst es; apply max_lv_middle).
  assert (max_lv es <= kMaxLevel)%nat as Hle by (eapply max_lv_le, H).
  assert ((if Z.of_nat (sk_level node) =? cur_max_level_ s then Z.of_nat <$> lower_level h hd (max_lv es)
    else Some (cur_max_level_ s)) = Some (Z.of_nat (max_lv (below ++ above)))) as ->.
  { rewrite Hl, Elv. destruct (Z.eqb_spec (Z.of_nat (e_lv e)) (Z.of_nat (max_lv es))) as [El|El].
    - rewrite (lower_level_spec h hd (below ++ above)); [done| |lia]. intros l Hl'. apply Hlinks. lia.
    - do 2 f_equal. lia. }
  cbn [mbind option_bind]. eexists _, (below ++ above). split; [done|]. split.
  - split; cbn [head_ sk_heap count_ cur_max_level_ sk_fresh]; [by exists hd| |done|].
    + rewrite Hc, u64_small by (unfold in_u64, UINT64_MAX; lia). rewrite E, !length_app. cbn [length]. lia.
    + intros x Hx. apply Hf, (ok_dom _ _ _ H). rewrite E, ids_app. apply (ok_dom _ _ _ Hok) in Hx. rewrite ids_app in Hx.
      change (ids (e :: above)) with (e_id e :: ids above). rewrite !elem_of_cons, !elem_of_app, !elem_of_cons in *. tauto.
  - rewrite E, !keys_app. change (keys (e :: above)) with (e_key e :: keys above). rewrite Ek. by rewrite <- Permutation_middle.
Qed.

(** Of the only element: the level runs down past the array. *)
Lemma Remove_only (s : Skiplist) e sc t : sk_repr s [e] -> str_ok t -> e_key e = key_of sc (ds_data t) ->
  Remove s sc t = None.
Proof.
  intros [(hd & Hh & H) Hc Hl Hf] Ht Ek.
  destruct (Remove_step s hd [e] sc t Hh H Hl Ht) as (below & e' & above & h & node & E & _ & Hhd & Elv & Hok & ->).
  { rewrite <- Ek. by left. }
  assert (below = [] /\ above = [] /\ e' = e) as (-> & -> & ->).
  { destruct below as [|b below]; [by injection E as -> ->|]. injection E as _ E. by destruct below. }
  rewrite Hl, Elv. cbn [max_lv foldr]. rewrite Nat.max_0_r, Z.eqb_refl.
  rewrite (lower_level_nothing h hd); [done|]. intros l Hlt. apply (head_links h hd [] (e_id e) Hhd Hok).
  assert (elem_ok (sk_heap s) e) as He by (pose proof (ok_elem _ _ _ H) as Hel; by apply Forall_cons in Hel as [? _]).
  pose proof (eo_level _ _ He). lia.
Qed.

(** ** The whole list *)

Lemma new_repr : exists s, Skiplist_new = Some s /\ sk_repr s [].
Proof.
  unfold Skiplist_new. destruct (DynamicString_std_repr []) as (d & -> & Hd & _); [unfold fits; cbn; lia|].
  eexists. split; [done|]. split; [|done|done|].
  - exists O. split; [done|]. cbn [sk_heap]. split.
    + eexists _, _. unfold info. by rewrite lookup_singleton_eq.
    + constructor.
    + apply NoDup_singleton.
    + intros x. rewrite dom_singleton_L, elem_of_singleton. cbn. by rewrite list_elem_of_singleton.
    + constructor.
    + intros l Hl. change (at_level l []) with (@nil nat). cbn [links]. unfold next_at. rewrite lookup_singleton_eq. cbn [mbind option_bind SKNode_move sk_nexts].
      by apply lookup_replicate_2.
    + done.
  - intros x. cbn [sk_heap sk_fresh]. rewrite dom_singleton_L, elem_of_singleton. lia.
Qed.

Lemma gather_spec (h : heap) xs : forall p fuel, links h 0 p xs -> (length xs <= fuel)%nat ->
  gather fuel h (head xs) = Some xs.
Proof.
  induction xs as [|x xs IH]; intros p fuel H Hf; [by destruct fuel|]. destruct fuel as [|fuel]; [cbn in Hf; lia|].
  destruct H as [_ H]. cbn [head gather]. rewrite (links_next _ _ _ _ H). cbn [mbind option_bind].
  rewrite (IH x fuel H) by (cbn in Hf; lia). done.
Qed.

Lemma links_0 h hd es : sk_ok h hd es -> links h 0 hd (ids es).
Proof. intros H. rewrite <- (at_level_0 h es (ok_elem _ _ _ H)). apply H. unfold kMaxLevel. lia. Qed.

Lemma GatherAllNodes_spec (s : Skiplist) hd es b : head_ s = Some hd -> sk_ok (sk_heap s) hd es ->
  GatherAllNodes s b = Some (if b then hd :: ids es else ids es).
Proof.
  intros Hh H. pose proof (links_0 _ _ _ H) as Hl. unfold GatherAllNodes. rewrite Hh. cbn [mbind option_bind].
  rewrite (size_ok _ _ _ H). assert (length (ids es) = length es) as El by apply length_fmap. destruct b; cbn [mbind option_bind].
  - cbn [gather]. rewrite (first_spec _ _ _ H). cbn [mbind option_bind]. by rewrite (gather_spec _ _ hd) by (done || lia).
  - rewrite (first_spec _ _ _ H). cbn [mbind option_bind]. apply (gather_spec _ _ hd); [done|lia].
Qed.

Lemma delete_all_spec xs : forall h : heap, NoDup xs -> (forall x, x ∈ xs -> x ∈ dom h) ->
  exists h', delete_all h xs = Some h' /\ forall x, h' !! x = if decide (x ∈ xs) then None else h !! x.
Proof.
  induction xs as [|y xs IH]; intros h Hnd Hin; cbn [delete_all].
  { exists h. split; [done|]. intros x. by rewrite decide_False by apply not_elem_of_nil. }
  apply NoDup_cons in Hnd as [Hy Hnd]. assert (is_Some (h !! y)) as [n En] by (apply elem_of_dom, Hin; by left).
  rewrite En. cbn [mbind option_bind]. destruct (IH (delete y h) Hnd) as (h' & E & H).
  { intros x Hx. rewrite dom_delete_L. apply elem_of_difference. split; [apply Hin; by right|].
    rewrite elem_of_singleton. by intros ->. }
  exists h'. split; [done|]. intros x. rewrite H. destruct (decide (x ∈ xs)) as [Hx|Hx].
  - by rewrite decide_True by (by right).
  - destruct (decide (x = y)) as [->|Hxy].
    + rewrite lookup_delete_eq. by rewrite decide_True by (by left).
    + rewrite lookup_delete_ne by done. by rewrite decide_False by (rewrite elem_of_cons; tauto).
Qed.

Lemma null_nexts_spec hd levels : forall h : heap, (forall l, l ∈ levels -> is_Some (next_at h hd l)) ->
  exists h', null_nexts h hd levels = Some h' /\ same_nodes h h' /\
    forall x m, next_at h' x m = if decide (x = hd /\ m ∈ levels) then Some None else next_at h x m.
Proof.
  induction levels as [|l levels IH]; intros h H; cbn [null_nexts].
  { exists h. split; [done|]. split; [done|]. intros x m. by rewrite decide_False by (intros [_ Hm]; by apply not_elem_of_nil in Hm). }
  destruct (set_next_spec h hd l None (H l ltac:(by left))) as (h1 & -> & Hs1 & _ & Hn1). cbn [mbind option_bind].
  destruct (IH h1) as (h' & E & Hs & Hn).
  { intros m Hm. rewrite Hn1. destruct (decide _); [by eexists|]. apply H. by right. }
  exists h'. split; [done|]. split; [by eapply same_nodes_trans|]. intros x m. rewrite Hn, Hn1.
  destruct (decide (x = hd /\ m ∈ levels)) as [[-> Hm]|Hm]; [by rewrite decide_True by (split; [done|by right])|].
  destruct (decide (x = hd /\ m = l)) as [[-> ->]|Hl]; [by rewrite decide_True by (split; [done|by left])|].
  rewrite decide_False; [done|]. rewrite elem_of_cons. tauto.
Qed.

Lemma sk_Clear_repr (s : Skiplist) es : sk_repr s es -> exists s', sk_Clear s = Some s' /\ sk_repr s' [].
Proof.
  intros [(hd & Hh & H) Hc Hl Hf]. unfold sk_Clear. rewrite Hh, Hc. destruct es as [|e0 es0] eqn:Ees.
  { exists s. split; [done|]. split; [by exists hd|done..]. }
  rewrite <- Ees in *. replace (Z.of_nat (length es) =? 0) with false by (by rewrite Ees).
  rewrite (GatherAllNodes_spec s hd es false Hh H). cbn [mbind option_bind].
  pose proof (ok_ids _ _ _ H) as Hnd. apply NoDup_cons in Hnd as [Hhd Hnd].
  destruct (delete_all_spec (ids es) (sk_heap s) Hnd) as (h1 & -> & H1).
  { intros x Hx. apply (ok_dom _ _ _ H). by right. }
  cbn [mbind option_bind]. assert (h1 !! hd = sk_heap s !! hd) as Ehd by (by rewrite H1, decide_False).
  destruct (null_nexts_spec hd (seq 0 kMaxLevel) h1) as (h2 & -> & Hs & Hn).
  { intros l Hl'. apply elem_of_seq in Hl'. unfold next_at. rewrite Ehd. apply (next_at_head _ _ _ _ H). lia. }
  cbn [mbind option_bind]. eexists. split; [done|]. assert (forall x, x ∈ dom h2 <-> x = hd) as Hdom.
  { intros x. rewrite (same_nodes_dom _ _ Hs), elem_of_dom, H1. destruct (decide (x ∈ ids es)) as [Hx|Hx].
    - split; [by intros [? ?]|by intros ->].
    - rewrite <- elem_of_dom, (ok_dom _ _ _ H), elem_of_cons. tauto. }
  split; [|done|done|].
  - exists hd. split; [done|]. cbn [sk_heap]. split.
    + destruct (ok_head _ _ _ H) as (sc & d & Hi). exists sc, d. rewrite Hs. unfold info in *. by rewrite Ehd.
    + constructor.
    + apply NoDup_singleton.
    + intros x. cbn. by rewrite list_elem_of_singleton.
    + constructor.
    + intros l Hl'. change (at_level l []) with (@nil nat). cbn [links]. rewrite Hn, decide_True; [done|].
      split; [done|]. apply elem_of_seq. lia.
    + done.
  - cbn [sk_heap sk_fresh]. intros x Hx. apply Hdom in Hx as ->. apply Hf, (ok_dom _ _ _ H). by left.
Qed.

Lemma free_repr (s : Skiplist) es : sk_repr s es -> exists s', Skiplist_free s = Some s' /\ sk_heap s' = ∅.
Proof.
  intros [(hd & Hh & H) Hc Hl Hf]. unfold Skiplist_free. rewrite (GatherAllNodes_spec s hd es true Hh H). cbn [mbind option_bind].
  destruct (delete_all_spec (hd :: ids es) (sk_heap s) (ok_ids _ _ _ H)) as (h1 & -> & H1).
  { intros x Hx. by apply (ok_dom _ _ _ H). }
  eexists. split; [done|]. cbn [sk_heap]. apply map_eq. intros x. rewrite H1, lookup_empty.
  destruct (decide (x ∈ hd :: ids es)) as [Hx|Hx]; [done|]. rewrite <- (ok_dom _ _ _ H) in Hx. by apply not_elem_of_dom.
Qed.

(** *** The first and the last node *)

Lemma walk_end_spec (h : heap) l xs : forall p fuel, links h l p xs -> (length xs < fuel)%nat ->
  walk_end fuel h l p = Some (tip p xs).
Proof.
  induction xs as [|x xs IH]; intros p fuel H Hf; (destruct fuel as [|fuel]; [lia|]); cbn [links walk_end tip] in *.
  - by rewrite H.
  - destruct H as [-> H]. cbn [mbind option_bind]. apply IH; [done|cbn in Hf; lia].
Qed.

Lemma End_spec (s : Skiplist) hd es : head_ s = Some hd -> sk_ok (sk_heap s) hd es ->
  End s = Some (last (ids es)).
Proof.
  intros Hh H. unfold End. rewrite Hh. cbn [mbind option_bind]. rewrite (first_spec _ _ _ H). cbn [mbind option_bind].
  destruct es as [|e0 es0] eqn:Ees; [done|]. rewrite <- Ees in *.
  assert (exists q, head (ids es) = Some q) as [q ->] by (rewrite Ees; by eexists).
  assert (forall n m, (n <= m)%nat -> (n <= kMaxLevel)%nat ->
    end_down (sk_heap s) n (before hd es m) = Some (before hd es (if decide (n = O) then m else O))) as Hd.
  { induction n as [|l IH]; intros m Hm Hn; [done|]. cbn [end_down].
    destruct (before_split hd es l m) as (ys & zs & E & Et); [lia|].
    pose proof (ok_links _ _ _ H l ltac:(lia)) as Hlinks. rewrite E in Hlinks. apply links_app in Hlinks. rewrite Et in Hlinks.
    rewrite (walk_end_spec _ l zs); [|done|].
    - cbn [mbind option_bind]. replace (tip (before hd es m) zs) with (before hd es l).
      + rewrite IH by lia. by destruct l.
      + unfold before at 1. by rewrite E, tip_app, Et.
    - rewrite (size_ok _ _ _ H). pose proof (sublist_length _ _ (at_level_sublist l es)) as Hlen.
      unfold ids in Hlen. rewrite length_fmap, E, length_app in Hlen. lia. }
  specialize (Hd kMaxLevel kMaxLevel ltac:(lia) ltac:(lia)). rewrite decide_False in Hd by done.
  assert (before hd es kMaxLevel = hd) as Ehd.
  { unfold before. by rewrite (proj2 (at_level_empty kMaxLevel es)) by (eapply max_lv_le, H). }
  rewrite Ehd in Hd. rewrite Hd. cbn [mbind option_bind]. unfold before. rewrite (at_level_0 _ _ (ok_elem _ _ _ H)).
  f_equal. rewrite Ees. cbn [ids fmap list_fmap tip]. generalize (e_id e0) as p. generalize (e_id <$> es0) as xs.
  induction xs as [|x xs IH]; intros p; [done|]. cbn [tip]. by rewrite IH, last_cons_cons.
Qed.
