(* ===== verification/SkiplistSet.v ===== *)
(** * SkiplistSet: the skip list as a set of keys

    A sequence of operations on a list answers as the same sequence on a finite set,
    and what of the code this leaves out. *)

From S2P Require Import Prelude Str.
From stdpp Require Import list gmap fin_maps fin_sets sorting strings.
From S2P Require Import Skiplist SkiplistOrder SkiplistFacts SkiplistOps.

Local Open Scope Z_scope.

(** ** The specification *)

Inductive sk_op :=
  | SkInsert (throws : list bool) (score : Z) (x : list ascii)
  | SkContains (score : Z) (x : list ascii)
  | SkRemove (score : Z) (x : list ascii)
  | SkClear.

(** The call, on a string made from the bytes. *)
Definition sk_run (o : sk_op) (s : Skiplist) : option (Skiplist * bool) :=
  match o with
  | SkInsert throws score x => t ← DynamicString_std always_ok x; Insert throws s score t
  | SkContains score x => t ← DynamicString_std always_ok x; b ← Contains s score t; Some (s, b)
  | SkRemove score x => t ← DynamicString_std always_ok x; Remove s score t
  | SkClear => s ← sk_Clear s; Some (s, true)
  end.

Fixpoint sk_runs (ops : list sk_op) (s : Skiplist) : option (Skiplist * list bool) :=
  match ops with
  | [] => Some (s, [])
  | o :: ops => '(s, b) ← sk_run o s; '(s, bs) ← sk_runs ops s; Some (s, b :: bs)
  end.

(** The same on a set. *)
Definition set_run (o : sk_op) (S : gset skey) : gset skey * bool :=
  match o with
  | SkInsert _ score x => ({[key_of score x]} ∪ S, bool_decide (key_of score x ∉ S))
  | SkContains score x => (S, bool_decide (key_of score x ∈ S))
  | SkRemove score x => (S ∖ {[key_of score x]}, bool_decide (key_of score x ∈ S))
  | SkClear => (∅, true)
  end.

Fixpoint set_runs (ops : list sk_op) (S : gset skey) : gset skey * list bool :=
  match ops with
  | [] => (S, [])
  | o :: ops => let '(T, b) := set_run o S in let '(T, bs) := set_runs ops T in (T, b :: bs)
  end.

(** The strings fit, there is room to count, and the only element is not removed. *)
Definition sk_allowed (o : sk_op) (S : gset skey) : Prop :=
  Z.of_nat (size S) + 1 < 2 ^ 64 /\
  match o with
  | SkInsert _ _ x | SkContains _ x => fits x
  | SkRemove score x => fits x /\ S <> {[key_of score x]}
  | SkClear => True
  end.

Fixpoint sk_alloweds (ops : list sk_op) (S : gset skey) : Prop :=
  match ops with
  | [] => True
  | o :: ops => sk_allowed o S /\ sk_alloweds ops (set_run o S).1
  end.

#[export] Instance fits_dec x : Decision (fits x).
Proof. unfold fits. apply _. Defined.

#[export] Instance sk_allowed_dec o S : Decision (sk_allowed o S).
Proof. unfold sk_allowed. destruct o; apply _. Defined.

#[export] Instance sk_alloweds_dec ops : forall S, Decision (sk_alloweds ops S).
Proof. induction ops as [|o ops IH]; intros S; cbn [sk_alloweds]; apply _. Defined.

(** ** The refinement *)

Definition sk_holds (s : Skiplist) (es : list elem) (S : gset skey) : Prop :=
  sk_repr s es /\ S = list_to_set (keys es).

Lemma holds_sorted s es S : sk_holds s es S -> StronglySorted klt (keys es).
Proof. by intros [[(hd & _ & H) _ _ _] _]; apply H. Qed.

Lemma sorted_NoDup (ks : list skey) : StronglySorted klt ks -> NoDup ks.
Proof.
  induction ks as [|k ks IH]; intros H; [constructor|]. apply StronglySorted_cons in H as [Hk H].
  constructor; [|by apply IH]. intros Hin. rewrite Forall_forall in Hk. by apply (klt_irrefl k), Hk.
Qed.

Lemma holds_size s es S : sk_holds s es S -> size S = length es.
Proof.
  intros H. pose proof (sorted_NoDup _ (holds_sorted s es S H)) as Hnd. destruct H as [_ ->].
  rewrite size_list_to_set by done. apply length_fmap.
Qed.

Lemma std_ok x : fits x -> exists t, DynamicString_std always_ok x = Some t /\ str_ok t /\ ds_data t = x.
Proof.
  intros Hx. destruct (DynamicString_std_repr x Hx) as (t & E & Ht & _). exists t. split; [done|].
  pose proof (ds_data_repr t x Ht) as Ed. split; [unfold str_ok; by rewrite Ed|done].
Qed.

Lemma set_perm (ks ks' : list skey) : ks ≡ₚ ks' -> list_to_set (C := gset skey) ks = list_to_set ks'.
Proof. intros H. apply set_eq. intros k. rewrite !elem_of_list_to_set. by rewrite H. Qed.

Lemma run_insert throws score x s es S : sk_holds s es S -> sk_allowed (SkInsert throws score x) S ->
  exists s' es', sk_run (SkInsert throws score x) s = Some (s', bool_decide (key_of score x ∉ S)) /\
    sk_holds s' es' ({[key_of score x]} ∪ S).
Proof.
  intros H [Hs Hx]. pose proof (holds_size s es S H) as Hsz. destruct H as [H ->]. cbn [sk_run].
  destruct (std_ok x Hx) as (t & -> & Ht & Et). cbn [mbind option_bind].
  pose proof (Insert_spec throws s es score t H Ht ltac:(lia)) as Hi. rewrite Et in Hi. destruct (decide (_ ∈ keys es)) as [Hk|Hk].
  - exists s, es. rewrite Hi. rewrite bool_decide_eq_false_2 by (rewrite elem_of_list_to_set; tauto).
    split; [done|]. split; [done|]. apply set_eq. intros k. rewrite elem_of_union, elem_of_singleton, !elem_of_list_to_set.
    split; [by intros [->|?]|by right].
  - destruct Hi as (s' & es' & -> & Hr & Hp). exists s', es'. rewrite bool_decide_eq_true_2 by (by rewrite elem_of_list_to_set).
    split; [done|]. split; [done|]. by rewrite (set_perm _ _ Hp).
Qed.

Lemma run_remove score x s es S : sk_holds s es S -> sk_allowed (SkRemove score x) S ->
  exists s' es', sk_run (SkRemove score x) s = Some (s', bool_decide (key_of score x ∈ S)) /\
    sk_holds s' es' (S ∖ {[key_of score x]}).
Proof.
  intros H (Hs & Hx & Hne). pose proof (holds_size s es S H) as Hsz. pose proof (sorted_NoDup _ (holds_sorted s es S H)) as Hnd.
  destruct H as [H ->]. cbn [sk_run]. destruct (std_ok x Hx) as (t & -> & Ht & Et). cbn [mbind option_bind].
  destruct (decide (key_of score x ∈ keys es)) as [Hk|Hk].
  - rewrite bool_decide_eq_true_2 by (by rewrite elem_of_list_to_set). assert (1 < length es)%nat as Hlen.
    { destruct es as [|e [|e' es]]; [by apply not_elem_of_nil in Hk| |cbn; lia]. destruct Hne. cbn in Hk |- *.
      apply list_elem_of_singleton in Hk. rewrite Hk. by rewrite (right_id_L ∅ (∪)). }
    destruct (Remove_present s es score t H Ht) as (s' & es' & -> & Hr & Hp); [by rewrite Et|done|lia|].
    rewrite Et in Hp. exists s', es'. split; [done|]. split; [done|]. rewrite (set_perm _ _ Hp). rewrite Hp in Hnd.
    apply NoDup_cons in Hnd as [Hnd _]. apply set_eq. intros k. rewrite elem_of_difference, elem_of_singleton, !elem_of_list_to_set, elem_of_cons.
    split; [tauto|]. intros Hin. split; [by right|]. by intros ->.
  - rewrite (Remove_absent s es score t H Ht) by (by rewrite Et). exists s, es.
    rewrite bool_decide_eq_false_2 by (by rewrite elem_of_list_to_set). split; [done|]. split; [done|].
    apply set_eq. intros k. rewrite elem_of_difference, elem_of_singleton, !elem_of_list_to_set.
    split; [tauto|]. intros Hin. split; [done|]. by intros ->.
Qed.

Lemma run_holds o s es S : sk_holds s es S -> sk_allowed o S ->
  exists s' es', sk_run o s = Some (s', (set_run o S).2) /\ sk_holds s' es' (set_run o S).1.
Proof.
  intros H Ha. destruct o as [throws score x|score x|score x|].
  - by apply (run_insert throws score x s es).
  - destruct Ha as [_ Hx], H as [H ->]. cbn [sk_run]. destruct (std_ok x Hx) as (t & -> & Ht & Et). cbn [mbind option_bind].
    rewrite (Contains_spec s es score t H Ht), Et. exists s, es. split; [|done]. cbn [mbind option_bind set_run snd]. do 2 f_equal.
    apply bool_decide_ext. by rewrite elem_of_list_to_set.
  - by apply (run_remove score x s es).
  - destruct H as [H _]. cbn [sk_run]. destruct (sk_Clear_repr s es H) as (s' & -> & Hr). by exists s', [].
Qed.

Lemma runs_hold ops : forall s es S, sk_holds s es S -> sk_alloweds ops S ->
  exists s' es', sk_runs ops s = Some (s', (set_runs ops S).2) /\ sk_holds s' es' (set_runs ops S).1.
Proof.
  induction ops as [|o ops IH]; intros s es S H Ha; [by exists s, es|]. destruct Ha as [Ho Ha].
  destruct (run_holds o s es S H Ho) as (s1 & es1 & E1 & H1). destruct (IH s1 es1 _ H1 Ha) as (s' & es' & E & H').
  exists s', es'. cbn [sk_runs set_runs]. rewrite E1. cbn [mbind option_bind]. rewrite E. cbn [mbind option_bind].
  destruct (set_run o S) as [S1 b1]. cbn [fst snd] in *. destruct (set_runs ops S1) as [S2 bs2]. by split.
Qed.

Lemma reached ops s bs : sk_alloweds ops ∅ -> (s0 ← Skiplist_new; sk_runs ops s0) = Some (s, bs) ->
  exists es, sk_holds s es (set_runs ops ∅).1.
Proof.
  intros Ha E. destruct new_repr as (s0 & Es0 & H0). rewrite Es0 in E. cbn [mbind option_bind] in E.
  destruct (runs_hold ops s0 [] ∅) as (s' & es' & E' & H'); [by split|done|]. rewrite E' in E. injection E as <- _. by exists es'.
Qed.

(** The list that a sequence of operations leaves. *)
Definition sk_after (ops : list sk_op) : option (Skiplist * list bool) := s ← Skiplist_new; sk_runs ops s.

(** C15. Started empty, the list answers every sequence of insertions, searches,
    removals and clearings, at whatever levels the coin throws put the nodes, as a
    finite set of the keys (score, bytes up to the first NUL, length) does, and counts
    its elements; nothing goes through a null or freed pointer. The removal of the only
    element is excluded, see [Remove_last_undefined]. *)
Theorem Skiplist_refines_set (ops : list sk_op) : sk_alloweds ops ∅ ->
  exists s, sk_after ops = Some (s, (set_runs ops ∅).2) /\
    sk_Count s = Z.of_nat (size (set_runs ops ∅).1) /\ sk_Empty s = bool_decide ((set_runs ops ∅).1 = ∅).
Proof.
  intros Ha. destruct new_repr as (s0 & Es0 & H0). unfold sk_after. rewrite Es0. cbn [mbind option_bind].
  destruct (runs_hold ops s0 [] ∅) as (s & es & E & H); [by split|done|]. exists s. split; [done|].
  pose proof (holds_size s es _ H) as Hsz. destruct H as [[_ Hc _ _] ES]. unfold sk_Empty, sk_Count. rewrite Hc, Hsz.
  split; [done|]. apply eq_bool_prop_intro. rewrite bool_decide_spec, Is_true_true, Z.eqb_eq.
  rewrite <- leibniz_equiv_iff, <- size_empty_iff, Hsz. lia.
Qed.

Definition demo_ops : list sk_op :=
  [SkInsert [] 5 (bs "five"); SkInsert [true; true] 3 (bs "three"); SkInsert [true] 5 (bs "cinq");
   SkInsert [] 3 (bs "three"); SkRemove 5 (bs "five"); SkContains 5 (bs "five"); SkContains 5 (bs "cinq");
   SkInsert [true; true; true] 4 (bs "four")].

Lemma Skiplist_refines_set_witness : sk_alloweds demo_ops ∅ /\
  exists s, sk_after demo_ops = Some (s, [true; true; true; false; true; false; true; true]) /\ sk_Count s = 3.
Proof.
  assert (sk_alloweds demo_ops ∅) as Ha by (refine (bool_decide_unpack _ _); vm_compute; exact I).
  split; [exact Ha|]. destruct (Skiplist_refines_set demo_ops Ha) as (s & E & Hc & _). exists s. split; [exact E|exact Hc].
Defined.

Lemma node_keys (h : heap) es : Forall (elem_ok h) es ->
  exists ns, mapM (h !!.) (ids es) = Some ns /\ node_key <$> ns = keys es /\ sk_level <$> ns = e_lv <$> es.
Proof.
  induction 1 as [|e es He H (ns & E & Hk & Hv)]; [by exists []|]. destruct (eo_info _ _ He) as (sc & d & Hi & _ & Ek).
  unfold info in Hi. cbn [ids fmap list_fmap mapM]. destruct (h !! e_id e) as [n|]; [|done]. cbn in Hi. injection Hi as <- <- El _.
  exists (n :: ns). cbn [mbind option_bind]. unfold ids in E. rewrite E. cbn. rewrite Hk, Hv, El, Ek. done.
Qed.

(** [GetAllSKNodes] gives the elements of the set, each once, in the order of the
    comparator; [Begin] is the first of them and [End] the last. *)
Lemma Skiplist_in_order (ops : list sk_op) (s : Skiplist) (bs : list bool) :
  sk_alloweds ops ∅ -> sk_after ops = Some (s, bs) ->
  exists nodes ns, GetAllSKNodes s = Some nodes /\ mapM (sk_heap s !!.) nodes = Some ns /\
    StronglySorted klt (node_key <$> ns) /\ (forall k, k ∈ node_key <$> ns <-> k ∈ (set_runs ops ∅).1) /\
    Begin s = Some (head nodes) /\ End s = Some (last nodes).
Proof.
  intros Ha E. destruct (reached ops s bs Ha E) as (es & H). pose proof (holds_sorted s es _ H) as Hs.
  destruct H as [[(hd & Hh & H) _ _ _] ES]. destruct (node_keys (sk_heap s) es (ok_elem _ _ _ H)) as (ns & En & Hk & _).
  exists (ids es), ns. split; [by apply (GatherAllNodes_spec s hd es false)|]. split; [done|]. rewrite Hk. split; [done|].
  split; [intros k; rewrite ES; by rewrite elem_of_list_to_set|].
  split; [unfold Begin; rewrite Hh; by apply first_spec|by apply (End_spec s hd)].
Qed.

Lemma Skiplist_in_order_witness : exists s bs nodes ns, sk_after demo_ops = Some (s, bs) /\
  GetAllSKNodes s = Some nodes /\ mapM (sk_heap s !!.) nodes = Some ns /\
  StronglySorted klt (node_key <$> ns) /\ sk_score <$> ns = [3; 4; 5].
Proof.
  destruct (sk_after demo_ops) as [[s bs]|] eqn:E; [|vm_compute in E; discriminate E].
  destruct (Skiplist_in_order demo_ops s bs) as (nodes & ns & Hn & Hm & Hs & _);
    [refine (bool_decide_unpack _ _); vm_compute; exact I|exact E|].
  exists s, bs, nodes, ns. split; [reflexivity|]. split; [exact Hn|]. split; [exact Hm|]. split; [exact Hs|].
  revert Hn Hm. vm_compute in E. injection E as <- _. vm_compute. intros [= <-] [= <-]. reflexivity.
Defined.

(** The nodes whose level is above [l]. *)
Definition level_nodes (h : heap) (l : nat) (nodes : list nat) : list nat :=
  filter (λ x, l < default O (sk_level <$> h !! x))%nat nodes.

Lemma level_nodes_ids h l es : Forall (elem_ok h) es -> level_nodes h l (ids es) = at_level l es.
Proof.
  unfold level_nodes. induction 1 as [|e es He H IH]; [done|]. rewrite at_level_cons, <- IH.
  destruct (eo_info _ _ He) as (sc & d & Hi & _). destruct (node_level _ _ _ _ _ _ Hi) as (n & En & El).
  change (ids (e :: es)) with (e_id e :: ids es). destruct (decide (l < e_lv e)%nat).
  - rewrite filter_cons_True; [done|]. by rewrite En, <- El in *.
  - rewrite filter_cons_False; [done|]. by rewrite En, <- El in *.
Qed.

(** C28. The shape that makes the shortcuts sound: at every level the pointers lead from
    the head through exactly the nodes of a greater level, in order, to null; the back
    pointers are the inverse of those of level 0; and [CurMaxLevel] is the level of the
    highest node, so that a search starts where the shortcuts do. *)
Theorem Skiplist_levels (ops : list sk_op) (s : Skiplist) (bs : list bool) :
  sk_alloweds ops ∅ -> sk_after ops = Some (s, bs) ->
  exists hd nodes ns, head_ s = Some hd /\ GetAllSKNodes s = Some nodes /\ mapM (sk_heap s !!.) nodes = Some ns /\
    (forall l, (l < kMaxLevel)%nat -> links (sk_heap s) l hd (level_nodes (sk_heap s) l nodes)) /\
    prevs (sk_heap s) hd nodes /\ CurMaxLevel s = Z.of_nat (foldr max O (sk_level <$> ns)).
Proof.
  intros Ha E. destruct (reached ops s bs Ha E) as (es & [(hd & Hh & H) _ Hl _] & _).
  destruct (node_keys (sk_heap s) es (ok_elem _ _ _ H)) as (ns & En & _ & Hv). exists hd, (ids es), ns.
  split; [done|]. split; [by apply (GatherAllNodes_spec s hd es false)|]. split; [done|]. split.
  - intros l Hlt. rewrite (level_nodes_ids _ _ _ (ok_elem _ _ _ H)). by apply H.
  - split; [apply H|]. unfold CurMaxLevel. rewrite Hl, Hv. f_equal. unfold max_lv. clear. by induction es as [|e es IH]; [|cbn; f_equal].
Qed.

Lemma Skiplist_levels_witness : exists s bs hd nodes ns, sk_after demo_ops = Some (s, bs) /\ head_ s = Some hd /\
  GetAllSKNodes s = Some nodes /\ mapM (sk_heap s !!.) nodes = Some ns /\ sk_level <$> ns = [3; 4; 2]%nat /\ CurMaxLevel s = 4.
Proof.
  destruct (sk_after demo_ops) as [[s bs]|] eqn:E; [|vm_compute in E; discriminate E].
  destruct (Skiplist_levels demo_ops s bs) as (hd & nodes & ns & Hh & Hn & Hm & _ & _ & Hl);
    [refine (bool_decide_unpack _ _); vm_compute; exact I|exact E|].
  exists s, bs, hd, nodes, ns. split; [reflexivity|]. split; [exact Hh|]. split; [exact Hn|]. split; [exact Hm|].
  revert Hn Hm Hl. vm_compute in E. injection E as <- _. vm_compute. intros [= <-] [= <-] Hl. by split.
Defined.

(** The removal of the only element reads [head_->nexts\[-1\]]: the loop that
    lowers the level tests the pointer before it tests that there is a level left. *)
Lemma Remove_last_undefined (throws : list bool) (score : Z) (x : list ascii) : fits x ->
  exists s, sk_after [SkInsert throws score x] = Some (s, [true]) /\ sk_run (SkRemove score x) s = None.
Proof.
  intros Hx. destruct new_repr as (s0 & Es0 & H0). destruct (std_ok x Hx) as (t & Et & Ht & Etx).
  destruct (Insert_first throws s0 score t H0 Ht) as (s & E & Hs). exists s. unfold sk_after. cbn [sk_runs sk_run].
  rewrite Es0. cbn [mbind option_bind]. rewrite Et. cbn [mbind option_bind]. rewrite E. split; [done|].
  by apply (Remove_only s _ score t Hs Ht).
Qed.

Lemma Remove_last_undefined_witness :
  exists s, sk_after [SkInsert [] 1 (bs "only")] = Some (s, [true]) /\ sk_run (SkRemove 1 (bs "only")) s = None.
Proof. apply (Remove_last_undefined [] 1 (bs "only")). vm_compute. reflexivity. Defined.

(** The destructor deletes every node once and leaves none. *)
Lemma Skiplist_destroyed (ops : list sk_op) (s : Skiplist) (bs : list bool) :
  sk_alloweds ops ∅ -> sk_after ops = Some (s, bs) -> exists s', Skiplist_free s = Some s' /\ sk_heap s' = ∅.
Proof. intros Ha E. destruct (reached ops s bs Ha E) as (es & H & _). by apply (free_repr s es). Qed.

Example demo_printed : (r ← sk_after demo_ops; sk_print r.1) = Some (bs "[3, three, 3] -> [4, four, 4] -> [5, cinq, 2]").
Proof. vm_compute. reflexivity. Qed.
