(* ===== verification/Net.v ===== *)
(** * Net: the event loop (src/net/net.cpp, the accept handler of net/server.cpp)

    One round waits for the kernel, runs the read and write handlers of the sessions
    it reports, in order, and then the timers that are due. How long it waits does
    not matter here (see [HowLongTillNextFired]); [Stop] ends the rounds. A session in an event is
    a pointer, here its name: [None] is an access to a session that is gone, or
    what is undefined in the handlers. *)

From S2P Require Import Prelude Numerals Buffer Protocol Server TimeEvent.
From stdpp Require Import list gmap fin_maps.

Local Open Scope Z_scope.

(** ** Accepting *)

Definition Session_new (mask : Z) : Session :=
  mkSession (Buffer_new 64) (Buffer_new 64) cache_Clear mask false [] SESSION_MODE_REGULAR.

(** [snprintf(buf, sizeof buf, "*%s#%d", ...)] with its block of 64 bytes. *)
Definition session_name (addr : list ascii) (id : Z) : list ascii :=
  take 63 (bs "*" ++ addr ++ bs "#" ++ to_string id).

(** [AcceptProc]: [remote] is the address of the connection that [accept] returns, if
    any, and [next_session_id_] is counted up. The kernel accepts the descriptor. *)
Definition AcceptProc (sv : Server) (next_session_id_ : Z) (remote : option (list ascii)) : Server * Z :=
  match remote with
  | None => (sv, next_session_id_)
  | Some addr => (AttachSession sv (session_name addr next_session_id_) (Session_new EPOLLIN), i32 (next_session_id_ + 1))
  end.

(** ** Teardown *)

(** [DetachSession]: the kernel takes the descriptor out of its list. *)
Definition DetachSession (sv : Server) (name : list ascii) : Server :=
  match sessions_ sv !! name with
  | Some s => mkServer (<[name := set_watched false s]> (sessions_ sv)) (subscription_sessions_ sv) (delete name (interest sv))
  | None => sv
  end.

(** [FreeClientSessions]; the map is in the order of its keys here. *)
Definition FreeClientSessions (sv : Server) : Server :=
  let sv := mkServer (sessions_ sv) ∅ (interest sv) in
  let sv := foldl DetachSession sv (map_to_list (sessions_ sv)).*1 in
  mkServer ∅ (subscription_sessions_ sv) (interest sv).

(** ** Timers of the loop *)

Definition AddTimeEvent (now : Z) (tev_holder : TimeEventHolder) (interval count : Z) : TimeEventHolder * TimeEvent :=
  CreateTimeEvent now tev_holder interval count.

Definition loop_UpdateTimeEvent (now : Z) (tev_holder : TimeEventHolder) (id interval count : Z) : TimeEventHolder * bool :=
  UpdateTimeEvent now tev_holder id interval count.

Definition loop_RemoveTimeEvent (tev_holder : TimeEventHolder) (id : Z) : TimeEventHolder * bool :=
  RemoveTimeEvent tev_holder id.

(** ** The loop *)

(** What the kernel reports: of the listening descriptor, the connection that
    [accept] then returns; of a session, how it then answers the reads of its descriptor
    and how it takes what is sent. *)
Inductive fired :=
  | FListen (events : Z) (remote : option (list ascii))
  | FSession (name : list ascii) (events : Z) (reads : list read_answer) (answers : list send_answer).

Section Loop.

Context {E : Type}.
Variable HandleCommand : E -> Server -> list ascii -> CommandCache -> option (E * Server * list ascii).
(** [HandleFiredTimeEvent] at a time, with the later readings of the clock. *)
Variable HandleFiredTimeEvent : Z -> list Z -> E -> E.

Record loop_state := mkLoop {
  engine_ : E;
  server_ : Server;
  next_id : Z;
  sent : list (list ascii * list ascii)   (* what has gone out, to whom *)
}.

(** [session->mask & fired_events & which]. *)
Definition interested (m events which : Z) : bool := negb (Z.land (Z.land m events) which =? 0).

(** One event: the read handler, and unless it has closed the session the write
    handler. *)
Definition loop_event (st : loop_state) (f : fired) : option loop_state :=
  match f with
  | FListen events remote =>
      if interested EPOLLIN events EPOLLIN then
        let '(sv, id) := AcceptProc (server_ st) (next_id st) remote in
        Some (mkLoop (engine_ st) sv id (sent st))
      else Some st
  | FSession name events reads answers =>
      s ← sessions_ (server_ st) !! name;
      '(e, sv, closed) ← if interested (Server.mask s) events EPOLLIN
                         then ReadProc HandleCommand (engine_ st) (server_ st) name reads
                         else Some (engine_ st, server_ st, false);
      if closed : bool then Some (mkLoop e sv (next_id st) (sent st))
      else
        s ← sessions_ sv !! name;
        if interested (Server.mask s) events EPOLLOUT then
          '(sv, _, wire) ← WriteProc sv name answers;
          Some (mkLoop e sv (next_id st) (sent st ++ [(name, wire)]))
        else Some (mkLoop e sv (next_id st) (sent st))
  end.

(** [for (int i = 0; ready != -1 && i < ready; ++i)]. *)
Fixpoint loop_events (st : loop_state) (events : list fired) : option loop_state :=
  match events with
  | [] => Some st
  | f :: events => st ← loop_event st f; loop_events st events
  end.

(** A round: the events, then the timers. *)
Record round := mkRound { r_events : list fired; r_now : Z; r_clock : list Z }.

Definition loop_round (st : loop_state) (r : round) : option loop_state :=
  st ← loop_events st (r_events r);
  Some (mkLoop (HandleFiredTimeEvent (r_now r) (r_clock r) (engine_ st)) (server_ st) (next_id st) (sent st)).

(** [Loop], until it is stopped. *)
Fixpoint Loop (st : loop_state) (rounds : list round) : option loop_state :=
  match rounds with
  | [] => Some st
  | r :: rounds => st ← loop_round st r; Loop st rounds
  end.

End Loop.

Arguments loop_state : clear implicits.
Arguments mkLoop {E} _ _ _ _.

(** What has been sent to a session. *)
Definition sent_to {E} (st : loop_state E) (name : list ascii) : list ascii :=
  concat (snd <$> filter (λ p, p.1 = name) (sent st)).
