(* ===== verification/NetFacts.v ===== *)
(** * NetFacts: what the event loop serves

    Requests arrive cut in pieces, replies leave in pieces, and the sessions take turns in any
    order: a run of the loop executes whole commands one after the other, each client's in its
    order, and answers every client with its replies. What the pieces have to satisfy is
    [read_ok] and [takes_some]; what else the kernel may report is [event_ok]. *)

From S2P Require Import Prelude Buffer Protocol Server TimeEvent Persistence PersistenceFacts Commands EngineFacts Net.
From stdpp Require Import list gmap fin_maps.

Local Open Scope Z_scope.

(** ** One session *)

Section Engine.

Context {E : Type}.
Variable HandleCommand : E -> Server -> list ascii -> CommandCache -> option (E * Server * list ascii).
Variable tick : Z -> list Z -> E -> E.
(** The commands [data] work on the engine only: they leave the sessions alone and do
    not look at them. *)
Variable step : E -> list (list ascii) -> option (E * list ascii).
Variable data : list (list ascii) -> Prop.
Hypothesis HandleCommand_step : forall e sv name args, data args ->
  HandleCommand e sv name (request args) = ('(e, reply) ← step e args; Some (e, sv, reply)).

Fixpoint steps (e : E) (cmds : list (list (list ascii))) : option (E * list (list ascii)) :=
  match cmds with
  | [] => Some (e, [])
  | args :: cmds =>
      '(e, reply) ← step e args;
      '(e, replies) ← steps e cmds;
      Some (e, reply :: replies)
  end.

(** [read_loop] on what the parser finds. *)
Lemma read_loop_parses name b c ds b' c' er : parses b c ds b' c' er -> Forall data ds ->
  forall fuel e sv s W e' replies, sessions_ sv !! name = Some s -> read_buf s = b -> cache s = c ->
  buf_repr (write_buf s) W -> (length ds < fuel)%nat -> steps e ds = Some (e', replies) ->
  buf_ops_ok (write_buf s) (BAppend <$> replies) ->
  exists wb, buf_repr wb (W ++ concat replies) /\
    read_loop HandleCommand fuel e sv name false =
      Some (e', put_session sv name (set_cache c' (set_read_buf b' (set_write_buf wb s))), er).
Proof.
  intros H. induction H as [b c b' c' er Ep|b c args b1 ds b' c' er Ep H IH]; intros Hd fuel e sv s W e' replies Hs Eb Ec Hw Hf Hst Hok;
    (destruct fuel as [|fuel]; [lia|]); cbn [read_loop]; rewrite Hs; cbn [mbind option_bind]; rewrite Eb, Ec, Ep;
    cbn [mbind option_bind ret err pbuf pcache andb negb].
  - injection Hst as <- <-. exists (write_buf s). cbn [concat]. rewrite app_nil_r. split; [done|]. by destruct s.
  - apply Forall_cons in Hd as [Hd Hds]. cbn [steps] in Hst. rewrite HandleCommand_step by done.
    destruct (step e args) as [[e1 reply]|]; [|done]. cbn [mbind option_bind] in Hst |- *.
    destruct (steps e1 ds) as [[e2 rs]|] eqn:Est; [|done]. cbn [mbind option_bind] in Hst. injection Hst as <- <-.
    cbn [sessions_ put_session]. rewrite lookup_insert_eq. cbn [mbind option_bind write_buf set_cache set_read_buf].
    cbn [fmap list_fmap buf_ops_ok] in Hok. destruct Hok as [Hop Hok].
    destruct (buf_exec_refines (write_buf s) W (BAppend reply) Hw Hop) as (wb & Ewb & Hwb).
    rewrite Ewb in Hok. cbn in Ewb. destruct (buf_Append_std (write_buf s) reply) as [wb'|]; [|done].
    injection Ewb as ->. cbn [mbind option_bind queue_step snd] in *.
    set (s1 := set_cache cache_Clear _).
    destruct (IH Hds fuel e1 (put_session (put_session sv name (set_cache (request args) (set_read_buf b1 s))) name s1)
                s1 (W ++ reply) e2 rs) as (wb2 & Hwb2 & E2); [cbn; by rewrite lookup_insert_eq|done|done|done|cbn in Hf; lia|done|done|].
    exists wb2. split; [cbn [concat]; by rewrite app_assoc|]. rewrite E2. unfold put_session. cbn. by rewrite !insert_insert_eq.
Qed.

(** The read handler with a piece of the stream. *)
Lemma ReadProc_stream name cmds R rest0 p rest sv s W e e' ds todo replies b b' c' er :
  sessions_ sv !! name = Some s -> reading (read_buf s) (cache s) R rest0 cmds -> rest0 = p ++ rest ->
  buf_repr (write_buf s) W -> buf_op_ok (read_buf s) (BAppend p) -> buf_Append_std (read_buf s) p = Some b ->
  parses b (cache s) ds b' c' er -> cmds = ds ++ todo -> er = false -> (length ds <= length (R ++ p))%nat ->
  Forall data ds -> steps e ds = Some (e', replies) -> buf_ops_ok (write_buf s) (BAppend <$> replies) ->
  forall reads, delivered reads = Some p ->
  exists wb, buf_repr wb (W ++ concat replies) /\
    ReadProc HandleCommand e sv name reads =
      Some (e', ModifySession sv name (SetWrite (set_cache c' (set_read_buf b' (set_write_buf wb s)))), false).
Proof.
  intros Hs Hrd -> Hw Hop Hb Hparse -> -> Hlen Hd Hst Hok reads Hreads. pose proof (rd_repr _ _ _ _ _ Hrd) as Hr.
  destruct (buf_exec_refines _ _ _ Hr Hop) as (b1 & Eb1 & Hb1). cbn [buf_exec queue_step fst snd] in Eb1, Hb1.
  rewrite Hb in Eb1. injection Eb1 as <-. destruct Hop as (Hfit & _).
  rewrite (ReadProc_delivered _ _ _ _ _ _ Hreads). unfold ReadProc_bytes. rewrite Hs. cbn [mbind option_bind].
  unfold buf_Append_std, Str.fits in *.
  rewrite i32_small in Hb by (unfold in_i32, INT32_MIN, INT32_MAX; lia). rewrite Hb. cbn [mbind option_bind].
  destruct (read_loop_parses name b (cache s) ds b' c' false Hparse Hd (S (Z.to_nat (ReadableBytes b))) e
    (put_session sv name (set_read_buf b s)) (set_read_buf b s) W e' replies) as (wb & Hwb & ->);
    [cbn; by rewrite lookup_insert_eq|done|done|done|rewrite (buf_repr_readable _ _ Hb1), Nat2Z.id; lia|done|done|].
  exists wb. split; [done|]. cbn [mbind option_bind sessions_ put_session]. rewrite lookup_insert_eq. cbn [mbind option_bind].
  unfold ModifySession, AttachSession, put_session. cbn. by rewrite !insert_insert_eq.
Qed.

(** ** Runs *)

(** What happened, in order: a client's command with its reply, or a round of the
    timers. *)
Inductive action :=
  | Did (name : list ascii) (args : list (list ascii)) (reply : list ascii)
  | Ticked (now : Z) (clock : list Z).

(** The engine executes the actions one after the other. *)
Fixpoint traced (e : E) (tr : list action) (e' : E) : Prop :=
  match tr with
  | [] => e = e'
  | Did _ args reply :: tr => exists e1, step e args = Some (e1, reply) /\ traced e1 tr e'
  | Ticked now clock :: tr => traced (tick now clock e) tr e'
  end.

Definition commands_of (name : list ascii) (tr : list action) : list (list (list ascii)) :=
  a ← tr; match a with Did n args _ => if decide (n = name) then [args] else [] | _ => [] end.

Definition replies_of (name : list ascii) (tr : list action) : list (list ascii) :=
  a ← tr; match a with Did n _ reply => if decide (n = name) then [reply] else [] | _ => [] end.

Definition did (name : list ascii) (ds : list (list (list ascii))) (replies : list (list ascii)) : list action :=
  zip_with (Did name) ds replies.

Lemma traced_app e tr e1 : forall tr' e', traced e tr e1 -> traced e1 tr' e' -> traced e (tr ++ tr') e'.
Proof.
  revert e. induction tr as [|[n args reply|now clock] tr IH]; intros e tr' e' H H'; cbn [traced app] in *.
  - by subst.
  - destruct H as (e2 & Es & H). exists e2. split; [done|]. by apply IH.
  - by apply IH.
Qed.

Lemma steps_traced name ds : forall e e' replies, steps e ds = Some (e', replies) ->
  traced e (did name ds replies) e' /\ length replies = length ds.
Proof.
  induction ds as [|args ds IH]; intros e e' replies H; cbn [steps] in H; [by injection H as <- <-|].
  destruct (step e args) as [[e1 r]|] eqn:Es; [|done]. cbn [mbind option_bind] in H.
  destruct (steps e1 ds) as [[e2 rs]|] eqn:Est; [|done]. cbn [mbind option_bind] in H. injection H as <- <-.
  destruct (IH _ _ _ Est) as [Ht Hl]. split; [by exists e1|by cbn; rewrite Hl].
Qed.

Lemma of_app name tr tr' : commands_of name (tr ++ tr') = commands_of name tr ++ commands_of name tr' /\
  replies_of name (tr ++ tr') = replies_of name tr ++ replies_of name tr'.
Proof. unfold commands_of, replies_of. by rewrite !bind_app. Qed.

Lemma of_did name ds : forall replies, length replies = length ds ->
  commands_of name (did name ds replies) = ds /\ replies_of name (did name ds replies) = replies.
Proof.
  induction ds as [|args ds IH]; intros [|r rs] Hl; try done. destruct (IH rs) as [E1 E2]; [by injection Hl|].
  change (did name (args :: ds) (r :: rs)) with (Did name args r :: did name ds rs). unfold commands_of, replies_of in *.
  rewrite !bind_cons, !decide_True by done. rewrite E1, E2. by split.
Qed.

Lemma of_did_other name name' ds : forall replies, name' <> name ->
  commands_of name' (did name ds replies) = [] /\ replies_of name' (did name ds replies) = [].
Proof.
  induction ds as [|args ds IH]; intros [|r rs] Hne; try done. destruct (IH rs Hne) as [E1 E2].
  change (did name (args :: ds) (r :: rs)) with (Did name args r :: did name ds rs). unfold commands_of, replies_of in *.
  rewrite !bind_cons, !decide_False by done. rewrite E1, E2. by split.
Qed.

(** A client of the loop: its commands are those executed and those to come, of which
    some bytes are in the buffer and [rest] is still to arrive; its replies are what
    it has been sent and what is to be sent; and the kernel is asked for the write
    event as long as there is something to send. *)
Definition served (st : loop_state E) (tr : list action) (name : list ascii) (cmds : list (list (list ascii)))
    (rest : list ascii) : Prop :=
  exists s todo R W, sessions_ (server_ st) !! name = Some s /\
    cmds = commands_of name tr ++ todo /\ reading (read_buf s) (cache s) R rest todo /\
    buf_repr (write_buf s) W /\ sent_to st name ++ W = concat (replies_of name tr) /\
    (Server.mask s = Z.lor EPOLLIN EPOLLOUT \/ Server.mask s = EPOLLIN /\ W = []) /\
    interest (server_ st) !! name = Some (Server.mask s).

(** The others do not notice. *)
Definition same_but (name : list ascii) (sv sv' : Server) : Prop :=
  forall name', name' <> name -> sessions_ sv' !! name' = sessions_ sv !! name' /\ interest sv' !! name' = interest sv !! name'.

Lemma served_other st st' tr tr' name name' cmds rest : same_but name (server_ st) (server_ st') -> name' <> name ->
  sent_to st' name' = sent_to st name' -> commands_of name' tr' = [] -> replies_of name' tr' = [] ->
  served st tr name' cmds rest -> served st' (tr ++ tr') name' cmds rest.
Proof.
  intros Hsame Hne Hsent Hc Hr (s & todo & R & W & H). exists s, todo, R, W. destruct (Hsame name' Hne) as [-> ->].
  rewrite Hsent. destruct (of_app name' tr tr') as [-> ->]. by rewrite Hc, Hr, !app_nil_r.
Qed.

(** The commands in the bytes of a buffer. *)
Definition commands_in (b : Buffer) (c : CommandCache) : option (Buffer * CommandCache * list (list (list ascii))) :=
  drain_all (λ l c, Some (l ++ [argv c])) b c [].

Lemma parses_commands_in b c R ds b' c' er : buf_repr b R -> (length ds <= length R)%nat -> parses b c ds b' c' er ->
  commands_in b c = Some (b', c', ds).
Proof.
  intros Hb Hl H. unfold commands_in, drain_all. rewrite (parses_drain _ _ _ _ _ _ _ H).
  - assert (forall l, run_all (λ l c, Some (l ++ [argv c])) l ds = Some (l ++ ds)) as ->; [|done].
    clear. induction ds as [|args ds IH]; intros l; cbn [run_all mbind option_bind]; [by rewrite app_nil_r|].
    rewrite IH. cbn [argv request]. by rewrite <- app_assoc.
  - rewrite (buf_repr_readable _ _ Hb), Nat2Z.id. lia.
Qed.

(** What is needed to read the piece [p]: there is room for it, with a byte to spare
    (a number at the very end of the block is scanned past it) and without an
    overlapping copy; it does not leave a lone byte ([TryParseFromBuffer] takes that
    for an error); the commands it completes are defined, and there is room for their
    replies. *)
Definition read_ok (e : E) (s : Session) (p : list ascii) : Prop :=
  buf_op_ok (read_buf s) (BAppend p) /\
  match buf_Append_std (read_buf s) p with
  | Some b => 0 < WritableBytes b /\
      match commands_in b (cache s) with
      | Some (b', _, ds) => ReadableBytes b' <> 1 /\
          match steps e ds with Some (_, replies) => buf_ops_ok (write_buf s) (BAppend <$> replies) | None => False end
      | None => False
      end
  | None => False
  end.

Lemma read_served st tr name cmds p rest s : served st tr name cmds (p ++ rest) ->
  sessions_ (server_ st) !! name = Some s -> read_ok (engine_ st) s p -> Forall data cmds ->
  Z.of_nat (length (file_of cmds)) <= INT64_MAX -> forall reads, delivered reads = Some p ->
  exists e' sv' ds replies, ReadProc HandleCommand (engine_ st) (server_ st) name reads = Some (e', sv', false) /\
    steps (engine_ st) ds = Some (e', replies) /\ same_but name (server_ st) sv' /\
    served (mkLoop e' sv' (next_id st) (sent st)) (tr ++ did name ds replies) name cmds rest.
Proof.
  intros (s0 & todo & R & W & Hs0 & Ecmds & Hrd & Hw & Hsent & Hm & Hi) Hs (Hop & Hok) Hd Hn reads Hreads.
  rewrite Hs in Hs0. injection Hs0 as <-. pose proof Hrd as [Hr Ef Hc].
  destruct (buf_exec_refines _ _ _ Hr Hop) as (b1 & Eb1 & Hb1). cbn [buf_exec queue_step fst snd] in Eb1, Hb1.
  destruct (buf_Append_std (read_buf s) p) as [b|] eqn:Ea; [|done]. injection Eb1 as ->. destruct Hok as [Hwr Hok].
  rewrite app_assoc in Ef. rewrite Ecmds in Hn, Hd. rewrite file_of_app, length_app in Hn. apply Forall_app in Hd as [_ Hd].
  destruct (drain_reading todo b1 (cache s) R (R ++ p) rest Hc ltac:(by exists p) Hb1 Ef ltac:(by left) ltac:(lia))
    as (b' & c' & R' & ds & todo' & er & -> & Hrd' & _ & _ & Hparse & Her).
  pose proof (found_bytes _ _ _ _ _ Ef (rd_file _ _ _ _ _ Hrd')) as [_ Hlen].
  rewrite (parses_commands_in _ _ _ _ _ _ _ Hb1 Hlen Hparse) in Hok. destruct Hok as [H1 Hok].
  destruct (steps (engine_ st) ds) as [[e' replies]|] eqn:Est; [|done]. apply Forall_app in Hd as [Hd _].
  rewrite (buf_repr_readable _ _ (rd_repr _ _ _ _ _ Hrd')) in H1.
  destruct (ReadProc_stream name (ds ++ todo') R (p ++ rest) p rest (server_ st) s W (engine_ st) e' ds todo' replies b1 b' c' er)
    with (reads := reads) as (wb & Hwb & Erp); try done.
  { apply Her. lia. }
  destruct (steps_traced name ds _ _ _ Est) as [_ Hl]. destruct (of_did name ds replies Hl) as [Ec Er].
  destruct (of_app name tr (did name ds replies)) as [Ec' Er'].
  eexists e', _, ds, replies. split; [exact Erp|]. split; [done|]. split.
  - intros name' Hne. cbn. by rewrite !lookup_insert_ne.
  - exists (set_watched true (SetWrite (set_cache c' (set_read_buf b' (set_write_buf wb s))))), todo', R', (W ++ concat replies).
    cbn [server_ sessions_ interest ModifySession AttachSession]. rewrite !lookup_insert_eq, Ec', Er', Ec, Er.
    split; [done|]. split; [by rewrite Ecmds, app_assoc|]. split; [done|]. split; [done|].
    split; [rewrite concat_app, <- Hsent; by rewrite app_assoc|]. split; [|done].
    left. cbn [set_watched SetWrite set_mask set_cache set_read_buf set_write_buf Server.mask].
    by destruct Hm as [->|[-> _]].
Qed.

(** The kernel takes some of what is to be sent. *)
Definition takes_some (b : Buffer) (answers : list send_answer) : Prop :=
  ReadableBytes b = 0 \/ exists n, answers = [SdSent n; SdAgain] /\ 0 < n <= ReadableBytes b /\ ReadableBytes b <= INT32_MAX.

Lemma sent_to_snoc (e : E) sv id (l : list (list ascii * list ascii)) name name' wire :
  sent_to (mkLoop e sv id (l ++ [(name, wire)])) name' =
    sent_to (mkLoop e sv id l) name' ++ (if decide (name = name') then wire else []).
Proof.
  unfold sent_to. cbn [sent]. rewrite filter_app, fmap_app, concat_app. f_equal. cbn. case_decide; [|done].
  cbn. by rewrite app_nil_r.
Qed.

Lemma write_served st tr name cmds rest s answers : served st tr name cmds rest ->
  sessions_ (server_ st) !! name = Some s -> takes_some (write_buf s) answers ->
  exists sv' wire, WriteProc (server_ st) name answers = Some (sv', false, wire) /\ same_but name (server_ st) sv' /\
    served (mkLoop (engine_ st) sv' (next_id st) (sent st ++ [(name, wire)])) tr name cmds rest.
Proof.
  intros (s0 & todo & R & W & Hs0 & Ecmds & Hrd & Hw & Hsent & Hm & Hi) Hs Ht.
  rewrite Hs in Hs0. injection Hs0 as <-. unfold takes_some in Ht. rewrite (buf_repr_readable _ _ Hw) in Ht.
  destruct Ht as [Hz|(n & -> & Hn & Hmax)].
  - assert (W = []) as -> by (by destruct W). exists (ModifySession (server_ st) name (SetRead s)), [].
    split; [unfold WriteProc; rewrite Hs; cbn [mbind option_bind]; by rewrite (buf_repr_readable _ _ Hw)|].
    split; [intros name' Hne; cbn; by rewrite !lookup_insert_ne|].
    exists (set_watched true (SetRead s)), todo, R, []. cbn [server_ sessions_ interest ModifySession AttachSession].
    rewrite !lookup_insert_eq, sent_to_snoc. case_decide; [|done]. rewrite app_nil_r.
    split; [done|]. split; [done|]. split; [done|]. split; [done|]. split; [exact Hsent|]. split; [by right|done].
  - destruct (WriteProc_some (server_ st) name s W n Hs Hw Hn Hmax) as (wb & Hwb & ->).
    eexists _, _. split; [done|]. rewrite <- (take_drop (Z.to_nat n) W), app_assoc in Hsent.
    destruct (decide (n = Z.of_nat (length W))) as [En|En].
    + split; [intros name' Hne; cbn; by rewrite !lookup_insert_ne|].
      exists (set_write_buf wb (set_watched true (SetRead s))), todo, R, []. rewrite En, Nat2Z.id, drop_all in Hwb, Hsent.
      cbn [server_ sessions_ interest put_session ModifySession AttachSession]. rewrite !lookup_insert_eq, sent_to_snoc.
      case_decide; [|done]. rewrite En, Nat2Z.id.
      split; [done|]. split; [done|]. split; [done|]. split; [done|]. split; [exact Hsent|]. split; [by right|done].
    + split; [intros name' Hne; cbn; by rewrite !lookup_insert_ne|].
      exists (set_write_buf wb s), todo, R, (drop (Z.to_nat n) W).
      cbn [server_ sessions_ interest put_session]. rewrite lookup_insert_eq, sent_to_snoc.
      case_decide; [|done].
      split; [done|]. split; [done|]. split; [done|]. split; [done|]. split; [exact Hsent|]. split; [|done].
      left. destruct Hm as [Hm|[_ ->]]; [done|]. cbn in Hn. lia.
Qed.

(** ** The loop *)

(** The clients with all they will ever send. *)
Variable streams : gmap (list ascii) (list (list (list ascii))).
Hypothesis streams_data : forall name cmds, streams !! name = Some cmds ->
  Forall data cmds /\ Z.of_nat (length (file_of cmds)) <= INT64_MAX.
Variable e0 : E.

Definition serving (st : loop_state E) (tr : list action) (rests : gmap (list ascii) (list ascii)) : Prop :=
  traced e0 tr (engine_ st) /\
  forall name cmds, streams !! name = Some cmds -> exists rest, rests !! name = Some rest /\ served st tr name cmds rest.

(** The first part of an event. *)
Definition read_part (st : loop_state E) (s : Session) (name : list ascii) (events : Z) (reads : list read_answer) : option (E * Server * bool) :=
  if interested (Server.mask s) events EPOLLIN then ReadProc HandleCommand (engine_ st) (server_ st) name reads
  else Some (engine_ st, server_ st, false).

(** The reads deliver a piece of what is still to come. *)
Definition piece_ok (st : loop_state E) (s : Session) (rest : list ascii) (delivery : option (list ascii)) : Prop :=
  match delivery with Some p => p `prefix_of` rest /\ read_ok (engine_ st) s p | None => False end.

(** What the kernel may report: new connections, under new names, and of the clients
    the next piece of what they send, and how much it takes of what is to be sent. *)
Definition event_ok (st : loop_state E) (rests : gmap (list ascii) (list ascii)) (f : fired) : Prop :=
  match f with
  | FListen _ None => True
  | FListen _ (Some addr) => sessions_ (server_ st) !! session_name addr (next_id st) = None
  | FSession name events reads answers =>
      is_Some (streams !! name) /\
      match sessions_ (server_ st) !! name with
      | Some s =>
          (interested (Server.mask s) events EPOLLIN = true ->
            piece_ok st s (default [] (rests !! name)) (delivered reads)) /\
          match read_part st s name events reads with
          | Some (_, sv, _) =>
              match sessions_ sv !! name with
              | Some s => interested (Server.mask s) events EPOLLOUT = true -> takes_some (write_buf s) answers
              | None => False
              end
          | None => False
          end
      | None => False
      end
  end.

Definition next_rests (st : loop_state E) (rests : gmap (list ascii) (list ascii)) (f : fired) : gmap (list ascii) (list ascii) :=
  match f with
  | FListen _ _ => rests
  | FSession name events reads _ =>
      match sessions_ (server_ st) !! name with
      | Some s => if interested (Server.mask s) events EPOLLIN then alter (drop (length (default [] (delivered reads)))) name rests else rests
      | None => rests
      end
  end.

Lemma serving_accept st tr rests events remote : serving st tr rests -> event_ok st rests (FListen events remote) ->
  exists st', loop_event HandleCommand st (FListen events remote) = Some st' /\ serving st' tr rests.
Proof.
  intros [Ht Hs] Hok. cbn [loop_event]. destruct (interested EPOLLIN events EPOLLIN); [|by exists st].
  unfold AcceptProc. destruct remote as [addr|].
  2: { eexists. split; [done|]. split; [exact Ht|]. intros name cmds Hn. exact (Hs name cmds Hn). }
  eexists. split; [done|]. split; [exact Ht|]. intros name cmds Hn. destruct (Hs name cmds Hn) as (rest & Hrest & Hsv).
  exists rest. split; [done|]. rewrite <- (app_nil_r tr). apply (served_other st _ tr [] (session_name addr (next_id st))); [| |done..].
  - intros name' Hne. cbn. by rewrite !lookup_insert_ne.
  - intros ->. cbn [event_ok] in Hok. destruct Hsv as (s & todo & R & W & Hss & _). congruence.
Qed.

(** The commands of one client change nothing for the others. *)
Lemma serving_one st st' tr tr' rests name rest' cmds : serving st tr rests -> streams !! name = Some cmds ->
  traced (engine_ st) tr' (engine_ st') -> same_but name (server_ st) (server_ st') ->
  (forall name', name' <> name -> sent_to st' name' = sent_to st name' /\ commands_of name' tr' = [] /\ replies_of name' tr' = []) ->
  served st' (tr ++ tr') name cmds rest' -> serving st' (tr ++ tr') (<[name := rest']> rests).
Proof.
  intros [Ht Hs] Hn Htr Hsame Hoth Hsv. split; [by eapply traced_app|]. intros name' cmds' Hn'.
  destruct (decide (name' = name)) as [->|Hne].
  - exists rest'. rewrite lookup_insert_eq. split; [done|]. congruence.
  - destruct (Hs name' cmds' Hn') as (rest & Hrest & Hsv'). exists rest. rewrite lookup_insert_ne by done. split; [done|].
    destruct (Hoth name' Hne) as (? & ? & ?). by apply (served_other st st' tr tr' name).
Qed.

Lemma did_others name ds replies : forall name', name' <> name ->
  commands_of name' (did name ds replies) = [] /\ replies_of name' (did name ds replies) = [].
Proof. intros name' Hne. by apply of_did_other. Qed.

(** The read part of an event. *)
Lemma serving_read st tr rests name events reads s : serving st tr rests -> is_Some (streams !! name) ->
  sessions_ (server_ st) !! name = Some s ->
  (interested (Server.mask s) events EPOLLIN = true ->
    piece_ok st s (default [] (rests !! name)) (delivered reads)) ->
  exists e' sv' tr', read_part st s name events reads = Some (e', sv', false) /\
    serving (mkLoop e' sv' (next_id st) (sent st)) (tr ++ tr')
      (if interested (Server.mask s) events EPOLLIN then alter (drop (length (default [] (delivered reads)))) name rests else rests).
Proof.
  intros Hsv [cmds Hn] Hs Hok. unfold read_part. destruct (interested (Server.mask s) events EPOLLIN).
  2: { exists (engine_ st), (server_ st), []. rewrite app_nil_r. split; [done|]. by destruct st. }
  specialize (Hok eq_refl). destruct (delivered reads) as [p|] eqn:Hreads; [|done]. destruct Hok as [[rest' Hp] Hr]. cbn [default]. unfold id. destruct (streams_data name cmds Hn) as [Hd Hmax].
  destruct (proj2 Hsv name cmds Hn) as (rest & Hrest & Hsd). rewrite Hrest in Hp. cbn in Hp. subst rest.
  destruct (read_served st tr name cmds p rest' s Hsd Hs Hr Hd Hmax reads Hreads) as (e' & sv' & ds & replies & Erp & Est & Hsame & Hsd').
  exists e', sv', (did name ds replies). split; [done|].
  assert (alter (drop (length p)) name rests = <[name := rest']> rests) as ->.
  { apply map_eq. intros x. destruct (decide (x = name)) as [->|Hx].
    - rewrite lookup_alter_eq, Hrest, lookup_insert_eq. cbn. by rewrite drop_app_length.
    - by rewrite lookup_alter_ne, lookup_insert_ne. }
  apply (serving_one st (mkLoop e' sv' (next_id st) (sent st)) tr (did name ds replies) rests name rest' cmds); try done.
  - by apply (steps_traced name ds _ _ _ Est).
  - intros name' Hne. split; [done|]. by apply did_others.
Qed.

Lemma serving_event st tr rests f : serving st tr rests -> event_ok st rests f ->
  exists st' tr', loop_event HandleCommand st f = Some st' /\ serving st' (tr ++ tr') (next_rests st rests f).
Proof.
  intros Hsv Hok. destruct f as [events remote|name events reads answers].
  { destruct (serving_accept st tr rests events remote Hsv Hok) as (st' & E' & H'). exists st', []. by rewrite app_nil_r. }
  cbn [event_ok] in Hok. destruct Hok as [Hn Hok]. cbn [loop_event next_rests].
  destruct (sessions_ (server_ st) !! name) as [s|] eqn:Hs; [|done]. cbn [mbind option_bind]. destruct Hok as [Hread Hwrite].
  destruct (serving_read st tr rests name events reads s Hsv Hn Hs Hread) as (e' & sv' & tr' & Erp & Hsv').
  unfold read_part in Erp, Hwrite. rewrite Erp in Hwrite |- *. cbn [mbind option_bind].
  destruct (sessions_ sv' !! name) as [s'|] eqn:Hs'; [|done]. cbn [mbind option_bind].
  destruct (interested (Server.mask s') events EPOLLOUT); [|by eexists _, tr'].
  destruct Hn as [cmds Hn]. destruct (proj2 Hsv' name cmds Hn) as (rest & Hrest & Hsd).
  destruct (write_served _ _ name cmds rest s' answers Hsd Hs' (Hwrite eq_refl)) as (sv2 & wire & Ew & Hsame & Hsd2).
  cbn [server_ engine_ next_id sent] in Ew, Hsame, Hsd2. rewrite Ew. cbn [mbind option_bind]. eexists _, tr'. split; [done|].
  rewrite <- (insert_id _ name rest Hrest). rewrite <- (app_nil_r (tr ++ tr')) in Hsd2 |- *.
  eapply serving_one; [exact Hsv'|exact Hn|done|exact Hsame| |exact Hsd2].
  intros name' Hne. rewrite sent_to_snoc. rewrite decide_False by done. by rewrite app_nil_r.
Qed.

Fixpoint events_ok (st : loop_state E) (rests : gmap (list ascii) (list ascii)) (fs : list fired) : Prop :=
  match fs with
  | [] => True
  | f :: fs => event_ok st rests f /\
      match loop_event HandleCommand st f with Some st' => events_ok st' (next_rests st rests f) fs | None => False end
  end.

Fixpoint events_rests (st : loop_state E) (rests : gmap (list ascii) (list ascii)) (fs : list fired) : gmap (list ascii) (list ascii) :=
  match fs with
  | [] => rests
  | f :: fs => match loop_event HandleCommand st f with Some st' => events_rests st' (next_rests st rests f) fs | None => rests end
  end.

Lemma serving_events fs : forall st tr rests, serving st tr rests -> events_ok st rests fs ->
  exists st' tr', loop_events HandleCommand st fs = Some st' /\ serving st' (tr ++ tr') (events_rests st rests fs).
Proof.
  induction fs as [|f fs IH]; intros st tr rests Hsv Hok; [exists st, []; by rewrite app_nil_r|]. destruct Hok as [Hf Hok].
  destruct (serving_event st tr rests f Hsv Hf) as (st1 & tr1 & E1 & H1). cbn [loop_events events_rests]. rewrite E1 in Hok |- *.
  destruct (IH st1 _ _ H1 Hok) as (st' & tr' & E' & H'). exists st', (tr1 ++ tr'). rewrite app_assoc. by split.
Qed.

(** Every round brings what the kernel may report. *)
Fixpoint rounds_ok (st : loop_state E) (rests : gmap (list ascii) (list ascii)) (rs : list round) : Prop :=
  match rs with
  | [] => True
  | r :: rs => events_ok st rests (r_events r) /\
      match loop_round HandleCommand tick st r with
      | Some st' => rounds_ok st' (events_rests st rests (r_events r)) rs
      | None => False
      end
  end.

Lemma serving_tick st tr rests now clock : serving st tr rests ->
  serving (mkLoop (tick now clock (engine_ st)) (server_ st) (next_id st) (sent st)) (tr ++ [Ticked now clock]) rests.
Proof.
  intros [Ht Hs]. split; [by eapply traced_app|]. intros name cmds Hn. destruct (Hs name cmds Hn) as (rest & Hrest & Hsd).
  exists rest. split; [done|]. destruct Hsd as (s & todo & R & W & H). exists s, todo, R, W.
  destruct (of_app name tr [Ticked now clock]) as [-> ->]. by rewrite !app_nil_r.
Qed.

Lemma serving_rounds rs : forall st tr rests, serving st tr rests -> rounds_ok st rests rs ->
  exists st' tr' rests', Loop HandleCommand tick st rs = Some st' /\ serving st' (tr ++ tr') rests'.
Proof.
  induction rs as [|r rs IH]; intros st tr rests Hsv Hok; [exists st, [], rests; by rewrite app_nil_r|]. destruct Hok as [Hr Hok].
  destruct (serving_events (r_events r) st tr rests Hsv Hr) as (st1 & tr1 & E1 & H1). cbn [Loop].
  unfold loop_round in Hok |- *. rewrite E1 in Hok |- *. cbn [mbind option_bind] in Hok |- *.
  apply (serving_tick st1 _ _ (r_now r) (r_clock r)) in H1. destruct (IH _ _ _ H1 Hok) as (st' & tr' & rests' & E' & H').
  exists st', (tr1 ++ [Ticked (r_now r) (r_clock r)] ++ tr'), rests'. rewrite E'. split; [done|]. by rewrite !app_assoc in *.
Qed.

End Engine.

(** The teardown leaves no client and nobody watched, and every subscription gone. *)
Lemma FreeClientSessions_all (sv : Server) : (forall name, is_Some (interest sv !! name) -> is_Some (sessions_ sv !! name)) ->
  FreeClientSessions sv = mkServer ∅ ∅ ∅.
Proof.
  intros Hw. unfold FreeClientSessions. cbn [sessions_].
  assert (forall l sv0, (forall name, name ∈ l -> is_Some (sessions_ sv0 !! name)) ->
    subscription_sessions_ (foldl DetachSession sv0 l) = subscription_sessions_ sv0 /\
    forall name, interest (foldl DetachSession sv0 l) !! name = if decide (name ∈ l) then None else interest sv0 !! name) as H.
  { induction l as [|n l IH]; intros sv0 Hin; cbn [foldl]; [split; [done|]; intros name; by rewrite decide_False by apply not_elem_of_nil|].
    destruct (IH (DetachSession sv0 n)) as [E1 E2]; unfold DetachSession in *; destruct (Hin n ltac:(by left)) as [s Es]; rewrite Es in *.
    { intros name Hn. cbn. destruct (decide (name = n)) as [->|Hne]; [rewrite lookup_insert_eq; by eexists|].
      rewrite lookup_insert_ne by done. apply Hin. by right. }
    split; [exact E1|]. intros name. rewrite E2. cbn [interest]. destruct (decide (name ∈ l)); [by rewrite decide_True by (by right)|].
    destruct (decide (name = n)) as [->|Hne]; [rewrite lookup_delete_eq; by rewrite decide_True by (by left)|].
    rewrite lookup_delete_ne by done. rewrite decide_False; [done|]. rewrite elem_of_cons. tauto. }
  destruct (H (map_to_list (sessions_ sv)).*1 (mkServer (sessions_ sv) ∅ (interest sv))) as [E1 E2].
  { intros name Hn. apply list_elem_of_fmap in Hn as ([n s] & -> & Hn). apply elem_of_map_to_list in Hn. by exists s. }
  rewrite E1. f_equal. apply map_eq. intros name. rewrite E2, lookup_empty. case_decide as Hd; [done|]. cbn [interest].
  destruct (interest sv !! name) as [m|] eqn:Ei; [|done]. destruct (Hw name ltac:(by rewrite Ei)) as [s Hs].
  destruct Hd. apply list_elem_of_fmap. exists (name, s). split; [done|]. by apply elem_of_map_to_list.
Qed.

(** ** The server with its engine *)

(** The command does not publish, subscribe, unsubscribe or save: those work on the
    server. *)
Definition own_words (args : list (list ascii)) : Prop :=
  match args with
  | op :: _ => match find_op sOpCommandMap (tolower <$> op) with Some (OnServer _) => False | _ => True end
  | [] => True
  end.

Definition own_step (envs : nat -> Env) (s : Engine * nat) (args : list (list ascii)) : option (Engine * nat * list ascii) :=
  '(e, _, reply) ← HandleCommand (envs s.2) true s.1 no_server None (request args);
  Some ((e, S s.2), reply).

Definition own_tick (now : Z) (clock : list Z) (s : Engine * nat) : Engine * nat := (fire_timers now clock s.1, s.2).

Lemma HandleCommand_own env sync e sv sess args : own_words args ->
  HandleCommand env sync e sv sess (request args) =
  ('(e, _, reply) ← HandleCommand env sync e no_server None (request args); Some (e, sv, reply)).
Proof.
  intros H. unfold HandleCommand. destruct (negb _); [done|]. destruct args as [|op args]; [done|].
  cbn [argv request lookup list_lookup mbind option_bind] in *. cbn [own_words] in H.
  destruct (find_op sOpCommandMap (tolower <$> op)) as [h|]; [|done]. destruct (lazy_eviction env _) as [e1|]; [|done].
  cbn [mbind option_bind]. destruct h as [h|h|h]; [..|done]; cbn [run_handler].
  - by destruct (h env (container_ e1) (appending_ e1) _ sync) as [[[c app] reply]|].
  - by destruct (h env e1 _ sync) as [[e2 reply]|].
Qed.

Lemma engine_step_own envs s sv name args : own_words args ->
  engine_step envs s sv name (request args) = ('(s, reply) ← own_step envs s args; Some (s, sv, reply)).
Proof.
  intros H. unfold engine_step, own_step. rewrite HandleCommand_own by done.
  by destruct (HandleCommand (envs s.2) true s.1 no_server None (request args)) as [[[e sv'] reply]|].
Qed.

(** C6. The server serves its clients as if one after the other. Each client of [streams] sends
    a series of commands that concern the key space only ([own_words]: none publishes,
    subscribes or saves); its bytes arrive over any number of rounds of the event loop, cut in
    pieces anywhere and interleaved in any order with those of the others, its replies are taken
    in pieces, and connections come and timers fire in between. The conditions ([rounds_ok])
    are: each event brings its bytes in one read or two (src/net/utils.cpp:8) and the socket
    takes some of the replies in one send; a piece finds room in its buffer without an
    overlapping copy and with a spare byte behind it, no single byte of a request is left over
    (src/net/protocol.cpp:56), the replies find room; no client leaves; new names are new; the
    commands run without undefined behaviour. Then what the engine does is one sequence of whole
    commands and timer rounds; of each client it has the first commands, in order, each once;
    what the client has been sent, and what is still to be sent to it, are its replies, in
    order, and nothing of the others'; and as long as something is to be sent the kernel is
    asked for the write event. *)
Theorem Loop_serves (envs : nat -> Env) (e : Engine) (sv : Server) (id : Z)
    (streams : gmap (list ascii) (list (list (list ascii)))) (rounds : list round) :
  (forall name cmds, streams !! name = Some cmds ->
    sessions_ sv !! name = Some idle_session /\ interest sv !! name = Some EPOLLIN /\
    Forall own_words cmds /\ Z.of_nat (length (file_of cmds)) <= INT64_MAX) ->
  rounds_ok (engine_step envs) own_tick (own_step envs) streams (mkLoop (e, O) sv id []) (file_of <$> streams) rounds ->
  exists st tr, Loop (engine_step envs) own_tick (mkLoop (e, O) sv id []) rounds = Some st /\
    traced own_tick (own_step envs) (e, O) tr (engine_ st) /\
    forall name cmds, streams !! name = Some cmds -> exists s todo W,
      sessions_ (server_ st) !! name = Some s /\ cmds = commands_of name tr ++ todo /\
      buf_repr (write_buf s) W /\ sent_to st name ++ W = concat (replies_of name tr) /\
      (W <> [] -> interest (server_ st) !! name = Some (Z.lor EPOLLIN EPOLLOUT)).
Proof.
  intros Hstart Hok.
  assert (serving own_tick (own_step envs) streams (e, O) (mkLoop (e, O) sv id []) [] (file_of <$> streams)) as Hsv0.
  { split; [done|]. intros name cmds Hn. destruct (Hstart name cmds Hn) as (Hss & Hi & _).
    exists (file_of cmds). rewrite lookup_fmap, Hn. split; [done|]. exists idle_session, cmds, [], [].
    assert (buf_repr (Buffer_new 64) []) as Hb by (apply Buffer_new_repr; unfold INT64_MAX; lia).
    split; [done|]. split; [done|]. split; [split; [done|done|by left]|]. split; [done|]. split; [done|]. split; [by right|done]. }
  destruct (serving_rounds (engine_step envs) own_tick (own_step envs) own_words (engine_step_own envs) streams
    ltac:(intros name cmds Hn; destruct (Hstart name cmds Hn) as (_ & _ & H); exact H) (e, O) rounds _ [] _ Hsv0 Hok) as (st & tr & rests & E & [Ht Hs]).
  exists st, tr. split; [exact E|]. split; [exact Ht|]. intros name cmds Hn.
  destruct (Hs name cmds Hn) as (rest & _ & s & todo & R & W & Hss & Ec & _ & Hw & Hsent & Hm & Hi).
  exists s, todo, W. do 4 (split; [done|]). intros HW. rewrite Hi. by destruct Hm as [->|[_ ?]].
Qed.

(** Two clients: the first command of [c1] comes in two pieces, between which [c2] is
    served; its reply leaves in two pieces. *)
Definition two_clients : Server :=
  mkServer {[ bs "c1" := idle_session; bs "c2" := idle_session ]} ∅ {[ bs "c1" := EPOLLIN; bs "c2" := EPOLLIN ]}.

Definition two_streams : gmap (list ascii) (list (list (list ascii))) :=
  {[ bs "c1" := [[bs "set"; bs "k"; bs "v"]]; bs "c2" := [[bs "get"; bs "k"]; [bs "get"; bs "k"]] ]}.

Definition two_rounds : list round :=
  let get := wire_of [[bs "get"; bs "k"]] in
  let set := wire_of [[bs "set"; bs "k"; bs "v"]] in
  [mkRound [FSession (bs "c1") 1 [RdData (take 9 set)] []; FSession (bs "c2") 1 [RdData (take 4 get); RdData (drop 4 get); RdAgain] [SdSent 5; SdAgain];
            FListen 1 (Some (bs "10.0.0.1:4000"))] 5 [];
   mkRound [FSession (bs "c1") 5 [RdData (drop 9 set); RdAgain] [SdSent 2; SdAgain]; FSession (bs "c2") 5 [RdData get] [SdSent 12; SdAgain]] 10 []].

(** What is left of a condition once it is computed. *)
Ltac computed :=
  repeat match goal with
  | |- _ /\ _ => split
  | |- True => exact I
  | |- _ = _ => reflexivity
  | |- _ = _ -> False => discriminate
  | |- true = true -> _ => intros _
  | |- false = true -> _ => discriminate
  | |- exists x, _ = _ => eexists; reflexivity
  | |- exists x, _ /\ _ => eexists; split; [reflexivity|]
  | |- _ = 0 \/ _ => first [left; reflexivity|right]
  end.

Lemma Loop_serves_witness : exists st tr todo W,
  Loop (engine_step (λ _, quiet_env)) own_tick (mkLoop (new_engine, O) two_clients 3 []) two_rounds = Some st /\
  traced own_tick (own_step (λ _, quiet_env)) (new_engine, O) tr (engine_ st) /\
  [[bs "set"; bs "k"; bs "v"]] = commands_of (bs "c1") tr ++ todo /\
  sent_to st (bs "c1") ++ W = concat (replies_of (bs "c1") tr) /\ sent_to st (bs "c1") = bs "+O" /\
  sent_to st (bs "c2") = bs "$-1" ++ CRLF ++ bs "$1" ++ CRLF ++ bs "v" ++ CRLF.
Proof.
  destruct (Loop_serves (λ _, quiet_env) new_engine two_clients 3 two_streams two_rounds) as (st & tr & H & Ht & Hc).
  - intros name cmds Hn. unfold two_streams in Hn. apply lookup_insert_Some in Hn as [[<- <-]|[_ Hn]];
      [|apply lookup_singleton_Some in Hn as [<- <-]]; (split; [reflexivity|]; split; [reflexivity|]; split; [|by vm_compute]);
      repeat constructor.
  - vm_compute. computed.
  - destruct (Hc (bs "c1") _ eq_refl) as (s & todo & W & _ & Ec & _ & Hsent & _).
    exists st, tr, todo, W. split; [exact H|]. split; [exact Ht|]. split; [exact Ec|]. split; [exact Hsent|].
    vm_compute in H. injection H as <-. split; vm_compute; reflexivity.
Defined.
