(* ===== verification/PubSub.v ===== *)
(** * PubSub: publish and subscribe (src/net/commands.cpp, src/net/server.cpp)

    Clients come, subscribe, publish, unsubscribe and go ([ps_exec], the handlers of the
    program); what that means is the list of the subscriptions in force ([ps_spec]). Messages
    are written directly to the sockets of the subscribers, and what a socket does not take at
    once is lost ([takes]). *)

From S2P Require Import Prelude Numerals Str Buffer Protocol Server Commands.
From stdpp Require Import list gmap fin_maps fin_sets.
From S2P Require Import Net.

Local Open Scope Z_scope.

(** ** Events *)

Inductive ps_event :=
  | EvOpen (name : list ascii)
  | EvSubscribe (name : list ascii) (channels : list (list ascii))
  | EvUnsubscribe (name : list ascii) (channels : list (list ascii))
  | EvPublish (name channel message : list ascii)
  | EvClose (name : list ascii).

(** What the handlers do: the server, what is sent to subscribers, and the reply. The
    read handler closes a session when nothing could be read. *)
Definition ps_exec (env : Env) (sv : Server) (ev : ps_event)
  : option (Server * list (list ascii * list ascii) * list ascii) :=
  match ev with
  | EvOpen name => Some (AttachSession sv name (Session_new EPOLLIN), [], [])
  | EvSubscribe name channels => PubSubSubscribeCommand env sv (Some name) (request (bs "subscribe" :: channels))
  | EvUnsubscribe name channels => PubSubUnsubscribeCommand env sv (Some name) (request (bs "unsubscribe" :: channels))
  | EvPublish name channel message => PubSubPublishCommand env sv (Some name) (request [bs "publish"; channel; message])
  | EvClose name =>
      '(_, sv, _) ← ReadProc (λ (_ : unit) _ _ _, None) tt sv name [RdClosed];
      Some (sv, [], [])
  end.

(** ** Subscriptions *)

(** The subscriptions in force: who, and to what, in the order in which they were made. *)
Abbreviation subscriptions := (list (list ascii * list ascii)).

Definition subscribers (R : subscriptions) (channel : list ascii) : list (list ascii) := (filter (λ p, p.2 = channel) R).*1.

Definition channels_of (R : subscriptions) (name : list ascii) : gset (list ascii) :=
  list_to_set (filter (λ p, p.1 = name) R).*2.

Definition confirm (cmd channel : list ascii) (R : subscriptions) (name : list ascii) : list ascii :=
  PackSubscriptionResArrayIntoStream cmd channel (Z.of_nat (size (channels_of R name))) false.

Fixpoint subscribe_spec (R : subscriptions) (name : list ascii) (channels : list (list ascii)) : subscriptions * list ascii :=
  match channels with
  | [] => (R, [])
  | ch :: channels =>
      let R := R ++ [(name, ch)] in
      let '(R', lines) := subscribe_spec R name channels in (R', confirm (bs "subscribe") ch R name ++ lines)
  end.

Fixpoint unsubscribe_spec (R : subscriptions) (name : list ascii) (channels : list (list ascii)) : subscriptions * list ascii :=
  match channels with
  | [] => (R, [])
  | ch :: channels =>
      let R := filter (λ p, p <> (name, ch)) R in
      let '(R', lines) := unsubscribe_spec R name channels in (R', confirm (bs "unsubscribe") ch R name ++ lines)
  end.

(** How many of the [len] bytes of a message the socket of a subscriber takes, in one send or
    two. (A third one, or one that is interrupted, is sent from the wrong place, see
    src/net/utils.cpp:29.) What it does not take is lost. *)
Definition takes (answers : list send_answer) (len : Z) : option Z :=
  match answers with
  | [] | SdAgain :: _ => Some 0
  | SdEintr :: _ => None
  | SdSent n :: answers =>
      if (n <=? 0) || (len <? n) then None
      else if n =? len then Some n
      else
        match answers with
        | [] | SdAgain :: _ => Some n
        | [SdSent n'] | SdSent n' :: SdAgain :: _ => if (n' <=? 0) || (len <? n + n') then None else Some (n + n')
        | _ => None
        end
  end.

(** The same for the first [n] subscribers. *)
Fixpoint taken (n : nat) (answers : list (list send_answer)) (len : Z) : option (list Z) :=
  match n with
  | O => Some []
  | S n => k ← takes (default [] (head answers)) len; ks ← taken n (tail answers) len; Some (k :: ks)
  end.

(** The sessions and the subscriptions, after an event; what was sent, and the reply. *)
Definition ps_spec (env : Env) (open : gset (list ascii)) (R : subscriptions) (ev : ps_event)
    (open' : gset (list ascii)) (R' : subscriptions) (sent : list (list ascii * list ascii)) (reply : list ascii) : Prop :=
  match ev with
  | EvOpen name => open' = {[name]} ∪ open /\ R' = R /\ sent = [] /\ reply = []
  | EvSubscribe name channels => open' = open /\ (R', reply) = subscribe_spec R name channels /\ sent = []
  | EvUnsubscribe name channels =>
      open' = open /\ sent = [] /\
      (channels <> [] /\ (R', reply) = unsubscribe_spec R name channels \/
       channels = [] /\ channels_of R name = ∅ /\ R' = R /\
         reply = PackSubscriptionResArrayIntoStream (bs "unsubscribe") [] 0 true \/
       channels = [] /\ exists all, all ≡ₚ elements (channels_of R name) /\ (R', reply) = unsubscribe_spec R name all)
  | EvPublish _ channel message =>
      let text := PackPublishMessage channel message in
      let len := Z.of_nat (length text) in
      open' = open /\ R' = R /\
      exists ks, taken (length (subscribers R channel)) (send_answers env) len = Some ks /\
        sent = zip_with (λ name k, (name, take (Z.to_nat k) text)) (subscribers R channel) ks /\
        reply = PackIntReply (Z.of_nat (length (filter (λ k, k = len) ks)))
  | EvClose name => open' = open ∖ {[name]} /\ R' = filter (λ p, p.1 <> name) R /\ sent = [] /\ reply = []
  end.

(** The server holds them. *)
Record ps_repr (sv : Server) (open : gset (list ascii)) (R : subscriptions) : Prop := {
  ps_open : forall name, is_Some (sessions_ sv !! name) <-> name ∈ open;
  ps_subs : forall channel, default [] (subscription_sessions_ sv !! channel) = subscribers R channel;
  ps_chans : forall name s, sessions_ sv !! name = Some s ->
    NoDup (subscribed_channels s) /\ forall ch, ch ∈ subscribed_channels s <-> (name, ch) ∈ R;
  ps_alive : forall p, p ∈ R -> p.1 ∈ open
}.

(** Sessions exist when they act, names are new, and the sockets of the subscribers take
    what they take of a message in at most two sends. *)
Definition ps_ok (env : Env) (open : gset (list ascii)) (R : subscriptions) (ev : ps_event) : Prop :=
  match ev with
  | EvOpen name => name ∉ open
  | EvSubscribe name channels => name ∈ open /\ channels <> []
  | EvUnsubscribe name _ | EvClose name => name ∈ open
  | EvPublish name channel message =>
      let n := Z.of_nat (length (PackPublishMessage channel message)) in
      n <= INT32_MAX /\ is_Some (taken (length (subscribers R channel)) (send_answers env) n)
  end.

(** ** Lemmas *)

Lemma elem_channels_of R name ch : ch ∈ channels_of R name <-> (name, ch) ∈ R.
Proof.
  unfold channels_of. rewrite elem_of_list_to_set, list_elem_of_fmap. split.
  - intros ([n c] & -> & H). apply list_elem_of_filter in H as [E H]. cbn in E. by subst n.
  - intros H. exists (name, ch). split; [done|]. by apply list_elem_of_filter.
Qed.

Lemma channels_length R name l : NoDup l -> (forall ch, ch ∈ l <-> (name, ch) ∈ R) -> length l = size (channels_of R name).
Proof.
  intros Hl H. rewrite <- (size_list_to_set (C := gset (list ascii)) l) by done. f_equal. apply set_eq. intros ch.
  by rewrite elem_of_list_to_set, H, elem_channels_of.
Qed.

Lemma subscribers_app R R' ch : subscribers (R ++ R') ch = subscribers R ch ++ subscribers R' ch.
Proof. unfold subscribers. by rewrite filter_app, fmap_app. Qed.

Lemma subscribers_remove R name ch c :
  subscribers (filter (λ p, p <> (name, ch)) R) c = if decide (c = ch) then filter (λ n, n <> name) (subscribers R c) else subscribers R c.
Proof.
  unfold subscribers. induction R as [|[n c'] R IH]; [by case_decide|]. rewrite !filter_cons. cbn [snd].
  destruct (decide ((n, c') <> (name, ch))) as [Hd|Hd].
  - rewrite filter_cons. cbn [snd]. destruct (decide (c' = c)) as [->|Hc]; [|by rewrite IH]. cbn [fmap list_fmap fst]. rewrite IH.
    destruct (decide (c = ch)) as [->|]; [|done]. rewrite filter_cons, decide_True; [done|]. intros ->. by apply Hd.
  - apply dec_stable in Hd. injection Hd as -> ->. rewrite IH. destruct (decide (ch = c)) as [<-|Hc].
    + rewrite !decide_True by done. cbn [fmap list_fmap fst]. rewrite filter_cons, decide_False by tauto. done.
    + by rewrite decide_False by congruence.
Qed.

Lemma elem_remove (R : subscriptions) (name ch n c : list ascii) : (n, c) ∈ filter (λ p, p <> (name, ch)) R <-> (n, c) ∈ R /\ ~ (n = name /\ c = ch).
Proof. rewrite list_elem_of_filter. split; [intros [H1 H2]; split; [done|]; intros [-> ->]; by apply H1|intros [H1 H2]; split; [|done]; intros [= -> ->]; tauto]. Qed.

(** One channel more. *)
Lemma subscribe_step sv open R name ch s : ps_repr sv open R -> sessions_ sv !! name = Some s ->
  let s := SetPubSubMode (set_channels (if decide (ch ∈ subscribed_channels s) then subscribed_channels s
                                       else subscribed_channels s ++ [ch]) s) in
  let sv := (AddSessionToSubscription (put_session sv name s) ch name).2 in
  ps_repr sv open (R ++ [(name, ch)]) /\ length (subscribed_channels s) = size (channels_of (R ++ [(name, ch)]) name).
Proof.
  intros [Ho Hs Hc Ha] E. destruct (Hc name s E) as [Hnd Hch]. cbv zeta. set (l := if decide _ then _ else _).
  assert (NoDup l) as Hl.
  { unfold l. case_decide; [done|]. apply NoDup_app. split; [done|]. split; [|apply NoDup_singleton].
    intros x Hx Hx'. apply list_elem_of_singleton in Hx' as ->. done. }
  assert (forall c, c ∈ l <-> (name, c) ∈ R ++ [(name, ch)]) as Hel.
  { intros c. rewrite elem_of_app, list_elem_of_singleton, <- Hch. unfold l. case_decide as Hd.
    - split; [tauto|]. intros [H|[= ->]]; [done|done].
    - rewrite elem_of_app, list_elem_of_singleton. split; (intros [H|H]; [by left|right; congruence]). }
  split; [|by apply channels_length].
  unfold AddSessionToSubscription. rewrite decide_True by (cbn; rewrite lookup_insert_eq; by eexists). cbn [snd]. split; cbn.
  - intros n. rewrite <- Ho. destruct (decide (n = name)) as [->|]; [rewrite lookup_insert_eq, E; split; by eexists|by rewrite lookup_insert_ne].
  - intros c. rewrite subscribers_app. unfold subscribers at 2. rewrite filter_cons. cbn [snd]. destruct (decide (ch = c)) as [->|].
    + rewrite lookup_insert_eq. cbn. by rewrite <- Hs.
    + rewrite lookup_insert_ne by done. rewrite Hs. cbn. by rewrite app_nil_r.
  - intros n s' Hn. destruct (decide (n = name)) as [->|Hne].
    + rewrite lookup_insert_eq in Hn. injection Hn as <-. by split.
    + rewrite lookup_insert_ne in Hn by done. destruct (Hc n s' Hn) as [H1 H2]. split; [done|]. intros c.
      rewrite H2, elem_of_app, list_elem_of_singleton. split; [by left|]. intros [H|[= -> _]]; done.
  - intros p Hp. apply elem_of_app in Hp as [Hp|Hp]; [by apply Ha|]. apply list_elem_of_singleton in Hp as ->.
    apply Ho. by eexists.
Qed.

Lemma subscribe_all_spec channels name open : forall sv R, ps_repr sv open R -> name ∈ open ->
  exists sv', subscribe_all sv name channels = Some (sv', (subscribe_spec R name channels).2) /\
    ps_repr sv' open (subscribe_spec R name channels).1.
Proof.
  induction channels as [|ch channels IH]; intros sv R Hr Hn; [by exists sv|].
  destruct (proj2 (ps_open _ _ _ Hr name) Hn) as [s E]. cbn [subscribe_all subscribe_spec]. rewrite E. cbn [mbind option_bind].
  destruct (subscribe_step sv open R name ch s Hr E) as [Hr' Hlen].
  destruct (AddSessionToSubscription _ _ _) as [b sv1]. cbn [snd] in Hr'.
  destruct (IH sv1 _ Hr' Hn) as (sv' & E' & Hr''). destruct (subscribe_spec (R ++ [(name, ch)]) name channels) as [R' lines].
  cbn [fst snd] in *. rewrite E'. cbn [mbind option_bind]. exists sv'. split; [|done]. unfold confirm. by rewrite <- Hlen.
Qed.

(** One channel less. *)
Lemma unsubscribe_step sv open R name ch s : ps_repr sv open R -> sessions_ sv !! name = Some s ->
  let s := UnsetPubSubMode (set_channels (filter (λ c, c <> ch) (subscribed_channels s)) s) in
  let R' := filter (λ p, p <> (name, ch)) R in
  ps_repr (RemoveSessionFromSubscription (put_session sv name s) ch name) open R' /\
  length (subscribed_channels s) = size (channels_of R' name).
Proof.
  intros [Ho Hs Hc Ha] E. destruct (Hc name s E) as [Hnd Hch]. cbv zeta. cbn [subscribed_channels UnsetPubSubMode set_modes set_channels].
  assert (NoDup (filter (λ c, c <> ch) (subscribed_channels s))) as Hl by (by apply NoDup_filter).
  assert (forall c, c ∈ filter (λ c, c <> ch) (subscribed_channels s) <-> (name, c) ∈ filter (λ p, p <> (name, ch)) R) as Hel.
  { intros c. rewrite elem_remove, list_elem_of_filter, Hch. tauto. }
  split; [|by apply channels_length]. split; cbn.
  - intros n. rewrite <- Ho. destruct (decide (n = name)) as [->|]; [rewrite lookup_insert_eq, E; split; by eexists|by rewrite lookup_insert_ne].
  - intros c. rewrite subscribers_remove. destruct (decide (c = ch)) as [->|].
    + rewrite lookup_insert_eq. cbn. by rewrite <- Hs.
    + by rewrite lookup_insert_ne.
  - intros n s' Hn. destruct (decide (n = name)) as [->|Hne].
    + rewrite lookup_insert_eq in Hn. injection Hn as <-. by split.
    + rewrite lookup_insert_ne in Hn by done. destruct (Hc n s' Hn) as [H1 H2]. split; [done|]. intros c.
      rewrite H2, elem_remove. tauto.
  - intros [n c] Hp. apply elem_remove in Hp as [Hp _]. by apply Ha.
Qed.

Lemma unsubscribe_all_spec channels name open : forall sv R, ps_repr sv open R -> name ∈ open ->
  exists sv', unsubscribe_all sv name channels = Some (sv', (unsubscribe_spec R name channels).2) /\
    ps_repr sv' open (unsubscribe_spec R name channels).1.
Proof.
  induction channels as [|ch channels IH]; intros sv R Hr Hn; [by exists sv|].
  destruct (proj2 (ps_open _ _ _ Hr name) Hn) as [s E]. cbn [unsubscribe_all unsubscribe_spec]. rewrite E. cbn [mbind option_bind].
  destruct (unsubscribe_step sv open R name ch s Hr E) as [Hr' Hlen].
  destruct (IH _ _ Hr' Hn) as (sv' & E' & Hr''). destruct (unsubscribe_spec (filter _ R) name channels) as [R' lines].
  cbn [fst snd] in *. rewrite E'. cbn [mbind option_bind]. exists sv'. split; [|done]. unfold confirm. by rewrite <- Hlen.
Qed.

Lemma WriteFromBuf_takes answers str k : Z.of_nat (length str) <= INT32_MAX -> str <> [] ->
  takes answers (Z.of_nat (length str)) = Some k ->
  WriteFromBuf answers str (Z.of_nat (length str)) = Some (k, take (Z.to_nat k) str) /\ 0 <= k <= Z.of_nat (length str).
Proof.
  intros Hmax Hne. set (len := Z.of_nat (length str)) in *. assert (0 < len) as Hpos by (destruct str; [done|cbn in len; lia]).
  unfold WriteFromBuf. destruct answers as [|[n| |] answers]; cbn [takes write_from_buf]; rewrite (proj2 (Z.ltb_lt 0 len) Hpos);
    [intros [= <-]; split; [done|lia]| |done|intros [= <-]; split; [done|lia]].
  destruct (Z.leb_spec n 0) as [|Hn]; [done|]. destruct (Z.ltb_spec len n) as [|Hl]; [done|]. cbn [orb].
  rewrite Z.sub_0_r, (proj2 (Z.ltb_ge n 0)) by lia. rewrite Z.gtb_ltb, (proj2 (Z.ltb_ge len n)) by lia. cbn [orb].
  unfold mem_read at 1. rewrite decide_True by lia. cbn [mbind option_bind]. rewrite drop_0, Z.add_0_l. cbn [app].
  destruct (Z.eqb_spec n len) as [->|Hnl].
  { intros [= <-]. split; [|lia]. destruct answers; cbn [write_from_buf]; by rewrite Z.ltb_irrefl. }
  assert (n < len) as Hlt by lia.
  destruct answers as [|[n'| |] answers]; [| |done|]; try (cbn [write_from_buf]; rewrite (proj2 (Z.ltb_lt n len) Hlt); intros [= <-]; split; [done|lia]).
  intros H. assert (1 <= n' <= len - n /\ k = n + n' /\ (answers = [] \/ exists l, answers = SdAgain :: l)) as (Hn' & -> & Hend).
  { destruct answers as [|[] ?]; try done; destruct (Z.leb_spec n' 0) as [|?]; try done;
      destruct (Z.ltb_spec len (n + n')) as [|?]; try done; injection H as <-; (split; [lia|split; [done|]]); [by left|right; by eexists]. }
  cbn [write_from_buf]. rewrite (proj2 (Z.ltb_lt n len) Hlt), (proj2 (Z.ltb_ge n' 0)) by lia.
  rewrite Z.gtb_ltb, (proj2 (Z.ltb_ge (len - n) n')) by lia. cbn [orb].
  unfold mem_read. rewrite decide_True by lia. cbn [mbind option_bind]. split; [|lia].
  assert (take (Z.to_nat n) str ++ take (Z.to_nat n') (drop (Z.to_nat n) str) = take (Z.to_nat (n + n')) str) as ->.
  { rewrite Z2Nat.inj_add by lia. by rewrite take_take_drop. }
  clear H. destruct Hend as [->|[l ->]]; cbn [write_from_buf]; by destruct (n + n' <? len).
Qed.

(** Every subscriber is sent what its socket takes, and counts when that is all. *)
Lemma relay_taken str subs : Z.of_nat (length str) <= INT32_MAX -> str <> [] ->
  forall answers ks, taken (length subs) answers (Z.of_nat (length str)) = Some ks ->
  relay subs answers str = Some (zip_with (λ name k, (name, take (Z.to_nat k) str)) subs ks,
    Z.of_nat (length (filter (λ k, k = Z.of_nat (length str)) ks))).
Proof.
  intros Hlen Hne. induction subs as [|n subs IH]; intros answers ks; cbn [length taken relay]; [by intros [= <-]|].
  destruct (takes _ _) as [k|] eqn:Ek; [|done]. cbn [mbind option_bind].
  destruct (taken _ _ _) as [ks'|] eqn:Eks; [|done]. cbn [mbind option_bind]. intros [= <-].
  assert (i32 (Z.of_nat (length str)) = Z.of_nat (length str)) as Ei.
  { apply i32_small. unfold in_i32, INT32_MIN. lia. }
  destruct (WriteFromBuf_takes _ str k Hlen Hne Ek) as [Ew Hk]. rewrite Ei, Ew. cbn [mbind option_bind].
  rewrite (IH _ _ Eks). cbn [mbind option_bind zip_with]. rewrite u64_small by (unfold in_u64, INT32_MAX, UINT64_MAX in *; lia).
  rewrite filter_cons. destruct (Z.eqb_spec k (Z.of_nat (length str))) as [E|E].
  - rewrite decide_True by done. cbn [length]. do 3 f_equal. lia.
  - by rewrite decide_False.
Qed.

(** The subscriptions of a session that goes. *)
Lemma close_subscriptions chans name : forall sv,
  sessions_ (foldl (λ sv chan, RemoveSessionFromSubscription sv chan name) sv chans) = sessions_ sv /\
  forall c, default [] (subscription_sessions_ (foldl (λ sv chan, RemoveSessionFromSubscription sv chan name) sv chans) !! c) =
    if decide (c ∈ chans) then filter (λ n, n <> name) (default [] (subscription_sessions_ sv !! c))
    else default [] (subscription_sessions_ sv !! c).
Proof.
  induction chans as [|ch chans IH]; intros sv; cbn [foldl].
  - split; [done|]. intros c. rewrite decide_False; [done|]. apply not_elem_of_nil.
  - destruct (IH (RemoveSessionFromSubscription sv ch name)) as [E H]. split; [exact E|]. intros c. rewrite H. cbn [subscription_sessions_ RemoveSessionFromSubscription].
    destruct (decide (c = ch)) as [->|Hne].
    + rewrite lookup_insert_eq. cbn [default]. unfold id. rewrite (decide_True (P := ch ∈ ch :: chans)) by by left.
      destruct (decide (ch ∈ chans)); [|done]. by rewrite list_filter_filter_l by done.
    + rewrite lookup_insert_ne by done. destruct (decide (c ∈ chans)) as [Hc|Hc].
      * by rewrite decide_True by by right.
      * rewrite decide_False; [done|]. rewrite elem_of_cons. tauto.
Qed.

(** ** Events *)

Lemma ps_open_spec sv open R name : ps_repr sv open R -> name ∉ open ->
  ps_repr (AttachSession sv name (Session_new EPOLLIN)) ({[name]} ∪ open) R.
Proof.
  intros [Ho Hs Hc Ha] Hn. split; cbn.
  - intros n. rewrite elem_of_union, elem_of_singleton, <- Ho. destruct (decide (n = name)) as [->|].
    + rewrite lookup_insert_eq. split; [by left|by eexists].
    + rewrite lookup_insert_ne by done. split; [by right|]. by intros [|].
  - exact Hs.
  - intros n s. destruct (decide (n = name)) as [->|].
    + rewrite lookup_insert_eq. intros [= <-]. split; [apply NoDup_nil_2|]. intros c. cbn. rewrite elem_of_nil. split; [done|].
      intros H. by apply Ha in H.
    + rewrite lookup_insert_ne by done. apply Hc.
  - intros p Hp. apply elem_of_union. right. by apply Ha.
Qed.

Lemma subscribers_of_others R name c : subscribers (filter (λ p, p.1 <> name) R) c = filter (λ n, n <> name) (subscribers R c).
Proof.
  unfold subscribers. induction R as [|[n c'] R IH]; [done|]. rewrite !filter_cons. cbn [fst snd].
  destruct (decide (n <> name)) as [Hn|Hn]; [rewrite filter_cons; cbn [snd]|]; destruct (decide (c' = c)); try exact IH;
    cbn [fmap list_fmap fst]; rewrite filter_cons; [by rewrite decide_True, IH|by rewrite decide_False].
Qed.

Lemma filter_keeps_all (P : list ascii -> Prop) `{!forall x, Decision (P x)} (l : list (list ascii)) : (forall x, x ∈ l -> P x) -> filter P l = l.
Proof.
  induction l as [|x l IH]; intros Hl; [done|]. rewrite filter_cons, decide_True by (apply Hl; by left). f_equal. apply IH.
  intros y Hy. apply Hl. by right.
Qed.

Lemma ps_close_spec env sv open R name : ps_repr sv open R -> name ∈ open ->
  exists sv', ps_exec env sv (EvClose name) = Some (sv', [], []) /\
    ps_repr sv' (open ∖ {[name]}) (filter (λ p, p.1 <> name) R).
Proof.
  intros [Ho Hs Hc Ha] Hn. destruct (proj2 (Ho name) Hn) as [s E]. destruct (Hc name s E) as [_ Hch].
  unfold ps_exec. rewrite (ReadProc_hangup _ tt sv name [RdClosed] s eq_refl E). cbn [mbind option_bind].
  destruct (close_subscriptions (subscribed_channels s) name sv) as [E1 E2]. eexists. split; [reflexivity|]. split; cbn.
  - intros n. rewrite E1, elem_of_difference, elem_of_singleton, <- Ho. destruct (decide (n = name)) as [->|].
    + rewrite lookup_delete_eq. split; [by intros [? ?]|tauto].
    + rewrite lookup_delete_ne by done. tauto.
  - intros c. rewrite E2, Hs, subscribers_of_others. case_decide as Hd; [done|]. symmetry. apply filter_keeps_all.
    intros n Hin Hx. subst n. apply Hd, Hch. apply list_elem_of_fmap in Hin as ([n c'] & E' & Hin). apply list_elem_of_filter in Hin as [E'' Hin].
    cbn in E', E''. by subst.
  - intros n s' Hn'. rewrite E1 in Hn'. destruct (decide (n = name)) as [->|Hne]; [by rewrite lookup_delete_eq in Hn'|].
    rewrite lookup_delete_ne in Hn' by done. destruct (Hc n s' Hn') as [H1 H2]. split; [done|]. intros c.
    rewrite H2, list_elem_of_filter. cbn. tauto.
  - intros p Hp. apply list_elem_of_filter in Hp as [Hp1 Hp]. apply elem_of_difference. rewrite elem_of_singleton. split; [by apply Ha|done].
Qed.

Lemma args_enough name args n : (n <= length args)%nat -> (Z.of_nat (length (argv (request (name :: args)))) >=? Z.of_nat (S n)) = true.
Proof. intros H. cbn [argv request length]. apply Z.geb_le. lia. Qed.

(** What an event does. *)
Definition ps_stepped (env : Env) (sv : Server) (open : gset (list ascii)) (R : subscriptions) (ev : ps_event) : Prop :=
  exists sv' sent reply open' R', ps_exec env sv ev = Some (sv', sent, reply) /\
    ps_spec env open R ev open' R' sent reply /\ ps_repr sv' open' R'.

Lemma ps_subscribe env sv open R name chans : ps_repr sv open R -> name ∈ open -> chans <> [] ->
  ps_stepped env sv open R (EvSubscribe name chans).
Proof.
  intros Hr Hn Hne. destruct (subscribe_all_spec chans name open sv R Hr Hn) as (sv' & E & Hr').
  eexists sv', [], _, open, _. split; [|split; [|exact Hr']].
  - cbn [ps_exec]. unfold PubSubSubscribeCommand. cbn [mbind option_bind].
    assert (CheckSyntax (request (bs "subscribe" :: chans)) (-1) (-1) false = true) as ->.
    { unfold CheckSyntax. cbn [andb Z.eqb]. apply (args_enough _ chans 1). destruct chans; [done|cbn; lia]. }
    change (drop 1 (argv (request (bs "subscribe" :: chans)))) with chans. rewrite E. reflexivity.
  - cbn [ps_spec]. split; [done|]. split; [|done]. by destruct (subscribe_spec R name chans).
Qed.

(** Without channels: from all of them. *)
Lemma ps_unsubscribe env sv open R name chans : ps_repr sv open R -> name ∈ open ->
  ps_stepped env sv open R (EvUnsubscribe name chans).
Proof.
  intros Hr Hn. destruct (proj2 (ps_open _ _ _ Hr name) Hn) as [s Es]. destruct (ps_chans _ _ _ Hr name s Es) as [Hnd Hch].
  assert (CheckSyntax (request (bs "unsubscribe" :: chans)) (-2) (-1) false = true) as Hcs.
  { unfold CheckSyntax. cbn [andb Z.eqb]. apply (args_enough _ chans 0). lia. }
  unfold ps_stepped. cbn [ps_exec]. unfold PubSubUnsubscribeCommand. cbn [mbind option_bind]. rewrite Hcs, Es. cbn [mbind option_bind].
  change (drop 1 (argv (request (bs "unsubscribe" :: chans)))) with chans.
  destruct (decide (chans = [])) as [->|Hne].
  - change (Z.of_nat (length (argv (request [bs "unsubscribe"]))) >=? 2) with false. cbv iota.
    assert (subscribed_channels s ≡ₚ elements (channels_of R name)) as Hp.
    { apply NoDup_Permutation; [done|apply NoDup_elements|]. intros c. by rewrite elem_of_elements, elem_channels_of, Hch. }
    case_bool_decide as E0.
    + eexists sv, [], _, open, R. split; [reflexivity|]. split; [|done]. cbn [ps_spec]. do 2 (split; [done|]). right. left.
      rewrite E0 in Hp. symmetry in Hp. apply Permutation_nil_r in Hp. apply elements_empty_inv in Hp. apply leibniz_equiv in Hp. done.
    + destruct (unsubscribe_all_spec (subscribed_channels s) name open sv R Hr Hn) as (sv' & E & Hr').
      rewrite E. cbn [mbind option_bind]. eexists sv', [], _, open, _. split; [reflexivity|]. split; [|exact Hr']. cbn [ps_spec].
      do 2 (split; [done|]). right. right. split; [done|]. exists (subscribed_channels s). split; [done|]. by destruct (unsubscribe_spec _ _ _).
  - pose proof (args_enough (bs "unsubscribe") chans 1 ltac:(destruct chans; [done|cbn; lia])) as Hg. change (Z.of_nat 2) with 2 in Hg.
    rewrite Hg. rewrite bool_decide_eq_false_2 by done.
    destruct (unsubscribe_all_spec chans name open sv R Hr Hn) as (sv' & E & Hr').
    rewrite E. cbn [mbind option_bind]. eexists sv', [], _, open, _. split; [reflexivity|]. split; [|exact Hr']. cbn [ps_spec].
    do 2 (split; [done|]). left. split; [done|]. by destruct (unsubscribe_spec _ _ _).
Qed.

Lemma ps_publish env sv open R name chan msg : ps_repr sv open R -> ps_ok env open R (EvPublish name chan msg) ->
  ps_stepped env sv open R (EvPublish name chan msg).
Proof.
  intros Hr (Hlen & ks & Hks). unfold ps_stepped. cbn [ps_exec]. unfold PubSubPublishCommand. cbn [mbind option_bind].
  change (CheckSyntax _ 1 1 false) with true. cbv iota. cbn [argv request lookup list_lookup mbind option_bind].
  pose proof (ps_subs _ _ _ Hr chan) as Hsubs. unfold HasSubscriptionChannel. case_bool_decide as Hc.
  - rewrite Hsubs, (relay_taken _ _ Hlen ltac:(done) _ _ Hks). cbn [mbind option_bind]. eexists sv, _, _, open, R.
    split; [reflexivity|]. split; [|done]. do 2 (split; [done|]). by exists ks.
  - assert (subscribers R chan = []) as E.
    { rewrite <- Hsubs. destruct (subscription_sessions_ sv !! chan) eqn:E; [|done]. by destruct Hc. }
    eexists sv, [], _, open, R. split; [reflexivity|]. split; [|done]. cbn [ps_spec]. rewrite E. do 2 (split; [done|]). by exists [].
Qed.

Lemma ps_step env sv open R ev : ps_repr sv open R -> ps_ok env open R ev -> ps_stepped env sv open R ev.
Proof.
  intros Hr Hok. destruct ev as [name|name chans|name chans|name chan msg|name].
  - eexists _, [], [], _, R. split; [reflexivity|]. split; [by cbn|]. by apply ps_open_spec.
  - destruct Hok. by apply ps_subscribe.
  - by apply ps_unsubscribe.
  - by apply ps_publish.
  - destruct (ps_close_spec env sv open R name Hr Hok) as (sv' & E & Hr'). eexists sv', [], [], _, _.
    split; [exact E|]. by split.
Qed.

(** ** Sequences of events *)

Fixpoint ps_exec_all (sv : Server) (evs : list (Env * ps_event)) : option (Server * list (list (list ascii * list ascii) * list ascii)) :=
  match evs with
  | [] => Some (sv, [])
  | (env, ev) :: evs =>
      '(sv, sent, reply) ← ps_exec env sv ev;
      '(sv, outs) ← ps_exec_all sv evs;
      Some (sv, (sent, reply) :: outs)
  end.

(** The events are possible. *)
Fixpoint ps_allowed (open : gset (list ascii)) (R : subscriptions) (evs : list (Env * ps_event)) : Prop :=
  match evs with
  | [] => True
  | (env, ev) :: evs => ps_ok env open R ev /\
      forall open' R' sent reply, ps_spec env open R ev open' R' sent reply -> ps_allowed open' R' evs
  end.

(** The outcomes are those of the specification. *)
Fixpoint ps_behaves (open : gset (list ascii)) (R : subscriptions) (evs : list (Env * ps_event))
    (outs : list (list (list ascii * list ascii) * list ascii)) : Prop :=
  match evs, outs with
  | [], [] => True
  | (env, ev) :: evs, (sent, reply) :: outs =>
      exists open' R', ps_spec env open R ev open' R' sent reply /\ ps_behaves open' R' evs outs
  | _, _ => False
  end.

Lemma ps_exec_all_spec evs : forall sv open R, ps_repr sv open R -> ps_allowed open R evs ->
  exists sv' outs, ps_exec_all sv evs = Some (sv', outs) /\ ps_behaves open R evs outs.
Proof.
  induction evs as [|[env ev] evs IH]; intros sv open R Hr Hok; [by exists sv, []|]. destruct Hok as [Hok Hoks].
  destruct (ps_step env sv open R ev Hr Hok) as (sv1 & sent & reply & open' & R' & E & Hs & Hr').
  destruct (IH sv1 open' R' Hr' (Hoks _ _ _ _ Hs)) as (sv' & outs & E' & Hb). exists sv', ((sent, reply) :: outs).
  cbn [ps_exec_all]. rewrite E. cbn [mbind option_bind]. rewrite E'. split; [done|]. by exists open', R'.
Qed.

(** C35. Publish and subscribe. On a server without subscriptions, sessions with new names come,
    subscribe, publish messages whose text fits in an [int], unsubscribe, and go when the read
    handler finds their connection closed (no other way: see src/net/server.cpp:230), in any
    order. A message is sent to exactly the subscriptions of its channel that are in force, in
    the order in which they were made; each subscriber gets as much of it as its socket takes at
    that moment, in at most two sends and uninterrupted, the rest being lost, and the publisher
    is told how many took all of it; every confirmation carries the number of different channels
    of the session. *)
Theorem PubSub_refines (open : gset (list ascii)) (sv : Server) (evs : list (Env * ps_event)) :
  ps_repr sv open [] -> ps_allowed open [] evs ->
  exists sv' outs, ps_exec_all sv evs = Some (sv', outs) /\ ps_behaves open [] evs outs.
Proof. apply ps_exec_all_spec. Qed.

(** ** Witness *)

Definition taking (sockets : list (list send_answer)) : Env :=
  mkEnv 1000 1 1 0 (mkDraws [] 0 []) (mkDraws [] 0 []) sockets false.

Definition hi : list ascii := PackPublishMessage (bs "news") (bs "hi").

(** At the second message the socket of the first subscriber takes it in two pieces, and that
    of the second one only ten bytes. *)
Definition two_subscribers : list (Env * ps_event) :=
  let n := Z.of_nat (length hi) in
  let e := taking [[SdSent n]; [SdSent n]] in
  let e' := taking [[SdSent 7; SdSent (n - 7)]; [SdSent 10; SdAgain]] in
  [(e, EvOpen (bs "a")); (e, EvOpen (bs "b")); (e, EvSubscribe (bs "a") [bs "news"; bs "jobs"]); (e, EvSubscribe (bs "b") [bs "news"]);
   (e, EvPublish (bs "b") (bs "news") (bs "hi")); (e', EvPublish (bs "b") (bs "news") (bs "hi"))].

(** Both are told, and the publisher that they are two; then one is told, and the other one
    has a piece. *)
Example two_subscribers_run : exists sv' outs, ps_exec_all (mkServer ∅ ∅ ∅) two_subscribers = Some (sv', outs) /\
  drop 4 outs = [([(bs "a", hi); (bs "b", hi)], PackIntReply 2); ([(bs "a", hi); (bs "b", take 10 hi)], PackIntReply 1)].
Proof. eexists _, _. by vm_compute. Qed.

Lemma empty_server_repr : ps_repr (mkServer ∅ ∅ ∅) ∅ [].
Proof.
  split; cbn.
  - intros n. rewrite lookup_empty. split; [by intros [? ?]|]. intros H. by apply not_elem_of_empty in H.
  - intros c. by rewrite lookup_empty.
  - intros n s H. by rewrite lookup_empty in H.
  - intros p H. by apply not_elem_of_nil in H.
Qed.

Lemma PubSub_refines_witness : exists sv' outs,
  ps_exec_all (mkServer ∅ ∅ ∅) two_subscribers = Some (sv', outs) /\ ps_behaves ∅ [] two_subscribers outs.
Proof.
  apply (PubSub_refines ∅ (mkServer ∅ ∅ ∅) two_subscribers).
  - apply empty_server_repr.
  - split; [by apply not_elem_of_empty|]. intros ? ? ? ? (-> & -> & _). split; [set_solver|]. intros ? ? ? ? (-> & -> & _).
    split; [split; [set_solver|done]|]. intros ? ? ? ? (-> & [= -> _] & _). split; [split; [set_solver|done]|].
    intros ? ? ? ? (-> & [= -> _] & _).
    split; [split; [by vm_compute|by eexists]|]. intros ? ? ? ? (-> & -> & _). split; [|done]. split; [by vm_compute|by eexists].
Defined.
