(* ===== verification/Background.v ===== *)
(** * Background: saving from a child process (LiteKVBackgroundSave and LiteKVSave of
    src/lkvdb.cpp, StopServeSockets of src/net/server.cpp)

    [bgsave] forks. The child stops serving, takes the snapshot of its copy of the
    container and saves it, while the parent goes on. What they share is the kernel:
    the epoll instance, of which both have the descriptor, the sockets, which stay
    open until both have closed them, and the files. A run is a sequence of steps of
    the two, the child's one system call long. *)

From S2P Require Import Prelude Buffer Protocol Core CoreSpec CoreFacts TimeEvent Server Lkvdb LkvdbFacts Commands EngineFacts Net NetFacts.
From stdpp Require Import list gmap fin_maps fin_sets.

Local Open Scope Z_scope.

(** ** Sockets *)

(** The listening socket, or that of a session. *)
Abbreviation sock := (option (list ascii)).

Record Process := mkProcess { epfd_open : bool; fds : gset sock }.

(** The list of the epoll instance, and the processes, the parent being number 0. *)
Record Kernel := mkKernel { watch : gmap sock Z; procs : gmap nat Process }.

Definition held (ps : gmap nat Process) : gset sock := ⋃ (fds <$> (map_to_list ps).*2).

(** A socket that no process has open leaves the list. *)
Definition settle (k : Kernel) : Kernel := mkKernel (filter (λ w, w.1 ∈ held (procs k)) (watch k)) (procs k).

Inductive call :=
  | CloseEpoll            (* close(epfd_) *)
  | EpollDel (fd : sock)  (* epoll_ctl(epfd_, EPOLL_CTL_DEL, fd, nullptr) *)
  | Close (fd : sock).    (* close(fd) *)

Inductive ctl := EPOLL_CTL_ADD (events : Z) | EPOLL_CTL_MOD (events : Z) | EPOLL_CTL_DEL.

(** [epoll_ctl(epfd_, op, fd, ...)]; it fails on descriptors that are not open, when the
    socket is already in the list, and when it is not. *)
Definition epoll_ctl (k : Kernel) (pid : nat) (op : ctl) (fd : sock) : option Kernel :=
  p ← procs k !! pid;
  if epfd_open p && bool_decide (fd ∈ fds p) then
    match op, watch k !! fd with
    | EPOLL_CTL_ADD events, None | EPOLL_CTL_MOD events, Some _ => Some (mkKernel (<[fd := events]> (watch k)) (procs k))
    | EPOLL_CTL_DEL, Some _ => Some (mkKernel (delete fd (watch k)) (procs k))
    | _, _ => None
    end
  else None.

(** The calls of [Epoller] by descriptor. With [epfd_] at -1 the system call fails too. *)
Definition by_fd (op : ctl) (k : Kernel) (pid : nat) (fd : sock) : bool * Kernel :=
  match epoll_ctl k pid op fd with Some k => (true, k) | None => (false, k) end.

Definition AddFd (k : Kernel) (pid : nat) (fd : sock) (events : Z) := by_fd (EPOLL_CTL_ADD events) k pid fd.
Definition DelFd (k : Kernel) (pid : nat) (fd : sock) := by_fd EPOLL_CTL_DEL k pid fd.
Definition ModifyFd (k : Kernel) (pid : nat) (fd : sock) (events : Z) := by_fd (EPOLL_CTL_MOD events) k pid fd.

(** A call on a descriptor that is not open fails and does nothing. *)
Definition exec_call (k : Kernel) (pid : nat) (c : call) : Kernel :=
  match procs k !! pid with
  | None => k
  | Some p =>
      match c with
      | CloseEpoll => mkKernel (watch k) (<[pid := mkProcess false (fds p)]> (procs k))
      | EpollDel fd => default k (epoll_ctl k pid EPOLL_CTL_DEL fd)
      | Close fd => settle (mkKernel (watch k) (<[pid := mkProcess (epfd_open p) (fds p ∖ {[fd]})]> (procs k)))
      end
  end.

Definition proc_exit (k : Kernel) (pid : nat) : Kernel := settle (mkKernel (watch k) (delete pid (procs k))).

Definition Epoller_Stop : list call := [CloseEpoll].

(** [EventLoop::Stop]; [stopped] does not matter to a process that exits. *)
Definition loop_Stop : list call := Epoller_Stop.

(** [~Session]. *)
Definition Session_destroy (fd : sock) : list call := [Close fd].

Definition FreeListenSession : list call := [EpollDel None] ++ Session_destroy None.

(** The sessions are destroyed when the map is cleared, which closes their sockets again. *)
Definition FreeClientSessions_calls (sv : Server) : list call :=
  let names := (map_to_list (sessions_ sv)).*1 in
  concat ((λ name, [EpollDel (Some name); Close (Some name)]) <$> names) ++ concat ((λ name, Session_destroy (Some name)) <$> names).

(** [~Server]. *)
Definition Server_destroy (sv : Server) : list call := FreeListenSession ++ FreeClientSessions_calls sv.

Definition StopServeSockets (sv : Server) : list call := loop_Stop ++ FreeListenSession ++ FreeClientSessions_calls sv.

(** ** Files *)

(** Names lead to blocks of data; an open file is its block, whatever its name is now. *)
Record Files := mkFiles { dir : gmap (list ascii) nat; blocks : gmap nat (list ascii); next_block : nat }.

Definition content (fs : Files) (name : list ascii) : option (list ascii) := dir fs !! name ≫= λ i, blocks fs !! i.

(** [std::ofstream(name, std::ios::trunc | std::ios::out)]. *)
Definition open_trunc (fs : Files) (name : list ascii) : Files * nat :=
  match dir fs !! name with
  | Some i => (mkFiles (dir fs) (<[i := []]> (blocks fs)) (next_block fs), i)
  | None =>
      let i := next_block fs in (mkFiles (<[name := i]> (dir fs)) (<[i := []]> (blocks fs)) (S i), i)
  end.

(** Writing behind the end leaves zeros in between. *)
Definition write_at (fs : Files) (i off : nat) (piece : list ascii) : Files :=
  mkFiles (dir fs)
    (alter (λ c, take off (c ++ replicate (off - length c) NUL) ++ piece ++ drop (off + length piece) c) i (blocks fs))
    (next_block fs).

Definition rename (fs : Files) (from to : list ascii) : option Files :=
  i ← dir fs !! from;
  Some (mkFiles (<[to := i]> (delete from (dir fs))) (blocks fs) (next_block fs)).

Definition unlink (fs : Files) (name : list ascii) : Files := mkFiles (delete name (dir fs)) (blocks fs) (next_block fs).

(** ** The child *)

(** Where the child is: [StopServeSockets] with the calls still to come; [LiteKVSave] with
    the snapshot, before the file is open, while it is written (the block, the offset,
    and what is still to be written), and before the rename; its exit. *)
Inductive child_pc :=
  | Stopping (calls : list call)
  | Opening (buf : list ascii)
  | Writing (i off : nat) (rest : list ascii)
  | Renaming
  | Exited (code : Z).

(** The copy of the container, and [dst]. [sExpiresMap] of core.cpp has no entries. *)
Record Child := mkChild { c_pc : child_pc; c_kv : KVContainer; c_dst : list ascii }.

Definition set_pc (pc : child_pc) (ch : Child) : Child := mkChild pc (c_kv ch) (c_dst ch).

(** How a system call ends: it succeeds, for a write with some number of bytes, or it
    fails, for a write because the disk is full. *)
Inductive answer := AnsOk | AnsWrote (n : nat) | AnsFail | AnsFull.

Definition tmp_dst (dst : list ascii) : list ascii := bs "tmp_" ++ dst.

(** [LiteKVSave], from the snapshot on. That a write failed is not noticed: the stream
    takes nothing more, and the file is renamed. *)
Definition save_step (ans : answer) (fs : Files) (dst : list ascii) (pc : child_pc) : option (Files * child_pc) :=
  match pc, ans with
  | Opening _, AnsFail => Some (fs, Exited 1)
  | Opening buf, AnsOk => let '(fs, i) := open_trunc fs (tmp_dst dst) in Some (fs, Writing i 0 (LiteKVSave buf))
  | Writing _ _ [], AnsOk | Writing _ _ _, AnsFull => Some (fs, Renaming)
  | Writing i off rest, AnsWrote n =>
      if decide (0 < n <= length rest)%nat then Some (write_at fs i off (take n rest), Writing i (off + n) (drop n rest)) else None
  | Renaming, AnsOk =>
      match rename fs (tmp_dst dst) dst with
      | Some fs => Some (fs, Exited 0)
      | None => Some (unlink fs (tmp_dst dst), Exited 1)
      end
  | Renaming, AnsFail => Some (unlink fs (tmp_dst dst), Exited 1)
  | _, _ => None
  end.

(** A step of the child: [None] where it cannot take one with this answer. *)
Definition child_step (ans : answer) (k : Kernel) (fs : Files) (pid : nat) (ch : Child) : option (Kernel * Files * Child) :=
  match c_pc ch with
  | Stopping (c :: calls) => Some (exec_call k pid c, fs, set_pc (Stopping calls) ch)
  | Stopping [] => buf ← Snapshot ∅ (c_kv ch); Some (k, fs, set_pc (Opening buf) ch)
  | pc =>
      '(fs, pc) ← save_step ans fs (c_dst ch) pc;
      Some (match pc with Exited _ => proc_exit k pid | _ => k end, fs, set_pc pc ch)
  end.

(** ** The parent *)

Definition parent_fds (sv : Server) : gset sock := {[None]} ∪ set_map Some (dom (sessions_ sv)).

Definition watched_by (sv : Server) : gmap sock Z := <[None := EPOLLIN]> (kmap Some (interest sv)).

(** The kernel after the parent has registered and closed sockets, which are now those of
    [sv]: what the parent has closed stays in the list as long as a child holds it. *)
Definition parent_kernel (k : Kernel) (sv : Server) : Kernel :=
  settle (mkKernel (watched_by sv ∪ watch k) (<[O := mkProcess true (parent_fds sv)]> (procs k))).

Section System.

Context {E : Type}.
Variable HandleCommand : E -> Server -> list ascii -> CommandCache -> option (E * Server * list ascii).
Variable tick : Z -> list Z -> E -> E.

Record sys := mkSystem {
  s_kernel : Kernel;
  s_parent : loop_state E;
  s_children : gmap nat Child;
  s_files : Files
}.

(** The parent handles an event or fires its timers; it forks, before the event in which
    [bgsave] is executed, with the container [kv] as it is then; a child takes a step, or
    is killed. *)
Inductive label :=
  | SEvent (f : fired)
  | STimers (now : Z) (clock : list Z)
  | SFork (pid : nat) (kv : KVContainer) (dst : list ascii)
  | SChild (pid : nat) (ans : answer)
  | SKill (pid : nat).

(** The parent's part of [LiteKVBackgroundSave]. *)
Definition LiteKVBackgroundSave (dst : list ascii) (pid : nat) (kv : KVContainer) (s : sys) : option sys :=
  if decide (dst = []) then None
  else
    p ← procs (s_kernel s) !! O;
    match procs (s_kernel s) !! pid, s_children s !! pid with
    | None, None =>
        Some (mkSystem (mkKernel (watch (s_kernel s)) (<[pid := p]> (procs (s_kernel s)))) (s_parent s)
                (<[pid := mkChild (Stopping (StopServeSockets (server_ (s_parent s)))) kv dst]> (s_children s)) (s_files s))
    | _, _ => None
    end.

Definition sys_step (s : sys) (l : label) : option sys :=
  match l with
  | SEvent f =>
      st ← loop_event HandleCommand (s_parent s) f;
      Some (mkSystem (parent_kernel (s_kernel s) (server_ st)) st (s_children s) (s_files s))
  | STimers now clock =>
      let st := s_parent s in
      Some (mkSystem (s_kernel s) (mkLoop (tick now clock (engine_ st)) (server_ st) (next_id st) (sent st)) (s_children s) (s_files s))
  | SFork pid kv dst => LiteKVBackgroundSave dst pid kv s
  | SChild pid ans =>
      ch ← s_children s !! pid;
      '(k, fs, ch) ← child_step ans (s_kernel s) (s_files s) pid ch;
      Some (mkSystem k (s_parent s) (<[pid := ch]> (s_children s)) fs)
  | SKill pid =>
      ch ← s_children s !! pid;
      Some (mkSystem (proc_exit (s_kernel s) pid) (s_parent s) (delete pid (s_children s)) (s_files s))
  end.

Fixpoint sys_run (s : sys) (ls : list label) : option sys :=
  match ls with
  | [] => Some s
  | l :: ls => s ← sys_step s l; sys_run s ls
  end.

End System.

Arguments sys : clear implicits.
Arguments mkSystem {E} _ _ _ _.

(** ** The sessions of the parent *)

(** Every session is registered, and nothing else is. *)
Definition registered (sv : Server) : Prop := dom (interest sv) = dom (sessions_ sv).

(** Sessions are neither made nor dropped. *)
Definition keeps_sessions (sv sv' : Server) : Prop := dom (sessions_ sv') = dom (sessions_ sv) /\ interest sv' = interest sv.

#[global] Instance keeps_sessions_preorder : PreOrder keeps_sessions.
Proof. split; [by intros sv|]. intros sv1 sv2 sv3 [E1 E2] [E3 E4]. split; congruence. Qed.

Lemma put_session_keeps sv name s s' : sessions_ sv !! name = Some s -> keeps_sessions sv (put_session sv name s').
Proof. intros H. split; [|done]. cbn. rewrite dom_insert_L. apply elem_of_dom_2 in H. set_solver. Qed.

Lemma keeps_registered sv sv' : keeps_sessions sv sv' -> registered sv -> registered sv'.
Proof. unfold registered. intros [-> ->]. done. Qed.

Lemma attach_registered sv name s : registered sv -> registered (AttachSession sv name s).
Proof. unfold registered. cbn. rewrite !dom_insert_L. by intros ->. Qed.

Lemma drop_registered sv name : registered sv -> registered (drop_session sv name).
Proof. unfold registered. cbn. rewrite !dom_delete_L. by intros ->. Qed.

#[export] Hint Resolve attach_registered drop_registered : litekv.

Section Sessions.

Context {E : Type}.
Variable HandleCommand : E -> Server -> list ascii -> CommandCache -> option (E * Server * list ascii).
Hypothesis HandleCommand_keeps : forall e sv name c e' sv' reply,
  HandleCommand e sv name c = Some (e', sv', reply) -> keeps_sessions sv sv'.

Lemma read_loop_keeps fuel : forall e sv name er e' sv' er',
  read_loop HandleCommand fuel e sv name er = Some (e', sv', er') -> keeps_sessions sv sv'.
Proof.
  induction fuel as [|fuel IH]; intros e sv name er e' sv' er' H; [done|]. cbn [read_loop] in H.
  destruct (sessions_ sv !! name) as [s|] eqn:Es; [|done]. cbn [mbind option_bind] in H.
  destruct (TryParseFromBuffer _ _ _) as [p|]; [|done]. cbn [mbind option_bind] in H.
  pose proof (put_session_keeps sv name s (set_cache (pcache p) (set_read_buf (pbuf p) s)) Es) as K.
  destruct (ret p && negb (err p)); [|injection H as <- <- <-; exact K].
  destruct (HandleCommand _ _ _ _) as [[[e1 sv1] r]|] eqn:Eh; [|done]. apply HandleCommand_keeps in Eh. cbn [mbind option_bind] in H.
  destruct (sessions_ sv1 !! name) as [s1|] eqn:Es1; [|done]. cbn [mbind option_bind] in H.
  destruct (buf_Append_std _ _) as [wb|]; [|done]. cbn [mbind option_bind] in H. apply IH in H.
  pose proof (put_session_keeps sv1 name s1 (set_cache cache_Clear (set_write_buf wb s1)) Es1) as K1.
  do 3 (etrans; [eassumption|]). done.
Qed.

Lemma foldl_subscriptions name chans : forall sv,
  keeps_sessions sv (foldl (λ sv chan, RemoveSessionFromSubscription sv chan name) sv chans).
Proof. induction chans as [|ch chans IH]; intros sv; [done|]. cbn [foldl]. rewrite <- IH. done. Qed.

Lemma ReadProc_registered e sv name reads e' sv' closed : registered sv ->
  ReadProc HandleCommand e sv name reads = Some (e', sv', closed) -> registered sv'.
Proof.
  intros Hr H. unfold ReadProc in H. destruct (sessions_ sv !! name) as [s|] eqn:Es; [|done]. cbn [mbind option_bind] in H.
  destruct (ReadToBuf reads NET_READ_BUF_SIZE) as [[nbytes buf]|]; [|done]. cbn [mbind option_bind] in H.
  destruct (nbytes =? 0).
  - injection H as <- <- <-. apply drop_registered. eapply keeps_registered; [apply foldl_subscriptions|done].
  - unfold ReadProc_bytes in H. rewrite Es in H. cbn [mbind option_bind] in H.
    destruct (buf_Append _ _ _) as [rb|]; [|done]. cbn [mbind option_bind] in H.
    destruct (read_loop _ _ _ _ _ _) as [[[e1 sv1] er]|] eqn:El; [|done]. cbn [mbind option_bind] in H.
    apply read_loop_keeps in El. assert (registered sv1) as Hr1.
    { eapply keeps_registered; [|exact Hr]. etrans; [|exact El]. by eapply put_session_keeps. }
    destruct (sessions_ sv1 !! name) as [s1|]; [|done]. cbn [mbind option_bind] in H. destruct er.
    + unfold AuxiliaryReadProcParseErrorHandling in H. destruct (sessions_ (ModifySession _ _ _) !! name) as [s2|]; [|done]. cbn [mbind option_bind] in H.
      destruct (FillErrorMsg _ _ _) as [wb|]; [|done]. injection H as <- <- <-. unfold ModifySession. auto with litekv.
    + injection H as <- <- <-. unfold ModifySession. auto with litekv.
Qed.

Lemma WriteProc_registered sv name answers sv' closed wire : registered sv ->
  WriteProc sv name answers = Some (sv', closed, wire) -> registered sv'.
Proof.
  intros Hr H. unfold WriteProc in H. destruct (sessions_ sv !! name) as [s|] eqn:Es; [|done]. cbn [mbind option_bind] in H.
  destruct (ReadableBytes (write_buf s) <=? 0); [injection H as <- _ _; unfold ModifySession; auto with litekv|].
  destruct (WriteFromBuf _ _ _) as [[n w]|]; [|done]. cbn [mbind option_bind] in H.
  assert (forall s', registered (put_session sv name s')) as Hp by (intros s'; eapply keeps_registered; [by eapply put_session_keeps|done]).
  assert (forall s1 s2, registered (put_session (ModifySession sv name s1) name s2)) as Hm.
  { intros s1 s2. eapply keeps_registered; [apply (put_session_keeps _ name (set_watched true s1)); apply lookup_insert_eq|].
    unfold ModifySession. auto with litekv. }
  destruct (u64 n >? 0); [destruct (u64 n =? _)|]; destruct ((n =? 0) && _); injection H as <- _ _; auto with litekv.
Qed.

Lemma loop_event_registered st f st' : registered (server_ st) -> loop_event HandleCommand st f = Some st' -> registered (server_ st').
Proof.
  intros Hr H. destruct f as [events remote|name events reads answers]; cbn [loop_event] in H.
  - destruct (interested _ _ _); [|by injection H as <-]. destruct (AcceptProc _ _ _) as [sv id] eqn:Ea. injection H as <-. cbn.
    unfold AcceptProc in Ea. destruct remote; injection Ea as <- _; auto with litekv.
  - destruct (sessions_ (server_ st) !! name) as [s|]; [|done]. cbn [mbind option_bind] in H.
    set (rd := if interested (Server.mask s) events EPOLLIN then _ else _) in H.
    destruct rd as [[[e sv] closed]|] eqn:Erd; [|done]. cbn [mbind option_bind] in H.
    assert (registered sv) as Hsv.
    { unfold rd in Erd. destruct (interested _ _ _); [by eapply ReadProc_registered|by injection Erd as <- <- <-]. }
    clear Erd rd. destruct closed; [by injection H as <-|]. destruct (sessions_ sv !! name) as [s1|]; [|done]. cbn [mbind option_bind] in H.
    destruct (interested _ _ _); [|by injection H as <-].
    destruct (WriteProc sv name answers) as [[[sv1 c] w]|] eqn:Ew; [|done]. injection H as <-. by eapply WriteProc_registered.
Qed.

End Sessions.

(** The commands of the program. *)
Definition handler_keeps (h : CommandHandler) : Prop :=
  match h with
  | OnServer h => forall env sv sess c sv' sent reply, h env sv sess c = Some (sv', sent, reply) -> keeps_sessions sv sv'
  | _ => True
  end.

Lemma AddSession_keeps sv ch name b sv' : AddSessionToSubscription sv ch name = (b, sv') -> keeps_sessions sv sv'.
Proof. unfold AddSessionToSubscription. case_decide; by intros [= _ <-]. Qed.

Lemma subscribe_all_keeps name chans : forall sv sv' ss, subscribe_all sv name chans = Some (sv', ss) -> keeps_sessions sv sv'.
Proof.
  induction chans as [|ch chans IH]; intros sv sv' ss H; cbn [subscribe_all] in H; [by injection H as <- _|].
  destruct (sessions_ sv !! name) as [s|] eqn:Es; [|done]. cbn [mbind option_bind] in H.
  destruct (AddSessionToSubscription _ _ _) as [b sv1] eqn:Ea. destruct (subscribe_all sv1 name chans) as [[sv2 ss2]|] eqn:E2; [|done].
  injection H as <- _. apply IH in E2. etrans; [|exact E2]. etrans; [|by eapply AddSession_keeps]. exact (put_session_keeps sv name s _ Es).
Qed.

Lemma unsubscribe_all_keeps name chans : forall sv sv' ss, unsubscribe_all sv name chans = Some (sv', ss) -> keeps_sessions sv sv'.
Proof.
  induction chans as [|ch chans IH]; intros sv sv' ss H; cbn [unsubscribe_all] in H; [by injection H as <- _|].
  destruct (sessions_ sv !! name) as [s|] eqn:Es; [|done]. cbn [mbind option_bind] in H.
  destruct (unsubscribe_all _ name chans) as [[sv2 ss2]|] eqn:E2; [|done].
  injection H as <- _. apply IH in E2. etrans; [|exact E2].
  exact (put_session_keeps sv name s (UnsetPubSubMode (set_channels (filter (λ c, c <> ch) (subscribed_channels s)) s)) Es).
Qed.

Lemma sOpCommandMap_keeps : Forall (λ p, handler_keeps p.2) sOpCommandMap.
Proof.
  unfold sOpCommandMap. repeat match goal with |- Forall _ (_ :: _) => apply Forall_cons; split end;
    try exact I; [..|by apply Forall_nil]; intros env sv sess c sv' sent reply H.
  - unfold PubSubPublishCommand in H. destruct sess; [|done]. cbn [mbind option_bind] in H.
    destruct (CheckSyntax _ _ _ _); [|by injection H as <- _ _]. destruct (argv c !! 1%nat); [|done]. cbn [mbind option_bind] in H.
    destruct (argv c !! 2%nat); [|done]. cbn [mbind option_bind] in H. destruct (HasSubscriptionChannel _ _); [|by injection H as <- _ _].
    destruct (relay _ _ _) as [[w n]|]; [|done]. by injection H as <- _ _.
  - unfold PubSubSubscribeCommand in H. destruct sess as [name|]; [|done]. cbn [mbind option_bind] in H.
    destruct (CheckSyntax _ _ _ _); [|by injection H as <- _ _]. destruct (subscribe_all _ _ _) as [[sv1 ss]|] eqn:E; [|done].
    injection H as <- _ _. by eapply subscribe_all_keeps.
  - unfold PubSubUnsubscribeCommand in H. destruct sess as [name|]; [|done]. cbn [mbind option_bind] in H.
    destruct (CheckSyntax _ _ _ _); [|by injection H as <- _ _]. destruct (sessions_ sv !! name); [|done]. cbn [mbind option_bind] in H.
    destruct (bool_decide _); [by injection H as <- _ _|]. destruct (unsubscribe_all _ _ _) as [[sv1 ss]|] eqn:E; [|done].
    injection H as <- _ _. by eapply unsubscribe_all_keeps.
  - unfold BgsaveCommand in H. destruct (CheckSyntax _ _ _ _); by injection H as <- _ _.
Qed.

Lemma find_op_Forall {A} (P : A -> Prop) l k x : Forall (λ p, P p.2) l -> find_op l k = Some x -> P x.
Proof.
  induction 1 as [|[k' y] l Hy Hl IH]; cbn [find_op]; [done|]. destruct (decide (k = k')); [by intros [= <-]|exact IH].
Qed.

Lemma engine_step_keeps envs s sv name c s' sv' reply : engine_step envs s sv name c = Some (s', sv', reply) -> keeps_sessions sv sv'.
Proof.
  unfold engine_step, HandleCommand. destruct (negb _); [done|]. destruct (argv c !! O) as [op|]; [|done]. cbn [mbind option_bind].
  destruct (find_op sOpCommandMap (tolower <$> op)) as [h|] eqn:Eh; [|by intros [= _ <- _]].
  apply (find_op_Forall _ _ _ _ sOpCommandMap_keeps) in Eh. destruct (lazy_eviction _ _) as [e|]; [|done]. cbn [mbind option_bind].
  destruct h as [h|h|h]; cbn [run_handler]; [destruct (h _ _ _ _ _) as [[[c1 app] r]|]|destruct (h _ _ _ _) as [[e1 r]|]|
    destruct (h _ _ _ _) as [[[sv1 w] r]|] eqn:E]; try done; cbn [mbind option_bind]; intros [= _ <- _]; try done.
  by eapply Eh.
Qed.

(** ** The kernel *)

Lemma elem_held ps (fd : sock) : fd ∈ held ps <-> exists pid p, ps !! pid = Some p /\ fd ∈ fds p.
Proof.
  unfold held. rewrite elem_of_union_list. split.
  - intros (X & HX & Hfd). apply list_elem_of_fmap in HX as (p & -> & Hp). apply list_elem_of_fmap in Hp as ([pid p'] & -> & Hp).
    exists pid, p'. split; [by apply elem_of_map_to_list|done].
  - intros (pid & p & Hp & Hfd). exists (fds p). split; [|done]. apply list_elem_of_fmap. exists p. split; [done|].
    apply list_elem_of_fmap. exists (pid, p). split; [done|]. by apply elem_of_map_to_list.
Qed.

Lemma elem_parent_fds sv fd : fd ∈ parent_fds sv <-> match fd with None => True | Some name => is_Some (sessions_ sv !! name) end.
Proof.
  unfold parent_fds. rewrite elem_of_union, elem_of_singleton, elem_of_map. destruct fd as [name|]; [|naive_solver].
  rewrite <- elem_of_dom. naive_solver.
Qed.

Lemma watched_by_lookup sv fd :
  watched_by sv !! fd = match fd with None => Some EPOLLIN | Some name => interest sv !! name end.
Proof.
  unfold watched_by. destruct fd as [name|]; [|apply lookup_insert_eq]. rewrite lookup_insert_ne by done. by apply lookup_kmap, _.
Qed.

Lemma watched_by_held sv fd : registered sv -> is_Some (watched_by sv !! fd) <-> fd ∈ parent_fds sv.
Proof.
  intros Hr. rewrite watched_by_lookup, elem_parent_fds. destruct fd as [name|]; [|split; [done|by eexists]].
  rewrite <- !elem_of_dom. by rewrite Hr.
Qed.

(** While the parent has its sockets open nothing leaves the list. *)
Lemma settle_watched sv ps : registered sv -> ps !! O = Some (mkProcess true (parent_fds sv)) ->
  settle (mkKernel (watched_by sv) ps) = mkKernel (watched_by sv) ps.
Proof.
  intros Hr Hp. unfold settle. cbn [watch procs]. f_equal. apply map_filter_id. intros fd m Hm. cbn [fst].
  apply elem_held. exists O. eexists. split; [exact Hp|]. cbn. apply watched_by_held; [done|by eexists].
Qed.

(** A socket is added once, and can then be modified and removed. *)
Lemma AddFd_DelFd k pid fd events k' : AddFd k pid fd events = (true, k') ->
  watch k' !! fd = Some events /\ AddFd k' pid fd events = (false, k') /\
  (forall events', exists k2, ModifyFd k' pid fd events' = (true, k2) /\ watch k2 !! fd = Some events') /\ DelFd k' pid fd = (true, k).
Proof.
  unfold AddFd, DelFd, ModifyFd, by_fd, epoll_ctl. destruct (procs k !! pid) as [p|] eqn:Ep; [|done]. cbn [mbind option_bind].
  destruct (epfd_open p && _) eqn:Eo; [|done]. destruct (watch k !! fd) as [m|] eqn:Ew; [done|]. intros [= <-]. cbn [watch procs].
  rewrite Ep. cbn [mbind option_bind]. rewrite Eo, lookup_insert_eq. split; [done|]. split; [done|]. split.
  - intros events'. eexists. split; [done|]. apply lookup_insert_eq.
  - rewrite delete_insert_id by done. by destruct k.
Qed.

(** The part of [DetachSession] that is a system call. *)
Lemma epoll_del_spec k pid fd : procs (default k (epoll_ctl k pid EPOLL_CTL_DEL fd)) = procs k /\
  watch (default k (epoll_ctl k pid EPOLL_CTL_DEL fd)) =
    match procs k !! pid with
    | Some p => if epfd_open p && bool_decide (fd ∈ fds p) then delete fd (watch k) else watch k
    | None => watch k
    end.
Proof.
  unfold epoll_ctl. destruct (procs k !! pid) as [p|]; [|done]. cbn [mbind option_bind]. destruct (epfd_open p && _); [|done].
  destruct (watch k !! fd) eqn:Ew; [done|]. cbn. by rewrite delete_id.
Qed.

(** *** A process that is alone *)

Lemma exec_call_shrinks k pid c : watch (exec_call k pid c) ⊆ watch k.
Proof.
  unfold exec_call. destruct (procs k !! pid) as [p|]; [|done]. destruct c as [|fd|fd]; cbn; [done| |apply map_filter_subseteq].
  rewrite (proj2 (epoll_del_spec k pid fd)). repeat case_match; [apply delete_subseteq|done..].
Qed.

Lemma exec_calls_shrink calls pid : forall k, watch (foldl (λ k c, exec_call k pid c) k calls) ⊆ watch k.
Proof. induction calls as [|c calls IH]; intros k; cbn [foldl]; [done|]. etrans; [apply IH|apply exec_call_shrinks]. Qed.

(** Sockets of sessions are closed, the listening socket is not. *)
Lemma exec_calls_alone calls : forall k b F, procs k = {[ O := mkProcess b F ]} -> None ∈ F ->
  (forall c, c ∈ calls -> exists name, c = EpollDel (Some name) \/ c = Close (Some name)) ->
  let k' := foldl (λ k c, exec_call k O c) k calls in
  watch k' !! None = watch k !! None /\ forall fd, Close fd ∈ calls -> watch k' !! fd = None.
Proof.
  induction calls as [|c calls IH]; intros k b F Hk HF Hc; cbn [foldl]; [split; [done|]; intros fd H; by apply not_elem_of_nil in H|].
  assert (exists F', procs (exec_call k O c) = {[ O := mkProcess b F' ]} /\ None ∈ F' /\ watch (exec_call k O c) !! None = watch k !! None /\
    forall fd, c = Close fd -> watch (exec_call k O c) !! fd = None) as (F' & Hk' & HF' & Hn & Hcl).
  { unfold exec_call. rewrite Hk, lookup_singleton_eq. destruct (Hc c ltac:(by left)) as [name [-> | ->]]; cbn.
    - exists F. destruct (epoll_del_spec k O (Some name)) as [-> ->]. split; [done|]. split; [done|]. split; [|done].
      repeat case_match; [by apply lookup_delete_ne|done..].
    - exists (F ∖ {[Some name]}). rewrite insert_singleton. split; [done|]. split; [set_solver|].
      assert (forall fd, fd ∈ held {[ O := mkProcess b (F ∖ {[Some name]}) ]} <-> fd ∈ F ∖ {[Some name]}) as Hh.
      { intros fd. rewrite elem_held. split; [intros (pid & p & Hp & Hfd)|intros Hfd; exists O; eexists; by rewrite lookup_singleton_eq].
        apply lookup_singleton_Some in Hp as [_ <-]. exact Hfd. }
      split.
      + rewrite map_lookup_filter. destruct (watch k !! None); [|done]. cbn. rewrite option_guard_True; [done|]. apply Hh. set_solver.
      + intros fd [= <-]. rewrite map_lookup_filter. destruct (watch k !! Some name); [|done]. cbn. rewrite option_guard_False; [done|].
        rewrite Hh. set_solver. }
  destruct (IH _ b F' Hk' HF') as [E1 E2]; [intros c' H'; apply Hc; by right|]. split; [by rewrite E1|].
  intros fd Hfd. apply elem_of_cons in Hfd as [<-|Hfd]; [|by apply E2]. eapply lookup_weaken_None; [by apply Hcl|apply exec_calls_shrink].
Qed.

(** What [FreeClientSessions] of Net.v does in one step, for a process that nobody shares
    its sockets with. *)
Lemma FreeClientSessions_calls_alone sv k : registered sv -> procs k = {[ O := mkProcess true (parent_fds sv) ]} -> watch k = watched_by sv ->
  watch (foldl (λ k c, exec_call k O c) k (FreeClientSessions_calls sv)) = watched_by (FreeClientSessions sv).
Proof.
  intros Hr Hk Hw. rewrite FreeClientSessions_all by (intros name; rewrite <- !elem_of_dom; by rewrite Hr).
  destruct (exec_calls_alone (FreeClientSessions_calls sv) k true (parent_fds sv) Hk) as [Hn Hc]; [by apply elem_parent_fds| |].
  { intros c H. unfold FreeClientSessions_calls in H. apply elem_of_app in H as [H|H].
    - apply list_elem_of_In, in_concat in H as (l & Hl & Hin).
      apply list_elem_of_In in Hl, Hin. apply list_elem_of_fmap in Hl as (name & -> & _). exists name.
      by rewrite !elem_of_cons, elem_of_nil in Hin; destruct Hin as [->|[->|[]]]; auto.
    - apply list_elem_of_In, in_concat in H as (l & Hl & Hin). apply list_elem_of_In in Hl, Hin.
      apply list_elem_of_fmap in Hl as (name & -> & _). apply list_elem_of_singleton in Hin as ->. eauto. }
  apply map_eq. intros fd. rewrite (watched_by_lookup (mkServer _ _ _)). destruct fd as [name|]; [|by rewrite Hn, Hw, watched_by_lookup].
  cbn [interest]. rewrite lookup_empty. destruct (sessions_ sv !! name) as [s|] eqn:Es.
  - apply Hc. unfold FreeClientSessions_calls. apply elem_of_app. right. apply list_elem_of_In, in_concat.
    exists [Close (Some name)]. split; [|by left]. apply list_elem_of_In, list_elem_of_fmap. exists name. split; [done|].
    apply list_elem_of_fmap. exists (name, s). split; [done|]. by apply elem_of_map_to_list.
  - eapply lookup_weaken_None; [|apply exec_calls_shrink]. rewrite Hw, watched_by_lookup. apply not_elem_of_dom. rewrite Hr. by apply not_elem_of_dom.
Qed.

(** ** The parent is not disturbed *)

Section Isolation.

Context {E : Type}.
Variable HandleCommand : E -> Server -> list ascii -> CommandCache -> option (E * Server * list ascii).
Variable tick : Z -> list Z -> E -> E.
Hypothesis HandleCommand_keeps : forall e sv name c e' sv' reply,
  HandleCommand e sv name c = Some (e', sv', reply) -> keeps_sessions sv sv'.

(** The kernel watches what the parent has registered, and a child that still has the
    descriptor of the epoll instance is about to close it. *)
Record isolated (s : sys E) : Prop := {
  iso_registered : registered (server_ (s_parent s));
  iso_parent : procs (s_kernel s) !! O = Some (mkProcess true (parent_fds (server_ (s_parent s))));
  iso_watch : watch (s_kernel s) = watched_by (server_ (s_parent s));
  iso_child : forall pid p, pid <> O -> procs (s_kernel s) !! pid = Some p -> epfd_open p = true ->
    exists ch calls, s_children s !! pid = Some ch /\ c_pc ch = Stopping (CloseEpoll :: calls);
  iso_pids : forall pid ch, s_children s !! pid = Some ch -> pid <> O
}.

(** The sockets that children still have open. *)
Definition held_by_children (s : sys E) : gset sock := held (delete O (procs (s_kernel s))).

(** No session is closed in the event whose socket a child still has open. *)
Definition patient_step (s : sys E) (l : label) : bool :=
  match l with
  | SEvent f =>
      match loop_event HandleCommand (s_parent s) f with
      | Some st =>
          let closed := dom (sessions_ (server_ (s_parent s))) ∖ dom (sessions_ (server_ st)) in
          bool_decide (set_map Some closed ## held_by_children s)
      | None => true
      end
  | _ => true
  end.

Fixpoint patient (s : sys E) (ls : list label) : bool :=
  match ls with
  | [] => true
  | l :: ls => patient_step s l && match sys_step HandleCommand tick s l with Some s' => patient s' ls | None => true end
  end.

Lemma isolated_event s f st : isolated s -> patient_step s (SEvent f) = true -> loop_event HandleCommand (s_parent s) f = Some st ->
  isolated (mkSystem (parent_kernel (s_kernel s) (server_ st)) st (s_children s) (s_files s)).
Proof.
  intros [Hr Hp Hw Hc Hpid] Hpat Est. cbn [patient_step] in Hpat. rewrite Est in Hpat.
  apply bool_decide_eq_true in Hpat.
  pose proof (loop_event_registered HandleCommand HandleCommand_keeps _ _ _ Hr Est) as Hr'.
  split; cbn [s_kernel s_parent s_children]; [done| | | |exact Hpid].
  - cbn. by rewrite lookup_insert_eq.
  - unfold parent_kernel, settle. cbn [watch procs]. apply map_eq. intros fd.
    rewrite map_lookup_filter, lookup_union, Hw, (watched_by_lookup (server_ st)).
    assert (fd ∈ parent_fds (server_ st) -> fd ∈ held (<[O := mkProcess true (parent_fds (server_ st))]> (procs (s_kernel s)))) as Hin.
    { intros H. apply elem_held. exists O. eexists. split; [apply lookup_insert_eq|done]. }
    destruct (watched_by (server_ st) !! fd) as [m|] eqn:Em; rewrite watched_by_lookup in Em; rewrite Em.
    + rewrite union_Some_l. cbn. rewrite option_guard_True; [done|]. apply Hin, watched_by_held; [done|]. rewrite watched_by_lookup, Em. by eexists.
    + rewrite (left_id_L None _). destruct (watched_by _ !! fd) as [m|] eqn:Em'; [|done]. cbn. rewrite option_guard_False; [done|].
      destruct fd as [name|]; [|done]. rewrite watched_by_lookup in Em'. unfold registered in Hr, Hr'.
      assert (is_Some (sessions_ (server_ (s_parent s)) !! name)) as H1 by (apply elem_of_dom; rewrite <- Hr; by eapply elem_of_dom_2).
      assert (sessions_ (server_ st) !! name = None) as H2 by (apply not_elem_of_dom; rewrite <- Hr'; by apply not_elem_of_dom).
      intros Hh. apply (Hpat (Some name)).
      { apply elem_of_map. exists name. split; [done|]. apply elem_of_difference. by rewrite elem_of_dom, not_elem_of_dom. }
      apply elem_held in Hh as (pid & p & Hlp & Hfd). apply elem_held.
      destruct (decide (pid = O)) as [->|Hne].
      * rewrite lookup_insert_eq in Hlp. injection Hlp as <-. cbn in Hfd. apply elem_parent_fds in Hfd. rewrite H2 in Hfd. by destruct Hfd.
      * exists pid, p. by rewrite lookup_delete_ne, lookup_insert_ne in * by done.
  - intros pid p Hne Hlp. cbn in Hlp. rewrite lookup_insert_ne in Hlp by done. by apply Hc.
Qed.

(** What a child does to the kernel: its own process changes, and has no descriptor of
    the epoll instance any more. *)
Definition only_own (pid : nat) (k k' : Kernel) : Prop :=
  watch k' = watch k /\ (forall pid', pid' <> pid -> procs k' !! pid' = procs k !! pid') /\
  forall p, procs k' !! pid = Some p -> epfd_open p = false.

Lemma settle_own s pid ps : isolated s -> pid <> O -> (forall pid', pid' <> pid -> ps !! pid' = procs (s_kernel s) !! pid') ->
  (forall p, ps !! pid = Some p -> epfd_open p = false) -> only_own pid (s_kernel s) (settle (mkKernel (watch (s_kernel s)) ps)).
Proof.
  intros Hi Hne Hps He. rewrite (iso_watch _ Hi), settle_watched; [by split; [rewrite (iso_watch _ Hi)|]|exact (iso_registered _ Hi)|].
  rewrite Hps by done. exact (iso_parent _ Hi).
Qed.

Lemma exec_call_own s pid ch c calls : isolated s -> s_children s !! pid = Some ch -> c_pc ch = Stopping (c :: calls) ->
  only_own pid (s_kernel s) (exec_call (s_kernel s) pid c).
Proof.
  intros Hi Hch Hpc. pose proof (iso_pids _ Hi pid ch Hch) as Hne. unfold exec_call.
  destruct (procs (s_kernel s) !! pid) as [p|] eqn:Ep; [|by split; [|split; [|intros p; rewrite Ep]]].
  assert (c <> CloseEpoll -> epfd_open p = false) as He.
  { intros Hc. destruct (epfd_open p) eqn:Eo; [|done]. destruct (iso_child _ Hi pid p Hne Ep Eo) as (ch' & calls' & Hch' & Hpc'). congruence. }
  destruct c as [|fd|fd].
  - split; [done|]. cbn. split; [intros pid' Hp; by rewrite lookup_insert_ne|]. intros p'. rewrite lookup_insert_eq. by intros [= <-].
  - destruct (epoll_del_spec (s_kernel s) pid fd) as [Eps Ew]. rewrite Ep, He in Ew by done. split; [exact Ew|]. rewrite Eps.
    split; [done|]. intros p'. rewrite Ep. intros [= <-]. by apply He.
  - apply settle_own; [done..| |].
    + intros pid' Hp. by rewrite lookup_insert_ne.
    + intros p'. rewrite lookup_insert_eq. intros [= <-]. by apply He.
Qed.

Lemma proc_exit_own s pid : isolated s -> pid <> O -> only_own pid (s_kernel s) (proc_exit (s_kernel s) pid).
Proof.
  intros Hi Hne. apply settle_own; [done..| |]; [intros pid' Hp; by rewrite lookup_delete_ne|]. intros p. by rewrite lookup_delete_eq.
Qed.

Lemma child_step_own s pid ch ans k fs ch' : isolated s -> s_children s !! pid = Some ch ->
  child_step ans (s_kernel s) (s_files s) pid ch = Some (k, fs, ch') -> only_own pid (s_kernel s) k.
Proof.
  intros Hi Hch H. pose proof (iso_pids _ Hi pid ch Hch) as Hne. unfold child_step in H.
  assert ((forall calls, c_pc ch <> Stopping (CloseEpoll :: calls)) -> only_own pid (s_kernel s) (s_kernel s)) as Hid.
  { intros Hpc. split; [done|]. split; [done|]. intros p Ep. destruct (epfd_open p) eqn:Eo; [|done].
    destruct (iso_child _ Hi pid p Hne Ep Eo) as (ch1 & calls & H1 & H2). rewrite Hch in H1. injection H1 as <-. by destruct (Hpc calls). }
  destruct (c_pc ch) as [[|c calls]|buf|i off rest| |code] eqn:Epc.
  - destruct (Snapshot _ _); [|done]. injection H as <- _ _. by apply Hid.
  - injection H as <- _ _. by eapply exec_call_own.
  - destruct (save_step _ _ _ _) as [[fs1 pc]|]; [|done]. injection H as <- _ _. destruct pc; try (by apply Hid). by apply proc_exit_own.
  - destruct (save_step _ _ _ _) as [[fs1 pc]|]; [|done]. injection H as <- _ _. destruct pc; try (by apply Hid). by apply proc_exit_own.
  - destruct (save_step _ _ _ _) as [[fs1 pc]|]; [|done]. injection H as <- _ _. destruct pc; try (by apply Hid). by apply proc_exit_own.
  - by destruct ans.
Qed.

Lemma isolated_own s pid k children fs : isolated s -> pid <> O -> only_own pid (s_kernel s) k ->
  (forall pid', pid' <> pid -> children !! pid' = s_children s !! pid') ->
  isolated (mkSystem k (s_parent s) children fs).
Proof.
  intros [Hr Hp Hw Hc Hpid] Hne (Ew & Eps & Ee) Hch. split; cbn [s_kernel s_parent s_children]; [done| |by rewrite Ew| |].
  - by rewrite Eps.
  - intros pid' p Hne' Hp' Ho. destruct (decide (pid' = pid)) as [->|Hd]; [by rewrite Ee in Ho|].
    rewrite Eps in Hp' by done. rewrite Hch by done. by apply (Hc pid' p).
  - intros pid' ch H. destruct (decide (pid' = pid)) as [->|Hd]; [done|]. rewrite Hch in H by done. by apply Hpid in H.
Qed.

Lemma isolated_fork s pid kv dst s' : isolated s -> LiteKVBackgroundSave dst pid kv s = Some s' -> isolated s'.
Proof.
  intros [Hr Hp Hw Hc Hpid] H. unfold LiteKVBackgroundSave in H. case_decide; [done|]. rewrite Hp in H. cbn [mbind option_bind] in H.
  destruct (procs (s_kernel s) !! pid) as [p|] eqn:Ep; [done|]. destruct (s_children s !! pid) as [ch|] eqn:Ech; [done|]. injection H as <-.
  assert (pid <> O) as Hne by (intros ->; congruence).
  split; cbn [s_kernel s_parent s_children watch procs]; [done| |done| |].
  - by rewrite lookup_insert_ne.
  - intros pid' p' Hne' Hp' Ho. destruct (decide (pid' = pid)) as [->|Hd].
    + rewrite lookup_insert_eq. eexists _, _. split; [done|]. reflexivity.
    + rewrite lookup_insert_ne in Hp' by done. rewrite lookup_insert_ne by done. by apply (Hc pid' p').
  - intros pid' ch H'. destruct (decide (pid' = pid)) as [->|Hd]; [done|]. rewrite lookup_insert_ne in H' by done. by apply Hpid in H'.
Qed.

Lemma isolated_step s l s' : isolated s -> patient_step s l = true -> sys_step HandleCommand tick s l = Some s' -> isolated s'.
Proof.
  intros Hi Hpat H. destruct l as [f|now clock|pid kv dst|pid ans|pid]; cbn [sys_step] in H.
  - destruct (loop_event HandleCommand (s_parent s) f) as [st|] eqn:Est; [|done]. injection H as <-. by eapply isolated_event.
  - injection H as <-. destruct Hi. by split.
  - by eapply isolated_fork.
  - destruct (s_children s !! pid) as [ch|] eqn:Ech; [|done]. cbn [mbind option_bind] in H.
    destruct (child_step _ _ _ _ _) as [[[k fs] ch']|] eqn:Es; [|done]. injection H as <-.
    apply (isolated_own s pid); [done|by eapply iso_pids|by eapply child_step_own|]. intros pid' Hd. by rewrite lookup_insert_ne.
  - destruct (s_children s !! pid) as [ch|] eqn:Ech; [|done]. injection H as <-. pose proof (iso_pids _ Hi pid ch Ech).
    apply (isolated_own s pid); [done|done|by apply proc_exit_own|]. intros pid' Hd. by rewrite lookup_delete_ne.
Qed.

Lemma isolated_run ls : forall s s', isolated s -> patient s ls = true -> sys_run HandleCommand tick s ls = Some s' -> isolated s'.
Proof.
  induction ls as [|l ls IH]; intros s s' Hi Hp H; cbn [sys_run] in H; [by injection H as <-|]. cbn [patient] in Hp.
  apply andb_prop in Hp as [Hl Hp]. destruct (sys_step _ _ s l) as [s1|] eqn:E1; [|done]. eapply IH; [|exact Hp|exact H]. by eapply isolated_step.
Qed.

(** The parent alone. *)
Fixpoint alone (st : loop_state E) (ls : list label) : option (loop_state E) :=
  match ls with
  | [] => Some st
  | SEvent f :: ls => st ← loop_event HandleCommand st f; alone st ls
  | STimers now clock :: ls => alone (mkLoop (tick now clock (engine_ st)) (server_ st) (next_id st) (sent st)) ls
  | _ :: ls => alone st ls
  end.

Lemma run_alone ls : forall s s', sys_run HandleCommand tick s ls = Some s' -> alone (s_parent s) ls = Some (s_parent s').
Proof.
  induction ls as [|l ls IH]; intros s s' H; cbn [sys_run] in H; [by injection H as <-|].
  destruct (sys_step _ _ s l) as [s1|] eqn:E1; [|done]. cbn [mbind option_bind] in H. apply IH in H.
  destruct l as [f|now clock|pid kv dst|pid ans|pid]; cbn [sys_step alone] in *.
  - destruct (loop_event HandleCommand (s_parent s) f) as [st|]; [|done]. by injection E1 as <-.
  - by injection E1 as <-.
  - unfold LiteKVBackgroundSave in E1. case_decide; [done|]. destruct (procs (s_kernel s) !! O); [|done]. cbn [mbind option_bind] in E1.
    destruct (procs (s_kernel s) !! pid); [done|]. destruct (s_children s !! pid); [done|]. by injection E1 as <-.
  - destruct (s_children s !! pid); [|done]. cbn [mbind option_bind] in E1. destruct (child_step _ _ _ _ _) as [[[k fs] ch']|]; [|done].
    by injection E1 as <-.
  - destruct (s_children s !! pid); [|done]. by injection E1 as <-.
Qed.

End Isolation.

(** ** The file *)

(** No block has two names. *)
Definition files_ok (fs : Files) : Prop :=
  (forall a b i, dir fs !! a = Some i -> dir fs !! b = Some i -> a = b) /\
  forall a i, dir fs !! a = Some i -> (i < next_block fs)%nat /\ is_Some (blocks fs !! i).

Lemma tmp_dst_ne dst : tmp_dst dst <> dst.
Proof. intros H. apply (f_equal length) in H. cbn in H. lia. Qed.

Lemma content_intro fs name i c : dir fs !! name = Some i -> blocks fs !! i = Some c -> content fs name = Some c.
Proof. intros H1 H2. unfold content. by rewrite H1. Qed.

(** A fresh empty file under the name, the others as they were. *)
Lemma open_trunc_spec fs name fs' i : files_ok fs -> open_trunc fs name = (fs', i) ->
  files_ok fs' /\ dir fs' !! name = Some i /\ blocks fs' !! i = Some [] /\ forall a, a <> name -> content fs' a = content fs a.
Proof.
  intros [Hinj Hok] H. unfold open_trunc in H. destruct (dir fs !! name) as [j|] eqn:Ej; injection H as <- <-.
  - split; [split; cbn; [exact Hinj|]|].
    { intros a k Hk. destruct (Hok a k Hk) as [H1 H2]. split; [done|]. destruct (decide (k = j)) as [->|]; [rewrite lookup_insert_eq; by eexists|by rewrite lookup_insert_ne]. }
    split; [done|]. split; [apply lookup_insert_eq|]. intros a Ha. unfold content. cbn. destruct (dir fs !! a) as [k|] eqn:Ek; [|done]. cbn.
    rewrite lookup_insert_ne; [done|]. intros ->. by apply Ha, (Hinj a name k).
  - split; [split; cbn|].
    { intros a b k Ha Hb. destruct (decide (a = name)) as [->|Hna], (decide (b = name)) as [->|Hnb]; [done|..];
        rewrite ?lookup_insert_eq in Ha; rewrite ?lookup_insert_eq in Hb; rewrite ?lookup_insert_ne in Ha by done; rewrite ?lookup_insert_ne in Hb by done.
      - injection Ha as <-. apply Hok in Hb. lia.
      - injection Hb as <-. apply Hok in Ha. lia.
      - by eapply Hinj. }
    { intros a k Ha. destruct (decide (a = name)) as [->|Hna].
      - rewrite lookup_insert_eq in Ha. injection Ha as <-. split; [lia|]. rewrite lookup_insert_eq. by eexists.
      - rewrite lookup_insert_ne in Ha by done. destruct (Hok a k Ha) as [H1 H2]. split; [lia|]. rewrite lookup_insert_ne by lia. done. }
    split; [apply lookup_insert_eq|]. split; [apply lookup_insert_eq|]. intros a Ha. unfold content. cbn. rewrite lookup_insert_ne by done.
    destruct (dir fs !! a) as [k|] eqn:Ek; [|done]. cbn. apply Hok in Ek. rewrite lookup_insert_ne; [done|]. lia.
Qed.

(** A piece at the end of a file. *)
Lemma write_at_spec fs name i c piece : files_ok fs -> dir fs !! name = Some i -> blocks fs !! i = Some c ->
  let fs' := write_at fs i (length c) piece in
  files_ok fs' /\ dir fs' !! name = Some i /\ blocks fs' !! i = Some (c ++ piece) /\ forall a, a <> name -> content fs' a = content fs a.
Proof.
  intros [Hinj Hok] Hd Hb. cbv zeta. assert (blocks (write_at fs i (length c) piece) !! i = Some (c ++ piece)) as E.
  { cbn. rewrite lookup_alter_eq, Hb. cbn. rewrite Nat.sub_diag. cbn [replicate]. rewrite app_nil_r, take_ge, drop_ge, app_nil_r by lia. done. }
  split; [split; [exact Hinj|]|split; [done|split; [exact E|]]].
  - intros a k Hk. destruct (Hok a k Hk) as [H1 H2]. split; [done|]. destruct (decide (k = i)) as [->|]; [rewrite E; by eexists|].
    cbn. by rewrite lookup_alter_ne.
  - intros a Ha. unfold content. cbn. destruct (dir fs !! a) as [k|] eqn:Ek; [|done]. cbn. rewrite lookup_alter_ne; [done|].
    intros ->. by apply Ha, (Hinj a name k).
Qed.

Lemma rename_spec fs from to c : files_ok fs -> content fs from = Some c -> from <> to ->
  exists fs', rename fs from to = Some fs' /\ files_ok fs' /\ content fs' to = Some c.
Proof.
  intros [Hinj Hok] Hc Hne. unfold content in Hc. destruct (dir fs !! from) as [i|] eqn:Ei; [|done]. cbn in Hc. unfold rename. rewrite Ei. cbn.
  eexists. split; [done|]. split; [|unfold content; cbn; rewrite lookup_insert_eq; exact Hc]. split; cbn.
  - intros a b k Ha Hb. assert (forall x, <[to:=i]> (delete from (dir fs)) !! x = Some k -> x = to /\ k = i \/ x <> to /\ x <> from /\ dir fs !! x = Some k) as H.
    { intros x Hx. destruct (decide (x = to)) as [->|]; [rewrite lookup_insert_eq in Hx; left; split; [done|by injection Hx]|].
      right. rewrite lookup_insert_ne in Hx by done. destruct (decide (x = from)) as [->|]; [by rewrite lookup_delete_eq in Hx|].
      by rewrite lookup_delete_ne in Hx. }
    destruct (H a Ha) as [[-> ->]|(H1 & H2 & H3)], (H b Hb) as [[-> E]|(H4 & H5 & H6)]; subst; try done.
    + destruct H5. by eapply Hinj.
    + destruct H2. by eapply Hinj.
    + by eapply Hinj.
  - intros a k Ha. destruct (decide (a = to)) as [->|]; [rewrite lookup_insert_eq in Ha; injection Ha as <-; by eapply Hok|].
    rewrite lookup_insert_ne in Ha by done. apply lookup_delete_Some in Ha as [_ Ha]. by eapply Hok.
Qed.

Lemma unlink_ok fs name : files_ok fs -> files_ok (unlink fs name).
Proof.
  intros [Hinj Hok]. split; cbn; [intros a b i Ha Hb|intros a i Ha]; apply lookup_delete_Some in Ha as [_ Ha]; [apply lookup_delete_Some in Hb as [_ Hb]|].
  - by eapply Hinj.
  - by eapply Hok.
Qed.

Lemma unlink_other fs name a : a <> name -> content (unlink fs name) a = content fs a.
Proof. intros H. unfold content. cbn. by rewrite lookup_delete_ne. Qed.

(** How far the child is with the file: [dst] holds [old] until the rename, which puts
    all of [full] there at once. *)
Definition saving (old : option (list ascii)) (full dst : list ascii) (fs : Files) (pc : child_pc) : Prop :=
  files_ok fs /\
  match pc with
  | Stopping _ => content fs dst = old
  | Opening buf => content fs dst = old /\ LiteKVSave buf = full
  | Writing i off rest =>
      content fs dst = old /\ dir fs !! tmp_dst dst = Some i /\
      exists c, blocks fs !! i = Some c /\ c ++ rest = full /\ off = length c
  | Renaming => content fs dst = old /\ content fs (tmp_dst dst) = Some full
  | Exited code => content fs dst = if code =? 0 then Some full else old
  end.

Lemma save_step_write n fs dst i off rest : save_step (AnsWrote n) fs dst (Writing i off rest) =
  if decide (0 < n <= length rest)%nat then Some (write_at fs i off (take n rest), Writing i (off + n) (drop n rest)) else None.
Proof. by destruct rest. Qed.

Lemma save_step_saving old full dst ans fs pc fs' pc' : saving old full dst fs pc -> ans <> AnsFull ->
  save_step ans fs dst pc = Some (fs', pc') -> saving old full dst fs' pc'.
Proof.
  intros [Hok Hs] Hans H. pose proof (tmp_dst_ne dst) as Hne.
  destruct pc as [calls|buf|i off rest| |code]; cbn [save_step saving] in *; try done.
  - destruct Hs as [Ho <-]. destruct ans; try done; [|by injection H as <- <-].
    destruct (open_trunc fs (tmp_dst dst)) as [fs1 i] eqn:Eo. injection H as <- <-.
    destruct (open_trunc_spec _ _ _ _ Hok Eo) as (Hok1 & Hd & Hb & Hoth). split; [done|]. cbn. rewrite Hoth by done.
    do 2 (split; [done|]). by exists [].
  - destruct Hs as (Ho & Hd & c & Hb & Hfull & ->). destruct ans as [|n| |].
    + destruct rest; [|done]. injection H as <- <-. split; [done|]. split; [done|]. rewrite app_nil_r in Hfull. subst c. by eapply content_intro.
    + change (save_step (AnsWrote n) fs dst (Writing i (length c) rest) = Some (fs', pc')) in H.
      rewrite save_step_write in H. case_decide as Hn; [|done]. injection H as <- <-.
      destruct (write_at_spec fs _ i c (take n rest) Hok Hd Hb) as (Hok1 & Hd1 & Hb1 & Hoth). split; [done|]. cbn. rewrite Hoth by done.
      do 2 (split; [done|]). exists (c ++ take n rest). split; [done|]. rewrite <- app_assoc, take_drop, length_app, length_take. split; [done|lia].
    + by destruct rest.
    + done.
  - destruct Hs as [Ho Ht]. destruct ans; try done.
    + destruct (rename_spec fs _ dst full Hok Ht Hne) as (fs1 & E & Hok1 & Hc). rewrite E in H. injection H as <- <-. by split.
    + injection H as <- <-. split; [by apply unlink_ok|]. cbn. by rewrite unlink_other by done.
Qed.

(** ** The snapshot *)

Section Saved.

Context {E : Type}.
Variable HandleCommand : E -> Server -> list ascii -> CommandCache -> option (E * Server * list ascii).
Variable tick : Z -> list Z -> E -> E.
Variable pid : nat.
Variables (old : option (list ascii)) (full dst : list ascii) (buf : list ascii) (kv : KVContainer).
Hypothesis snapshot : Snapshot ∅ kv = Some buf.
Hypothesis full_file : full = LiteKVSave buf.

(** No other child is started, and the disk has room for what this one writes. *)
Definition one_save (l : label) : Prop :=
  match l with SFork _ _ _ => False | SChild _ AnsFull => False | _ => True end.

Record one_child (s : sys E) : Prop := {
  one_self : match s_children s !! pid with
             | Some ch => c_kv ch = kv /\ c_dst ch = dst /\ saving old full dst (s_files s) (c_pc ch)
             | None => content (s_files s) dst = old \/ content (s_files s) dst = Some full
             end;
  one_others : forall pid' ch, pid' <> pid -> s_children s !! pid' = Some ch -> exists code, c_pc ch = Exited code
}.

Lemma saving_calls fs calls calls' : saving old full dst fs (Stopping calls) -> saving old full dst fs (Stopping calls').
Proof. done. Qed.

Lemma child_step_saving ans k fs ch k' fs' ch' : c_kv ch = kv -> c_dst ch = dst -> saving old full dst fs (c_pc ch) -> ans <> AnsFull ->
  child_step ans k fs pid ch = Some (k', fs', ch') ->
  c_kv ch' = kv /\ c_dst ch' = dst /\ saving old full dst fs' (c_pc ch').
Proof.
  intros Ekv Ed Hs Hans H. unfold child_step in H. rewrite Ekv, Ed in H. subst full.
  destruct (c_pc ch) as [[|c calls]|b|i off rest| |code] eqn:Epc.
  - rewrite snapshot in H. injection H as <- <- <-. do 2 (split; [done|]). destruct Hs as [Hok Hs]. by split.
  - injection H as <- <- <-. do 2 (split; [done|]). exact Hs.
  - destruct (save_step _ _ _ _) as [[fs1 pc]|] eqn:Es; [|done]. injection H as <- <- <-. do 2 (split; [done|]). by eapply save_step_saving.
  - destruct (save_step _ _ _ _) as [[fs1 pc]|] eqn:Es; [|done]. injection H as <- <- <-. do 2 (split; [done|]). by eapply save_step_saving.
  - destruct (save_step _ _ _ _) as [[fs1 pc]|] eqn:Es; [|done]. injection H as <- <- <-. do 2 (split; [done|]). by eapply save_step_saving.
  - by destruct ans.
Qed.

Lemma exited_no_step ans k fs pid' ch code : c_pc ch = Exited code -> child_step ans k fs pid' ch = None.
Proof. intros H. unfold child_step. rewrite H. by destruct ans. Qed.

(** What it has put there when it is gone. *)
Lemma saving_content fs pc : saving old full dst fs pc -> content fs dst = old \/ content fs dst = Some full.
Proof.
  intros [_ Hs]. destruct pc as [calls|b|i off rest| |code]; [by left|left; by destruct Hs..|]. cbn in Hs. destruct (code =? 0); auto.
Qed.

Lemma one_child_step s l s' : one_child s -> one_save l -> sys_step HandleCommand tick s l = Some s' -> one_child s'.
Proof.
  intros [Hself Hoth] Hl H. destruct l as [f|now clock|pid' kv' dst'|pid' ans|pid']; cbn [sys_step one_save] in *; [| |done| |].
  - destruct (loop_event HandleCommand (s_parent s) f) as [st|]; [|done]. injection H as <-. by split.
  - injection H as <-. by split.
  - destruct (s_children s !! pid') as [ch|] eqn:Ech; [|done]. cbn [mbind option_bind] in H.
    destruct (child_step _ _ _ _ _) as [[[k fs] ch']|] eqn:Es; [|done]. injection H as <-.
    destruct (decide (pid' = pid)) as [->|Hne].
    + rewrite Ech in Hself. destruct Hself as (Ekv & Ed & Hs). split; cbn [s_children s_files].
      * rewrite lookup_insert_eq. eapply child_step_saving; try done. intros ->. done.
      * intros p c Hp Hc. rewrite lookup_insert_ne in Hc by done. by eapply Hoth.
    + destruct (Hoth pid' ch Hne Ech) as [code Hc]. by rewrite (exited_no_step _ _ _ _ _ _ Hc) in Es.
  - destruct (s_children s !! pid') as [ch|] eqn:Ech; [|done]. injection H as <-. split; cbn [s_children s_files].
    + destruct (decide (pid' = pid)) as [->|Hne]; [|by rewrite lookup_delete_ne]. rewrite lookup_delete_eq. rewrite Ech in Hself.
      destruct Hself as (_ & _ & Hs). by eapply saving_content.
    + intros p c Hp Hc. apply lookup_delete_Some in Hc as [_ Hc]. by eapply Hoth.
Qed.

Lemma one_child_run ls : forall s s', one_child s -> Forall one_save ls -> sys_run HandleCommand tick s ls = Some s' -> one_child s'.
Proof.
  induction ls as [|l ls IH]; intros s s' Hi Hls H; cbn [sys_run] in H; [by injection H as <-|]. apply Forall_cons in Hls as [Hl Hls].
  destruct (sys_step _ _ s l) as [s1|] eqn:E1; [|done]. eapply IH; [|exact Hls|exact H]. by eapply one_child_step.
Qed.

(** *** It comes to an end *)

(** The steps a child still can take. *)
Definition steps_left (pc : child_pc) : nat :=
  match pc with
  | Stopping calls => length calls + length full + 4
  | Opening _ => length full + 3
  | Writing _ _ rest => length rest + 2
  | Renaming => 1
  | Exited _ => 0
  end.

Lemma child_step_decreases ans k fs ch k' fs' ch' : c_kv ch = kv -> c_dst ch = dst -> saving old full dst fs (c_pc ch) ->
  child_step ans k fs pid ch = Some (k', fs', ch') -> (steps_left (c_pc ch') < steps_left (c_pc ch))%nat.
Proof.
  intros Ekv Ed Hs H. unfold child_step in H. rewrite Ekv, Ed in H. destruct (c_pc ch) as [[|c calls]|b|i off rest| |code] eqn:Epc.
  - rewrite snapshot in H. injection H as <- <- <-. cbn [set_pc c_pc steps_left length]. lia.
  - injection H as <- <- <-. cbn [set_pc c_pc steps_left length]. lia.
  - destruct Hs as (_ & _ & Hf). destruct ans; try done; cbn [save_step mbind option_bind] in H.
    + destruct (open_trunc _ _) as [fs1 i]. injection H as <- <- <-. cbn [set_pc c_pc steps_left]. rewrite Hf. lia.
    + injection H as <- <- <-. cbn. lia.
  - destruct ans as [|n| |].
    + destruct rest; [|done]. injection H as <- <- <-. cbn. lia.
    + rewrite save_step_write in H. case_decide as Hn; [|done]. injection H as <- <- <-. cbn [set_pc c_pc steps_left]. rewrite length_drop. lia.
    + by destruct rest.
    + destruct rest; injection H as <- <- <-; cbn; lia.
  - destruct ans; try done; cbn [save_step mbind option_bind] in H.
    + destruct (rename _ _ _); injection H as <- <- <-; cbn; lia.
    + injection H as <- <- <-. cbn. lia.
  - by destruct ans.
Qed.

(** A child that has not exited has a step. *)
Lemma child_step_exists k fs ch : c_kv ch = kv -> (forall code, c_pc ch <> Exited code) ->
  exists ans r, ans <> AnsFull /\ child_step ans k fs pid ch = Some r.
Proof.
  intros Ekv Hpc. unfold child_step. rewrite Ekv. destruct (c_pc ch) as [[|c calls]|b|i off rest| |code] eqn:Epc.
  - exists AnsOk. rewrite snapshot. eexists. by split.
  - exists AnsOk. eexists. by split.
  - exists AnsOk. cbn [save_step]. destruct (open_trunc _ _). eexists. by split.
  - destruct rest as [|x rest]; [exists AnsOk; eexists; by split|]. exists (AnsWrote 1). cbn [save_step]. rewrite decide_True by (cbn; lia). eexists. by split.
  - exists AnsOk. cbn [save_step]. destruct (rename _ _ _); eexists; by split.
  - by destruct (Hpc code).
Qed.

(** The number of steps of the child in a run. *)
Fixpoint child_steps (ls : list label) : nat :=
  match ls with
  | [] => O
  | SChild pid' _ :: ls => (if decide (pid' = pid) then S else id) (child_steps ls)
  | _ :: ls => child_steps ls
  end.

Definition child_left (s : sys E) : nat := match s_children s !! pid with Some ch => steps_left (c_pc ch) | None => O end.

Lemma child_steps_bounded ls : forall s s', one_child s -> Forall one_save ls -> sys_run HandleCommand tick s ls = Some s' ->
  (child_left s' + child_steps ls <= child_left s)%nat.
Proof.
  induction ls as [|l ls IH]; intros s s' Hi Hls H; cbn [sys_run] in H; [injection H as <-; cbn; lia|]. apply Forall_cons in Hls as [Hl Hls].
  destruct (sys_step _ _ s l) as [s1|] eqn:E1; [|done]. cbn [mbind option_bind] in H.
  pose proof (IH s1 s' (one_child_step _ _ _ Hi Hl E1) Hls H) as Hle. unfold child_left in *. destruct Hi as [Hself Hoth].
  destruct l as [f|now clock|pid' kv' dst'|pid' ans|pid']; cbn [sys_step one_save child_steps] in *; [| |done| |].
  - destruct (loop_event HandleCommand (s_parent s) f) as [st|]; [|done]. by injection E1 as <-.
  - by injection E1 as <-.
  - destruct (s_children s !! pid') as [ch|] eqn:Ech; [|done]. cbn [mbind option_bind] in E1.
    destruct (child_step _ _ _ _ _) as [[[k fs] ch']|] eqn:Es; [|done]. injection E1 as <-. cbn [s_children] in Hle.
    destruct (decide (pid' = pid)) as [->|Hne].
    + rewrite lookup_insert_eq in Hle. rewrite Ech in Hself |- *. destruct Hself as (Ekv & Ed & Hs).
      pose proof (child_step_decreases _ _ _ _ _ _ _ Ekv Ed Hs Es). cbn. lia.
    + rewrite lookup_insert_ne in Hle by done. exact Hle.
  - destruct (s_children s !! pid') as [ch|] eqn:Ech; [|done]. injection E1 as <-. cbn [s_children] in Hle.
    destruct (decide (pid' = pid)) as [->|Hne]; [rewrite lookup_delete_eq in Hle; lia|by rewrite lookup_delete_ne in Hle by done].
Qed.

End Saved.

(** ** What a background save does *)

(** The server without children. *)
Definition serving_system {E} (st : loop_state E) (fs : Files) : sys E :=
  mkSystem (mkKernel (watched_by (server_ st)) {[ O := mkProcess true (parent_fds (server_ st)) ]}) st ∅ fs.

Lemma serving_system_isolated {E} (st : loop_state E) fs : registered (server_ st) -> isolated (serving_system st fs).
Proof.
  intros Hr. split; cbn [serving_system s_kernel s_parent s_children procs watch]; [done|by rewrite lookup_singleton_eq|done| |].
  - intros pid p Hne H. by rewrite lookup_singleton_ne in H.
  - intros pid ch H. by rewrite lookup_empty in H.
Qed.

(** C19. Children do not disturb the server. Whatever background saves are started, whatever
    becomes of them and however their steps fall between those of the server, as long as
    no client leaves while a child still has its socket: the server goes through the
    states it would go through alone, and the kernel watches exactly its sessions and the
    listening socket. *)
Theorem bgsave_isolated (envs : nat -> Env) (st : loop_state (Engine * nat)) (fs : Files) (ls : list label) (s' : sys (Engine * nat)) :
  registered (server_ st) -> patient (engine_step envs) own_tick (serving_system st fs) ls = true ->
  sys_run (engine_step envs) own_tick (serving_system st fs) ls = Some s' ->
  alone (engine_step envs) own_tick st ls = Some (s_parent s') /\
  watch (s_kernel s') = watched_by (server_ (s_parent s')) /\
  forall name, is_Some (watch (s_kernel s') !! Some name) <-> is_Some (sessions_ (server_ (s_parent s')) !! name).
Proof.
  intros Hr Hp H. split; [exact (run_alone _ _ ls _ _ H)|].
  destruct (isolated_run _ _ (engine_step_keeps envs) ls _ _ (serving_system_isolated st fs Hr) Hp H) as [Hr' _ Hw _ _].
  split; [exact Hw|]. intros name. rewrite Hw, watched_by_held by done. by rewrite elem_parent_fds.
Qed.

(** C18. A background save is atomic and comes to an end. Provided that the store at the fork is
    one the format can hold ([store_dumpable]: no empty containers, no empty elements, keys that
    are C strings), that the children of earlier saves have exited and none is started while
    this one runs (src/lkvdb.cpp:38), and that the disk is never full (src/lkvdb.cpp:52): from
    the fork on, whatever else the server does meanwhile, and even if the child is killed, the
    dump file is what it was until the child has saved, from then on it is the whole snapshot,
    and loading it gives the store as it was at the fork; the child takes a bounded number of
    steps, has one to take until it exits, and exits with 0 only when it has saved. *)
Theorem bgsave_saves (envs : nat -> Env) (s0 s s' : sys (Engine * nat)) (pid : nat) (kv : KVContainer) (dst : list ascii)
    (m : astore) (ls : list label) :
  kv_repr kv m -> store_dumpable m -> files_ok (s_files s0) ->
  (forall pid' ch, s_children s0 !! pid' = Some ch -> exists code, c_pc ch = Exited code) ->
  LiteKVBackgroundSave dst pid kv s0 = Some s -> Forall one_save ls -> sys_run (engine_step envs) own_tick s ls = Some s' ->
  exists file,
    (forall now, exists ld, LiteKVLoad (λ _, now) file empty_state = Some (ld, true) /\ kv_repr (ld_kv ld) m) /\
    (child_steps pid ls <= length (StopServeSockets (server_ (s_parent s0))) + length file + 4)%nat /\
    match s_children s' !! pid with
    | Some ch =>
        (c_pc ch = Exited 0 -> content (s_files s') dst = Some file) /\
        (c_pc ch <> Exited 0 -> content (s_files s') dst = content (s_files s0) dst) /\
        ((forall code, c_pc ch <> Exited code) -> exists ans s1, sys_step (engine_step envs) own_tick s' (SChild pid ans) = Some s1)
    | None => content (s_files s') dst = content (s_files s0) dst \/ content (s_files s') dst = Some file
    end.
Proof.
  intros Hkv Hm Hfs Hoth Hfork Hls Hrun. destruct (snapshot_loads_all kv m Hkv Hm) as (buf & Hsnap & Hload).
  exists (LiteKVSave buf). split; [exact Hload|]. set (old := content (s_files s0) dst).
  assert (one_child pid old (LiteKVSave buf) dst kv s /\ child_left pid (LiteKVSave buf) s =
      (length (StopServeSockets (server_ (s_parent s0))) + length (LiteKVSave buf) + 4)%nat) as [Hone Hleft].
  { unfold LiteKVBackgroundSave in Hfork. case_decide; [done|]. destruct (procs (s_kernel s0) !! O); [|done]. cbn [mbind option_bind] in Hfork.
    destruct (procs (s_kernel s0) !! pid); [done|]. destruct (s_children s0 !! pid); [done|]. injection Hfork as <-. split.
    - split; cbn [s_children s_files].
      + rewrite lookup_insert_eq. do 2 (split; [done|]). by split.
      + intros pid' ch Hne Hch. rewrite lookup_insert_ne in Hch by done. by eapply Hoth.
    - unfold child_left. cbn [s_children]. by rewrite lookup_insert_eq. }
  split.
  { rewrite <- Hleft. pose proof (child_steps_bounded _ own_tick pid old (LiteKVSave buf) dst buf kv Hsnap eq_refl ls s s' Hone Hls Hrun). lia. }
  destruct (one_child_run _ own_tick pid old (LiteKVSave buf) dst buf kv Hsnap eq_refl ls s s' Hone Hls Hrun) as [Hself _].
  destruct (s_children s' !! pid) as [ch|] eqn:Ech; [|exact Hself]. destruct Hself as (Ekv & Ed & Hs). split; [|split].
  - intros Epc. rewrite Epc in Hs. exact (proj2 Hs).
  - intros Hne. destruct Hs as [_ Hs]. destruct (c_pc ch) as [calls|b|i off rest| |code]; [done|by destruct Hs..|].
    cbn in Hs. destruct (code =? 0) eqn:Ec; [|exact Hs]. apply Z.eqb_eq in Ec. by subst code.
  - intros Hpc. destruct (child_step_exists pid buf kv Hsnap (s_kernel s') (s_files s') ch Ekv Hpc) as (ans & [[k fs] ch'] & _ & E).
    exists ans. cbn [sys_step]. rewrite Ech. cbn [mbind option_bind]. rewrite E. by eexists.
Qed.

(** C38. A client that leaves too early. When the connection of a session is closed while a
    child still has its socket open, the parent's [close] does not take the socket out of
    the epoll instance, since it is not the last descriptor, and nothing else does: the
    kernel keeps reporting it, with a pointer to the session that is freed, and the next
    event for it is undefined. *)
Theorem bgsave_dangling (envs : nat -> Env) (s : sys (Engine * nat)) (pid : nat) (p : Process) (name : list ascii) (sess : Session)
    (events : Z) (reads : list read_answer) (answers : list send_answer) :
  isolated s -> pid <> O -> procs (s_kernel s) !! pid = Some p -> Some name ∈ fds p ->
  sessions_ (server_ (s_parent s)) !! name = Some sess -> interested (Server.mask sess) events EPOLLIN = true -> stops reads = true ->
  exists s', sys_step (engine_step envs) own_tick s (SEvent (FSession name events reads answers)) = Some s' /\
    is_Some (watch (s_kernel s') !! Some name) /\
    forall events reads answers, sys_step (engine_step envs) own_tick s' (SEvent (FSession name events reads answers)) = None.
Proof.
  intros [Hr Hp Hw Hc Hpid] Hne Hlp Hfd Hs Hev Hst. cbn [sys_step loop_event]. rewrite Hs. cbn [mbind option_bind]. rewrite Hev.
  rewrite (ReadProc_hangup _ _ _ _ reads sess Hst Hs). cbn [mbind option_bind].
  set (sv' := drop_session _ name). eexists. split; [reflexivity|].
  destruct (foldl_subscriptions name (subscribed_channels sess) (server_ (s_parent s))) as [Hd Hi]. split.
  - unfold parent_kernel, settle. cbn [s_kernel server_ watch procs]. rewrite map_lookup_filter, lookup_union, Hw, !watched_by_lookup.
    cbn [sv' drop_session interest]. rewrite lookup_delete_eq, (left_id_L None _).
    destruct (interest (server_ (s_parent s)) !! name) as [m|] eqn:Em.
    + cbn. rewrite option_guard_True; [by eexists|]. apply elem_held. exists pid, p. by rewrite lookup_insert_ne.
    + apply not_elem_of_dom in Em. unfold registered in Hr. rewrite Hr in Em. by apply not_elem_of_dom in Em; rewrite Hs in Em.
  - intros ev data ans. cbn [s_parent server_ sv' drop_session sessions_]. by rewrite lookup_delete_eq.
Qed.

(** A full disk: what could not be written is not noticed, and the part that was replaces
    the last good file. *)
Lemma full_disk_replaces fs dst i off rest : files_ok fs -> dir fs !! tmp_dst dst = Some i ->
  exists fs1 fs2, save_step AnsFull fs dst (Writing i off rest) = Some (fs1, Renaming) /\
    save_step AnsOk fs1 dst Renaming = Some (fs2, Exited 0) /\ content fs2 dst = blocks fs !! i.
Proof.
  intros [_ Hok] Hd. exists fs. destruct (Hok _ _ Hd) as [_ [c Hc]]. cbn [save_step]. unfold rename. rewrite Hd. cbn [mbind option_bind].
  eexists. split; [by destruct rest|]. split; [done|]. unfold content. cbn. by rewrite lookup_insert_eq.
Qed.

(** Two background saves at once share the temporary file (a comment in the source asks
    for a check): the second empties it while the first is writing, the first goes on
    behind the hole and puts it in place. *)
Definition two_saves : option (Files * child_pc * child_pc) :=
  let fs := mkFiles ∅ ∅ 0 in
  let dst := bs "dump.lkvdb" in
  '(fs, a) ← save_step AnsOk fs dst (Opening (bs "first"));
  '(fs, a) ← save_step (AnsWrote 10) fs dst a;
  '(fs, b) ← save_step AnsOk fs dst (Opening (bs "2nd"));
  '(fs, a) ← save_step (AnsWrote 5) fs dst a;
  '(fs, a) ← save_step AnsOk fs dst a;
  '(fs, a) ← save_step AnsOk fs dst a;
  Some (fs, a, b).

Example two_saves_mixed : exists fs b, two_saves = Some (fs, Exited 0, b) /\
  content fs (bs "dump.lkvdb") = Some (replicate 10 NUL ++ bs "first").
Proof. eexists _, _. split; [reflexivity|]. by vm_compute. Qed.

(** ** Witnesses *)

(** A server with two clients; a child is started and killed, and then a client leaves. *)
Definition two_idle : loop_state (Engine * nat) := mkLoop (new_engine, O) two_clients 3 [].

Definition no_files : Files := mkFiles ∅ ∅ 0.

Definition a_dump : list ascii := bs "dump.lkvdb".

Lemma two_idle_registered : registered (server_ two_idle).
Proof. vm_compute. reflexivity. Qed.

Definition a_kill : list label :=
  [SFork 1 (container_ new_engine) a_dump; SChild 1 AnsOk; SEvent (FListen 1 (Some (bs "10.0.0.1:4000"))); SChild 1 AnsOk;
   SChild 1 AnsOk; SKill 1; SEvent (FSession (bs "c1") 1 [RdClosed] [])].

Definition after_kill : option (sys (Engine * nat)) :=
  sys_run (engine_step (λ _, quiet_env)) own_tick (serving_system two_idle no_files) a_kill.

Lemma bgsave_isolated_witness : exists s', after_kill = Some s' /\
  alone (engine_step (λ _, quiet_env)) own_tick two_idle a_kill = Some (s_parent s') /\ is_Some (watch (s_kernel s') !! Some (bs "c2")).
Proof.
  assert (bool_decide (is_Some (after_kill ≫= λ s', sessions_ (server_ (s_parent s')) !! bs "c2")) = true) as Hc by by vm_compute.
  apply bool_decide_eq_true in Hc.
  unfold after_kill in *. destruct (sys_run _ _ _ a_kill) as [s'|] eqn:Es; [|by destruct Hc].
  destruct (bgsave_isolated (λ _, quiet_env) two_idle no_files a_kill s' two_idle_registered ltac:(vm_compute; reflexivity) Es) as (Ha & _ & Hs).
  exists s'. split; [done|]. split; [exact Ha|]. by apply Hs.
Defined.

Definition an_int : KVContainer := (SetInt 1 KVContainer_new (bs "n") (-7)).1.

Lemma an_int_repr : kv_repr an_int (<[bs "n" := AInt (-7)]> ∅) /\ store_dumpable (<[bs "n" := AInt (-7)]> ∅).
Proof.
  split.
  - apply (SetInt_refines 1 KVContainer_new ∅ (bs "n") (-7) KVContainer_new_repr). unfold in_i64, INT64_MIN, INT64_MAX. lia.
  - split; [|by vm_compute]. apply map_Forall_insert_2; [|apply map_Forall_empty]. split; [split; [by apply (bool_decide_unpack _)|done]|done].
Qed.

(** The server goes on while the child saves the number [n]. *)
Definition a_save : list label :=
  (SChild 1 <$> replicate 6 AnsOk) ++ [SEvent (FSession (bs "c1") 1 [RdData (wire_of [[bs "set"; bs "k"; bs "v"]])] [])] ++
  (SChild 1 <$> replicate 5 AnsOk ++ [AnsWrote 10; AnsWrote 24; AnsOk; AnsOk]).

Definition after_save : option (sys (Engine * nat)) :=
  s ← LiteKVBackgroundSave a_dump 1 an_int (serving_system two_idle no_files);
  sys_run (engine_step (λ _, quiet_env)) own_tick s a_save.

Lemma bgsave_saves_witness : exists s' file,
  after_save = Some s' /\ content (s_files s') a_dump = Some file /\
  exists ld, LiteKVLoad (λ _, 5) file empty_state = Some (ld, true) /\ kv_repr (ld_kv ld) (<[bs "n" := AInt (-7)]> ∅).
Proof.
  destruct an_int_repr as [Hr Hm].
  assert ((after_save ≫= λ s', c_pc <$> s_children s' !! 1%nat) = Some (Exited 0)) as Hpc by by vm_compute.
  unfold after_save in *. destruct (LiteKVBackgroundSave _ _ _ _) as [s|] eqn:Ef; [|done]. cbn [mbind option_bind] in *.
  destruct (sys_run _ _ s a_save) as [s'|] eqn:Es; [|done]. cbn [mbind option_bind] in Hpc.
  destruct (bgsave_saves (λ _, quiet_env) (serving_system two_idle no_files) s s' 1 an_int a_dump _ a_save Hr Hm) as (file & Hl & _ & Hc).
  - split; intros ? ? *; cbn; by rewrite lookup_empty.
  - intros pid' ch Hch. cbn in Hch. by rewrite lookup_empty in Hch.
  - exact Ef.
  - repeat (constructor; [exact I|]). constructor.
  - exact Es.
  - exists s', file. split; [done|]. destruct (s_children s' !! 1%nat) as [ch|]; [|done]. injection Hpc as Hpc. destruct Hc as (Hc & _).
    split; [by apply Hc|]. apply Hl.
Defined.

(** The child has just been started when a client leaves. *)
Definition just_forked : option (sys (Engine * nat)) :=
  LiteKVBackgroundSave a_dump 1 (container_ new_engine) (serving_system two_idle no_files).

Lemma bgsave_dangling_witness : exists s s', just_forked = Some s /\
  sys_step (engine_step (λ _, quiet_env)) own_tick s (SEvent (FSession (bs "c1") 1 [RdClosed] [])) = Some s' /\
  is_Some (watch (s_kernel s') !! Some (bs "c1")) /\
  sys_step (engine_step (λ _, quiet_env)) own_tick s' (SEvent (FSession (bs "c1") 1 [RdClosed] [])) = None.
Proof.
  assert ((just_forked ≫= λ s, procs (s_kernel s) !! 1%nat) = Some (mkProcess true (parent_fds two_clients))) as Hp by (vm_compute; reflexivity).
  assert ((just_forked ≫= λ s, sessions_ (server_ (s_parent s)) !! bs "c1") = Some idle_session) as Hs by (vm_compute; reflexivity).
  unfold just_forked in *. destruct (LiteKVBackgroundSave _ _ _ _) as [s|] eqn:Ef; [|done]. cbn [mbind option_bind] in Hp, Hs.
  destruct (bgsave_dangling (λ _, quiet_env) s 1 _ (bs "c1") idle_session 1 [RdClosed] []
    (isolated_fork _ _ _ _ _ (serving_system_isolated two_idle no_files two_idle_registered) Ef) ltac:(done) Hp) as (s' & E & Hw & Hnone).
  - apply (bool_decide_unpack _). vm_compute. exact I.
  - exact Hs.
  - reflexivity.
  - reflexivity.
  - exists s, s'. split; [reflexivity|]. split; [exact E|]. split; [exact Hw|apply Hnone].
Defined.
