(* ===== verification/Config.v ===== *)
(** * Config: the configuration file (src/config.h, config.cpp)

    The file is read line by line through one [std::stringstream]; the items found are
    then applied one after the other, in the order of an [unordered_map], which is an
    argument here. An exception that nothing catches is [None]. What is written to the
    terminal is left out. *)

From S2P Require Import Prelude Numerals Doubles.
From stdpp Require Import list gmap fin_maps.
From Stdlib Require Import SpecFloat.

Local Open Scope Z_scope.

Definition CONFIG_DEFAULT_IP : list ascii := bs "127.0.0.1".
Definition CONFIG_DEFAULT_PORT : Z := 9527.
Definition CONFIG_DEFAULT_APPENDONLY_ENABLED : bool := false.
Definition CONFIG_DEFAULT_DUMPFILE : list ascii := bs "dump.aof".
Definition CONFIG_DEFAULT_DUMP_CACHESIZE : Z := 1024.
Definition CONFIG_DEFAULT_DUMP_FLUSH_INTERVAL : Z := 90.
Definition CONFIG_DEFAULT_LKVDB_DUMPFILE : list ascii := bs "dump.lkvdb".
Definition CONFIG_DEFAULT_LRU_ENABLED : bool := false.
(** [0.9f], a [float] made a [double]. *)
Definition CONFIG_DEFAULT_LRU_TRIGGER_RATIO : double := S754_finite false 8106479114518528 (-53).
Definition CONFIG_DEFAULT_MAX_MEMORY : Z := 2048.
Definition CONFIG_DEFAULT_KEEPALIVE_INTERVAL : Z := 100.
Definition CONFIG_DEFAULT_KEEPALIVE_CNT : Z := 3.

Record Config := mkConfig {
  ip_ : list ascii;
  port_ : Z;                      (* int *)
  appendonly_enabled_ : bool;
  dumpfile_ : list ascii;
  dump_cachesize_ : Z;            (* int *)
  dump_flush_interval_ : Z;       (* size_t *)
  lkvdb_dumpfile_ : list ascii;
  lru_enabled_ : bool;
  lru_trigger_ratio_ : double;
  max_memory_limit_ : Z;          (* size_t *)
  keepalive_interval_ : Z;        (* int *)
  keepalive_cnt_ : Z              (* int *)
}.

Definition Config_default : Config :=
  mkConfig CONFIG_DEFAULT_IP CONFIG_DEFAULT_PORT CONFIG_DEFAULT_APPENDONLY_ENABLED CONFIG_DEFAULT_DUMPFILE
    CONFIG_DEFAULT_DUMP_CACHESIZE CONFIG_DEFAULT_DUMP_FLUSH_INTERVAL CONFIG_DEFAULT_LKVDB_DUMPFILE
    CONFIG_DEFAULT_LRU_ENABLED CONFIG_DEFAULT_LRU_TRIGGER_RATIO CONFIG_DEFAULT_MAX_MEMORY
    CONFIG_DEFAULT_KEEPALIVE_INTERVAL CONFIG_DEFAULT_KEEPALIVE_CNT.

(** An assignment to one member. *)
Inductive assignment :=
  | SetIp (x : list ascii) | SetPort (x : Z) | SetAppendonly (x : bool) | SetDumpfile (x : list ascii)
  | SetCachesize (x : Z) | SetFlushInterval (x : Z) | SetLkvdb (x : list ascii) | SetLru (x : bool)
  | SetRatio (x : double) | SetMemory (x : Z) | SetInterval (x : Z) | SetCnt (x : Z) | SetNothing.

Definition set_member (a : assignment) (c : Config) : Config :=
  let 'mkConfig ip port ao df cs fi lk lru ratio mem ki kc := c in
  match a with
  | SetIp x => mkConfig x port ao df cs fi lk lru ratio mem ki kc
  | SetPort x => mkConfig ip x ao df cs fi lk lru ratio mem ki kc
  | SetAppendonly x => mkConfig ip port x df cs fi lk lru ratio mem ki kc
  | SetDumpfile x => mkConfig ip port ao x cs fi lk lru ratio mem ki kc
  | SetCachesize x => mkConfig ip port ao df x fi lk lru ratio mem ki kc
  | SetFlushInterval x => mkConfig ip port ao df cs x lk lru ratio mem ki kc
  | SetLkvdb x => mkConfig ip port ao df cs fi x lru ratio mem ki kc
  | SetLru x => mkConfig ip port ao df cs fi lk x ratio mem ki kc
  | SetRatio x => mkConfig ip port ao df cs fi lk lru x mem ki kc
  | SetMemory x => mkConfig ip port ao df cs fi lk lru ratio x ki kc
  | SetInterval x => mkConfig ip port ao df cs fi lk lru ratio mem x kc
  | SetCnt x => mkConfig ip port ao df cs fi lk lru ratio mem ki x
  | SetNothing => c
  end.

(** ** The items *)

(** [std::getline(ss, split, delim)] until it fails: the pieces; one that is empty at
    the end of the stream is none. *)
Fixpoint pieces (delim : ascii) (acc s : list ascii) : list (list ascii) :=
  match s with
  | [] => if decide (acc = []) then [] else [acc]
  | c :: s => if decide (c = delim) then acc :: pieces delim [] s else pieces delim (acc ++ [c]) s
  end.

(** The loop; [cnt] is a [char]. *)
Fixpoint count_parts (parts : list (list ascii)) (cnt : Z) : Z :=
  match parts with
  | [] => cnt
  | split :: parts =>
      match CanConvertToInt32 split with
      | Some val => if (0 >? val) || (val >? 255) then cnt else count_parts parts (swrap 8 (cnt + 1))
      | None => cnt
      end
  end.

Definition ValidateIpv4 (ip : list ascii) : bool := count_parts (pieces "."%char [] ip) 0 =? 4.

(** [if (f <= 0.0 || f > 1.0) ...]. *)
Definition clamp_ratio (f : double) : double :=
  let zero := S754_zero false in
  let one := double_of_Z 1 in
  if SFleb f zero || SFltb one f then
    let f := if SFltb zero f then f else zero in
    let f := if SFltb f one then f else one in
    if SFeqb f zero then CONFIG_DEFAULT_LRU_TRIGGER_RATIO else f
  else f.

(** The body of the loop of [Init]. *)
Definition init_item (key value : list ascii) (c : Config) : option Config :=
  if decide (key = []) then Some c
  else if decide (head key = Some "#"%char) then Some c
  else if decide (key = bs "ip") then
    if ValidateIpv4 value then Some (set_member (SetIp value) c) else Some c
  else if decide (key = bs "port") then
    Some (set_member (SetPort (default CONFIG_DEFAULT_PORT (CanConvertToInt32 value))) c)
  else if decide (key = bs "appendonly") then
    let b := default 0 (CanConvertToInt32 value) in
    Some (set_member (SetAppendonly (negb (b =? 0))) c)
  else if decide (key = bs "dumpfile") then Some (set_member (SetDumpfile value) c)
  else if decide (key = bs "dump-cachesize") then
    Some (set_member (SetCachesize (default CONFIG_DEFAULT_DUMP_CACHESIZE (CanConvertToInt32 value))) c)
  else if decide (key = bs "dump-flush-interval") then
    Some (set_member (SetFlushInterval (default CONFIG_DEFAULT_DUMP_FLUSH_INTERVAL (CanConvertToUInt64 value))) c)
  else if decide (key = bs "lkvdb-dumpfile") then Some (set_member (SetLkvdb value) c)
  else if decide (key = bs "lru-enable") then
    let b := default 0 (CanConvertToInt32 value) in
    Some (set_member (SetLru (negb (b =? 0))) c)
  else if decide (key = bs "lru-trigger-ratio") then
    let f := default CONFIG_DEFAULT_LRU_TRIGGER_RATIO (CanConvertToDouble value) in
    Some (set_member (SetRatio (clamp_ratio f)) c)
  else if decide (key = bs "max-memory-limit") then
    match stoll value with
    | inr num => Some (set_member (SetMemory (u64 num)) c)
    | inl _ => None
    end
  else if decide (key = bs "keepalive-interval") then
    let interval := default CONFIG_DEFAULT_KEEPALIVE_INTERVAL (CanConvertToInt32 value) in
    let interval := if (interval <? 30) || (interval >? 100) then CONFIG_DEFAULT_KEEPALIVE_INTERVAL else interval in
    Some (set_member (SetInterval interval) c)
  else if decide (key = bs "keepalive-cnt") then
    let cnt := default CONFIG_DEFAULT_KEEPALIVE_CNT (CanConvertToInt32 value) in
    let cnt := if (cnt <? 1) || (cnt >? 15) then CONFIG_DEFAULT_KEEPALIVE_CNT else cnt in
    Some (set_member (SetCnt cnt) c)
  else Some c.

(** [Init], the items in the order of the map's iteration. *)
Fixpoint Init (configs : list (list ascii * list ascii)) (c : Config) : option Config :=
  match configs with
  | [] => Some c
  | (key, value) :: configs => c ← init_item key value c; Init configs c
  end.

(** ** The file *)

Definition LF : ascii := "010"%char.

(** The lines [std::getline] gives until [eof()]: the last one may be empty. *)
Fixpoint lines_of (acc content : list ascii) : list (list ascii) :=
  match content with
  | [] => [acc]
  | c :: content => if decide (c = LF) then acc :: lines_of [] content else lines_of (acc ++ [c]) content
  end.

(** [ss >> word] on what is unread: the word, what is left, and whether the end was
    reached; the sentry fails, and the word keeps its value, if only blanks are left. *)
Definition extract (unread : list ascii) : option (list ascii * list ascii * bool) :=
  let s := drop (count_while is_space unread) unread in
  let n := count_while (λ c, negb (is_space c)) s in
  if decide (s = []) then None else Some (take n s, drop n s, bool_decide (drop n s = [])).

(** The variables of the loop; [unread] is what the stream still holds. *)
Record reader := mkReader {
  first : list ascii;
  second : list ascii;
  unread : list ascii;
  configs : gmap (list ascii) (list ascii)
}.

(** A line that is neither empty nor a comment. *)
Definition parse_line (r : reader) (line : list ascii) : reader :=
  let unread := unread r ++ line in
  (* ss >> first *)
  let '(first, unread, good) := match extract unread with
                                | Some (w, rest, eof) => (w, rest, negb eof)
                                | None => (first r, [], false)
                                end in
  if decide (first = []) then mkReader first (second r) unread (configs r)
  else
    (* ss >> second *)
    let '(second, unread) := if good : bool then
                               match extract unread with
                               | Some (w, rest, _) => (w, rest)
                               | None => (second r, [])
                               end
                             else (second r, unread) in
    if decide (second = []) then mkReader first second unread (configs r)
    else
      let first := lower <$> first in
      let second := lower <$> second in
      mkReader first second unread (<[first := second]> (configs r)).

Definition read_line (r : reader) (line : list ascii) : reader :=
  if decide (line = []) then r
  else if decide (head line = Some "#"%char) then r
  else parse_line r line.

Definition read_lines (content : list ascii) : gmap (list ascii) (list ascii) :=
  configs (foldl read_line (mkReader [] [] [] ∅) (lines_of [] content)).

(** [Config(filename)]: the content, if the file can be opened. The items are applied
    in the order of [map_to_list]; [Init_order_irrelevant] says that the order does not
    matter. *)
Definition Config_new (content : option (list ascii)) : option Config :=
  match content with
  | Some content => Init (map_to_list (read_lines content)) Config_default
  | None => Some Config_default
  end.
