(* ===== verification/ConfigFacts.v ===== *)
(** * ConfigFacts: what a configuration file sets

    The order in which the items are applied, the ranges of what is set, files written
    as the documentation says, and lines with too many or too few words. *)

From S2P Require Import Prelude Numerals Doubles.
From stdpp Require Import list gmap fin_maps.
From Stdlib Require Import SpecFloat.
From S2P Require Import Config.

Local Open Scope Z_scope.

(** ** The items *)

(** The member an assignment is to. *)
Definition member (a : assignment) : list ascii :=
  match a with
  | SetIp _ => bs "ip" | SetPort _ => bs "port" | SetAppendonly _ => bs "appendonly" | SetDumpfile _ => bs "dumpfile"
  | SetCachesize _ => bs "dump-cachesize" | SetFlushInterval _ => bs "dump-flush-interval"
  | SetLkvdb _ => bs "lkvdb-dumpfile" | SetLru _ => bs "lru-enable" | SetRatio _ => bs "lru-trigger-ratio"
  | SetMemory _ => bs "max-memory-limit" | SetInterval _ => bs "keepalive-interval" | SetCnt _ => bs "keepalive-cnt"
  | SetNothing => []
  end.

(** The values that are assigned. *)
Definition in_range (a : assignment) : Prop :=
  match a with
  | SetIp x => ValidateIpv4 x = true
  | SetPort x | SetCachesize x => in_i32 x
  | SetFlushInterval x | SetMemory x => in_u64 x
  | SetRatio x => x = S754_nan \/ SFltb (S754_zero false) x && SFleb x (double_of_Z 1) = true
  | SetInterval x => 30 <= x <= 100
  | SetCnt x => 1 <= x <= 15
  | _ => True
  end.

Lemma SFcompare_finite_opp m1 e1 m2 e2 :
  SFcompare (S754_finite false m2 e2) (S754_finite false m1 e1) =
  CompOpp <$> SFcompare (S754_finite false m1 e1) (S754_finite false m2 e2).
Proof.
  cbn. f_equal. rewrite (Z.compare_antisym e1 e2). destruct (e1 ?= e2); [|done..]. cbn.
  change (PosDef.Pos.compare_cont Eq m2 m1) with (Pos.compare m2 m1).
  change (PosDef.Pos.compare_cont Eq m1 m2) with (Pos.compare m1 m2). by rewrite Pos.compare_antisym.
Qed.

Lemma clamp_ratio_range f : in_range (SetRatio (clamp_ratio f)).
Proof.
  cbn [in_range]. unfold clamp_ratio. change (double_of_Z 1) with (S754_finite false 4503599627370496 (-52)).
  destruct f as [[]|[]| |[] m e]; try (right; reflexivity); [by left|].
  change (SFleb (S754_finite false m e) (S754_zero false)) with false. cbn [orb].
  pose proof (SFcompare_finite_opp 4503599627370496 (-52) m e) as Ho.
  destruct (SFltb (S754_finite false 4503599627370496 (-52)) (S754_finite false m e)) eqn:E.
  - change (SFltb (S754_zero false) (S754_finite false m e)) with true. cbv iota beta.
    unfold SFltb in E |- *. rewrite Ho. right.
    destruct (SFcompare (S754_finite false 4503599627370496 (-52)) (S754_finite false m e)) as [[]|]; try done.
  - right. unfold SFltb, SFleb in *. rewrite Ho.
    destruct (SFcompare (S754_finite false 4503599627370496 (-52)) (S754_finite false m e)) as [[]|] eqn:Ec; try done.
Qed.

Lemma CanConvertToInt32_range s d : in_i32 d -> in_i32 (default d (CanConvertToInt32 s)).
Proof. intros Hd. destruct (CanConvertToInt32 s) as [z|] eqn:E; [|done]. by apply CanConvertToInt32_iff in E as [? _]. Qed.

Lemma CanConvertToUInt64_range s d : in_u64 d -> in_u64 (default d (CanConvertToUInt64 s)).
Proof.
  intros Hd. unfold CanConvertToUInt64. case_decide; [done|]. unfold stoull.
  destruct (strtoull (c_str s)) as [[v n] e] eqn:E. case_decide; [done|]. destruct e; [done|]. cbn.
  unfold strtoull in E. case_decide; [by injection E as <- <-|]. destruct (_ >? UINT64_MAX) eqn:Em; [done|].
  assert (0 <= digits_value (sc_digits (scan_number (c_str s)))) as Hp; [|].
  2: { injection E as <- _. bools. destruct (sc_neg _); [apply u64_range|unfold in_u64; lia]. }
  assert (exists t, sc_digits (scan_number (c_str s)) = take (count_while is_digit t) t) as [t ->].
  { unfold scan_number. destruct (drop _ (c_str s)) as [|[[] [] [] [] [] [] [] []] t]; by eexists. }
  clear. unfold digits_value.
  assert (forall a, 0 <= a -> 0 <= foldl (λ a c, a * 10 + (Z_of_byte c - 48)) a (take (count_while is_digit t) t)) as H; [|by apply H].
  induction t as [|c t IH]; intros a Ha; [done|]. cbn [count_while]. destruct (is_digit c) eqn:Ec; [|done]. cbn [take foldl].
  apply IH. unfold is_digit in Ec. bools. lia.
Qed.

(** An item is an assignment to the member it names, or an exception. *)
Lemma init_item_assigns key value :
  (forall c, init_item key value c = None) \/
  exists a, (forall c, init_item key value c = Some (set_member a c)) /\ (a = SetNothing \/ member a = key) /\ in_range a.
Proof.
  assert (forall a, (a = SetNothing \/ member a = key) -> in_range a ->
    exists a', (forall c, Some (set_member a c) = Some (set_member a' c)) /\ (a' = SetNothing \/ member a' = key) /\ in_range a') as Hgo
    by (intros a Hm Hr; by exists a).
  assert (exists a', (forall c, Some c = Some (set_member a' c)) /\ (a' = SetNothing \/ member a' = key) /\ in_range a') as Hno.
  { exists SetNothing. split; [by intros []|]. split; [by left|done]. }
  unfold init_item. case_decide; [by right|]. case_decide; [by right|].
  case_decide as Hip. { right. destruct (ValidateIpv4 value) eqn:Ev; [|done]. apply Hgo; [by right|done]. }
  do 11 (try (case_decide as Hk; [subst key; try (right; apply Hgo; [by right|]; clear Hgo Hno)|clear Hk])); try exact I.
  - by apply CanConvertToInt32_range.
  - by apply CanConvertToInt32_range.
  - by apply CanConvertToUInt64_range.
  - apply clamp_ratio_range.
  - destruct (stoll value) as [|num]; [by left|]. right. apply Hgo; [by right|apply u64_range].
  - cbn [in_range]. set (i := default _ _). destruct ((i <? 30) || (i >? 100)) eqn:E; [unfold CONFIG_DEFAULT_KEEPALIVE_INTERVAL; lia|]. bools. lia.
  - cbn [in_range]. set (i := default _ _). destruct ((i <? 1) || (i >? 15)) eqn:E; [unfold CONFIG_DEFAULT_KEEPALIVE_CNT; lia|]. bools. lia.
  - by right.
Qed.

Lemma assign_comm a b c : a = SetNothing \/ b = SetNothing \/ member a <> member b -> set_member a (set_member b c) = set_member b (set_member a c).
Proof. intros H. destruct c, a, b; try reflexivity; destruct H as [H|[H|H]]; done. Qed.

Lemma init_item_comm k1 v1 k2 v2 c : k1 <> k2 ->
  (c ← init_item k1 v1 c; init_item k2 v2 c) = (c ← init_item k2 v2 c; init_item k1 v1 c).
Proof.
  intros Hk. destruct (init_item_assigns k1 v1) as [H1|(a & H1 & Ha & _)], (init_item_assigns k2 v2) as [H2|(b & H2 & Hb & _)];
    rewrite ?H1, ?H2; cbn [mbind option_bind]; rewrite ?H1, ?H2; try done.
  f_equal. symmetry. apply assign_comm. destruct Ha as [|Ha], Hb as [|Hb]; [by left|by left|by right; left|]. right. right. congruence.
Qed.

Lemma Init_permuted l l' c : l ≡ₚ l' -> NoDup l.*1 -> Init l c = Init l' c.
Proof.
  intros H. revert c. induction H as [|[k v] l l' H IH|[k1 v1] [k2 v2] l|l1 l2 l3 H12 IH12 H23 IH23]; intros c Hnd.
  - done.
  - cbn [Init]. cbn in Hnd. apply NoDup_cons in Hnd as [_ Hnd]. destruct (init_item k v c); [by apply IH|done].
  - cbn [Init]. cbn in Hnd. apply NoDup_cons in Hnd as [Hk Hnd]. rewrite not_elem_of_cons in Hk.
    pose proof (init_item_comm k2 v2 k1 v1 c (proj1 Hk)) as E.
    transitivity ((c ← init_item k2 v2 c; init_item k1 v1 c) ≫= Init l); [by destruct (init_item k2 v2 c)|].
    rewrite E. by destruct (init_item k1 v1 c).
  - rewrite IH12 by done. apply IH23. by rewrite <- H12.
Qed.

(** The items are kept in an [unordered_map], whose order of iteration is not
    specified: it does not matter. Whatever the order in which [Init] goes through the
    items, the configuration is the same, and so is an uncaught exception. *)
Lemma Init_order_irrelevant (l l' : list (list ascii * list ascii)) (c : Config) :
  l ≡ₚ l' -> NoDup l.*1 -> Init l c = Init l' c.
Proof. apply Init_permuted. Qed.

(** ** What is loaded *)

(** The values a loaded configuration can have. *)
Record config_ok (c : Config) : Prop := mkConfigOk {
  ok_ip : ValidateIpv4 (ip_ c) = true;
  ok_port : in_i32 (port_ c);
  ok_cachesize : in_i32 (dump_cachesize_ c);
  ok_flush : in_u64 (dump_flush_interval_ c);
  ok_ratio : lru_trigger_ratio_ c = S754_nan \/
    SFltb (S754_zero false) (lru_trigger_ratio_ c) && SFleb (lru_trigger_ratio_ c) (double_of_Z 1) = true;
  ok_memory : in_u64 (max_memory_limit_ c);
  ok_interval : 30 <= keepalive_interval_ c <= 100;
  ok_cnt : 1 <= keepalive_cnt_ c <= 15
}.

Lemma assign_ok a c : in_range a -> config_ok c -> config_ok (set_member a c).
Proof. intros Ha [? ? ? ? ? ? ? ?]. destruct c, a; constructor; first [exact Ha|assumption]. Qed.

Lemma init_item_ok key value c c' : init_item key value c = Some c' -> config_ok c -> config_ok c'.
Proof.
  intros E Hc. destruct (init_item_assigns key value) as [H|(a & H & _ & Ha)]; rewrite H in E; [done|].
  injection E as <-. by apply assign_ok.
Qed.

Lemma Init_ok l c c' : Init l c = Some c' -> config_ok c -> config_ok c'.
Proof.
  revert c. induction l as [|[k v] l IH]; intros c; cbn [Init]; [by intros [= <-]|].
  destruct (init_item k v c) as [c1|] eqn:E; [|done]. cbn [mbind option_bind]. intros H Hc.
  eapply IH; [done|]. by eapply init_item_ok.
Qed.

Lemma Config_default_ok : config_ok Config_default.
Proof.
  constructor; first [reflexivity|right; reflexivity|by (split; vm_compute)].
Qed.

(** C20. Whatever is in the file, and whether or not there is one, a configuration that
    is loaded is within bounds: the address is one that [ValidateIpv4] accepts, the
    port and the cache size are [int]s, the ratio is in (0, 1] or is not a number, the
    keepalive settings are those the documentation allows. *)
Theorem Config_wellformed (content : option (list ascii)) (c : Config) :
  Config_new content = Some c -> config_ok c.
Proof.
  destruct content as [content|]; cbn [Config_new]; [|intros [= <-]; apply Config_default_ok].
  intros H. eapply Init_ok; [done|apply Config_default_ok].
Qed.

(** ** A file as the documentation describes it *)

Definition is_blank (c : ascii) : bool := is_space c && negb (bool_decide (c = LF)).

(** A line: an item may have blanks before it, between its words and behind it. *)
Inductive conf_line :=
  | CBlank
  | CComment (text : list ascii)
  | CItem (lead key sep value trail : list ascii).

Definition print_line (l : conf_line) : list ascii :=
  match l with
  | CBlank => []
  | CComment text => "#"%char :: text
  | CItem lead key sep value trail => lead ++ key ++ sep ++ value ++ trail
  end.

Definition word (w : list ascii) : Prop := w <> [] /\ Forall (λ c, is_space c = false) w.
Definition blanks (s : list ascii) : Prop := Forall (λ c, is_blank c = true) s.

Definition line_ok (l : conf_line) : Prop :=
  match l with
  | CBlank => True
  | CComment text => LF ∉ text
  | CItem lead key sep value trail =>
      blanks lead /\ word key /\ head key <> Some "#"%char /\ blanks sep /\ sep <> [] /\ word value /\ blanks trail
  end.

#[export] Instance word_dec w : Decision (word w).
Proof. unfold word. apply _. Defined.

#[export] Instance blanks_dec s : Decision (blanks s).
Proof. unfold blanks. apply _. Defined.

#[export] Instance line_ok_dec l : Decision (line_ok l).
Proof. destruct l; cbn [line_ok]; apply _. Defined.

(** The lines, with a line feed between two of them. *)
Fixpoint conf_text (ls : list (list ascii)) : list ascii :=
  match ls with
  | [] => []
  | [l] => l
  | l :: ls => l ++ LF :: conf_text ls
  end.

Definition items_of (ls : list conf_line) : list (list ascii * list ascii) :=
  omap (λ l, match l with CItem _ key _ value _ => Some (lower <$> key, lower <$> value) | _ => None end) ls.

Definition add_item (m : gmap (list ascii) (list ascii)) (i : list ascii * list ascii) : gmap (list ascii) (list ascii) :=
  <[i.1 := i.2]> m.

Lemma lines_of_line acc l rest : LF ∉ l -> lines_of acc (l ++ LF :: rest) = (acc ++ l) :: lines_of [] rest.
Proof.
  revert acc. induction l as [|c l IH]; intros acc Hl; cbn [lines_of app].
  - by rewrite decide_True, app_nil_r.
  - rewrite not_elem_of_cons in Hl. rewrite decide_False by (intros ->; tauto). rewrite IH by tauto. by rewrite <- app_assoc.
Qed.

Lemma lines_of_last acc l : LF ∉ l -> lines_of acc l = [acc ++ l].
Proof.
  revert acc. induction l as [|c l IH]; intros acc Hl; cbn [lines_of].
  - by rewrite app_nil_r.
  - rewrite not_elem_of_cons in Hl. rewrite decide_False by (intros ->; tauto). rewrite IH by tauto. by rewrite <- app_assoc.
Qed.

Lemma lines_of_text ls : Forall (λ l, LF ∉ l) ls -> ls <> [] -> lines_of [] (conf_text ls) = ls.
Proof.
  intros H Hne. induction H as [|l ls Hl H IH]; [done|]. destruct ls as [|l' ls]; cbn [conf_text].
  - by rewrite lines_of_last.
  - rewrite lines_of_line by done. cbn [app]. f_equal. by apply IH.
Qed.

(** ** Reading a line *)

Lemma blanks_space s : blanks s -> Forall (λ c, is_space c = true) s.
Proof. intros Hs. apply (Forall_impl _ _ _ Hs). unfold is_blank. intros c H. by apply andb_true_iff in H as [? _]. Qed.

Lemma blanks_LF s : blanks s -> LF ∉ s.
Proof. unfold blanks. rewrite Forall_forall. intros H Hin. apply H in Hin. by vm_compute in Hin. Qed.

Lemma word_LF w : word w -> LF ∉ w.
Proof. intros [_ H]. rewrite Forall_forall in H. intros Hin. apply H in Hin. by vm_compute in Hin. Qed.

(** A word behind blanks is read, and what follows it is left. *)
Lemma extract_word s w t : Forall (λ c, is_space c = true) s -> word w ->
  match t with c :: _ => is_space c = true | [] => True end ->
  extract (s ++ w ++ t) = Some (w, t, bool_decide (t = [])).
Proof.
  intros Hs [Hne Hw] Ht. unfold extract.
  assert (match w ++ t with c :: _ => is_space c = false | [] => True end) as Hh
    by (destruct w as [|c w]; [done|]; by inversion Hw).
  rewrite count_while_all by done. rewrite drop_app_length. rewrite decide_False by (by destruct w).
  rewrite count_while_all.
  - by rewrite take_app_length, drop_app_length.
  - eapply Forall_impl; [exact Hw|]. intros c ->. done.
  - destruct t as [|c t]; [done|]. by rewrite Ht.
Qed.

Lemma space_head s t : Forall (λ c, is_space c = true) s -> s <> [] ->
  match s ++ t with c :: _ => is_space c = true | [] => True end.
Proof. intros [|c s' Hc _]; done. Qed.

Lemma space_only s : Forall (λ c, is_space c = true) s -> match s with c :: _ => is_space c = true | [] => True end.
Proof. by intros [|c s' Hc _]. Qed.

(** An item read when only blanks are left of the lines before. *)
Lemma read_item r lead key sep value trail :
  Forall (λ c, is_space c = true) (unread r) -> line_ok (CItem lead key sep value trail) ->
  read_line r (print_line (CItem lead key sep value trail)) =
    mkReader (lower <$> key) (lower <$> value) trail (add_item (configs r) (lower <$> key, lower <$> value)).
Proof.
  intros Hu (Hlead & Hkey & Hh & Hsep & Hsne & Hvalue & Htrail). apply blanks_space in Hlead, Hsep, Htrail.
  assert (key <> [] /\ value <> []) as [Hk Hv] by (split; [apply Hkey|apply Hvalue]).
  unfold read_line. cbn [print_line].
  rewrite decide_False by (intros E; apply app_eq_nil in E as [_ E]; by apply app_eq_nil in E as [E _]).
  rewrite decide_False.
  2: { destruct lead as [|c lead]; cbn; [by destruct key|]. intros [= ->]. by inversion Hlead. }
  unfold parse_line. rewrite app_assoc. rewrite extract_word; [|by apply Forall_app|done|by apply space_head].
  rewrite bool_decide_eq_false_2 by (by destruct sep). cbn [negb]. rewrite decide_False by done.
  rewrite extract_word; [|done..|by apply space_only]. by rewrite decide_False.
Qed.

Lemma read_conf_line r l : Forall (λ c, is_space c = true) (unread r) -> line_ok l ->
  Forall (λ c, is_space c = true) (unread (read_line r (print_line l))) /\
  configs (read_line r (print_line l)) = foldl add_item (configs r) (items_of [l]).
Proof.
  intros Hu Hl. destruct l as [|text|lead key sep value trail]; [done|done|].
  rewrite read_item by done. split; [by apply blanks_space, Hl|done].
Qed.

Lemma read_conf_lines ls r : Forall line_ok ls -> Forall (λ c, is_space c = true) (unread r) ->
  configs (foldl read_line r (print_line <$> ls)) = foldl add_item (configs r) (items_of ls).
Proof.
  intros Hls. revert r. induction Hls as [|l ls Hl Hls IH]; intros r Hr; [done|].
  destruct (read_conf_line r l Hr Hl) as [Hr' E]. cbn [fmap list_fmap foldl]. rewrite IH by done. rewrite E.
  by destruct l.
Qed.

Lemma print_line_LF l : line_ok l -> LF ∉ print_line l.
Proof.
  destruct l as [|text|lead key sep value trail]; cbn [print_line].
  - intros _. apply not_elem_of_nil.
  - intros H. rewrite not_elem_of_cons. done.
  - intros (Hlead & Hkey & _ & Hsep & _ & Hvalue & Htrail). rewrite !not_elem_of_app.
    repeat split; by (apply blanks_LF + apply word_LF).
Qed.

Lemma read_lines_text ls : Forall line_ok ls ->
  read_lines (conf_text (print_line <$> ls)) = foldl add_item ∅ (items_of ls).
Proof.
  intros H. unfold read_lines. destruct ls as [|l ls]; [done|].
  rewrite lines_of_text; [by apply read_conf_lines|by apply Forall_fmap, (Forall_impl _ _ _ H), print_line_LF|done].
Qed.

(** ** A configuration written down and read back *)

Definition bool_text (b : bool) : list ascii := if b then bs "1" else bs "0".

(** The items that state a configuration, the ratio as the text [ratio]. *)
Definition settings (c : Config) (ratio : list ascii) : list (list ascii * list ascii) :=
  [(bs "ip", ip_ c); (bs "port", to_string (port_ c)); (bs "appendonly", bool_text (appendonly_enabled_ c));
   (bs "dumpfile", dumpfile_ c); (bs "dump-cachesize", to_string (dump_cachesize_ c));
   (bs "dump-flush-interval", to_string (dump_flush_interval_ c)); (bs "lkvdb-dumpfile", lkvdb_dumpfile_ c);
   (bs "lru-enable", bool_text (lru_enabled_ c)); (bs "lru-trigger-ratio", ratio);
   (bs "max-memory-limit", to_string (max_memory_limit_ c)); (bs "keepalive-interval", to_string (keepalive_interval_ c));
   (bs "keepalive-cnt", to_string (keepalive_cnt_ c))].

Lemma CanConvertToInt32_to_string z : in_i32 z -> CanConvertToInt32 (to_string z) = Some z.
Proof. intros Hz. by apply CanConvertToInt32_iff. Qed.

Lemma bool_text_read b : CanConvertToInt32 (bool_text b) = Some (if b then 1 else 0).
Proof. by destruct b. Qed.

Lemma clamp_ratio_id x : x = S754_nan \/ SFltb (S754_zero false) x && SFleb x (double_of_Z 1) = true -> clamp_ratio x = x.
Proof.
  intros [->|H]; [done|]. apply andb_true_iff in H as [H0 H1]. unfold clamp_ratio.
  change (double_of_Z 1) with (S754_finite false 4503599627370496 (-52)) in *.
  destruct x as [[]|[]| |[] m e]; try done.
  change (SFleb (S754_finite false m e) (S754_zero false)) with false. cbn [orb].
  unfold SFltb. rewrite (SFcompare_finite_opp m e). unfold SFleb in H1.
  by destruct (SFcompare (S754_finite false m e) _) as [[]|].
Qed.

(** Items that are assignments, applied in the order they are listed. *)
Definition assigns (i : list ascii * list ascii) (a : assignment) : Prop :=
  forall c, init_item i.1 i.2 c = Some (set_member a c).

Lemma Init_assigns l al c : Forall2 assigns l al -> Init l c = Some (foldl (λ c a, set_member a c) c al).
Proof.
  intros H. revert c. induction H as [|[k v] a l al Ha H IH]; intros c; cbn [Init]; [done|].
  specialize (Ha c). cbn [fst snd] in Ha. rewrite Ha. apply IH.
Qed.

Lemma int_item key (set : Z -> assignment) (f : Z -> Z) d z :
  (forall value c, init_item key value c = Some (set_member (set (f (default d (CanConvertToInt32 value)))) c)) ->
  in_i32 z -> f z = z -> assigns (key, to_string z) (set z).
Proof. intros H Hz Hf c. cbn [fst snd]. rewrite H, CanConvertToInt32_to_string by done. cbn. by rewrite Hf. Qed.

Lemma bool_item key (set : bool -> assignment) b :
  (forall value c, init_item key value c = Some (set_member (set (negb (default 0 (CanConvertToInt32 value) =? 0))) c)) ->
  assigns (key, bool_text b) (set b).
Proof. intros H c. cbn [fst snd]. rewrite H, bool_text_read. by destruct b. Qed.

Lemma Init_settings c0 c ratio : config_ok c -> max_memory_limit_ c <= INT64_MAX ->
  CanConvertToDouble ratio = Some (lru_trigger_ratio_ c) -> Init (settings c ratio) c0 = Some c.
Proof.
  intros [Hip Hport Hcs Hfl Hra Hmem Hki Hkc] Hmax Hr.
  rewrite (Init_assigns _ [SetIp (ip_ c); SetPort (port_ c); SetAppendonly (appendonly_enabled_ c); SetDumpfile (dumpfile_ c);
    SetCachesize (dump_cachesize_ c); SetFlushInterval (dump_flush_interval_ c); SetLkvdb (lkvdb_dumpfile_ c);
    SetLru (lru_enabled_ c); SetRatio (lru_trigger_ratio_ c); SetMemory (max_memory_limit_ c);
    SetInterval (keepalive_interval_ c); SetCnt (keepalive_cnt_ c)]); [by destruct c0, c|].
  unfold settings. repeat apply List.Forall2_cons; try apply List.Forall2_nil.
  - intros c'. change (init_item _ _ _) with (if ValidateIpv4 (ip_ c) then Some (set_member (SetIp (ip_ c)) c') else Some c'). by rewrite Hip.
  - by apply (int_item _ SetPort id CONFIG_DEFAULT_PORT).
  - by apply bool_item.
  - done.
  - by apply (int_item _ SetCachesize id CONFIG_DEFAULT_DUMP_CACHESIZE).
  - intros c'. cbn [fst snd]. change (init_item _ ?v _) with
      (Some (set_member (SetFlushInterval (default CONFIG_DEFAULT_DUMP_FLUSH_INTERVAL (CanConvertToUInt64 v))) c')).
    by rewrite CanConvertToUInt64_to_string.
  - done.
  - by apply bool_item.
  - intros c'. cbn [fst snd]. change (init_item _ ?v _) with
      (Some (set_member (SetRatio (clamp_ratio (default CONFIG_DEFAULT_LRU_TRIGGER_RATIO (CanConvertToDouble v)))) c')).
    rewrite Hr. cbn. by rewrite clamp_ratio_id.
  - intros c'. cbn [fst snd]. change (init_item _ ?v _) with
      (match stoll v with inr num => Some (set_member (SetMemory (u64 num)) c') | inl _ => None end).
    unfold in_u64 in Hmem. rewrite stoll_to_string by (unfold in_i64, INT64_MIN; lia). by rewrite u64_small by done.
  - apply (int_item _ SetInterval (λ i, if (i <? 30) || (i >? 100) then CONFIG_DEFAULT_KEEPALIVE_INTERVAL else i)
      CONFIG_DEFAULT_KEEPALIVE_INTERVAL); [done|unfold in_i32, INT32_MIN, INT32_MAX; lia|].
    cbn beta. destruct (_ || _) eqn:E; [|done]. bools. lia.
  - apply (int_item _ SetCnt (λ i, if (i <? 1) || (i >? 15) then CONFIG_DEFAULT_KEEPALIVE_CNT else i)
      CONFIG_DEFAULT_KEEPALIVE_CNT); [done|unfold in_i32, INT32_MIN, INT32_MAX; lia|].
    cbn beta. destruct (_ || _) eqn:E; [|done]. bools. lia.
Qed.

Lemma add_items_list_to_map (l : list (list ascii * list ascii)) :
  NoDup l.*1 -> map_to_list (foldl add_item ∅ l) ≡ₚ l.
Proof.
  intros H. assert (foldl add_item ∅ l = list_to_map (reverse l)) as ->.
  { rewrite <- (reverse_involutive l) at 1. generalize (reverse l). clear. intros l.
    induction l as [|[k v] l IH]; [done|]. rewrite reverse_cons, foldl_snoc, IH. done. }
  rewrite map_to_list_to_map; [apply reverse_Permutation|]. by rewrite fmap_reverse, reverse_Permutation.
Qed.

(** C21. A configuration written to a file in the documented syntax, one [key value]
    line for each item, in any order, with comments, empty lines and blanks between them,
    is the configuration that is loaded, provided that the file names are lower-case
    (the reader lowers the values). *)
Theorem Config_roundtrip (c : Config) (ratio : list ascii) (ls : list conf_line) :
  config_ok c -> max_memory_limit_ c <= INT64_MAX -> CanConvertToDouble ratio = Some (lru_trigger_ratio_ c) ->
  Forall line_ok ls -> items_of ls ≡ₚ settings c ratio ->
  Config_new (Some (conf_text (print_line <$> ls))) = Some c.
Proof.
  intros Hc Hmax Hr Hls Hp. cbn [Config_new]. rewrite read_lines_text by done.
  assert (NoDup (settings c ratio).*1) as Hnd by (by apply (bool_decide_unpack _)).
  assert (NoDup (items_of ls).*1) as Hnd' by (by rewrite Hp).
  pose proof (add_items_list_to_map _ Hnd') as Hp'.
  rewrite (Init_permuted _ (settings c ratio)); [by apply Init_settings|by rewrite Hp'|].
  by rewrite Hp', Hp.
Qed.

(** ** Lines that are not [key value] *)

Lemma extract_last s w : Forall (λ c, is_space c = true) s -> word w -> extract (s ++ w) = Some (w, [], true).
Proof. intros Hs Hw. rewrite <- (app_nil_r w) at 1. by rewrite extract_word. Qed.

Lemma word_app v w : word v -> word w -> word (v ++ w).
Proof. intros [Hv1 Hv] [Hw1 Hw]. split; [by destruct v|by apply Forall_app]. Qed.

(** A word. *)
Lemma read_word_line r w : Forall (λ c, is_space c = true) (unread r) -> word w -> head w <> Some "#"%char ->
  second r <> [] -> read_line r w = mkReader (lower <$> w) (lower <$> second r) [] (add_item (configs r) (lower <$> w, lower <$> second r)).
Proof.
  intros Hu Hw Hh Hs. unfold read_line. rewrite decide_False by apply Hw. rewrite decide_False by done. unfold parse_line.
  rewrite extract_last by done. cbn [negb]. rewrite decide_False by apply Hw. by rewrite decide_False.
Qed.

(** Three words, then two. *)
Lemma read_three_then_two r k1 v1 x k2 v2 : Forall (λ c, is_space c = true) (unread r) ->
  word k1 -> head k1 <> Some "#"%char -> word v1 -> word x -> word k2 -> head k2 <> Some "#"%char -> word v2 ->
  configs (read_line (read_line r (k1 ++ bs " " ++ v1 ++ bs " " ++ x)) (k2 ++ bs " " ++ v2)) =
    add_item (add_item (configs r) (lower <$> k1, lower <$> v1)) (lower <$> (x ++ k2), lower <$> v2).
Proof.
  intros Hu Hk1 Hh1 Hv1 Hx Hk2 Hh2 Hv2.
  assert (Forall (λ c, is_space c = true) (bs " ")) as Hsp by (by apply (bool_decide_unpack _)).
  assert (forall w t, word w -> w ++ t <> []) as Hne by (intros [|c w] t [H _]; done).
  assert (forall w t, word w -> head w <> Some "#"%char -> head (w ++ t) <> Some "#"%char) as Hhead by (intros [|c w] t [H _]; done).
  unfold read_line at 2. rewrite decide_False by by apply Hne. rewrite decide_False by by apply Hhead.
  unfold parse_line at 1. rewrite extract_word by done. cbn [bool_decide negb].
  rewrite bool_decide_eq_false_2 by (by destruct v1). cbn [negb]. rewrite decide_False by apply Hk1.
  rewrite extract_word by done. rewrite decide_False by apply Hv1.
  unfold read_line. rewrite decide_False by by apply Hne. rewrite decide_False by by apply Hhead.
  unfold parse_line. cbn [unread]. rewrite <- app_assoc, (app_assoc x).
  rewrite extract_word by (try done; by apply word_app). rewrite bool_decide_eq_false_2 by (by destruct v2). cbn [negb].
  rewrite decide_False by by apply word_app. rewrite extract_last by done. by rewrite decide_False by apply Hv2.
Qed.

(** A line that is not a key and a value spoils another item. What follows the second
    word is not discarded: it is glued to the first word of the next line, whose item is
    recorded under that name (the first part). A word alone on its line is recorded with
    the value of the line before (the second part). *)
Lemma Config_bad_lines (r : reader) (k1 v1 x k2 v2 : list ascii) :
  Forall (λ c, is_space c = true) (unread r) -> word k1 -> head k1 <> Some "#"%char -> word v1 -> word x ->
  word k2 -> head k2 <> Some "#"%char -> word v2 ->
  configs (read_line (read_line r (k1 ++ bs " " ++ v1 ++ bs " " ++ x)) (k2 ++ bs " " ++ v2)) =
    add_item (add_item (configs r) (lower <$> k1, lower <$> v1)) (lower <$> (x ++ k2), lower <$> v2) /\
  configs (read_line (read_line r (print_line (CItem [] k1 (bs " ") v1 []))) k2) =
    add_item (add_item (configs r) (lower <$> k1, lower <$> v1)) (lower <$> k2, lower <$> (lower <$> v1)).
Proof.
  intros Hu Hk1 Hh1 Hv1 Hx Hk2 Hh2 Hv2. split; [by apply read_three_then_two|].
  assert (bs " " <> [] /\ blanks (bs " ")) as [Hb1 Hb2] by (by apply (bool_decide_unpack _)).
  rewrite read_item by (repeat (done || split); by constructor || apply Hk1 || apply Hv1).
  rewrite read_word_line; [done|done|done|done|]. cbn [second]. destruct Hv1 as [Hv1 _]. by destruct v1.
Qed.

(** ** Witnesses *)

(** The file conf/litekv.conf, without its comments. *)
Definition litekv_conf : list conf_line :=
  let item k v := CItem [] (bs k) (bs "   ") (bs v) [] in
  [CComment (bs " *LiteKV config file*"); CBlank; item "ip" "127.0.0.1"; item "port" "9527"; CBlank; item "appendonly" "0";
   item "dumpfile" "dump.aof"; item "dump-cachesize" "1024"; item "dump-flush-interval" "90"; item "lkvdb-dumpfile" "dump.lkvdb";
   item "lru-enable" "0"; item "lru-trigger-ratio" "1.0"; item "max-memory-limit" "10240MB"; item "keepalive-interval" "100";
   item "keepalive-cnt" "3"].

Definition litekv_config : Config :=
  mkConfig (bs "127.0.0.1") 9527 false (bs "dump.aof") 1024 90 (bs "dump.lkvdb") false (double_of_Z 1) 10240 100 3.

Example litekv_conf_loads : Config_new (Some (conf_text (print_line <$> litekv_conf))) = Some litekv_config.
Proof. vm_compute. reflexivity. Qed.

(** [max-memory-limit] is given to [std::stoll], whose exception ends the program. *)
Example memory_throws : Config_new (Some (bs "max-memory-limit lots")) = None.
Proof. vm_compute. reflexivity. Qed.

(** A ratio that is not a number, a negative limit and an address of five parts are accepted. *)
Example odd_items :
  (lru_trigger_ratio_ <$> Config_new (Some (bs "lru-trigger-ratio nan"))) = Some S754_nan /\
  (max_memory_limit_ <$> Config_new (Some (bs "max-memory-limit -1"))) = Some UINT64_MAX /\
  (ip_ <$> Config_new (Some (bs "ip 10.0.0.1.x"))) = Some (bs "10.0.0.1.x") /\
  (dumpfile_ <$> Config_new (Some (bs "dumpfile /Data/Dump.aof"))) = Some (bs "/data/dump.aof").
Proof. vm_compute. repeat split. Qed.

Lemma Init_order_irrelevant_witness :
  Init [(bs "port", bs "1"); (bs "ip", bs "1.2.3.4")] Config_default = Init [(bs "ip", bs "1.2.3.4"); (bs "port", bs "1")] Config_default.
Proof.
  apply Init_order_irrelevant; [apply Permutation_swap|].
  apply (bool_decide_unpack _). vm_compute. exact I.
Defined.

Lemma Config_wellformed_witness : config_ok litekv_config.
Proof. apply (Config_wellformed (Some (conf_text (print_line <$> litekv_conf)))). vm_compute. reflexivity. Defined.

Definition short_config : Config :=
  mkConfig (bs "10.1.2.3") 6379 true (bs "a.aof") 16 5 (bs "b") true (S754_finite false 4503599627370496 (-53)) 512 60 5.

Definition short_lines : list conf_line :=
  (λ i, CItem (bs " ") i.1 (bs " ") i.2 []) <$> reverse (settings short_config (bs "0.5")).

Lemma Config_roundtrip_witness : Config_new (Some (conf_text (print_line <$> short_lines))) = Some short_config.
Proof.
  apply (Config_roundtrip short_config (bs "0.5") short_lines).
  - constructor; first [reflexivity|right; reflexivity|by (split; vm_compute)].
  - by vm_compute.
  - by vm_compute.
  - refine (bool_decide_unpack _ _). vm_compute. exact I.
  - assert (items_of short_lines = reverse (settings short_config (bs "0.5"))) as -> by (vm_compute; reflexivity).
    apply reverse_Permutation.
Defined.

Lemma Config_bad_lines_witness :
  configs (read_line (read_line (mkReader [] [] [] ∅) (bs "port 80 tcp")) (bs "ip 1.2.3.4")) =
    add_item (add_item ∅ (bs "port", bs "80")) (bs "tcpip", bs "1.2.3.4").
Proof.
  refine (proj1 (Config_bad_lines (mkReader [] [] [] ∅) (bs "port") (bs "80") (bs "tcp") (bs "ip") (bs "1.2.3.4") _ _ _ _ _ _ _ _));
    first [refine (bool_decide_unpack _ _); vm_compute; exact I|split; refine (bool_decide_unpack _ _); vm_compute; exact I].
Defined.
