(* ===== verification/Platform.v ===== *)
(** * Platform: addresses, memory usage and the clock (src/net/addr.h, addr.cpp,
    net/utils.h, mem.h, net/time_event.h)

    Byte orders and the address a server listens on; the texts of /proc that say how
    much memory is used. [inet_pton] and [inet_ntop] are parameters. *)

From S2P Require Import Prelude Numerals Doubles.
From stdpp Require Import list.
From S2P Require Import Config ConfigFacts.

Local Open Scope Z_scope.

(** ** Byte orders *)

(** The bytes of an [n]-byte word reversed. *)
Fixpoint swap_bytes (n : nat) (z : Z) : Z :=
  match n with
  | O => 0
  | S n => Z.lor (Z.shiftl (Z.land z 255) (8 * Z.of_nat n)) (swap_bytes n (Z.shiftr z 8))
  end.

(** [htobe16] and the like on a little-endian host. *)
Definition HostToNet16 (host16 : Z) : Z := swap_bytes 2 host16.
Definition HostToNet32 (host32 : Z) : Z := swap_bytes 4 host32.
Definition HostToNet64 (host : Z) : Z := swap_bytes 8 host.
Definition NetToHost16 (net16 : Z) : Z := swap_bytes 2 net16.
Definition NetToHost32 (net32 : Z) : Z := swap_bytes 4 net32.

(** The result is a [uint32_t]. *)
Definition NetToHost64 (net64 : Z) : Z := swap_bytes 8 net64 mod 2 ^ 32.

(** The bits of the reversed word: bit [i] is in byte [i / 8], which was byte
    [n - 1 - i / 8]. *)
Lemma swap_bytes_bits n : forall z i, 0 <= i ->
  Z.testbit (swap_bytes n z) i =
    (i <? 8 * Z.of_nat n) && Z.testbit z (8 * (Z.of_nat n - 1 - i / 8) + i mod 8).
Proof.
  induction n as [|n IH]; intros z i Hi; cbn [swap_bytes].
  { rewrite Z.bits_0. by destruct (Z.ltb_spec i (8 * Z.of_nat 0)); [lia|]. }
  rewrite Z.lor_spec, Z.shiftl_spec by done. rewrite IH by done.
  pose proof (Z.div_mod i 8 ltac:(lia)) as Hdm. pose proof (Z.mod_pos_bound i 8 ltac:(lia)) as Hm.
  change 255 with (Z.ones 8). destruct (Z.ltb_spec i (8 * Z.of_nat n)) as [H1|H1]; cbn [andb].
  - rewrite (Z.testbit_neg_r _ (i - _)) by lia. rewrite Z.shiftr_spec by lia. cbn [orb].
    destruct (Z.ltb_spec i (8 * Z.of_nat (S n))); [|lia]. cbn [andb]. f_equal. lia.
  - rewrite orb_false_r. rewrite Z.land_spec, Z.testbit_ones_nonneg by lia.
    destruct (Z.ltb_spec i (8 * Z.of_nat (S n))) as [H2|H2]; cbn [andb].
    + assert (i / 8 = Z.of_nat n) as Hq by lia. destruct (Z.ltb_spec (i - 8 * Z.of_nat n) 8); [|lia].
      rewrite andb_true_r. f_equal. lia.
    + destruct (Z.ltb_spec (i - 8 * Z.of_nat n) 8); [lia|]. by rewrite andb_false_r.
Qed.

(** The conversion is its own inverse. *)
Lemma swap_bytes_involutive n z : 0 <= z < 2 ^ (8 * Z.of_nat n) -> swap_bytes n (swap_bytes n z) = z.
Proof.
  intros Hz. apply Z.bits_inj'. intros i Hi. rewrite swap_bytes_bits by done.
  pose proof (Z.div_mod i 8 ltac:(lia)) as Hdm. pose proof (Z.mod_pos_bound i 8 ltac:(lia)) as Hm.
  destruct (Z.ltb_spec i (8 * Z.of_nat n)) as [H1|H1]; cbn [andb].
  - set (j := 8 * (Z.of_nat n - 1 - i / 8) + i mod 8).
    assert (j / 8 = Z.of_nat n - 1 - i / 8) as Hq by (unfold j; rewrite Z.mul_comm, Z.div_add_l by lia; rewrite (Z.div_small (i mod 8)); lia).
    assert (j mod 8 = i mod 8) as Hr by (unfold j; rewrite Z.add_comm, Z.mul_comm, Z.mod_add by lia; apply Z.mod_mod; lia).
    assert (0 <= j < 8 * Z.of_nat n) as Hj by (unfold j; lia).
    rewrite swap_bytes_bits by lia. rewrite Hq, Hr. destruct (Z.ltb_spec j (8 * Z.of_nat n)); [|lia]. cbn [andb]. f_equal. lia.
  - symmetry. destruct (Z.eq_dec z 0) as [->|]; [apply Z.bits_0|]. apply Z.bits_above_log2; [lia|].
    apply Z.log2_lt_pow2; [lia|]. eapply Z.lt_le_trans; [apply Hz|]. apply Z.pow_le_mono_r; lia.
Qed.

Example NetToHost64_truncates : NetToHost64 (HostToNet64 (2 ^ 32 + 1)) = 1.
Proof. by vm_compute. Qed.

(** ** Addresses *)

Section Ipv4Addr.

(** The address a text denotes, and the text of an address. *)
Variable inet_pton : list ascii -> option Z.
Variable inet_ntop : Z -> list ascii.

Record Ipv4Addr := mkAddr {
  addr_str_ : list ascii;
  addr_port_ : Z;       (* uint16_t port_ *)
  sin_port : Z;
  sin_addr : Z
}.

Definition InitAddrStr (a : Ipv4Addr) : Ipv4Addr := mkAddr (inet_ntop (sin_addr a)) (addr_port_ a) (sin_port a) (sin_addr a).

(** [Ipv4Addr(ip, port)]: the result of [inet_pton] is not looked at, and the address is
    not initialised if it fails. *)
Definition Ipv4Addr_new (ip : list ascii) (port : Z) : option Ipv4Addr :=
  sin_addr ← inet_pton (c_str ip);
  Some (InitAddrStr (mkAddr ip port (HostToNet16 port) sin_addr)).

Definition SyncPort (a : Ipv4Addr) : Ipv4Addr :=
  InitAddrStr (mkAddr (addr_str_ a) (NetToHost16 (sin_port a)) (sin_port a) (sin_addr a)).

Definition addr_ToString (a : Ipv4Addr) : list ascii := addr_str_ a ++ bs ":" ++ to_string (addr_port_ a).

(** [inet_ntop] writes an address that [inet_pton] reads. *)
Hypothesis pton_ntop : forall n, inet_pton (inet_ntop n) = Some n.

(** The port survives the conversion to the network's order. *)
Lemma SyncPort_same ip port a : 0 <= port < 2 ^ 16 -> Ipv4Addr_new ip port = Some a -> SyncPort a = a.
Proof.
  intros Hp. unfold Ipv4Addr_new. destruct (inet_pton _) as [n|]; [|done]. intros [= <-].
  unfold SyncPort, InitAddrStr, NetToHost16, HostToNet16. cbn [addr_str_ addr_port_ sin_port sin_addr].
  by rewrite swap_bytes_involutive.
Qed.

(** The text of an address gives the address again. *)
Lemma addr_again ip port a : NUL ∉ addr_str_ a -> Ipv4Addr_new ip port = Some a -> Ipv4Addr_new (addr_str_ a) port = Some a.
Proof.
  unfold Ipv4Addr_new. intros Hn H. rewrite c_str_no_nul by done. revert H.
  destruct (inet_pton (c_str ip)) as [n|]; [|done]. intros [= <-]. cbn. by rewrite pton_ntop.
Qed.

End Ipv4Addr.

(** ** The clock *)

(** What [gettimeofday] stores: seconds, and microseconds below a million. *)
Record timeval := mkTimeval { tv_sec : Z; tv_usec : Z }.

Definition GetCurrentSec (tv : timeval) : Z := u64 (tv_sec tv).
Definition GetCurrentMs (tv : timeval) : Z := u64 (u64 (tv_sec tv) * 1000 + u64 (tv_usec tv / 1000)).

(** The first product is a [long]: undefined on overflow. *)
Definition GetCurrentUs (tv : timeval) : option Z :=
  ms ← chk64 (tv_sec tv * 1000);
  Some (u64 (u64 ms * 1000 + u64 (tv_usec tv))).

Definition GetCurrentTime (tv : timeval) : Z * Z := (tv_sec tv, tv_usec tv / 1000).

Definition AddSecondToNowSec (tv : timeval) (seconds : Z) : Z := u64 (GetCurrentSec tv + seconds).
Definition AddSecondToNowMillSec (tv : timeval) (seconds : Z) : Z := u64 (GetCurrentMs tv + u64 (seconds * 1000)).

(** A reading of a clock that is set to a time after 1970 and within 292 million years. *)
Definition timeval_ok (tv : timeval) : Prop := 0 <= tv_sec tv < 2 ^ 63 / 1000000 /\ 0 <= tv_usec tv < 1000000.

Lemma clock_bounds tv : timeval_ok tv ->
  0 <= tv_sec tv * 1000000 + tv_usec tv < 2 ^ 63 /\ 0 <= tv_usec tv / 1000 < 1000.
Proof.
  intros [Hs Hu]. split; [change (2 ^ 63 / 1000000) with 9223372036854 in Hs; lia|].
  split; [apply Z.div_pos; lia|apply Z.div_lt_upper_bound; lia].
Qed.

(** The three units agree. *)
Lemma clock_units tv : timeval_ok tv ->
  exists us, GetCurrentUs tv = Some us /\ us = tv_sec tv * 1000000 + tv_usec tv /\
    GetCurrentMs tv = us / 1000 /\ GetCurrentSec tv = us / 1000000 /\
    GetCurrentTime tv = (GetCurrentSec tv, GetCurrentMs tv - GetCurrentSec tv * 1000).
Proof.
  intros H. destruct (clock_bounds tv H) as [Hb Hm]. destruct H as [Hs Hu]. change (2 ^ 63 / 1000000) with 9223372036854 in Hs.
  assert (forall z, 0 <= z < 2 ^ 63 -> u64 z = z) as Hsmall by (intros z Hz; apply u64_small; unfold in_u64, UINT64_MAX; lia).
  unfold GetCurrentUs, GetCurrentMs, GetCurrentSec, GetCurrentTime.
  rewrite chk64_some by (unfold in_i64, INT64_MIN, INT64_MAX; lia).
  cbn [mbind option_bind].
  rewrite (Hsmall (tv_sec tv)), (Hsmall (tv_usec tv)), (Hsmall (tv_usec tv / 1000)), (Hsmall (tv_sec tv * 1000)) by lia.
  rewrite !Hsmall by lia. eexists. split; [reflexivity|]. split; [lia|].
  replace (tv_sec tv * 1000 * 1000 + tv_usec tv) with (tv_usec tv + tv_sec tv * 1000 * 1000) by lia.
  rewrite Z.div_add by lia. split; [lia|]. replace (tv_sec tv * 1000 * 1000) with (tv_sec tv * 1000000) by lia.
  rewrite Z.div_add by lia. rewrite (Z.div_small (tv_usec tv) 1000000) by lia. split; [lia|]. f_equal; lia.
Qed.

(** Later readings are not smaller. *)
Lemma GetCurrentMs_mono tv tv' : timeval_ok tv -> timeval_ok tv' ->
  tv_sec tv * 1000000 + tv_usec tv <= tv_sec tv' * 1000000 + tv_usec tv' -> GetCurrentMs tv <= GetCurrentMs tv'.
Proof.
  intros H H' Hle. destruct (clock_units tv H) as (us & _ & -> & -> & _), (clock_units tv' H') as (us' & _ & -> & -> & _).
  apply Z.div_le_mono; lia.
Qed.

(** ** Memory *)

(** [std::string::find] and [substr]. *)
Definition npos : Z := UINT64_MAX.

Fixpoint find_from (i : Z) (s needle : list ascii) : Z :=
  if decide (take (length needle) s = needle) then i
  else match s with [] => npos | _ :: s => find_from (i + 1) s needle end.

Definition find (s needle : list ascii) : Z := find_from 0 s needle.

Definition substr (s : list ascii) (pos : Z) : exn + list ascii :=
  if pos >? Z.of_nat (length s) then inl out_of_range else inr (drop (Z.to_nat pos) s).

(** [std::stol(s.substr(s.find(label) + n))], made a [size_t]. *)
Definition labelled (s label : list ascii) (n : Z) : exn + Z :=
  match substr s (u64 (find s label + n)) with
  | inl e => inl e
  | inr rest => match stoll rest with inr v => inr (u64 v) | inl e => inl e end
  end.

(** [CatSelfMemInfo] on the text of /proc/self/status, if it can be read: the sizes in
    kB, and what it returns. *)
Definition CatSelfMemInfo (status : option (list ascii)) (vmsize rss : Z) : exn + (bool * Z * Z) :=
  match status with
  | None => inr (false, vmsize, rss)
  | Some s =>
      match labelled s (bs "VmSize:") 7 with
      | inl e => inl e
      | inr vmsize =>
          match labelled s (bs "VmRSS:") 6 with
          | inl e => inl e
          | inr rss => inr (true, vmsize, rss)
          end
      end
  end.

Lemma find_from_spec needle s2 s1 : forall i,
  (forall k, (k < length s1)%nat -> take (length needle) (drop k (s1 ++ needle ++ s2)) <> needle) ->
  find_from i (s1 ++ needle ++ s2) needle = i + Z.of_nat (length s1).
Proof.
  induction s1 as [|c s1 IH]; intros i H; cbn [app length].
  - rewrite Z.add_0_r. destruct (needle ++ s2) eqn:E; cbn [find_from]; rewrite decide_True; try done; by rewrite <- E, take_app_length.
  - cbn [find_from]. rewrite decide_False by apply (H O (Nat.lt_0_succ _)).
    rewrite IH; [lia|]. intros k Hk. apply (H (S k)). cbn [length]. lia.
Qed.

Lemma c_str_app s t : NUL ∉ s -> c_str (s ++ t) = s ++ c_str t.
Proof.
  induction s as [|c s IH]; intros H; [done|]. rewrite not_elem_of_cons in H. cbn [app c_str].
  destruct (Ascii.eqb_spec c NUL) as [->|_]; [tauto|]. by rewrite IH by apply H.
Qed.

(** Blanks before a number are skipped. *)
Lemma scan_number_blank blank t : Forall (λ c, is_space c = true) blank ->
  match t with c :: _ => is_space c = false | [] => True end ->
  scan_number (blank ++ t) = {| sc_neg := sc_neg (scan_number t); sc_digits := sc_digits (scan_number t);
                                sc_end := (length blank + sc_end (scan_number t))%nat |}.
Proof.
  intros Hb Ht. unfold scan_number. rewrite count_while_all, drop_app_length by done.
  assert (count_while is_space t = O) as -> by (destruct t as [|c t]; cbn; [done|by rewrite Ht]). rewrite drop_0.
  destruct (match t with "-"%char :: _ => _ | "+"%char :: _ => _ | _ => _ end) as [neg sg]. cbn. f_equal. lia.
Qed.

Lemma stoll_blank blank v t : Forall (λ c, is_space c = true) blank -> in_i64 v -> 0 <= v ->
  stoll (blank ++ to_string v ++ LF :: t) = inr v.
Proof.
  intros Hb Hv Hpos. unfold stoll. rewrite c_str_app.
  2: { intros Hin. rewrite Forall_forall in Hb. apply Hb in Hin. done. }
  rewrite c_str_app by (apply to_string_no_nul; auto). change (c_str (LF :: t)) with (LF :: c_str t).
  destruct (to_string_digits v (or_introl Hv)) as (ds & Hne & Hds & Hval & _ & E).
  destruct (Z.ltb_spec v 0); [lia|]. rewrite E.
  unfold strtoll. rewrite scan_number_blank; [|done|].
  2: { destruct ds as [|d ds]; [done|]. inversion Hds. by apply is_digit_not_space. }
  rewrite scan_digits_only by done. cbn [sc_neg sc_digits sc_end]. rewrite decide_False by done. rewrite Hval, Z.abs_eq by done.
  destruct Hv as [H1 H2]. destruct (Z.gtb_spec v INT64_MAX); [lia|]. destruct (Z.ltb_spec v INT64_MIN); [lia|].
  rewrite decide_False; [done|]. destruct ds; [done|cbn [length]; lia].
Qed.

(** The number behind the label's first occurrence. *)
Lemma labelled_reads s1 label blank v s2 :
  (forall k, (k < length s1)%nat -> take (length label) (drop k (s1 ++ label ++ blank ++ to_string v ++ LF :: s2)) <> label) ->
  Forall (λ c, is_space c = true) blank -> 0 <= v <= INT64_MAX -> Z.of_nat (length (s1 ++ label)) <= INT64_MAX ->
  labelled (s1 ++ label ++ blank ++ to_string v ++ LF :: s2) label (Z.of_nat (length label)) = inr v.
Proof.
  intros Hfirst Hb Hv Hlen. unfold labelled, find. rewrite find_from_spec by done.
  assert (u64 (0 + Z.of_nat (length s1) + Z.of_nat (length label)) = Z.of_nat (length (s1 ++ label))) as ->.
  { rewrite length_app in *. rewrite u64_small; [lia|]. unfold in_u64, INT64_MAX, UINT64_MAX in *. lia. }
  unfold substr. rewrite app_assoc.
  destruct (Z.gtb_spec (Z.of_nat (length (s1 ++ label))) (Z.of_nat (length ((s1 ++ label) ++ blank ++ to_string v ++ LF :: s2)))) as [H|H].
  { rewrite length_app in H. lia. }
  rewrite Nat2Z.id, drop_app_length. rewrite stoll_blank; [|done|unfold in_i64, INT64_MIN; lia|lia].
  rewrite u64_small; [done|]. unfold in_u64, INT64_MAX, UINT64_MAX in *. lia.
Qed.

Definition status_text : list ascii :=
  bs "Name:" ++ LF :: bs "VmSize:    5280 kB" ++ LF :: bs "VmRSS:     1736 kB" ++ [LF].

(** A text without the label is read from its sixth byte on. *)
Example status_read :
  CatSelfMemInfo (Some status_text) 0 0 = inr (true, 5280, 1736) /\
  CatSelfMemInfo (Some (bs "none")) 0 0 = inl out_of_range /\
  CatSelfMemInfo (Some (bs "Status")) 0 0 = inl invalid_argument /\
  CatSelfMemInfo None 1 2 = inr (false, 1, 2).
Proof. vm_compute. repeat split. Qed.
