(* ===== verification/Memory.v ===== *)
(** * Memory: the memory reports (src/mem.h)

    [CatMemInfo] reads /proc/meminfo through a stream, [ProcessVmSizeAsString] prints what
    [CatSelfMemInfo] (Platform) says of the process. Nothing in the program calls the two yet. *)

From S2P Require Import Prelude Numerals Doubles.
From S2P Require Import Config ConfigFacts Platform.
From stdpp Require Import list.
From Stdlib Require Import SpecFloat.

Local Open Scope Z_scope.

(** ** Extraction from a stream *)

(** What is unread, and whether [good()]. *)
Record istream := mkIs { is_rest : list ascii; is_good : bool }.

(** [is >> tmp]. *)
Definition read_word (tmp : list ascii) (s : istream) : list ascii * istream :=
  if is_good s then
    match extract (is_rest s) with
    | Some (w, rest, eof) => (w, mkIs rest (negb eof))
    | None => (tmp, mkIs [] false)
    end
  else (tmp, s).

(** [is >> v] for a [size_t]: blanks, a sign, digits. Without digits the value is 0, and a
    number that is too large gives the largest one; both fail. *)
Definition read_size (v : Z) (s : istream) : Z * istream :=
  if is_good s then
    let sc := scan_number (is_rest s) in
    let rest := drop (sc_end sc) (is_rest s) in
    let n := digits_value (sc_digits sc) in
    if decide (count_while is_space (is_rest s) = length (is_rest s)) then (v, mkIs [] false)
    else if decide (sc_digits sc = []) then (0, mkIs rest false)
    else if n >? UINT64_MAX then (UINT64_MAX, mkIs rest false)
    else (u64 (if sc_neg sc then - n else n), mkIs rest (negb (bool_decide (rest = []))))
  else (v, s).

(** [CatMemInfo] on the text of /proc/meminfo, if it can be read: what it returns, and the
    three numbers. The variables keep their values where the extraction does not start. *)
Definition CatMemInfo (meminfo : option (list ascii)) (mem_total mem_free mem_avail : Z) : bool * Z * Z * Z :=
  match meminfo with
  | None => (false, mem_total, mem_free, mem_avail)
  | Some text =>
      let '(tmp, s) := read_word [] (mkIs text true) in
      let '(mem_total, s) := read_size mem_total s in
      let '(tmp, s) := read_word tmp s in
      let '(tmp, s) := read_word tmp s in
      let '(mem_free, s) := read_size mem_free s in
      let '(tmp, s) := read_word tmp s in
      let '(tmp, s) := read_word tmp s in
      let '(mem_avail, s) := read_size mem_avail s in
      (true, mem_total, mem_free, mem_avail)
  end.

(** ** Printing a double

    [ss << x]: like [%g], six significant digits, rounded to nearest, ties to even. *)

Definition round_half_even (n d : Z) : Z :=
  let q := n / d in
  let r := n mod d in
  if (2 * r <? d) || ((2 * r =? d) && Z.even q) then q else q + 1.

(** [10 ^ x * d <= n]. *)
Definition pow10_le (x n d : Z) : bool :=
  if x >=? 0 then 10 ^ x * d <=? n else d <=? n * 10 ^ (- x).

Fixpoint exponent10 (fuel : nat) (x n d : Z) : Z :=
  match fuel with
  | O => x
  | S fuel => if pow10_le x n d then x else exponent10 fuel (x - 1) n d
  end.

(** The six digits as a number, and the exponent of the first, for [n / d > 0]. *)
Definition six_digits (n d : Z) : Z * Z :=
  let x := exponent10 640 309 n d in
  let D := if x <=? 5 then round_half_even (n * 10 ^ (5 - x)) d else round_half_even n (d * 10 ^ (x - 5)) in
  if D =? 1000000 then (100000, x + 1) else (D, x).

Definition strip_tail (ds : list ascii) : list ascii := rev (strip_zeros (rev ds)).

Definition pointed (ip fp : list ascii) : list ascii :=
  match strip_tail fp with [] => ip | fp => ip ++ bs "." ++ fp end.

Definition print_ratio (n d : Z) : list ascii :=
  let '(D, x) := six_digits n d in
  let ds := to_string D in
  if (x <? -4) || (x >=? 6) then
    let e := to_string (Z.abs x) in
    pointed (take 1 ds) (drop 1 ds) ++ bs "e" ++ (if x <? 0 then bs "-" else bs "+") ++
      (if decide (length e = 1%nat) then bs "0" else []) ++ e
  else if x <? 0 then bs "0." ++ replicate (Z.to_nat (- x - 1)) "0"%char ++ strip_tail ds
  else pointed (take (Z.to_nat (x + 1)) ds) (drop (Z.to_nat (x + 1)) ds).

Definition print_double (x : double) : list ascii :=
  let sign (s : bool) := if s then bs "-" else [] in
  match x with
  | S754_zero s => sign s ++ bs "0"
  | S754_infinity s => sign s ++ bs "inf"
  | S754_nan => bs "nan"
  | S754_finite s m e => sign s ++ print_ratio (Z.shiftl (Zpos m) (Z.max e 0)) (2 ^ Z.max (- e) 0)
  end.

(** [static_cast<double>(kB) / 1024.0]. *)
Definition in_mb (kb : Z) : double := SFdiv double_prec double_emax (double_of_Z kb) (double_of_Z 1024).

Definition ProcessVmSizeAsString (status : option (list ascii)) : exn + list ascii :=
  match CatSelfMemInfo status 0 0 with
  | inl e => inl e
  | inr (_, vmsize, vmrss) =>
      inr (bs "Virtual memory: " ++ print_double (in_mb vmsize) ++ bs " MB, RSS memory: " ++
           print_double (in_mb vmrss) ++ bs " MB")
  end.

(** [Engine::UpdateMemInfo], the thread that samples the memory in use, until it is stopped:
    the texts it reads, and [cur_vm_size_] and [cur_rss_size_] after each; an exception ends
    the process. *)
Fixpoint UpdateMemInfo (readings : list (option (list ascii))) (vm rss : Z) : exn + list (Z * Z) :=
  match readings with
  | [] => inr []
  | status :: readings =>
      match CatSelfMemInfo status vm rss with
      | inl e => inl e
      | inr (_, vm, rss) =>
          match UpdateMemInfo readings vm rss with inl e => inl e | inr sizes => inr ((vm, rss) :: sizes) end
      end
  end.

(** ** What they report *)

Example doubles_printed :
  print_double (in_mb 2048) = bs "2" /\ print_double (in_mb 5280) = bs "5.15625" /\ print_double (in_mb 1) = bs "0.000976562" /\
  print_double (in_mb 1736) = bs "1.69531" /\ print_double (in_mb 1024000000) = bs "1e+06" /\
  print_double (in_mb 1023999999) = bs "1e+06" /\ print_double (in_mb 1234567890) = bs "1.20563e+06" /\ print_double (in_mb 0) = bs "0".
Proof. vm_compute. repeat split. Qed.

Example memory_report :
  ProcessVmSizeAsString (Some status_text) = inr (bs "Virtual memory: 5.15625 MB, RSS memory: 1.69531 MB") /\
  ProcessVmSizeAsString None = inr (bs "Virtual memory: 0 MB, RSS memory: 0 MB").
Proof. vm_compute. repeat split. Qed.

Example memory_sampled :
  UpdateMemInfo [Some status_text; None] 0 0 = inr [(5280, 1736); (5280, 1736)] /\
  UpdateMemInfo [None; Some (bs "none")] 0 0 = inl out_of_range.
Proof. vm_compute. repeat split. Qed.

Definition spaces (s : list ascii) : Prop := Forall (λ c, is_space c = true) s.

Lemma read_word_reads tmp sp w t : spaces sp -> word w -> match t with c :: _ => is_space c = true | [] => False end ->
  read_word tmp (mkIs (sp ++ w ++ t) true) = (w, mkIs t true).
Proof.
  intros Hs Hw Ht. unfold read_word. cbn [is_good is_rest]. rewrite extract_word; [|done|done|by destruct t].
  by destruct t.
Qed.

Lemma read_word_first tmp w t : word w -> match t with c :: _ => is_space c = true | [] => False end ->
  read_word tmp (mkIs (w ++ t) true) = (w, mkIs t true).
Proof. intros Hw Ht. apply (read_word_reads tmp [] w t); [constructor|done|done]. Qed.

Lemma read_word_next_line tmp w t : word w -> match t with c :: _ => is_space c = true | [] => False end ->
  read_word tmp (mkIs (LF :: w ++ t) true) = (w, mkIs t true).
Proof. intros Hw Ht. apply (read_word_reads tmp [LF] w t); [by repeat constructor|done|done]. Qed.

Lemma read_size_reads v sp n t : spaces sp -> in_u64 n -> match t with c :: _ => is_space c = true | [] => False end ->
  read_size v (mkIs (sp ++ to_string n ++ t) true) = (n, mkIs t true).
Proof.
  intros Hs Hn Ht. destruct (to_string_digits n (or_intror Hn)) as (ds & Hne & Hds & Hval & _ & E).
  unfold in_u64 in Hn. rewrite (proj2 (Z.ltb_ge n 0)) in E by lia. rewrite Z.abs_eq in Hval by lia. rewrite E.
  destruct ds as [|c ds]; [done|]. pose proof (is_digit_not_space c (Forall_inv Hds)) as Hc1.
  assert (match t with c :: _ => is_digit c = false | [] => True end) as Ht'.
  { destruct t as [|x t]; [done|]. destruct (is_digit x) eqn:Ex; [|done]. apply is_digit_not_space in Ex. congruence. }
  pose proof (scan_digits_only (c :: ds) t ltac:(done) Hds Ht') as Esc.
  unfold read_size. cbn [is_good is_rest]. rewrite scan_number_blank by done. rewrite Esc. cbn [sc_neg sc_digits sc_end].
  rewrite count_while_all by done. rewrite decide_False by (rewrite !length_app; cbn [length]; lia).
  rewrite decide_False by done. rewrite Hval, Z.gtb_ltb, (proj2 (Z.ltb_ge _ _)) by lia. rewrite u64_small by done.
  rewrite <- length_app, app_assoc, drop_app_length. by destruct t.
Qed.

(** The three numbers of a text in the kernel's format, whatever follows. *)
Lemma CatMemInfo_reads (w1 u1 w2 u2 w3 rest : list ascii) (s1 s2 s3 : list ascii) (total free avail mt mf ma : Z) :
  Forall word [w1; u1; w2; u2; w3] -> Forall (λ s, spaces s /\ s <> []) [s1; s2; s3] ->
  Forall in_u64 [total; free; avail] ->
  CatMemInfo (Some (w1 ++ s1 ++ to_string total ++ bs " " ++ u1 ++ LF :: w2 ++ s2 ++ to_string free ++ bs " " ++ u2 ++
    LF :: w3 ++ s3 ++ to_string avail ++ bs " " ++ rest)) mt mf ma = (true, total, free, avail).
Proof.
  rewrite !Forall_cons. intros (H1 & H2 & H3 & H4 & H5 & _) ([S1 N1] & [S2 N2] & [S3 N3] & _) (T & F & A & _).
  assert (forall s t, spaces s -> s <> [] -> match s ++ t with c :: _ => is_space c = true | [] => False end) as Hb.
  { intros s t Hs Hn. destruct Hs; [done|]. done. }
  assert (spaces (bs " ")) as Hsp by (by repeat constructor).
  unfold CatMemInfo. rewrite (read_word_first [] w1) by (done || apply Hb; done). rewrite read_size_reads by done.
  rewrite read_word_reads by done. cbv beta iota.
  rewrite read_word_next_line by (done || apply Hb; done). rewrite read_size_reads by done.
  rewrite read_word_reads by done. rewrite read_word_next_line by (done || apply Hb; done).
  by rewrite read_size_reads.
Qed.

Lemma CatMemInfo_reads_witness :
  CatMemInfo (Some (bs "MemTotal:" ++ bs "   " ++ to_string 16303428 ++ bs " " ++ bs "kB" ++ LF :: bs "MemFree:" ++ bs "  " ++
    to_string 9204 ++ bs " " ++ bs "kB" ++ LF :: bs "MemAvailable:" ++ bs " " ++ to_string 15000000 ++ bs " " ++ bs "kB")) 0 0 0 =
  (true, 16303428, 9204, 15000000).
Proof.
  apply CatMemInfo_reads; repeat constructor; try done; vm_compute; congruence.
Defined.
