(* ===== verification/Rewrite.v ===== *)
(** * Rewrite: compacting the append-only file (src/persistence.cpp, RemoveRedundancy)

    The commands of the file are grouped by their key; those of a key are sifted, what
    is left is run on a small simulation, and one command that gives the final value is
    appended to the new file. The orders in which the unordered containers are traversed
    are arguments, and so are the readings of the clock. [None] is an exception, a failed
    assertion or undefined behaviour. What is written to the terminal is left out. *)

From S2P Require Import Prelude Numerals Str Buffer Protocol Persistence.
From stdpp Require Import list gmap.

Local Open Scope Z_scope.

Definition OP_TYPE_LIST : Z := 0.
Definition OP_TYPE_HASH : Z := 1.
Definition OP_TYPE_STRING : Z := 2.
Definition OP_TYPE_INTEGER : Z := 3.
Definition OP_TYPE_SET : Z := 4.
Definition OP_TYPE_OTHER : Z := 5.

(** ** The commands of each key *)

Definition populate_caches_func (cache_map : gmap (list ascii) (list CommandCache)) (cache : CommandCache)
  : option (gmap (list ascii) (list CommandCache)) :=
  key ← argv cache !! 1%nat;
  Some (<[key := default [] (cache_map !! key) ++ [cache]]> cache_map).

(** The loop over the commands of a key: what is left in [sequential]. [clock i] is what
    the two calls of [GetCurrentSec] return at the [i]th command. *)
Fixpoint sift (clock : nat -> Z * Z) (i : nat) (commands sequential : list CommandCache) : option (list CommandCache) :=
  match commands with
  | [] => Some sequential
  | cmd :: commands =>
      operation ← argv cmd !! O;
      sequential ←
        (if decide (operation = bs "expireat") then
           expireat ← argv cmd !! 2%nat;
           let expireat := default (clock i).1 (CanConvertToUInt64 expireat) in
           Some (if (clock i).2 >=? expireat then [] else sequential ++ [cmd])
         else if decide (operation = bs "del" \/ operation = bs "set") then Some []
         else Some sequential);
      let sequential :=
        if decide (operation <> bs "del" /\ operation <> bs "expireat") then sequential ++ [cmd] else sequential in
      sift clock (S i) commands sequential
  end.

(** ** The simulation *)

(** [op_type] is not initialised. *)
Record aux := mkAux {
  aux_list : list (list ascii);
  aux_hash : gmap (list ascii) (list ascii);
  aux_uset : gset (list ascii);
  aux_string : list ascii;
  aux_int64 : Z;
  op_type : option Z
}.

Definition aux_new : aux := mkAux [] ∅ ∅ [] 0 None.

Definition with_list (l : list (list ascii)) (a : aux) : aux :=
  mkAux l (aux_hash a) (aux_uset a) (aux_string a) (aux_int64 a) (Some OP_TYPE_LIST).
Definition with_hash (h : gmap (list ascii) (list ascii)) (a : aux) : aux :=
  mkAux (aux_list a) h (aux_uset a) (aux_string a) (aux_int64 a) (Some OP_TYPE_HASH).
Definition with_uset (s : gset (list ascii)) (a : aux) : aux :=
  mkAux (aux_list a) (aux_hash a) s (aux_string a) (aux_int64 a) (Some OP_TYPE_SET).
Definition with_string (type : Z) (s : list ascii) (n : Z) (a : aux) : aux :=
  mkAux (aux_list a) (aux_hash a) (aux_uset a) s n (Some type).

(** The fields and values of [hset], two by two; a field without a value reads past the
    end. *)
Fixpoint insert_pairs (operands : list (list ascii)) (h : gmap (list ascii) (list ascii))
  : option (gmap (list ascii) (list ascii)) :=
  match operands with
  | [] => Some h
  | [_] => None
  | field :: value :: operands => insert_pairs operands (<[field := value]> h)
  end.

(** [std::to_string(n)]; signed overflow is undefined. *)
Definition int64_result (n : Z) : option Z := if (INT64_MIN <=? n) && (n <=? INT64_MAX) then Some n else None.

(** The value [incr], [decr], [incrby] and [decrby] compute from [n]. *)
Definition counted (op : list ascii) (operands : list (list ascii)) (n : Z) : option Z :=
  if decide (op = bs "incr") then int64_result (n + 1)
  else if decide (op = bs "decr") then int64_result (n - 1)
  else
    text ← operands !! 2%nat;
    match stoll text with
    | inr v => int64_result (if decide (op = bs "incrby") then n + v else n - v)
    | inl _ => None
    end.

(** One command, [front], with [left] more behind it. *)
Definition simulate_op (front : CommandCache) (left : nat) (a : aux) (file : AppendableFile) : option (aux * AppendableFile) :=
  let operands := argv front in
  op ← operands !! O;
  if decide (op = bs "lpush") then Some (with_list (foldl (λ l x, x :: l) (aux_list a) (drop 2 operands)) a, file)
  else if decide (op = bs "rpush") then Some (with_list (aux_list a ++ drop 2 operands) a, file)
  else if decide (op = bs "lpop") then
    match aux_list a with [] => None | _ :: l => Some (with_list l a, file) end
  else if decide (op = bs "rpop") then
    match aux_list a with [] => None | l => Some (with_list (removelast l) a, file) end
  else if decide (op = bs "lsetindex") then
    idx ← operands !! 2%nat;
    value ← operands !! 3%nat;
    match stoull idx with
    | inr i => if i <? Z.of_nat (length (aux_list a))
               then Some (with_list (<[Z.to_nat i := value]> (aux_list a)) a, file) else None
    | inl _ => None
    end
  else if decide (op = bs "hset") then
    h ← insert_pairs (drop 2 operands) (aux_hash a);
    Some (with_hash h a, file)
  else if decide (op = bs "hdel") then Some (with_hash (foldl (λ h f, delete f h) (aux_hash a) (drop 2 operands)) a, file)
  else if decide (op = bs "sadd") then Some (with_uset (foldl (λ s x, {[x]} ∪ s) (aux_uset a) (drop 2 operands)) a, file)
  else if decide (op = bs "srem") then Some (with_uset (foldl (λ s x, s ∖ {[x]}) (aux_uset a) (drop 2 operands)) a, file)
  else if decide (op = bs "append") then
    value ← operands !! 2%nat;
    Some (with_string OP_TYPE_STRING (aux_string a ++ value) (aux_int64 a) a, file)
  else if decide (op = bs "incr" \/ op = bs "decr" \/ op = bs "incrby" \/ op = bs "decrby") then
    let aux_int64 := default (aux_int64 a) (CanConvertToInt64 (aux_string a)) in
    if decide (is_Some (CanConvertToInt64 (aux_string a)) \/ aux_string a = []) then
      n ← counted op operands aux_int64;
      Some (with_string OP_TYPE_INTEGER (to_string n) aux_int64 a, file)
    else Some (with_string OP_TYPE_INTEGER (aux_string a) aux_int64 a, file)
  else if decide (op = bs "set") then
    (* if (sequential.size() != 1) *)
    if decide (left <> O) then
      value ← operands !! 2%nat;
      Some (with_string OP_TYPE_OTHER value (aux_int64 a) a, file)
    else Some (with_string OP_TYPE_OTHER (aux_string a) (aux_int64 a) a, aof_Append file front)
  else None.

Fixpoint simulate (sequential : list CommandCache) (a : aux) (file : AppendableFile) : option (aux * AppendableFile) :=
  match sequential with
  | [] => Some (a, file)
  | front :: sequential =>
      '(a, file) ← simulate_op front (length sequential) a file;
      simulate sequential a file
  end.

(** ** The new file *)

Section RemoveRedundancy.

(** The orders of traversal of [cache_map], [aux_hash] and [aux_uset]. *)
Variable cache_order : gmap (list ascii) (list CommandCache) -> list (list ascii * list CommandCache).
Variable hash_order : gmap (list ascii) (list ascii) -> list (list ascii * list ascii).
Variable uset_order : gset (list ascii) -> list (list ascii).

(** The command built for the key; [cache] was cleared before. *)
Definition built (op key : list ascii) (operands : list (list ascii)) : CommandCache :=
  let argv := op :: key :: operands in mkCache false (Z.of_nat (length argv)) argv.

Definition restore_command (key : list ascii) (a : aux) (file : AppendableFile) : option AppendableFile :=
  type ← op_type a;
  Some (if type =? OP_TYPE_LIST then aof_Append file (built (bs "rpush") key (aux_list a))
        else if type =? OP_TYPE_HASH then
          aof_Append file (built (bs "hset") key (kv ← hash_order (aux_hash a); [kv.1; kv.2]))
        else if type =? OP_TYPE_SET then aof_Append file (built (bs "sadd") key (uset_order (aux_uset a)))
        else if (type =? OP_TYPE_INTEGER) || (type =? OP_TYPE_STRING) then
          aof_Append file (built (bs "set") key [aux_string a])
        else file).

(** The body of the loop over the keys. *)
Definition process_key (clock : list ascii -> nat -> Z * Z) (file : AppendableFile)
    (item : list ascii * list CommandCache) : option AppendableFile :=
  front ← head item.2;
  key ← argv front !! 1%nat;
  sequential ← sift (clock key) O item.2 [];
  if decide (sequential = []) then Some file
  else
    '(a, file) ← simulate sequential aux_new file;
    restore_command key a file.

Fixpoint process_keys (clock : list ascii -> nat -> Z * Z) (items : list (list ascii * list CommandCache))
    (file : AppendableFile) : option AppendableFile :=
  match items with
  | [] => Some file
  | item :: items => file ← process_key clock file item; process_keys clock items file
  end.

(** [RemoveRedundancy]; the source file is read in [chunks], if it can be opened. *)
Definition RemoveRedundancy (clock : list ascii -> nat -> Z * Z) (source : option (list (list ascii)))
    (file : AppendableFile) : option AppendableFile :=
  match source with
  | Some chunks =>
      cache_map ← CommonOperation populate_caches_func chunks ∅;
      process_keys clock (cache_order cache_map) file
  | None => Some file
  end.

End RemoveRedundancy.
