(* ===== verification/RewriteFacts.v ===== *)
(** * RewriteFacts: the compacted file gives the same data

    What a command does to its key alone ([effect]); the commands of a key, sifted,
    simulated and replaced by one ([canon]); and the new file, whose replay gives the
    store of the old one, without its empty containers. *)

From S2P Require Import Prelude Encoding Numerals Str Buffer Protocol Core CoreSpec CoreFacts Server Persistence PersistenceFacts Commands CommandsSpec CommandsFacts EngineFacts Recovery.
From stdpp Require Import list gmap fin_maps.
From S2P Require Import ConfigFacts Rewrite.

Local Open Scope Z_scope.

(** ** The commands of a log *)

(** Those that [RemoveRedundancy] knows, each on one key. An index that counts from the
    end of the list is not one of the simulation. *)
Definition rewritable (c : command) : Prop :=
  match c with
  | CSet _ _ | CIncr _ | CDecr _ | CIncrBy _ _ | CDecrBy _ _ | CAppend _ _ | CPush _ _ _ | CPop _ _
  | CHSet _ _ | CHDel _ _ | CSAdd _ _ | CSRem _ _ => True
  | CDel keys => length keys = 1%nat
  | CLSet _ index _ => 0 <= index
  | _ => False
  end.

Definition cmd_key (c : command) : list ascii := default [] (cmd_args c !! 1%nat).

Lemma rewritable_args c : rewritable c -> exists op rest, cmd_args c = op :: cmd_key c :: rest.
Proof.
  destruct c; cbn [rewritable cmd_args]; try done; unfold cmd_key; cbn [cmd_args]; try (intros; by eexists _, _).
  destruct keys as [|k []]; [done|by eexists _, _|done].
Qed.

(** ** A key alone *)

Definition slot (key : list ascii) (v : option aval) : astore :=
  match v with Some a => {[Key_std key := a]} | None => ∅ end.

(** The value of the key after the command, and whether the command is logged. *)
Definition effect (c : command) (v : option aval) : option aval * bool :=
  let '(m, _, b) := cmd_spec (slot (cmd_key c) v) c in (m !! Key_std (cmd_key c), b).

Lemma alone_lookup key v : slot key v !! Key_std key = v.
Proof. destruct v; cbn [slot]; [apply lookup_singleton_eq|apply lookup_empty]. Qed.

(** An outcome on the store and one on the key alone that agree. *)
Definition agrees (k : list ascii) (m : astore) (o o' : outcome) : Prop :=
  o.1.1 = partial_alter (λ _, o'.1.1 !! k) k m /\ o.2 = o'.2.

Lemma agrees_same k m m' r r' b : m' !! k = m !! k -> agrees k m (m, r, b) (m', r', b).
Proof. intros E. split; [|done]. cbn [fst]. rewrite E. by rewrite partial_alter_self. Qed.

Lemma agrees_set k m m' x r r' b : agrees k m (<[k := x]> m, r, b) (<[k := x]> m', r', b).
Proof. split; [|done]. cbn [fst]. by rewrite lookup_insert_eq. Qed.

Lemma agrees_delete k m m' r r' b : agrees k m (delete k m, r, b) (delete k m', r', b).
Proof. split; [|done]. cbn [fst]. by rewrite lookup_delete_eq. Qed.

Lemma agrees_modify {A : Type} (m m' : astore) (key : list ascii) (view : aval -> option A) (x : A) (f : A -> aval * areply) :
  m' !! Key_std key = m !! Key_std key -> agrees (Key_std key) m (modify m key view x f) (modify m' key view x f).
Proof.
  intros E. unfold modify. rewrite E. destruct (m !! Key_std key) as [a|] eqn:Ea; [|apply agrees_set].
  destruct (view a); [apply agrees_set|by apply agrees_same; rewrite Ea].
Qed.

Lemma agrees_add (m m' : astore) (key : list ascii) (n : Z) :
  m' !! Key_std key = m !! Key_std key -> agrees (Key_std key) m (add_to m key n) (add_to m' key n).
Proof.
  intros E. unfold add_to. rewrite E. destruct (m !! Key_std key) as [[v| | | |]|] eqn:Ea;
    try (by apply agrees_same; rewrite Ea); try (apply agrees_set).
  destruct (_ || _); [by apply agrees_same; rewrite Ea|apply agrees_set].
Qed.

Lemma cmd_spec_agrees (m m' : astore) (c : command) : rewritable c -> m' !! Key_std (cmd_key c) = m !! Key_std (cmd_key c) ->
  agrees (Key_std (cmd_key c)) m (cmd_spec m c) (cmd_spec m' c).
Proof.
  intros Hc. destruct c;
    try done; unfold cmd_key; cbn [cmd_args lookup list_lookup default cmd_spec]; unfold id; intros E;
    try (by apply agrees_set); try (by apply agrees_add); try (by apply agrees_modify);
    try (by case_match; [apply agrees_same; by rewrite E|apply agrees_add]).
  - destruct keys as [|k []]; try done. cbn in E |- *. apply agrees_delete.
  - change (m' !! Key_std key = m !! Key_std key) in E. rewrite E. destruct (m !! Key_std key) as [a|] eqn:Ea; [|apply agrees_same; congruence].
    destruct (v_list a) as [l|]; [|apply agrees_same; congruence].
    destruct (if lf then head l else last l) as [x|]; [|apply agrees_same; congruence].
    case_decide; apply agrees_set.
  - change (m' !! Key_std key = m !! Key_std key) in E. rewrite E. destruct (m !! Key_std key) as [a|] eqn:Ea; [|apply agrees_same; congruence].
    destruct (v_list a) as [l|]; [|apply agrees_same; congruence].
    destruct (_ <? 0); [apply agrees_same; congruence|].
    destruct (l !! _); [apply agrees_set|apply agrees_same; congruence].
  - change (m' !! Key_std key = m !! Key_std key) in E. rewrite E. destruct (m !! Key_std key) as [a|] eqn:Ea; [|apply agrees_same; congruence].
    destruct (v_dict a) as [d|]; [|apply agrees_same; congruence]. destruct (del_fields _ _ _). apply agrees_set.
  - change (m' !! Key_std key = m !! Key_std key) in E. rewrite E. destruct (m !! Key_std key) as [a|] eqn:Ea; [|apply agrees_same; congruence].
    destruct (v_set a) as [d|]; [|apply agrees_same; congruence]. destruct (del_members _ _ _). apply agrees_set.
Qed.

Lemma effect_spec (m : astore) (c : command) : rewritable c ->
  (cmd_spec m c).1.1 = partial_alter (λ _, (effect c (m !! Key_std (cmd_key c))).1) (Key_std (cmd_key c)) m /\
  (cmd_spec m c).2 = (effect c (m !! Key_std (cmd_key c))).2.
Proof.
  intros Hc. destruct (cmd_spec_agrees m (slot (cmd_key c) (m !! Key_std (cmd_key c))) c Hc) as [E1 E2]; [apply alone_lookup|].
  unfold effect. rewrite E1, E2. by destruct (cmd_spec (slot _ _) c) as [[]].
Qed.

(** ** The commands of a key, on their own *)

(** All the keys are C strings. *)
Definition plain (c : command) : Prop := rewritable c /\ NUL ∉ cmd_key c.

Definition of_key (key : list ascii) : list command -> list command := filter (λ c, cmd_key c = key).

Definition run_key (v : option aval) (cs : list command) : option aval := foldl (λ v c, (effect c v).1) v cs.

(** Each of them is logged. *)
Fixpoint all_logged (v : option aval) (cs : list command) : Prop :=
  match cs with
  | [] => True
  | c :: cs => (effect c v).2 = true /\ all_logged (effect c v).1 cs
  end.

Lemma Key_std_plain key : NUL ∉ key -> Key_std key = key.
Proof. apply c_str_no_nul. Qed.

Lemma spec_run_key (cs : list command) (key : list ascii) : forall m, Forall plain cs -> NUL ∉ key ->
  (spec_run m cs).1 !! Key_std key = run_key (m !! Key_std key) (of_key key cs).
Proof.
  intros m Hcs Hk. revert m. induction Hcs as [|c cs [Hc Hn] Hcs IH]; intros m; [done|].
  rewrite spec_run_cons, IH, (proj1 (effect_spec m c Hc)). unfold of_key. rewrite filter_cons.
  rewrite !Key_std_plain by done. case_decide as E.
  - subst key. by rewrite lookup_partial_alter_eq.
  - by rewrite lookup_partial_alter_ne.
Qed.

Lemma logged_key (cs : list command) (key : list ascii) : forall m, Forall plain cs -> NUL ∉ key -> log_of m cs = cs ->
  all_logged (m !! Key_std key) (of_key key cs).
Proof.
  intros m Hcs Hk. revert m. induction Hcs as [|c cs [Hc Hn] Hcs IH]; intros m Hl; [done|].
  cbn [log_of] in Hl. assert (length (log_of (cmd_spec m c).1.1 cs) <= length cs)%nat as Hlen.
  { clear. revert m c. induction cs as [|c' cs IH]; intros m c; [done|]. cbn [log_of]. specialize (IH (cmd_spec m c).1.1 c').
    rewrite length_app. destruct (cmd_spec _ c').2; cbn [length]; lia. }
  destruct (cmd_spec m c).2 eqn:El; cbn [app] in Hl; [|apply (f_equal length) in Hl; cbn [length] in Hl; lia].
  injection Hl as Hl. specialize (IH _ Hl). destruct (effect_spec m c Hc) as [E1 E2]. rewrite El in E2. rewrite E1 in IH.
  unfold of_key in *. rewrite filter_cons. rewrite !Key_std_plain in * by done. case_decide as E.
  - subst key. rewrite lookup_partial_alter_eq in IH. by split.
  - by rewrite lookup_partial_alter_ne in IH.
Qed.

Lemma spec_run_dom (cs : list command) : forall m, Forall plain cs ->
  forall k a, (spec_run m cs).1 !! k = Some a -> m !! k = Some a \/ exists c, c ∈ cs /\ k = cmd_key c.
Proof.
  intros m Hcs. revert m. induction Hcs as [|c cs [Hc Hn] Hcs IH]; intros m k a H; [by left|].
  rewrite spec_run_cons in H. destruct (IH _ _ _ H) as [Hm|(c' & Hin & ->)].
  - rewrite (proj1 (effect_spec m c Hc)), Key_std_plain in Hm by done. destruct (decide (k = cmd_key c)) as [->|Hne].
    + right. exists c. split; [by left|done].
    + rewrite lookup_partial_alter_ne in Hm by done. by left.
  - right. exists c'. split; [by right|done].
Qed.

(** ** The effect of each command *)

Lemma effect_add c key n v : cmd_args c !! 1%nat = Some key -> (forall m, cmd_spec m c = add_to m key n) ->
  effect c v = match v with
               | None => (Some (AInt n), true)
               | Some (AInt x) => if (x + n <? INT64_MIN) || (INT64_MAX <? x + n) then (v, false) else (Some (AInt (x + n)), true)
               | Some _ => (v, false)
               end.
Proof.
  intros Hk H. unfold effect, cmd_key. rewrite H, Hk. cbn [default]. unfold add_to, id. rewrite alone_lookup.
  destruct v as [[x| | | |]|]; try (by rewrite alone_lookup); try (by rewrite lookup_insert_eq).
  destruct (_ || _); [by rewrite alone_lookup|by rewrite lookup_insert_eq].
Qed.

Lemma effect_modify {A : Type} c key (view : aval -> option A) x f v : cmd_args c !! 1%nat = Some key ->
  (forall m, cmd_spec m c = modify m key view x f) ->
  effect c v = match v with
               | None => (Some (f x).1, true)
               | Some a => match view a with None => (v, false) | Some y => (Some (f y).1, true) end
               end.
Proof.
  intros Hk H. unfold effect, cmd_key. rewrite H, Hk. cbn [default]. unfold modify, id. rewrite alone_lookup.
  destruct v as [a|]; [|by rewrite lookup_insert_eq]. destruct (view a); [by rewrite lookup_insert_eq|by rewrite alone_lookup].
Qed.

Lemma effect_set key value v : effect (CSet key value) v = (Some (scalar value), true).
Proof. unfold effect, cmd_key. cbn [cmd_args cmd_spec lookup list_lookup default]. unfold id. by rewrite lookup_insert_eq. Qed.

Lemma effect_del key v : effect (CDel [key]) v = (None, true).
Proof. unfold effect, cmd_key. cbn. unfold id. by rewrite lookup_delete_eq. Qed.

Ltac effect_cases v :=
  unfold effect, cmd_key; cbn [cmd_args cmd_spec lookup list_lookup default]; unfold id; rewrite alone_lookup;
  destruct v as [[]|]; cbn [v_list v_dict v_set]; try (by rewrite alone_lookup).

Lemma effect_pop lf key v : effect (CPop lf key) v =
  match v with
  | Some (AList l) => match (if lf then head l else last l) with
                      | None => (v, false)
                      | Some x => (Some (AList (if lf then tail l else removelast l)), negb (bool_decide (x = [])))
                      end
  | _ => (v, false)
  end.
Proof.
  effect_cases v. destruct (if lf then head l else last l) as [x|]; [|by rewrite alone_lookup].
  case_decide; [rewrite bool_decide_eq_true_2 by done|rewrite bool_decide_eq_false_2 by done]; by rewrite lookup_insert_eq.
Qed.

Lemma effect_lset key i value v : 0 <= i -> effect (CLSet key i value) v =
  match v with
  | Some (AList l) => if decide (Z.to_nat i < length l)%nat then (Some (AList (<[Z.to_nat i := value]> l)), true) else (v, false)
  | _ => (v, false)
  end.
Proof.
  intros Hi. effect_cases v. unfold norm_index. destruct (Z.ltb_spec i 0); [lia|].
  destruct (Z.ltb_spec i 0); [lia|]. case_decide as Hl.
  - apply lookup_lt_is_Some in Hl as [x ->]. by rewrite lookup_insert_eq.
  - rewrite (lookup_ge_None_2 l) by lia. by rewrite alone_lookup.
Qed.

Lemma effect_hdel key fields v : effect (CHDel key fields) v =
  match v with
  | None => (None, true)
  | Some (ADict d) => (Some (ADict (del_fields d fields 0).1), true)
  | _ => (v, false)
  end.
Proof. effect_cases v. destruct (del_fields _ _ _). by rewrite lookup_insert_eq. Qed.

Lemma effect_srem key members v : effect (CSRem key members) v =
  match v with
  | None => (None, true)
  | Some (ASet s) => (Some (ASet (del_members s members 0).1), true)
  | _ => (v, false)
  end.
Proof. effect_cases v. destruct (del_members _ _ _). by rewrite lookup_insert_eq. Qed.

Lemma del_fields_foldl {A : Type} fields : forall (d : gmap (list ascii) A) n,
  (del_fields d fields n).1 = foldl (λ h f, delete f h) d fields.
Proof. induction fields as [|f fields IH]; intros d n; [done|]. cbn [del_fields foldl]. apply IH. Qed.

Lemma del_members_foldl members : forall s n, (del_members s members n).1 = foldl (λ s x, s ∖ {[x]}) s members.
Proof. induction members as [|x members IH]; intros s n; [done|]. cbn [del_members foldl]. apply IH. Qed.

Lemma add_members_foldl members : forall s n, (add_members s members n).1 = foldl (λ s x, {[x]} ∪ s) s members.
Proof. induction members as [|x members IH]; intros s n; [done|]. cbn [add_members foldl]. apply IH. Qed.

Lemma insert_pairs_items items : forall d, insert_pairs (i ← items; [i.1; i.2]) d = Some (set_fields d items.*1 items.*2).
Proof. induction items as [|[f v] items IH]; intros d; [done|]. cbn. apply IH. Qed.

Lemma push_front_rev (values : list (list ascii)) : forall l, foldl (λ l x, x :: l) l values = rev values ++ l.
Proof. induction values as [|x values IH]; intros l; [done|]. cbn [foldl rev]. by rewrite IH, <- app_assoc. Qed.

(** ** Simulating a command *)

(** What the bounds of a command say of its numbers. *)
Definition fine (c : command) : Prop :=
  match c with
  | CIncrBy _ n | CDecrBy _ n => in_i64 n
  | CLSet _ i _ => in_i32 i
  | _ => True
  end.

Lemma cmd_ok_fine m c : cmd_ok m c -> fine c.
Proof.
  intros (_ & H & Hb). destruct c; try done. cbn [cmd_op] in H. specialize (H _ eq_refl) as [H _]. cbn [args_ok] in H. cbn [fine]. tauto.
Qed.

(** The variables hold the value. *)
Definition models (v : option aval) (a : aux) : Prop :=
  match v with
  | None => a = mkAux [] ∅ ∅ [] 0 (op_type a)
  | Some (AInt n) => aux_string a = to_string n /\ in_i64 n
  | Some (AStr s) => aux_string a = s
  | Some (AList l) => aux_list a = l
  | Some (ADict d) => aux_hash a = d
  | Some (ASet s) => aux_uset a = s
  end.

Definition kind (c : command) : Z :=
  match c with
  | CPush _ _ _ | CPop _ _ | CLSet _ _ _ => OP_TYPE_LIST
  | CHSet _ _ | CHDel _ _ => OP_TYPE_HASH
  | CSAdd _ _ | CSRem _ _ => OP_TYPE_SET
  | CAppend _ _ => OP_TYPE_STRING
  | CSet _ _ => OP_TYPE_OTHER
  | _ => OP_TYPE_INTEGER
  end.

(** The type of the last command and the value. *)
Definition kind_ok (v : option aval) (type : Z) : Prop :=
  match v with
  | None => type = OP_TYPE_HASH \/ type = OP_TYPE_SET
  | Some (AInt _ | AStr _) => type = OP_TYPE_INTEGER \/ type = OP_TYPE_STRING
  | Some (AList _) => type = OP_TYPE_LIST
  | Some (ADict _) => type = OP_TYPE_HASH
  | Some (ASet _) => type = OP_TYPE_SET
  end.

(** A command that [sift] never removes. *)
Definition gradual (c : command) : Prop :=
  match c with CSet _ _ | CDel _ => False | _ => rewritable c end.

Lemma int64_result_id n : in_i64 n -> int64_result n = Some n.
Proof.
  intros [H1 H2]. unfold int64_result. apply Z.leb_le in H1, H2. by rewrite H1, H2.
Qed.

Lemma foldl_delete_empty fields : foldl (λ h f, delete f h) (∅ : gmap (list ascii) (list ascii)) fields = ∅.
Proof. induction fields as [|f fields IH]; [done|]. cbn [foldl]. by rewrite delete_empty. Qed.

Lemma foldl_remove_empty members : foldl (λ s x, s ∖ {[x]}) (∅ : gset (list ascii)) members = ∅.
Proof.
  induction members as [|x members IH]; [done|]. cbn [foldl].
  by rewrite (subseteq_empty_difference_L ∅ {[x]}).
Qed.

(** The simulation runs the command: the variables hold the value it has. *)
Definition simulated (c : command) (v : option aval) (left : nat) (a : aux) (file : AppendableFile) : Prop :=
  exists a', simulate_op (logged_request c) left a file = Some (a', file) /\ models (effect c v).1 a' /\
    op_type a' = Some (kind c) /\ kind_ok (effect c v).1 (kind c).

Section Simulated.

Context (v : option aval) (a : aux) (file : AppendableFile) (left : nat).
Hypothesis Hv : models v a.

(** The four counting commands. *)
Lemma simulate_count c key op operands n :
  cmd_args c = op :: key :: operands -> (forall m, cmd_spec m c = add_to m key n) -> kind c = OP_TYPE_INTEGER ->
  (forall a file left, simulate_op (logged_request c) left a file =
    let i := default (aux_int64 a) (CanConvertToInt64 (aux_string a)) in
    if decide (is_Some (CanConvertToInt64 (aux_string a)) \/ aux_string a = []) then
      n ← counted op (op :: key :: operands) i; Some (with_string OP_TYPE_INTEGER (to_string n) i a, file)
    else Some (with_string OP_TYPE_INTEGER (aux_string a) i a, file)) ->
  (forall x, in_i64 (x + n) -> counted op (op :: key :: operands) x = Some (x + n)) -> in_i64 n ->
  (effect c v).2 = true -> simulated c v left a file.
Proof.
  intros Hargs Hadd Hkind Hsim Hcount Hn Hl. unfold simulated. rewrite (effect_add c key n v) in * by (try done; by rewrite Hargs).
  rewrite Hsim, Hkind. cbn zeta. destruct v as [[x| | | |]|]; try done; cbn [models] in Hv.
  - destruct Hv as [Es Hx]. destruct (_ || _) eqn:Eb; [done|]. bools. assert (in_i64 (x + n)) as Hxn by (split; lia).
    assert (CanConvertToInt64 (aux_string a) = Some x) as -> by (by apply CanConvertToInt64_iff). cbn [default].
    rewrite decide_True by eauto. unfold id. rewrite Hcount by done. eexists. split; [reflexivity|]. split; [by split|]. split; [done|]. by left.
  - rewrite Hv. cbn [aux_string aux_int64]. change (CanConvertToInt64 []) with (@None Z). cbn [default].
    rewrite decide_True by auto. rewrite Hcount by done. eexists. split; [reflexivity|]. split; [by split|]. split; [done|]. by left.
Qed.

Lemma simulate_append key value : (effect (CAppend key value) v).2 = true -> simulated (CAppend key value) v left a file.
Proof.
  intros Hl. eexists. split; [reflexivity|].
  rewrite (effect_modify _ key v_scalar [] (λ s, (AStr (s ++ value), RInt (Z.of_nat (length (s ++ value)))))) in * by done.
  destruct v as [a0|]; [destruct (v_scalar a0) as [s|] eqn:Es; [|done]|]; cbn [fst models kind_ok].
  - split; [|split; [done|by right]]. cbn [with_string aux_string]. f_equal.
    destruct a0; try done; injection Es as <-; [by destruct Hv|done].
  - rewrite Hv. split; [done|]. split; [done|by right].
Qed.

Lemma simulate_pop lf key : (effect (CPop lf key) v).2 = true -> simulated (CPop lf key) v left a file.
Proof.
  intros Hl. unfold simulated. rewrite effect_pop in *. destruct v as [[| |l| |]|]; try done. cbn [models] in Hv.
  destruct (if lf then head l else last l) as [x|] eqn:Ex; [|done].
  destruct lf; cbn [fst] in *.
  - destruct l as [|y l]; [done|]. exists (with_list l a). split; [|done].
    change (simulate_op _ _ a file) with (match aux_list a with [] => None | _ :: l => Some (with_list l a, file) end). by rewrite Hv.
  - exists (with_list (removelast l) a). split; [|done].
    change (simulate_op _ _ a file) with (match aux_list a with [] => None | l => Some (with_list (removelast l) a, file) end).
    rewrite Hv. by destruct l.
Qed.

Lemma simulate_push lf key values : (effect (CPush lf key values) v).2 = true -> simulated (CPush lf key values) v left a file.
Proof.
  intros Hl. exists (with_list (if lf then rev values ++ aux_list a else aux_list a ++ values) a). split.
  { destruct lf; [|done]. rewrite <- push_front_rev. done. }
  rewrite (effect_modify _ key v_list [] (λ l, let l := if lf then rev values ++ l else l ++ values in (AList l, RInt (Z.of_nat (length l))))) in * by done.
  destruct v as [[| |l| |]|]; try done; cbn [v_list fst models kind_ok] in *; rewrite Hv; done.
Qed.

Lemma simulate_lset key index value : 0 <= index -> in_i32 index ->
  (effect (CLSet key index value) v).2 = true -> simulated (CLSet key index value) v left a file.
Proof.
  intros Hp Hi Hl. unfold simulated. rewrite effect_lset in * by done. destruct v as [[| |l| |]|]; try done. case_decide; [|done].
  cbn [models fst] in *. exists (with_list (<[Z.to_nat index := value]> l) a). split; [|done].
  change (simulate_op _ _ a file) with (match stoull (to_string index) with
      | inr i => if i <? Z.of_nat (length (aux_list a)) then Some (with_list (<[Z.to_nat i := value]> (aux_list a)) a, file) else None
      | inl _ => None end).
  assert (in_u64 index) as Hu by (unfold in_i32, in_u64, INT32_MAX, UINT64_MAX in *; lia).
  rewrite (stoull_to_string index Hu), Hv. destruct (Z.ltb_spec index (Z.of_nat (length l))); [done|lia].
Qed.

Lemma simulate_hset key items : (effect (CHSet key items) v).2 = true -> simulated (CHSet key items) v left a file.
Proof.
  intros Hl. exists (with_hash (set_fields (aux_hash a) items.*1 items.*2) a). split.
  { change (simulate_op _ _ a file) with (h ← insert_pairs (i ← items; [i.1; i.2]) (aux_hash a); Some (with_hash h a, file)).
    by rewrite insert_pairs_items. }
  rewrite (effect_modify _ key v_dict ∅ (λ d, (ADict (set_fields d items.*1 items.*2), ROk))) in * by done.
  destruct v as [[| | |d|]|]; try done; cbn [v_dict fst models kind_ok] in *; rewrite Hv; done.
Qed.

Lemma simulate_hdel key fields : (effect (CHDel key fields) v).2 = true -> simulated (CHDel key fields) v left a file.
Proof.
  intros Hl. eexists. split; [reflexivity|]. rewrite effect_hdel in *.
  destruct v as [[| | |d|]|]; try done; cbn [fst models kind_ok] in *.
  - rewrite del_fields_foldl. by rewrite <- Hv.
  - rewrite Hv. cbn [aux_hash]. rewrite foldl_delete_empty. split; [done|]. split; [done|by left].
Qed.

Lemma simulate_sadd key members : (effect (CSAdd key members) v).2 = true -> simulated (CSAdd key members) v left a file.
Proof.
  intros Hl. eexists. split; [reflexivity|].
  rewrite (effect_modify _ key v_set ∅ (λ s, let '(s, n) := add_members s members 0 in (ASet s, RInt n))) in * by done.
  destruct v as [[| | | |s]|]; try done; cbn [v_set fst models kind_ok] in *;
    (match goal with |- context [add_members ?s _ _] => pose proof (add_members_foldl members s 0) as E end);
    destruct (add_members _ _ _); cbn [fst] in E; by rewrite Hv, E.
Qed.

Lemma simulate_srem key members : (effect (CSRem key members) v).2 = true -> simulated (CSRem key members) v left a file.
Proof.
  intros Hl. eexists. split; [reflexivity|]. rewrite effect_srem in *.
  destruct v as [[| | | |s]|]; try done; cbn [fst models kind_ok] in *.
  - rewrite del_members_foldl. by rewrite <- Hv.
  - rewrite Hv. cbn [aux_uset]. rewrite foldl_remove_empty. split; [done|]. split; [done|by right].
Qed.

(** An [incrby] or [decrby] that is logged counts by a number that is not negative. *)
Lemma logged_by_nonneg (up : bool) key n : let c := if up then CIncrBy key n else CDecrBy key n in
  (effect c v).2 = true -> 0 <= n /\ forall m, cmd_spec m c = add_to m key (if up then n else - n).
Proof.
  intros c Hl. destruct (Z.ltb_spec n 0) as [Hneg|Hpos].
  - exfalso. apply Z.ltb_lt in Hneg. revert Hl. unfold c, effect. destruct up; cbn [cmd_spec]; by rewrite Hneg.
  - split; [done|]. apply Z.ltb_ge in Hpos. intros m. unfold c. destruct up; cbn [cmd_spec]; by rewrite Hpos.
Qed.

Lemma simulate_step c : gradual c -> fine c -> (effect c v).2 = true -> simulated c v left a file.
Proof.
  intros Hg Hf Hl. destruct c; try done.
  - eapply simulate_count; [done..| |done|done]. intros x Hx. by apply int64_result_id.
  - eapply (simulate_count _ _ _ _ (-1)); [done..| |done|done]. intros x Hx. by apply int64_result_id.
  - destruct (logged_by_nonneg true key n Hl) as [Hn Hadd].
    eapply simulate_count; [done|exact Hadd|done..| |done|done]. intros x Hx. unfold counted.
    cbn [lookup list_lookup mbind option_bind]. rewrite stoll_to_string by done. by apply int64_result_id.
  - destruct (logged_by_nonneg false key n Hl) as [Hn Hadd].
    assert (in_i64 (- n)) as Hn' by (cbn in Hf; unfold in_i64, INT64_MIN, INT64_MAX in *; lia).
    eapply (simulate_count _ _ _ _ (- n)); [done|exact Hadd|done..| |done|done]. intros x Hx. unfold counted.
    cbn [lookup list_lookup mbind option_bind]. rewrite stoll_to_string by done. by apply int64_result_id.
  - by apply simulate_append.
  - by apply simulate_pop.
  - by apply simulate_push.
  - by apply simulate_lset.
  - by apply simulate_hset.
  - by apply simulate_hdel.
  - by apply simulate_sadd.
  - by apply simulate_srem.
Qed.

End Simulated.

(** ** Sifting *)

Definition sieve (seq : list command) (c : command) : list command :=
  match c with CDel _ => [] | CSet _ _ => [c] | _ => seq ++ [c] end.

Lemma sift_commands clock cs : forall i seq, Forall rewritable cs ->
  sift clock i (logged_request <$> cs) (logged_request <$> seq) = Some (logged_request <$> foldl sieve seq cs).
Proof.
  induction cs as [|c cs IH]; intros i seq Hcs; [done|]. inversion Hcs as [|? ? Hc Hcs']; subst. cbn [fmap list_fmap foldl].
  rewrite <- (IH (S i) (sieve seq c) Hcs').
  destruct c; try done; cbn [sieve]; rewrite ?fmap_app; try (by destruct lf); reflexivity.
Qed.

(** What is left begins with [set], or with an absent key. *)
Definition sifted (seq : list command) : Prop :=
  Forall gradual seq \/ exists key value rest, seq = CSet key value :: rest /\ Forall gradual rest.

Lemma sieve_sifted seq c : rewritable c -> sifted seq -> sifted (sieve seq c).
Proof.
  intros Hc Hs.
  assert (gradual c -> sifted (seq ++ [c])) as Hg.
  { intros Hg. destruct Hs as [Hs|(key & value & rest & -> & Hs)]; [left|right; exists key, value, (rest ++ [c]); split; [done|]];
      apply Forall_app; (split; [done|by constructor]). }
  destruct c; try done; try (by apply Hg); [by left|right]. by eexists _, _, [].
Qed.

Lemma run_key_app v a b : run_key v (a ++ b) = run_key (run_key v a) b.
Proof. apply foldl_app. Qed.

Lemma all_logged_app a b : forall v, all_logged v (a ++ b) <-> all_logged v a /\ all_logged (run_key v a) b.
Proof. induction a as [|c a IH]; intros v; cbn [app all_logged]; [tauto|]. rewrite IH. change (run_key v (c :: a)) with (run_key (effect c v).1 a). tauto. Qed.

(** One command more. *)
Lemma sieve_step seq c v : rewritable c -> run_key None seq = v -> all_logged None seq -> (effect c v).2 = true ->
  run_key None (sieve seq c) = (effect c v).1 /\ all_logged None (sieve seq c).
Proof.
  intros Hc <- Hs Hl.
  assert (run_key None (seq ++ [c]) = (effect c (run_key None seq)).1 /\ all_logged None (seq ++ [c])) as Hg.
  { rewrite run_key_app, all_logged_app. split; [done|]. split; [done|by split]. }
  destruct c as [| |keys| | | | | | | | | | | | | | | | | | | | | | | | | | | | | | |]; try exact Hg; cbn [sieve].
  - destruct keys as [|k []]; [done| |done]. by rewrite effect_del.
  - cbn [run_key foldl all_logged]. by rewrite !effect_set.
Qed.

Lemma sieve_all cs : forall seq, Forall rewritable cs -> all_logged None seq -> all_logged (run_key None seq) cs ->
  run_key None (foldl sieve seq cs) = run_key (run_key None seq) cs /\ all_logged None (foldl sieve seq cs).
Proof.
  induction cs as [|c cs IH]; intros seq Hcs Hs Hl; [done|]. inversion Hcs as [|? ? Hc Hcs']; subst. destruct Hl as [Hl Hls].
  destruct (sieve_step seq c _ Hc eq_refl Hs Hl) as [E Hs']. cbn [foldl].
  rewrite <- E in Hls. destruct (IH _ Hcs' Hs' Hls) as [E' H']. split; [|done]. rewrite E', E. done.
Qed.

Lemma foldl_sifted cs : forall seq, Forall rewritable cs -> sifted seq -> sifted (foldl sieve seq cs).
Proof.
  induction cs as [|c cs IH]; intros seq Hcs Hs; [done|]. inversion Hcs; subst. cbn [foldl]. apply IH; [done|by apply sieve_sifted].
Qed.

Lemma foldl_sieve_Forall (P : command -> Prop) cs : forall seq, Forall P cs -> Forall P seq -> Forall P (foldl sieve seq cs).
Proof.
  induction cs as [|c cs IH]; intros seq Hcs Hs; [done|]. inversion Hcs; subst. cbn [foldl]. apply IH; [done|].
  destruct c; cbn [sieve]; try (by constructor); by (apply Forall_app; split; [done|by constructor]).
Qed.

(** ** Simulating what is left *)

Lemma simulate_gradual cs : forall v a file, Forall gradual cs -> Forall fine cs -> all_logged v cs -> models v a ->
  exists a', simulate (logged_request <$> cs) a file = Some (a', file) /\ models (run_key v cs) a' /\
    (cs <> [] -> exists t, op_type a' = Some t /\ kind_ok (run_key v cs) t).
Proof.
  induction cs as [|c cs IH]; intros v a file Hg Hf Hl Hv; [by exists a|].
  inversion Hg as [|? ? Hg1 Hg2]; subst. inversion Hf as [|? ? Hf1 Hf2]; subst. destruct Hl as [Hl1 Hl2].
  destruct (simulate_step v a file (length (logged_request <$> cs)) Hv c Hg1 Hf1 Hl1) as (a1 & E1 & Hv1 & Ht1 & Hk1).
  destruct (IH _ a1 file Hg2 Hf2 Hl2 Hv1) as (a' & E & Hv' & Ht'). exists a'.
  cbn [fmap list_fmap simulate]. rewrite E1. cbn [mbind option_bind]. split; [exact E|]. split; [exact Hv'|]. intros _.
  change (run_key v (c :: cs)) with (run_key (effect c v).1 cs). destruct (decide (cs = [])) as [->|Hne].
  - cbn [fmap list_fmap simulate] in E. injection E as <-. by exists (kind c).
  - by apply Ht'.
Qed.

(** What is appended for the keys: a key, its value, and the words. *)
Abbreviation entry := (list ascii * option aval * list (list ascii))%type.

Section Orders.

Context (cache_order : gmap (list ascii) (list CommandCache) -> list (list ascii * list CommandCache)).
Context (hash_order : gmap (list ascii) (list ascii) -> list (list ascii * list ascii)).
Context (uset_order : gset (list ascii) -> list (list ascii)).
Context (Hcache : forall m, cache_order m ≡ₚ map_to_list m).
Context (Hhash : forall m, hash_order m ≡ₚ map_to_list m).
Context (Huset : forall s, uset_order s ≡ₚ elements s).

(** The words appended for a key that has the value. *)
Definition gives (key : list ascii) (v : option aval) (words : list (list (list ascii))) : Prop :=
  match v with
  | None => words = [] \/ words = [[bs "hset"; key]] \/ words = [[bs "sadd"; key]]
  | Some (AInt n) => in_i64 n /\ words = [[bs "set"; key; to_string n]]
  | Some (AStr s) => words = [[bs "set"; key; s]]
  | Some (AList l) => words = [bs "rpush" :: key :: l]
  | Some (ADict d) => exists items, items ≡ₚ map_to_list d /\ words = [bs "hset" :: key :: (i ← items; [i.1; i.2])]
  | Some (ASet s) => exists l, l ≡ₚ elements s /\ words = [bs "sadd" :: key :: l]
  end.

(** Its count of arguments is right. *)
Definition counts (c : CommandCache) : Prop := argc c = Z.of_nat (length (argv c)).

Lemma built_counts op key operands : counts (built op key operands).
Proof. done. Qed.

Lemma restore_gives key v a t file : models v a -> op_type a = Some t -> kind_ok v t ->
  exists rs, restore_command hash_order uset_order key a file = Some (foldl aof_Append file rs) /\
    gives key v (argv <$> rs) /\ Forall counts rs.
Proof.
  intros Hv Ht Hk. unfold restore_command. rewrite Ht. cbn [mbind option_bind].
  assert (forall op operands, Forall counts [built op key operands]) as Hc by (intros; apply Forall_singleton, built_counts).
  destruct v as [[n|s|l|d|s]|]; cbn [kind_ok models gives] in *.
  - exists [built (bs "set") key [aux_string a]]. destruct Hv as [-> ?]. by destruct Hk as [-> | ->].
  - exists [built (bs "set") key [aux_string a]]. rewrite Hv. by destruct Hk as [-> | ->].
  - exists [built (bs "rpush") key (aux_list a)]. by rewrite Hk, Hv.
  - exists [built (bs "hset") key (kv ← hash_order (aux_hash a); [kv.1; kv.2])]. rewrite Hk, Hv. split; [done|]. split; [|done].
    exists (hash_order d). split; [apply Hhash|done].
  - exists [built (bs "sadd") key (uset_order (aux_uset a))]. rewrite Hk, Hv. split; [done|]. split; [|done].
    exists (uset_order s). split; [apply Huset|done].
  - rewrite Hv. cbn [aux_hash aux_uset aux_list aux_string].
    assert (hash_order ∅ = []) as -> by (apply Permutation_nil_r; by rewrite Hhash, map_to_list_empty).
    assert (uset_order ∅ = []) as -> by (apply Permutation_nil_r; by rewrite Huset, elements_empty).
    destruct Hk as [-> | ->].
    + exists [built (bs "hset") key []]. split; [done|]. split; [|done]. by right; left.
    + exists [built (bs "sadd") key []]. split; [done|]. split; [|done]. by right; right.
Qed.

(** The commands of a key, all logged, give one that gives their value. *)
Lemma process_key_gives clock file key cs : cs <> [] -> Forall rewritable cs -> Forall fine cs ->
  Forall (λ c, cmd_key c = key) cs -> all_logged None cs ->
  exists rs, process_key hash_order uset_order clock file (key, logged_request <$> cs) = Some (foldl aof_Append file rs) /\
    gives key (run_key None cs) (argv <$> rs) /\ Forall counts rs.
Proof.
  intros Hne Hr Hf Hk Hl. unfold process_key. cbn [snd].
  assert (exists front, head (logged_request <$> cs) = Some front /\ argv front !! 1%nat = Some key) as (front & Eh & Ek).
  { destruct cs as [|c cs]; [done|]. inversion Hr; inversion Hk; subst. eexists. split; [done|]. cbn [argv logged_request request].
    by destruct (rewritable_args c) as (op & rest & ->). }
  rewrite Eh. cbn [mbind option_bind]. rewrite Ek. cbn [mbind option_bind].
  pose proof (sift_commands (clock key) cs O [] Hr) as Es. change (logged_request <$> []) with ([] : list CommandCache) in Es.
  rewrite Es. clear Es. cbn [mbind option_bind].
  destruct (sieve_all cs [] Hr I Hl) as [E0 Hl']. change (run_key None cs) with (run_key (run_key None []) cs). rewrite <- E0. clear E0.
  assert (Forall fine (foldl sieve [] cs)) as Hf' by (by apply foldl_sieve_Forall).
  destruct (foldl_sifted cs [] Hr ltac:(by left)) as [Hg|(k & value & rest & E & Hg)].
  - revert Hl' Hf' Hg. generalize (foldl sieve [] cs). intros seq Hl' Hf' Hg. case_decide as Es.
    { apply fmap_nil_inv in Es as ->. exists []. split; [done|]. split; [by left|constructor]. }
    destruct (simulate_gradual seq None aux_new file Hg Hf' Hl' eq_refl) as (a & E & Hv & Ht).
    destruct Ht as (t & Ht & Hkt); [by intros ->|]. rewrite E. cbn [mbind option_bind]. by eapply restore_gives.
  - assert (k = key) as ->.
    { pose proof (foldl_sieve_Forall (λ c, cmd_key c = key) cs [] Hk ltac:(constructor)) as H. rewrite E in H. by inversion H. }
    rewrite E in *. cbn [all_logged] in Hl'. destruct Hl' as [_ Hl']. inversion Hf' as [|? ? _ Hf2]; subst.
    change (run_key None (CSet key value :: rest)) with (run_key (effect (CSet key value) None).1 rest).
    rewrite effect_set in *. cbn [fst] in *. rewrite decide_False by done.
    destruct (decide (rest = [])) as [->|Hrest].
    + exists [logged_request (CSet key value)]. split; [done|]. split; [|by apply Forall_singleton]. cbn [run_key foldl]. unfold scalar.
      destruct (CanConvertToInt64 value) as [n|] eqn:Ec; [|done]. by apply CanConvertToInt64_iff in Ec as [? ->].
    + change (simulate (logged_request <$> CSet key value :: rest) aux_new file) with
        ('(a, file) ← simulate_op (logged_request (CSet key value)) (length (logged_request <$> rest)) aux_new file;
         simulate (logged_request <$> rest) a file).
      assert (simulate_op (logged_request (CSet key value)) (length (logged_request <$> rest)) aux_new file =
        Some (with_string OP_TYPE_OTHER value 0 aux_new, file)) as -> by (by destruct rest). cbn [mbind option_bind].
      destruct (simulate_gradual rest (Some (scalar value)) (with_string OP_TYPE_OTHER value 0 aux_new) file Hg Hf2 Hl')
        as (a & Es & Hv & Ht).
      { unfold scalar. destruct (CanConvertToInt64 value) as [n|] eqn:Ec; [|done].
        by apply CanConvertToInt64_iff in Ec as [? ->]. }
      destruct (Ht Hrest) as (t & Ht1 & Hkt). rewrite Es. cbn [mbind option_bind]. by eapply restore_gives.
Qed.

(** ** All the keys *)

Lemma populate_commands cs : forall m, Forall rewritable cs ->
  exists m', run_all populate_caches_func m (cmd_args <$> cs) = Some m' /\
    forall key, m' !! key = if decide (of_key key cs = []) then m !! key
                            else Some (default [] (m !! key) ++ (logged_request <$> of_key key cs)).
Proof.
  induction cs as [|c cs IH]; intros m Hcs; [by exists m|]. inversion Hcs as [|? ? Hc Hcs']; subst.
  destruct (rewritable_args c Hc) as (op & rest & Ea).
  destruct (IH (<[cmd_key c := default [] (m !! cmd_key c) ++ [logged_request c]]> m) Hcs') as (m' & E & H).
  exists m'. split.
  - cbn [fmap list_fmap run_all].
    assert (populate_caches_func m (request (cmd_args c)) =
      Some (<[cmd_key c := default [] (m !! cmd_key c) ++ [logged_request c]]> m)) as ->; [|exact E].
    unfold populate_caches_func. cbn [argv request]. by rewrite Ea at 1.
  - intros key. rewrite H. unfold of_key. rewrite filter_cons. destruct (decide (cmd_key c = key)) as [->|Hne].
    + rewrite lookup_insert_eq. rewrite (decide_False (P := _ :: _ = [])) by done. case_decide as Ef; [rewrite Ef; done|].
      cbn [default fmap list_fmap]. unfold id. by rewrite <- app_assoc.
    + by rewrite lookup_insert_ne.
Qed.

Definition entry_ok (e : entry) : Prop := gives e.1.1 e.1.2 [e.2].

Lemma gives_one key v words : gives key v words -> (words = [] /\ v = None) \/ exists w, words = [w].
Proof.
  destruct v as [[n|s|l|d|s]|]; cbn [gives]; [intros [_ ->]|intros ->|intros ->|intros (? & _ & ->)|intros (? & _ & ->)|intros [->|[->| ->]]]; eauto.
Qed.

Lemma gives_key key v w : gives key v [w] -> w !! 1%nat = Some key.
Proof.
  destruct v as [[n|s|l|d|s]|]; cbn [gives];
    [intros [_ [= ->]]|intros [= ->]|intros [= ->]|intros (? & _ & [= ->])|intros (? & _ & [= ->])|intros [?|[[= ->]|[= ->]]]]; done.
Qed.

Lemma process_keys_gives clock (log : list command) (items : list (list ascii * list CommandCache)) : forall file,
  Forall plain log -> Forall fine log -> log_of ∅ log = log ->
  (forall key cs, (key, cs) ∈ items -> cs <> [] /\ cs = logged_request <$> of_key key log /\ NUL ∉ key) ->
  exists rs (es : list entry), process_keys hash_order uset_order clock items file = Some (foldl aof_Append file rs) /\
    Forall counts rs /\ argv <$> rs = es.*2 /\ es.*1.*1 `sublist_of` items.*1 /\ Forall entry_ok es /\
    Forall (λ e, e.1.2 = store_after log !! e.1.1) es /\
    (forall key, key ∈ items.*1 -> is_Some (store_after log !! key) -> key ∈ es.*1.*1).
Proof.
  induction items as [|[key cs] items IH]; intros file Hp Hf Hl Hitems.
  { exists [], []. cbn. split; [done|]. split; [constructor|]. repeat split; [constructor|constructor|constructor|]. intros key H. by apply not_elem_of_nil in H. }
  destruct (Hitems key cs ltac:(by left)) as (Hne & -> & Hn).
  assert (store_after log !! key = run_key None (of_key key log)) as Ev.
  { unfold store_after. rewrite <- (Key_std_plain key Hn) at 1. by rewrite spec_run_key, lookup_empty. }
  assert (forall P : command -> Prop, Forall P log -> Forall P (of_key key log)) as Hsub.
  { intros P H. unfold of_key. apply Forall_forall. intros c Hc. apply list_elem_of_filter in Hc as [_ Hc]. by eapply Forall_forall in H. }
  destruct (process_key_gives clock file key (of_key key log)) as (rs1 & E1 & Hg & Hcs1).
  { intros E. by rewrite E in Hne. }
  { apply Hsub. eapply Forall_impl; [exact Hp|]. by intros c [? _]. }
  { by apply Hsub. }
  { apply Forall_forall. intros c Hc. by apply list_elem_of_filter in Hc as [? _]. }
  { rewrite <- (lookup_empty (Key_std key)). by apply logged_key. }
  rewrite <- Ev in Hg.
  destruct (IH (foldl aof_Append file rs1) Hp Hf Hl) as (rs & es & E & Hcs & Ew & Hs & Ho & Hvs & Hall).
  { intros key' cs' Hin. apply Hitems. by right. }
  destruct (gives_one _ _ _ Hg) as [[E0 Ev0]|[w E0]].
  - apply fmap_nil_inv in E0 as ->. exists rs, es. cbn [process_keys]. rewrite E1. cbn [mbind option_bind].
    split; [exact E|]. split; [exact Hcs|]. repeat split; [done|by constructor|done|done|]. intros key' Hin [a Ha]. cbn in Hin. apply elem_of_cons in Hin as [-> |Hin].
    + by rewrite Ha in Ev0.
    + apply Hall; [done|by eexists].
  - exists (rs1 ++ rs), ((key, store_after log !! key, w) :: es). cbn [process_keys]. rewrite E1. cbn [mbind option_bind].
    rewrite foldl_app, fmap_app, E0, Ew. split; [exact E|]. split; [by apply Forall_app|]. repeat split; [by constructor| | |].
    + constructor; [|done]. unfold entry_ok. cbn [fst snd]. by rewrite <- E0.
    + by constructor.
    + intros key' Hin Ha. cbn in Hin |- *. apply elem_of_cons in Hin as [-> |Hin]; [by left|]. right. by apply Hall.
Qed.

End Orders.

(** ** The new file replayed *)

(** The value after the rewriting: a text that is a number becomes one, and an empty
    container is lost. *)
Definition rewritten (a : aval) : option aval :=
  match a with
  | AInt _ => Some a
  | AStr s => Some (scalar s)
  | AList l => if decide (l = []) then None else Some a
  | ADict d => if decide (d = ∅) then None else Some a
  | ASet s => if decide (s = ∅) then None else Some a
  end.

(** The value fits in one command. *)
Definition storable (a : aval) : Prop :=
  match a with
  | AInt _ => True
  | AStr s => small s
  | AList l => all_small l
  | ADict d => map_Forall (λ f v, small f /\ small v) d /\ Z.of_nat (size d) < 2 ^ 30
  | ASet s => set_Forall small s /\ Z.of_nat (size s) < 2 ^ 30
  end.

Lemma small_number n : in_i64 n -> small (to_string n).
Proof. intros H. pose proof (to_string_i64_length n H). unfold small. lia. Qed.

Lemma scalar_number n : in_i64 n -> scalar (to_string n) = AInt n.
Proof. intros H. unfold scalar. by rewrite (proj2 (CanConvertToInt64_iff (to_string n) n)). Qed.

Lemma set_fields_items items : forall d, set_fields d items.*1 items.*2 = foldl add_item d items.
Proof. induction items as [|[f v] items IH]; intros d; [done|]. cbn. apply IH. Qed.

Lemma set_fields_map d items : items ≡ₚ map_to_list d -> set_fields ∅ items.*1 items.*2 = d.
Proof.
  intros H. rewrite set_fields_items. apply map_to_list_inj. rewrite add_items_list_to_map; [done|].
  rewrite H. apply NoDup_fst_map_to_list.
Qed.

Lemma foldl_add_elem l : forall (s : gset (list ascii)) x, x ∈ foldl (λ s x, {[x]} ∪ s) s l <-> x ∈ s \/ x ∈ l.
Proof.
  induction l as [|y l IH]; intros s x; cbn [foldl].
  - rewrite elem_of_nil. tauto.
  - rewrite IH, elem_of_cons, elem_of_union, elem_of_singleton. tauto.
Qed.

Lemma add_members_set s l : l ≡ₚ elements s -> (add_members ∅ l 0).1 = s.
Proof.
  intros H. rewrite add_members_foldl. apply set_eq. intros x. rewrite foldl_add_elem, H, elem_of_elements, elem_of_empty. tauto.
Qed.

(** The command an entry is, if it is complete. *)
Lemma entry_command key a w : gives key (Some a) [w] -> storable a -> rewritten a <> None ->
  exists c, w = cmd_args c /\ forall m : astore, m !! Key_std key = None ->
    cmd_ok m c /\ (cmd_spec m c).1.1 = partial_alter (λ _, rewritten a) (Key_std key) m.
Proof.
  intros Hg Hs Hr.
  assert (forall (m : astore) c o, cmd_op c = Some o -> op_key o = key -> m !! Key_std key = None -> args_ok o ->
    forall o', cmd_op c = Some o' -> op_ok m o') as Hop.
  { intros m c o E Ek Hm Ha o' E'. rewrite E in E'. injection E' as <-. split; [done|]. intros b. by rewrite Ek, Hm. }
  destruct a as [n|s|l|d|s]; cbn [gives rewritten storable] in *.
  - destruct Hg as [Hn [= ->]]. exists (CSet key (to_string n)). split; [done|]. intros m Hm. split.
    + split; [done|]. split; [|done]. eapply (Hop m); [done..|by apply small_number].
    + cbn [cmd_spec fst]. by rewrite scalar_number.
  - injection Hg as ->. exists (CSet key s). split; [done|]. intros m Hm. split; [|done].
    split; [done|]. split; [|done]. by eapply (Hop m).
  - injection Hg as ->. case_decide; [done|]. exists (CPush false key l). split; [done|]. intros m Hm. split.
    + split; [done|]. split; [|done]. by eapply (Hop m).
    + cbn [cmd_spec]. unfold modify. by rewrite Hm.
  - destruct Hg as (items & Hi & [= ->]). case_decide as Hd; [done|]. exists (CHSet key items). split; [done|]. intros m Hm.
    destruct Hs as [Hs Hsize]. rewrite map_Forall_to_list, <- Hi in Hs.
    assert (length items = size d) as Hlen by (by rewrite Hi, length_map_to_list). split.
    + split; [|split; [|done]].
      * cbn [complete]. intros ->. apply Hd. by rewrite <- (set_fields_map d []).
      * eapply (Hop m); [done..|]. change (all_small items.*1 /\ all_small items.*2). unfold all_small. rewrite !length_fmap, !Forall_fmap, Hlen.
        split; (split; [|done]); (eapply Forall_impl; [exact Hs|]); by intros [f v] [? ?].
    + cbn [cmd_spec]. unfold modify. rewrite Hm. cbn [fst]. by rewrite (set_fields_map d items Hi).
  - destruct Hg as (l & Hl & [= ->]). case_decide as Hd; [done|]. exists (CSAdd key l). split; [done|]. intros m Hm.
    destruct Hs as [Hs Hsize]. rewrite set_Forall_elements, <- Hl in Hs. split.
    + split; [|split; [|done]].
      * cbn [complete]. intros ->. apply Hd. by rewrite <- (add_members_set s []).
      * eapply (Hop m); [done..|]. split; [exact Hs|]. by rewrite Hl.
    + cbn [cmd_spec]. unfold modify. rewrite Hm. pose proof (add_members_set s l Hl) as E.
      destruct (add_members _ _ _). cbn [fst] in *. by rewrite E.
Qed.

(** An entry of a key without elements is refused. *)
Lemma entry_refused env e sv key v w : gives key v [w] -> (v ≫= rewritten) = None -> IfNeedKeyEviction env e = false ->
  exists reply, HandleCommand env false e sv None (request w) =
    Some (with_data (container_ e) ((λ a, SetAutoFlush a false) <$> appending_ e) e, sv, reply).
Proof.
  intros Hg Hv He.
  assert (w = [bs "hset"; key] \/ w = [bs "sadd"; key] \/ w = [bs "rpush"; key]) as Hw.
  { destruct v as [[n|s|l|d|s]|]; cbn [gives mbind option_bind rewritten] in *; try done.
    - injection Hg as ->. case_decide; [subst; tauto|done].
    - destruct Hg as (items & Hi & [= ->]). case_decide as Hd; [|done]. subst. rewrite map_to_list_empty in Hi.
      apply Permutation_nil_r in Hi as ->. tauto.
    - destruct Hg as (l & Hl & [= ->]). case_decide as Hd; [|done]. subst. rewrite elements_empty in Hl.
      apply Permutation_nil_r in Hl as ->. tauto.
    - destruct Hg as [?|[[= ->]|[= ->]]]; [done|tauto|tauto]. }
  destruct Hw as [-> | [-> | ->]].
  - eexists. apply (refused env false e sv None (bs "hset") (bs "hset") [key] (OnData HSetCommand)); [reflexivity|done|done|by intros].
  - eexists. apply (refused env false e sv None (bs "sadd") (bs "sadd") [key] (OnData SAddCommand)); [reflexivity|done|done|by intros].
  - eexists. apply (refused env false e sv None (bs "rpush") (bs "rpush") [key] (OnData RPushCommand)); [reflexivity|done|done|by intros].
Qed.

(** The store after the entries. *)
Definition put_entry (m : astore) (e : entry) : astore :=
  match e.1.2 ≫= rewritten with Some a => <[Key_std e.1.1 := a]> m | None => m end.

Definition entry_fits (e : entry) : Prop := entry_ok e /\ match e.1.2 with Some a => storable a | None => True end.

Lemma replay_entries (envs : nat -> Env) (sv : Server) (es : list entry) : forall (e : Engine) (i : nat) (m : astore),
  kv_repr (container_ e) m -> enough_memory envs e -> Forall entry_fits es -> NoDup (Key_std <$> es.*1.*1) ->
  (forall k, k ∈ Key_std <$> es.*1.*1 -> m !! k = None) ->
  exists e' j, run_all (replay_command envs sv) (e, i) es.*2 = Some (e', j) /\ kv_repr (container_ e') (foldl put_entry m es).
Proof.
  induction es as [|[[key v] w] es IH]; intros e i m Hr He Hes Hnd Hm; [by exists e, i|].
  inversion Hes as [|? ? [Ho Hst] Hes']; subst. unfold entry_ok in Ho. cbn [fst snd] in *.
  cbn [fmap list_fmap] in Hnd, Hm. apply NoDup_cons in Hnd as [Hk Hnd].
  assert (exists e1 reply, HandleCommand (envs i) false e sv None (request w) = Some (e1, sv, reply) /\
    kv_repr (container_ e1) (put_entry m (key, v, w)) /\ rss_limit e1 = rss_limit e) as (e1 & reply & Hh & Hr1 & Hrss).
  { unfold put_entry. cbn [fst snd]. destruct (v ≫= rewritten) as [a'|] eqn:Ev.
    - destruct v as [a|]; [|done]. cbn [mbind option_bind] in Ev.
      destruct (entry_command key a w Ho Hst) as (c & -> & Hc); [by rewrite Ev|].
      destruct (Hc m ltac:(apply Hm; by left)) as [Hok E].
      destruct (HandleCommand_serves (envs i) false e m c (opcode c) Hr Hok (enough_memory_ok _ _ i He) (tolower_opcode c))
        as (e1 & reply & Hh & Ee & Hr1 & _). exists e1, reply. rewrite cmd_args_cons. split; [apply Hh|]. rewrite E, Ev in Hr1.
      split; [exact Hr1|]. by rewrite Ee.
    - destruct (entry_refused (envs i) e sv key v w Ho Ev (enough_memory_ok _ _ i He)) as (reply & Hh).
      by eexists _, reply. }
  destruct (IH e1 (S i) (put_entry m (key, v, w)) Hr1) as (e' & j & Hrun & Hr').
  { intros n. rewrite Hrss. apply He. }
  { done. }
  { done. }
  { intros k Hin. unfold put_entry. cbn [fst snd]. destruct (v ≫= rewritten); [|by apply Hm; right].
    rewrite lookup_insert_ne by (intros <-; done). by apply Hm; right. }
  exists e', j. split; [|exact Hr']. cbn [fmap list_fmap run_all snd].
  assert (replay_command envs sv (e, i) (request w) = Some (e1, S i)) as ->; [|exact Hrun].
  unfold replay_command. cbn [fst snd]. by rewrite Hh.
Qed.

Lemma put_all_other (es : list entry) (k : list ascii) : forall m, k ∉ Key_std <$> es.*1.*1 -> foldl put_entry m es !! k = m !! k.
Proof.
  induction es as [|[[key v] w] es IH]; intros m Hk; [done|]. cbn [fmap list_fmap fst] in Hk. rewrite not_elem_of_cons in Hk.
  cbn [foldl]. rewrite IH by tauto. unfold put_entry. cbn [fst snd]. destruct (v ≫= rewritten); [|done].
  rewrite lookup_insert_ne; [done|]. intros <-. tauto.
Qed.

Lemma put_all (es : list entry) : forall (m : astore) e, NoDup (Key_std <$> es.*1.*1) -> e ∈ es -> m !! Key_std e.1.1 = None ->
  foldl put_entry m es !! Key_std e.1.1 = e.1.2 ≫= rewritten.
Proof.
  induction es as [|[[key v] w] es IH]; intros m e Hnd Hin Hm; [by apply not_elem_of_nil in Hin|].
  cbn [fmap list_fmap fst] in Hnd. apply NoDup_cons in Hnd as [Hk Hnd]. cbn [foldl]. apply elem_of_cons in Hin as [-> |Hin].
  - cbn [fst snd] in *. rewrite put_all_other by done. unfold put_entry. cbn [fst snd].
    destruct (v ≫= rewritten); [by rewrite lookup_insert_eq|done].
  - apply IH; [done..|]. unfold put_entry. cbn [fst snd]. destruct (v ≫= rewritten); [|done].
    rewrite lookup_insert_ne; [done|]. intros E. apply Hk. rewrite E. apply list_elem_of_fmap. exists e.1.1.
    split; [done|]. apply list_elem_of_fmap. exists e.1. split; [done|]. apply list_elem_of_fmap. by exists e.
Qed.

(** ** The whole file *)

Lemma cmds_ok_fine cs : forall m, cmds_ok m cs -> Forall fine cs.
Proof. induction cs as [|c cs IH]; intros m Hok; [done|]. destruct Hok as [Hok Hoks]. constructor; [by eapply cmd_ok_fine|by eapply IH]. Qed.

(** The log of a log. *)
Lemma log_of_log cs : forall m, no_empty_pops m cs -> log_of m (log_of m cs) = log_of m cs.
Proof.
  induction cs as [|c cs IH]; intros m Hp; [done|]. destruct Hp as [Hp1 Hp]. cbn [log_of].
  destruct (cmd_spec m c).2 eqn:El; cbn [app].
  - cbn [log_of]. rewrite El. cbn [app]. by rewrite IH.
  - by rewrite (unlogged_same m c El Hp1) in *; apply IH.
Qed.

Section Whole.

Context (cache_order : gmap (list ascii) (list CommandCache) -> list (list ascii * list CommandCache)).
Context (hash_order : gmap (list ascii) (list ascii) -> list (list ascii * list ascii)).
Context (uset_order : gset (list ascii) -> list (list ascii)).
Context (Hcache : forall m, cache_order m ≡ₚ map_to_list m).
Context (Hhash : forall m, hash_order m ≡ₚ map_to_list m).
Context (Huset : forall s, uset_order s ≡ₚ elements s).

(** What is appended, and that it is about each key once. *)
Lemma RemoveRedundancy_gives clock file chunks (log : list command) :
  Forall plain log -> Forall fine log -> log_of ∅ log = log ->
  concat chunks = file_of (cmd_args <$> log) -> Forall (λ p, p <> []) chunks ->
  room [] chunks (Buffer_new 64) cache_Clear -> Z.of_nat (length (concat chunks)) <= INT64_MAX ->
  exists rs (es : list entry),
    RemoveRedundancy cache_order hash_order uset_order clock (Some chunks) file = Some (foldl aof_Append file rs) /\
    Forall counts rs /\ argv <$> rs = es.*2 /\ NoDup es.*1.*1 /\ Forall entry_ok es /\
    Forall (λ e, e.1.2 = store_after log !! e.1.1 /\ NUL ∉ e.1.1) es /\
    (forall k, is_Some (store_after log !! k) -> k ∈ es.*1.*1 /\ NUL ∉ k).
Proof.
  intros Hp Hf Hl Hc Hne Hroom Hsize.
  destruct (populate_commands log ∅) as (M & EM & HM); [by eapply Forall_impl; [exact Hp|]; intros c [? _]|].
  assert (forall key cs, (key, cs) ∈ cache_order M -> cs <> [] /\ cs = logged_request <$> of_key key log /\ NUL ∉ key) as Hitems.
  { intros key cs Hin. rewrite Hcache in Hin. apply elem_of_map_to_list in Hin. rewrite HM, lookup_empty in Hin.
    case_decide as E; [done|]. injection Hin as <-. cbn [default app]. unfold id. split; [by intros ?%fmap_nil_inv|].
    split; [done|]. destruct (of_key key log) as [|c cs] eqn:Ek; [done|].
    assert (c ∈ of_key key log) as Hc' by (rewrite Ek; by left). apply list_elem_of_filter in Hc' as [<- Hc'].
    rewrite Forall_forall in Hp. by apply Hp in Hc' as [_ ?]. }
  destruct (process_keys_gives hash_order uset_order Hhash Huset clock log (cache_order M) file Hp Hf Hl Hitems)
    as (rs & es & E & Hcs & Ew & Hsub & Ho & Hv & Hall).
  exists rs, es. split.
  { unfold RemoveRedundancy. rewrite (CommonOperation_all populate_caches_func ∅ (cmd_args <$> log) chunks) by (by rewrite <- ?Hc).
    rewrite EM. exact E. }
  do 2 (split; [done|]). split.
  { eapply sublist_NoDup; [|exact Hsub]. rewrite Hcache. apply NoDup_fst_map_to_list. }
  split; [done|]. split.
  - apply Forall_forall. intros e He. rewrite Forall_forall in Hv. split; [by apply Hv|].
    assert (e.1.1 ∈ (cache_order M).*1) as Hin.
    { eapply elem_of_submseteq; [|by apply sublist_submseteq, Hsub]. apply list_elem_of_fmap. exists e.1. split; [done|].
      apply list_elem_of_fmap. by exists e. }
    apply list_elem_of_fmap in Hin as ([key cs] & E1 & Hin). apply Hitems in Hin. rewrite E1. apply Hin.
  - intros k [a Ha]. destruct (spec_run_dom log ∅ Hp k a Ha) as [H0|(c & Hin & ->)]; [by rewrite lookup_empty in H0|].
    pose proof Hin as Hc'. rewrite Forall_forall in Hp. apply Hp in Hc' as [_ Hn]. split; [|done].
    apply Hall; [|by eexists]. apply list_elem_of_fmap. exists (cmd_key c, logged_request <$> of_key (cmd_key c) log).
    split; [done|]. rewrite Hcache. apply elem_of_map_to_list. rewrite HM, lookup_empty, decide_False; [done|].
    intros E0. assert (c ∈ of_key (cmd_key c) log) as H0 by (by apply list_elem_of_filter). rewrite E0 in H0. by apply not_elem_of_nil in H0.
Qed.

(** What is appended, and what it is worth to an engine. *)
Lemma compaction (clock : list ascii -> nat -> Z * Z) (file : AppendableFile) (chunks : list (list ascii))
    (cmds : list command) :
  cmds_ok ∅ cmds -> no_empty_pops ∅ cmds -> Forall plain (log_of ∅ cmds) ->
  (forall k a, store_after cmds !! k = Some a -> storable a) ->
  concat chunks = print_all (logged_request <$> log_of ∅ cmds) -> Forall (λ p, p <> []) chunks ->
  room [] chunks (Buffer_new 64) cache_Clear -> Z.of_nat (length (concat chunks)) <= INT64_MAX ->
  exists rs, RemoveRedundancy cache_order hash_order uset_order clock (Some chunks) file = Some (foldl aof_Append file rs) /\
    Forall counts rs /\ NoDup ((λ w, w !! 1%nat) <$> (argv <$> rs)) /\
    forall envs e sv words, kv_repr (container_ e) ∅ -> enough_memory envs e -> words ≡ₚ argv <$> rs ->
      exists e' j, run_all (replay_command envs sv) (e, O) words = Some (e', j) /\
        kv_repr (container_ e') (omap rewritten (store_after cmds)).
Proof.
  intros Hok Hpops Hp Hst Hc Hne Hroom Hsize. rewrite logged_file in Hc.
  destruct (log_replays cmds ∅ Hpops Hok) as [Estore Hokl]. pose proof (log_of_log cmds ∅ Hpops) as Hll. set (log := log_of ∅ cmds) in *.
  destruct (RemoveRedundancy_gives clock file chunks log Hp (cmds_ok_fine _ _ Hokl) Hll Hc Hne Hroom Hsize)
    as (rs & es & E & Hcs & Ew & Hnd & Ho & Hv & Hall).
  exists rs. split; [exact E|]. split; [exact Hcs|].
  assert (forall es', es' ≡ₚ es -> Key_std <$> es'.*1.*1 = es'.*1.*1) as Hkeys.
  { intros es' Hes. rewrite <- (list_fmap_id (es'.*1.*1)) at 2. apply list_fmap_ext. intros i k Hk.
    apply list_elem_of_lookup_2, list_elem_of_fmap in Hk as (kv & -> & Hk). apply list_elem_of_fmap in Hk as (en & -> & Hk).
    rewrite Hes in Hk. rewrite Forall_forall in Hv. by apply Key_std_plain, Hv. }
  split.
  - rewrite Ew. assert ((λ w, w !! 1%nat) <$> es.*2 = Some <$> es.*1.*1) as ->.
    { rewrite <- !list_fmap_compose. apply list_fmap_ext. intros i [[key v] w] Hin. apply list_elem_of_lookup_2 in Hin.
      rewrite Forall_forall in Ho. apply Ho in Hin. unfold entry_ok in Hin. cbn [fst snd compose] in *.
      by apply gives_key in Hin. }
    by apply NoDup_fmap_2; [intros ? ? [=]|].
  - intros envs e sv words Hr He Hw. rewrite Ew in Hw. apply Permutation_map_inv in Hw as (es' & -> & Hes).
    destruct (replay_entries envs sv es' e O ∅ Hr He) as (e' & j & Hrun & Hr').
    { rewrite <- Hes. apply Forall_forall. intros en Hin. rewrite Forall_forall in Ho, Hv. split; [by apply Ho|].
      pose proof (Hv en Hin) as [E1 _]. destruct en.1.2 as [a|]; [|done]. eapply Hst. unfold store_after in *. by rewrite <- Estore, <- E1. }
    { rewrite Hkeys by done. by rewrite <- Hes. }
    { intros k _. apply lookup_empty. }
    exists e', j. split; [exact Hrun|]. assert (foldl put_entry ∅ es' = omap rewritten (store_after cmds)) as <-; [|exact Hr'].
    apply map_eq. intros k. rewrite lookup_omap. assert (store_after cmds = store_after log) as -> by (unfold store_after; by rewrite Estore).
    destruct (decide (k ∈ es'.*1.*1)) as [Hk|Hk].
    + apply list_elem_of_fmap in Hk as (kv & -> & Hk). apply list_elem_of_fmap in Hk as (en & -> & Hk).
      assert (en ∈ es) as Hk' by (by rewrite Hes). rewrite Forall_forall in Hv. apply Hv in Hk' as [E1 Hn].
      rewrite <- (Key_std_plain en.1.1 Hn) at 1. rewrite put_all; [by rewrite E1|rewrite Hkeys by done; by rewrite <- Hes|done|apply lookup_empty].
    + rewrite put_all_other by (by rewrite Hkeys). rewrite lookup_empty. destruct (store_after log !! k) as [a|] eqn:Ea; [|done].
      destruct (Hall k ltac:(by eexists)) as [Hin _]. rewrite Hes in Hin. done.
Qed.

(** C7. Compacting the append-only file keeps the data. The file is the log of a run of data
    commands, each within its bounds, none popping an empty string (src/net/commands.cpp:640),
    and the logged ones [plain]: of the kinds the compaction knows, a [del] of one key only
    (src/persistence.cpp:205), no [lsetindex] that counts from the end
    (src/persistence.cpp:285), no key with a NUL; the final values fit in a command
    ([storable]); the file is read in pieces for which the buffer has room; the new engine does
    not have to evict. Then, whatever the orders in which the unordered containers are
    traversed, [RemoveRedundancy] reads the file without an error, appends at most one command
    for a key, and a new engine on which these are replayed, in any order, has the store of the
    old one after [rewritten]: a text that is the decimal of an [int64_t] has become the
    integer, and the keys of empty containers are gone. *)
Theorem RemoveRedundancy_preserves (clock : list ascii -> nat -> Z * Z) (file : AppendableFile) (chunks : list (list ascii))
    (cmds : list command) (envs : nat -> Env) (e : Engine) (sv : Server) :
  cmds_ok ∅ cmds -> no_empty_pops ∅ cmds -> Forall plain (log_of ∅ cmds) ->
  (forall k a, store_after cmds !! k = Some a -> storable a) ->
  concat chunks = print_all (logged_request <$> log_of ∅ cmds) -> Forall (λ p, p <> []) chunks ->
  room [] chunks (Buffer_new 64) cache_Clear -> Z.of_nat (length (concat chunks)) <= INT64_MAX ->
  kv_repr (container_ e) ∅ -> enough_memory envs e ->
  exists rs, RemoveRedundancy cache_order hash_order uset_order clock (Some chunks) file = Some (foldl aof_Append file rs) /\
    NoDup ((λ w, w !! 1%nat) <$> (argv <$> rs)) /\
    forall words, words ≡ₚ argv <$> rs ->
      exists e' j, run_all (replay_command envs sv) (e, O) words = Some (e', j) /\
        kv_repr (container_ e') (omap rewritten (store_after cmds)).
Proof.
  intros Hok Hpops Hp Hst Hc Hne Hroom Hsize Hr He.
  destruct (compaction clock file chunks cmds Hok Hpops Hp Hst Hc Hne Hroom Hsize) as (rs & E & _ & Hnd & H).
  exists rs. do 2 (split; [done|]). intros words. by apply H.
Qed.

End Whole.

(** A text is read as before; the rest is unchanged. *)
Lemma rewritten_text a : v_scalar a <> None -> (rewritten a ≫= v_scalar) = v_scalar a.
Proof. destruct a; try done. intros _. cbn. apply v_scalar_scalar. Qed.

(** ** Pending expirations *)

Definition is_expireat (c : CommandCache) : Prop := argv c !! O = Some (bs "expireat").

Lemma simulate_expireat seq : forall a file, Exists is_expireat seq -> simulate seq a file = None.
Proof.
  induction seq as [|c seq IH]; intros a file H; [by apply Exists_nil in H|]. cbn [simulate]. apply Exists_cons in H as [H|H].
  - unfold simulate_op. rewrite H. reflexivity.
  - destruct (simulate_op c (length seq) a file) as [[a' file']|]; [|done]. cbn [mbind option_bind]. by apply IH.
Qed.

(** A command that cannot remove what is before it. *)
Definition keeps_before (c : CommandCache) : Prop :=
  forall op, argv c !! O = Some op -> op <> bs "del" /\ op <> bs "set" /\ op <> bs "expireat".

Lemma sift_keeps clock cs : forall i seq seq', Forall keeps_before cs -> sift clock i cs seq = Some seq' ->
  Exists is_expireat seq -> Exists is_expireat seq'.
Proof.
  induction cs as [|c cs IH]; intros i seq seq' Hcs H Hs; cbn [sift] in H; [by injection H as <-|].
  inversion Hcs as [|? ? Hc Hcs']; subst. destruct (argv c !! O) as [op|] eqn:Eo; [|done]. cbn [mbind option_bind] in H.
  destruct (Hc op Eo) as (H1 & H2 & H3). rewrite decide_False in H by done. rewrite decide_False in H by tauto.
  cbn [mbind option_bind] in H. rewrite decide_True in H by done. eapply IH; [done|exact H|]. apply Exists_app. by left.
Qed.

Lemma sift_pending clock key t before after : forall i seq seq', in_u64 t -> (forall n, (clock n).2 < t) ->
  Forall keeps_before after -> sift clock i (before ++ request [bs "expireat"; key; to_string t] :: after) seq = Some seq' ->
  Exists is_expireat seq'.
Proof.
  induction before as [|c before IH]; intros i seq seq' Ht Hclock Ha H; cbn [app] in H.
  - change (sift clock i (request [bs "expireat"; key; to_string t] :: after) seq) with
      (sift clock (S i) after (if (clock i).2 >=? default (clock i).1 (CanConvertToUInt64 (to_string t)) then []
                               else seq ++ [request [bs "expireat"; key; to_string t]])) in H.
    rewrite CanConvertToUInt64_to_string in H by done. cbn [default] in H. unfold id in H.
    destruct (Z.geb_spec (clock i).2 t) as [Hge|]; [specialize (Hclock i); lia|].
    eapply sift_keeps; [exact Ha|exact H|]. apply Exists_app. right. by apply Exists_cons_hd.
  - cbn [sift] in H. destruct (argv c !! O) as [op|]; [|done]. cbn [mbind option_bind] in H.
    match type of H with (?x ≫= _) = _ => destruct x as [seq1|]; [|done] end. cbn [mbind option_bind] in H.
    by eapply IH.
Qed.

(** The requests of a key. *)
Definition about (key : list ascii) : list (list (list ascii)) -> list (list (list ascii)) := filter (λ w, w !! 1%nat = Some key).

Lemma populate_requests reqs : forall m m', run_all populate_caches_func m reqs = Some m' ->
  forall key, m' !! key = if decide (about key reqs = []) then m !! key
                          else Some (default [] (m !! key) ++ (request <$> about key reqs)).
Proof.
  induction reqs as [|w reqs IH]; intros m m' H key; cbn [run_all] in H; [by injection H as <-|].
  change (populate_caches_func m (request w)) with
    (key ← w !! 1%nat; Some (<[key := default [] (m !! key) ++ [request w]]> m)) in H.
  destruct (w !! 1%nat) as [key'|] eqn:Ew; [|done].
  cbn [mbind option_bind] in H. rewrite (IH _ _ H key). unfold about. rewrite filter_cons. rewrite Ew.
  destruct (decide (Some key' = Some key)) as [[= ->]|Hne].
  - rewrite lookup_insert_eq. rewrite (decide_False (P := _ :: _ = [])) by done. case_decide as Ef; [by rewrite Ef|].
    cbn [default fmap list_fmap]. unfold id. by rewrite <- app_assoc.
  - by rewrite lookup_insert_ne by congruence.
Qed.

Lemma process_keys_fails hash_order uset_order clock item (items : list (list ascii * list CommandCache)) : forall file,
  item ∈ items -> (forall file, process_key hash_order uset_order clock file item = None) ->
  process_keys hash_order uset_order clock items file = None.
Proof.
  induction items as [|i items IH]; intros file Hin Hf; [by apply not_elem_of_nil in Hin|]. cbn [process_keys].
  apply elem_of_cons in Hin as [<-|Hin]; [by rewrite Hf|].
  destruct (process_key _ _ _ _ _); [|done]. cbn [mbind option_bind]. by apply IH.
Qed.

(** C39. A file with a pending expiration is not compacted. When a key's last [expireat]
    is in the future, and no [del] or [set] of the key follows it, the command is kept,
    but the simulation does not know it and its assertion that the command is [set]
    fails, whatever the rest of the file is. *)
Theorem RemoveRedundancy_pending_expiry (cache_order : gmap (list ascii) (list CommandCache) -> list (list ascii * list CommandCache))
    (hash_order : gmap (list ascii) (list ascii) -> list (list ascii * list ascii)) (uset_order : gset (list ascii) -> list (list ascii))
    (clock : list ascii -> nat -> Z * Z) (file : AppendableFile) (chunks : list (list ascii))
    (before after : list (list (list ascii))) (key : list ascii) (t : Z) :
  (forall m, cache_order m ≡ₚ map_to_list m) ->
  concat chunks = file_of (before ++ [bs "expireat"; key; to_string t] :: after) -> Forall (λ p, p <> []) chunks ->
  room [] chunks (Buffer_new 64) cache_Clear -> Z.of_nat (length (concat chunks)) <= INT64_MAX ->
  in_u64 t -> (forall n, (clock key n).2 < t) ->
  Forall (λ w, w !! 1%nat = Some key -> keeps_before (request w)) after ->
  RemoveRedundancy cache_order hash_order uset_order clock (Some chunks) file = None.
Proof.
  intros Hcache Hc Hne Hroom Hsize Ht Hclock Ha. unfold RemoveRedundancy. set (reqs := before ++ _ :: after) in *.
  rewrite (CommonOperation_all populate_caches_func ∅ reqs chunks) by (by rewrite <- ?Hc).
  destruct (run_all populate_caches_func ∅ reqs) as [M|] eqn:E; [|done]. cbn [mbind option_bind].
  pose proof (populate_requests reqs _ _ E key) as HM. rewrite lookup_empty in HM.
  assert (about key reqs = about key before ++ [bs "expireat"; key; to_string t] :: about key after) as Eq.
  { unfold about, reqs. rewrite filter_app, filter_cons_True; done. }
  rewrite Eq, decide_False in HM by (by destruct (about key before)). cbn [default app] in HM. unfold id in HM.
  rewrite fmap_app in HM. cbn [fmap list_fmap] in HM.
  eapply process_keys_fails; [rewrite Hcache; by apply elem_of_map_to_list|]. intros file'. unfold process_key. cbn [snd].
  assert (exists front, head ((request <$> about key before) ++ request [bs "expireat"; key; to_string t] :: (request <$> about key after))
    = Some front /\ argv front !! 1%nat = Some key) as (front & Eh & Ek).
  { destruct (about key before) as [|w ws] eqn:Eb; [by eexists|]. exists (request w). split; [done|].
    assert (w ∈ about key before) as Hw by (rewrite Eb; by left). by apply list_elem_of_filter in Hw as [? _]. }
  rewrite Eh. cbn [mbind option_bind]. rewrite Ek. cbn [mbind option_bind].
  destruct (sift _ _ _ _) as [seq|] eqn:Es; [|done]. cbn [mbind option_bind].
  apply sift_pending in Es; [|done|done|].
  - rewrite decide_False by (intros ->; by apply Exists_nil in Es). by rewrite simulate_expireat.
  - apply Forall_fmap, Forall_forall. intros w Hw. apply list_elem_of_filter in Hw as [Hw1 Hw].
    rewrite Forall_forall in Ha. by apply Ha.
Qed.

(** ** Witnesses *)

Definition rewrite_file (clock : list ascii -> nat -> Z * Z) (reqs : list (list (list ascii))) : option (list (list (list ascii))) :=
  (λ a, argv <$> (backup_caches_ a ++ cur_caches_ a)) <$>
    RemoveRedundancy map_to_list map_to_list elements clock (Some [file_of reqs]) (AppendableFile_new [] 16 true).

Definition at_1000 : list ascii -> nat -> Z * Z := λ _ _, (1000, 1000).

(** Several keys, an expiration that is past, and what is lost. *)
Example file_rewritten :
  rewrite_file at_1000 [[bs "rpush"; bs "l"; bs "a"; bs "b"]; [bs "set"; bs "k"; bs "7"]; [bs "lpop"; bs "l"]; [bs "incr"; bs "k"];
      [bs "set"; bs "gone"; bs "x"]; [bs "expireat"; bs "gone"; bs "999"]] =
    Some [[bs "rpush"; bs "l"; bs "b"]; [bs "set"; bs "k"; bs "8"]] /\
  rewrite_file at_1000 [[bs "rpush"; bs "l"; bs "a"]; [bs "lpop"; bs "l"]] = Some [[bs "rpush"; bs "l"]] /\
  rewrite_file at_1000 [[bs "set"; bs "a"; bs "1"]; [bs "set"; bs "b"; bs "2"]; [bs "del"; bs "a"; bs "b"]] =
    Some [[bs "set"; bs "b"; bs "2"]] /\
  rewrite_file at_1000 [[bs "rpush"; bs "l"; bs "a"]; [bs "lsetindex"; bs "l"; bs "-1"; bs "c"]] = None.
Proof. vm_compute. repeat split. Qed.

Definition counting : list command := [CSet (bs "k") (bs "1"); CIncr (bs "k")].

Lemma counting_ok : cmds_ok ∅ counting.
Proof.
  split; [by apply set_ok|]. split; [|done]. split; [done|]. split; [|done]. intros o [= <-]. split; [by cbn|].
  intros a H. vm_compute in H. by injection H as <-.
Qed.

Lemma RemoveRedundancy_preserves_witness : exists rs e' j,
  RemoveRedundancy map_to_list map_to_list elements at_1000 (Some [file_of (cmd_args <$> counting)]) (AppendableFile_new [] 16 true) =
    Some (foldl aof_Append (AppendableFile_new [] 16 true) rs) /\
  run_all (replay_command (λ _, quiet_env) no_server) (new_engine, O) (argv <$> rs) = Some (e', j) /\
  kv_repr (container_ e') (omap rewritten {[ bs "k" := AInt 2 ]}).
Proof.
  destruct (RemoveRedundancy_preserves map_to_list map_to_list elements ltac:(done) ltac:(done) ltac:(done) at_1000
    (AppendableFile_new [] 16 true) [file_of (cmd_args <$> counting)] counting (λ _, quiet_env) new_engine no_server)
    as (rs & E & _ & H).
  - apply counting_ok.
  - cbn. repeat split; intros (lf & key & l & E & _); done.
  - replace (log_of ∅ counting) with counting by (by vm_compute).
    repeat apply Forall_cons_2; try apply Forall_nil_2; (split; [exact I|]; refine (bool_decide_unpack _ _); by vm_compute).
  - intros k a H. assert (store_after counting = {[ bs "k" := AInt 2 ]}) as E by (by vm_compute). rewrite E in H.
    by apply lookup_singleton_Some in H as [_ <-].
  - by vm_compute.
  - apply Forall_singleton. by vm_compute.
  - vm_compute. intuition congruence.
  - by vm_compute.
  - apply KVContainer_new_repr.
  - intros i. by vm_compute.
  - destruct (H (argv <$> rs) (Permutation_refl _)) as (e' & j & Hrun & Hr). exists rs, e', j. split; [exact E|]. split; [exact Hrun|].
    exact Hr.
Defined.

Lemma RemoveRedundancy_pending_expiry_witness :
  rewrite_file at_1000 [[bs "set"; bs "a"; bs "1"]; [bs "expireat"; bs "a"; bs "2000"]; [bs "incr"; bs "b"]] = None.
Proof.
  unfold rewrite_file.
  rewrite (RemoveRedundancy_pending_expiry map_to_list map_to_list elements at_1000 (AppendableFile_new [] 16 true)
    [file_of [[bs "set"; bs "a"; bs "1"]; [bs "expireat"; bs "a"; bs "2000"]; [bs "incr"; bs "b"]]]
    [[bs "set"; bs "a"; bs "1"]] [[bs "incr"; bs "b"]] (bs "a") 2000); [done|done|by vm_compute|..].
  - apply Forall_singleton. by vm_compute.
  - vm_compute. intuition congruence.
  - by vm_compute.
  - by split.
  - intros n. by vm_compute.
  - apply Forall_singleton. intros H. vm_compute in H. congruence.
Defined.
