(* ===== verification/Boot.v ===== *)
(** * Boot: the start of the server (src/main.cpp, the constructor of Engine)

    The configuration file is loaded, the engine is built from it and, if the
    configuration asks for it, restored from the append-only file it names. *)

From S2P Require Import Prelude Encoding Numerals Doubles Str Buffer Protocol Core CoreSpec CoreFacts TimeEvent Server Persistence PersistenceFacts AofThreads Commands CommandsSpec CommandsFacts EngineFacts Recovery.
From stdpp Require Import list gmap fin_maps.
From Stdlib Require Import SpecFloat.
From S2P Require Import Config ConfigFacts.

Local Open Scope Z_scope.

(** [(size_t) ((double) mem_limit * 1024 * ratio)] of [IfNeedKeyEviction]; [None] where
    the conversion is undefined. *)
Definition eviction_threshold (config : Config) : option Z :=
  let ratio := lru_trigger_ratio_ config in
  let mem_limit := max_memory_limit_ config in
  size_of_double (double_mul (double_mul (double_of_Z mem_limit) (double_of_Z 1024)) ratio).

(** [Engine(&container, &configs)] on a new container. *)
Definition Engine_of_config (config : Config) : option Engine :=
  limit ← eviction_threshold config;
  Some (Engine_new (if lru_enabled_ config then EVICTION_POLICY_LRU else EVICTION_POLICY_RANDOM) limit).

(** The contents of a file as [ifs.read] delivers them to [CommonOperation]. *)
Fixpoint file_chunks (fuel : nat) (content : list ascii) : list (list ascii) :=
  match fuel, content with
  | S fuel, _ :: _ =>
      let n := Z.to_nat RESTORE_AOF_READ_BUF_SIZE in take n content :: file_chunks fuel (drop n content)
  | _, _ => []
  end.

(** [std::vector<CommandCache>::reserve]: [std::length_error] above [max_size()], with 40
    bytes for a command. *)
Definition reserve_ok (cache_size : Z) : bool := cache_size <=? INT64_MAX / 40.

(** [AppendableFile(location, cache_size, true, flush_interval)]. The file is opened for
    appending, so that it is created if there is none. *)
Definition open_history (content : option (list ascii)) (cache_size : Z) : option AppendableFile :=
  if reserve_ok cache_size then Some (AppendableFile_new (default [] content) cache_size true) else None.

(** [main] up to the server's construction, in a file system: the configuration, the
    engine and the port of the server, a [uint16_t]. *)
Definition main (fs : list ascii -> option (list ascii)) (argv : list (list ascii)) (envs : nat -> Env) (sv : Server)
  : option (Config * Engine * Z) :=
  let default_conf_filename := default (bs "../conf/litekv.conf") (argv !! 1%nat) in
  configs ← Config_new (fs default_conf_filename);
  engine ← Engine_of_config configs;
  let location := dumpfile_ configs in
  let cache_size := u64 (dump_cachesize_ configs) in
  let port := port_ configs mod 2 ^ 16 in
  if appendonly_enabled_ configs then
    history ← open_history (fs location) cache_size;
    let content := location_ history in
    '(engine, _) ← RestoreFromAppendableFile envs engine sv (Some (history, file_chunks (length content) content));
    Some (configs, with_data (container_ engine) ((λ a, SetAutoFlush a true) <$> appending_ engine) engine, port)
  else Some (configs, engine, port).

(** ** A restart *)

Lemma file_chunks_spec fuel : forall content, (length content <= fuel)%nat ->
  concat (file_chunks fuel content) = content /\ Forall (λ p, p <> []) (file_chunks fuel content).
Proof.
  induction fuel as [|fuel IH]; intros content Hl; destruct content as [|c content]; cbn [length] in Hl; try (by split); [lia|].
  cbn [file_chunks]. cbv zeta. set (n := Z.to_nat RESTORE_AOF_READ_BUF_SIZE). assert (1 <= n)%nat as Hn by (unfold n, RESTORE_AOF_READ_BUF_SIZE; lia).
  clearbody n. destruct (IH (drop n (c :: content))) as [E H]; [rewrite length_drop; cbn [length]; lia|]. split.
  - cbn [concat]. rewrite E. apply take_drop.
  - constructor; [|done]. destruct n; [lia|done].
Qed.

(** There is always room for a complete file of at most 64 KiB. *)
Lemma small_file_room (cmds : list (list (list ascii))) : let content := file_of cmds in
  Z.of_nat (length content) <= RESTORE_AOF_READ_BUF_SIZE ->
  room [] (file_chunks (length content) content) (Buffer_new 64) cache_Clear.
Proof.
  intros content Hn. pose proof (one_piece_room cmds Hn) as Hr. fold content in Hr. revert Hn Hr. generalize content. intros f Hn Hr.
  destruct f as [|b f]; [done|]. cbn [length file_chunks]. cbv zeta. rewrite take_ge, drop_ge by (cbn [length] in *; lia).
  by destruct (length f).
Qed.

(** A ratio that is not a number gives no threshold. *)
Lemma eviction_threshold_nan config : lru_trigger_ratio_ config = S754_nan -> eviction_threshold config = None.
Proof.
  intros E. unfold eviction_threshold, double_mul. rewrite E.
  by destruct (SFmul _ _ (double_of_Z _) _).
Qed.

Lemma Engine_of_config_new config e : Engine_of_config config = Some e -> exists policy limit, e = Engine_new policy limit.
Proof.
  unfold Engine_of_config. destruct (eviction_threshold config) as [limit|]; [|done]. intros [= <-]. by eexists _, _.
Qed.

(** A start on a file. *)
Lemma main_restores (fs : list ascii -> option (list ascii)) (argv : list (list ascii)) (envs : nat -> Env) (sv : Server)
    (c : Config) (e0 e1 : Engine) (content : list ascii) (b : bool) :
  Config_new (fs (default (bs "../conf/litekv.conf") (argv !! 1%nat))) = Some c ->
  appendonly_enabled_ c = true -> 1 <= dump_cachesize_ c -> Engine_of_config c = Some e0 -> fs (dumpfile_ c) = Some content ->
  RestoreFromAppendableFile envs e0 sv
    (Some (AppendableFile_new content (dump_cachesize_ c) true, file_chunks (length content) content)) = Some (e1, b) ->
  main fs argv envs sv =
    Some (c, with_data (container_ e1) ((λ a, SetAutoFlush a true) <$> appending_ e1) e1, port_ c mod 2 ^ 16).
Proof.
  intros Hc Hao Hsize He0 Hfs Hrest.
  assert (in_i32 (dump_cachesize_ c)) as [_ Hmax].
  { apply ok_cachesize. destruct (fs _) as [text|] eqn:Ef; cbn [Config_new] in Hc.
    - eapply Init_ok; [exact Hc|apply Config_default_ok].
    - injection Hc as <-. apply Config_default_ok. }
  assert (u64 (dump_cachesize_ c) = dump_cachesize_ c) as Eu.
  { apply u64_small. unfold in_u64, INT32_MAX, UINT64_MAX in *. lia. }
  unfold main. rewrite Hc. cbn [mbind option_bind]. rewrite He0. cbn [mbind option_bind]. rewrite Hao, Hfs, Eu.
  unfold open_history. assert (reserve_ok (dump_cachesize_ c) = true) as -> by (unfold reserve_ok, INT32_MAX, INT64_MAX in *; apply Z.leb_le; lia).
  cbn [mbind option_bind default]. unfold id. change (location_ (AppendableFile_new content _ true)) with content. by rewrite Hrest.
Qed.

(** A start on what is left of a file that holds a first part of the log. *)
Lemma started_recovers (fs : list ascii -> option (list ascii)) (argv : list (list ascii)) (envs : nat -> Env) (sv : Server)
    (c : Config) (e0 : Engine) (cmds : list command) (written rest : list CommandCache) (left_over t : list ascii) :
  Config_new (fs (default (bs "../conf/litekv.conf") (argv !! 1%nat))) = Some c ->
  appendonly_enabled_ c = true -> 1 <= dump_cachesize_ c -> Engine_of_config c = Some e0 -> enough_memory envs e0 ->
  cmds_ok ∅ cmds -> no_empty_pops ∅ cmds -> written ++ rest = logged_request <$> log_of ∅ cmds ->
  fs (dumpfile_ c) = Some left_over -> print_all written = left_over ++ t -> Z.of_nat (length (print_all written)) <= INT64_MAX ->
  room t (file_chunks (length left_over) left_over) (Buffer_new 64) cache_Clear ->
  exists served later e1, main fs argv envs sv = Some (c, e1, port_ c mod 2 ^ 16) /\ cmds = served ++ later /\
    kv_repr (container_ e1) (store_after served) /\
    (t = [] -> live (dump_cachesize_ c) (mkLogging e1 [] (threads_init left_over (dump_cachesize_ c))) served /\
      logged_request <$> log_of (store_after served) later = rest) /\
    (log_of (store_after served) later = [] -> store_after served = store_after cmds).
Proof.
  intros Hc Hao Hsize He0 Hmem Hok Hp El Hfs Hleft Hlen Hroom. destruct (Engine_of_config_new c e0 He0) as (policy & limit & Ee).
  destruct (file_chunks_spec (length left_over) left_over (le_n _)) as [Echunks Hne].
  set (a0 := AppendableFile_new left_over (dump_cachesize_ c) true).
  destruct (recovery (dump_cachesize_ c) cmds written rest envs e0 sv a0 (file_chunks (length left_over) left_over) t Hok Hp El)
    as (served & later & R & e1 & on & Ecmds & _ & _ & Hrest & Hr & _ & Ht & Hlive & Hsame); [|done|].
  { split; try done. rewrite Ee. apply KVContainer_new_repr. }
  exists served, later, (with_data (container_ e1) ((λ a, SetAutoFlush a true) <$> appending_ e1) e1). split.
  { eapply main_restores; [exact Hc|exact Hao|exact Hsize|exact He0|exact Hfs|]. exact Hrest. }
  split; [done|]. split; [exact Hr|]. split; [|exact Hsame]. intros Et. destruct (Ht Et) as [Eleft Elater]. split; [|exact Elater].
  change (location_ a0) with left_over in Eleft. rewrite Eleft.
  destruct (live_invariant _ _ _ (Hlive (dump_cachesize_ c))) as [Hr' Hok' Hp' _]. by apply live_start.
Qed.

(** C8. A restart. A server whose configuration turns the append-only file on, with a positive
    cache size and a memory threshold that is a number, serves data commands and stops, at any
    access of its two threads. The conditions are those of a crash ([crash_recovery]): no
    [push_back] between the worker's writing of that vector and its clearing, [Switch] finds one
    cache empty (the worker keeps up), the commands are within their bounds and none pops an
    empty string; the file may lose its end. A new server, started in a directory with a
    configuration file that says so and with the file the old one left, whose replay asks for no
    eviction and whose pieces of 64 KiB find room in the buffer, loads the configuration and
    comes up with exactly the store as it was after some first part [served] of the commands.
    When nothing of the file is lost the new engine is live, and when the old worker had written
    everything its store is the old one. *)
Theorem restart_recovers (fs : list ascii -> option (list ascii)) (argv : list (list ascii)) (envs : nat -> Env) (sv : Server)
    (c : Config) (e0 : Engine) (s : logging) (cmds : list command) (left_over t : list ascii) :
  Config_new (fs (default (bs "../conf/litekv.conf") (argv !! 1%nat))) = Some c ->
  appendonly_enabled_ c = true -> 1 <= dump_cachesize_ c -> Engine_of_config c = Some e0 -> enough_memory envs e0 ->
  live (dump_cachesize_ c) s cmds ->
  fs (dumpfile_ c) = Some left_over -> aof_bytes s = left_over ++ t -> Z.of_nat (length (aof_bytes s)) <= INT64_MAX ->
  room t (file_chunks (length left_over) left_over) (Buffer_new 64) cache_Clear ->
  exists served later e1, main fs argv envs sv = Some (c, e1, port_ c mod 2 ^ 16) /\ cmds = served ++ later /\
    kv_repr (container_ e1) (store_after served) /\
    (t = [] -> live (dump_cachesize_ c) (mkLogging e1 [] (threads_init left_over (dump_cachesize_ c))) served /\
      (all_written s -> store_after served = store_after cmds)).
Proof.
  intros Hc Hao Hsize He0 Hmem Hlive Hfs Hleft Hlen Hroom.
  destruct (live_invariant _ s cmds Hlive) as [_ Hok Hp _]. destruct (live_file _ s cmds Hlive) as (written & rest & Ef & El & Hall).
  destruct (started_recovers fs argv envs sv c e0 cmds written rest left_over t Hc Hao Hsize He0 Hmem Hok Hp El Hfs)
    as (served & later & e1 & Hm & Ec & Hr & Ht & Hsame); [by rewrite <- Ef|by rewrite <- Ef|exact Hroom|].
  exists served, later, e1. do 3 (split; [done|]). intros Et. destruct (Ht Et) as [Hl Elater]. split; [exact Hl|].
  intros Ha. apply Hsame. rewrite (Hall Ha) in Elater. by apply fmap_nil_inv in Elater.
Qed.

(** ** Witness *)

(** A directory with the two files. *)
Definition directory (dump : list ascii) : list ascii -> option (list ascii) := λ name,
  if decide (name = bs "kv.conf") then Some (bs "appendonly 1" ++ [LF] ++ bs "dump-cachesize 16" ++ [LF])
  else if decide (name = bs "dump.aof") then Some dump else None.

Definition directory_config : Config := set_member (SetAppendonly true) (set_member (SetCachesize 16) Config_default).

(** 90 per cent of 2 GB, in kB. *)
Example default_threshold : eviction_threshold Config_default = Some 1887436.
Proof. by vm_compute. Qed.

Lemma restart_recovers_witness : exists e1,
  main (directory set_line) [bs "LiteKV"; bs "kv.conf"] (λ _, quiet_env) no_server = Some (directory_config, e1, 9527) /\
  kv_repr (container_ e1) (store_after one_set).
Proof.
  destruct one_set_live as (e & Hl).
  destruct (restart_recovers (directory set_line) [bs "LiteKV"; bs "kv.conf"] (λ _, quiet_env) no_server directory_config
    (Engine_new EVICTION_POLICY_RANDOM 1887436) (mkLogging e [] written_threads) one_set set_line []) as (served & later & e1 & Hm & _ & Hr & Hall);
    [by vm_compute|by vm_compute|by vm_compute|by vm_compute|intros i; by vm_compute|exact Hl|by vm_compute|by vm_compute|by vm_compute| |].
  - vm_compute. intuition congruence.
  - exists e1. split; [exact Hm|]. destruct (Hall eq_refl) as [_ E]. rewrite E in Hr by (split_and!; reflexivity). exact Hr.
Defined.
