(* ===== verification/Lifecycle.v ===== *)
(** * Lifecycle: from one run of the server to the next

    A server is stopped by SIGINT and started again ([SigIntHandler], src/main.cpp); or
    litekv-rewrite-dump compacts the file it leaves, and a server is started on the new one.
    The parts are proved in AofThreads, Recovery, RewriteFacts and Boot; here they are put
    together. *)

From S2P Require Import Prelude Buffer Protocol Core CoreSpec CoreFacts Server Persistence PersistenceFacts AofThreads Commands CommandsSpec CommandsFacts EngineFacts Recovery Config ConfigFacts Rewrite RewriteFacts Boot.
From stdpp Require Import list gmap fin_maps.

Local Open Scope Z_scope.

(** ** Ctrl-C

    [SigIntHandler]: the append-only file is deleted, if there is one, and the process exits.
    [history] is where the two threads are when the signal comes; [left_over] the file in the
    end. *)
Definition SigIntHandler (ok : threads -> event -> Prop) (history : option threads) (left_over : option (list ascii)) : Prop :=
  match history with
  | None => left_over = None
  | Some t => exists t1 ls t', t_step t TSigint t1 /\ t_run ok t1 ls t' /\ th_serving t' = DDone /\
      left_over = Some (sh_file (th_mem t'))
  end.

Lemma SigIntHandler_stops ok t left_over : SigIntHandler ok (Some t) (Some left_over) ->
  serving (th_serving t) = true /\ exists ls t',
    t_run ok (mkThreads (stop (th_mem t)) (th_worker t) (DJoin (serving_holds (th_serving t)))) ls t' /\
    th_serving t' = DDone /\ left_over = sh_file (th_mem t').
Proof. intros (t1 & ls & t' & Hst & Hrun & Hd & [= ->]). inversion Hst; subst. split; [done|]. by exists ls, t'. Qed.

(** C9. Ctrl-C and a restart. A server has served the data commands [cmds], under the conditions
    of a crash ([crash_recovery]: no [push_back] between the worker's writing of that vector and
    its clearing, [Switch] finds one cache empty, the commands are within their bounds and none
    pops an empty string). SIGINT comes while the worker waits, at any point of the serving
    thread; the destructor gets to its end and the file can be opened. A server that is started
    on what is left with the same configuration (append-only file on, cache size positive,
    memory threshold a number), whose buffer has room for the pieces of 64 KiB and which has no
    eviction to do in the replay, comes up with the store as it was after a first part [served]
    of the commands: what is missing of the log is the command that was being put away and those
    the last command had still to hand over. When SIGINT comes between two commands that is
    nothing, and the store is the one there was. The server goes on with the same guarantees. *)
Theorem ctrl_c_restart (fs : list ascii -> option (list ascii)) (argv : list (list ascii)) (envs : nat -> Env) (sv : Server)
    (c : Config) (e0 e : Engine) (todo : list CommandCache) (t : threads) (cmds : list command) (left_over : list ascii) :
  Config_new (fs (default (bs "../conf/litekv.conf") (argv !! 1%nat))) = Some c ->
  appendonly_enabled_ c = true -> 1 <= dump_cachesize_ c -> Engine_of_config c = Some e0 -> enough_memory envs e0 ->
  live (dump_cachesize_ c) (mkLogging e todo t) cmds -> th_worker t = BWait -> SigIntHandler opened_ok (Some t) (Some left_over) ->
  fs (dumpfile_ c) = Some left_over -> Z.of_nat (length left_over) <= INT64_MAX ->
  room [] (file_chunks (length left_over) left_over) (Buffer_new 64) cache_Clear ->
  exists served later e1, main fs argv envs sv = Some (c, e1, port_ c mod 2 ^ 16) /\ cmds = served ++ later /\
    kv_repr (container_ e1) (store_after served) /\
    logged_request <$> log_of (store_after served) later = in_flight (th_serving t) ++ todo /\
    live (dump_cachesize_ c) (mkLogging e1 [] (threads_init left_over (dump_cachesize_ c))) served /\
    (th_serving t = ORun -> todo = [] -> store_after served = store_after cmds).
Proof.
  intros Hc Hao Hsize He0 Hmem Hlive Hw Hsig Hfs Hlen Hroom.
  destruct (live_invariant _ _ cmds Hlive) as [_ Hok Hp (log & dropped & Hs & El & Hd)]. cbn [lg_engine lg_todo lg_threads] in *.
  apply SigIntHandler_stops in Hsig as (Ho & ls & t' & Hrun & Hdone & ->). rewrite (Hd Ho) in El.
  destruct t as [s w o]. cbn [th_worker th_mem th_serving] in *. subst w.
  pose proof (sigint_file [] log s o ls t' Hs Ho Hrun Hdone) as Ef. cbn [app] in Ef. rewrite Ef in *.
  destruct (started_recovers fs argv envs sv c e0 cmds log (in_flight o ++ todo) (print_all log) [] Hc Hao Hsize He0 Hmem Hok Hp El Hfs)
    as (served & later & e1 & Hm & Ec & Hr & Ht & Hsame); [by rewrite app_nil_r|exact Hlen|exact Hroom|].
  destruct (Ht eq_refl) as [Hl Elater]. exists served, later, e1. do 5 (split; [done|]). intros Eo Et. apply Hsame.
  rewrite Eo, Et in Elater. by apply fmap_nil_inv in Elater.
Qed.

(** [set k v] has been put away and the worker waits when the signal comes. *)
Definition put_away : list event := [TCall set_request; TServing; TServing; TPush set_request; TWorker; TWorker; TWorker].

Definition waiting_threads : threads := mkThreads (mkShared [] [set_request] [] true 16 false None) BWait ORun.

Lemma put_away_run : t_run orderly (threads_init [] 16) put_away waiting_threads.
Proof. walk ltac:(first [exact I | intros []]). Qed.

Lemma waiting_interrupted : SigIntHandler opened_ok (Some waiting_threads) (Some set_line).
Proof.
  eexists _, [TWorker; TWorker; TWorker; TWorker; TWrite true; TWorker; TWorker; TWorker; TClose true],
    (mkThreads (mkShared set_line [] [] true 16 true None) BExit DDone).
  split; [by constructor|]. split; [walk ltac:(first [exact I | reflexivity])|]. by split.
Qed.

Lemma ctrl_c_restart_witness : exists e1,
  main (directory set_line) [bs "LiteKV"; bs "kv.conf"] (λ _, quiet_env) no_server = Some (directory_config, e1, 9527) /\
  kv_repr (container_ e1) (store_after one_set).
Proof.
  destruct (one_set_run put_away waiting_threads put_away_run eq_refl eq_refl) as (e & Hl).
  destruct (ctrl_c_restart (directory set_line) [bs "LiteKV"; bs "kv.conf"] (λ _, quiet_env) no_server directory_config
    (Engine_new EVICTION_POLICY_RANDOM 1887436) e [] waiting_threads one_set set_line) as (served & later & e1 & Hm & _ & Hr & _ & _ & E);
    [by vm_compute|by vm_compute|by vm_compute|by vm_compute|intros i; by vm_compute|exact Hl|reflexivity|exact waiting_interrupted|by vm_compute|by vm_compute| |].
  - vm_compute. intuition congruence.
  - exists e1. split; [exact Hm|]. by rewrite <- (E eq_refl eq_refl).
Defined.

(** ** A file compacted between two runs *)

Section Tool.

Context (cache_order : gmap (list ascii) (list CommandCache) -> list (list ascii * list CommandCache)).
Context (hash_order : gmap (list ascii) (list ascii) -> list (list ascii * list ascii)).
Context (uset_order : gset (list ascii) -> list (list ascii)).

(** [main] of src/tools/litekv-rewrite-dump.cpp on the two files: the destination is opened for
    appending. The calls of [Append] it makes, in order, are those folded over the file; they are made
    while its worker runs, as in AofThreads. *)
Definition rewrite_dump (clock : list ascii -> nat -> Z * Z) (source destination : option (list ascii)) : option AppendableFile :=
  let file := AppendableFile_new (default [] destination) 4096 true in
  RemoveRedundancy cache_order hash_order uset_order clock ((λ content, file_chunks (length content) content) <$> source) file.

End Tool.

(** Commands are printed by their words. *)
Lemma print_counts rs : Forall counts rs -> print_all rs = file_of (argv <$> rs).
Proof.
  unfold file_of, print_all. induction 1 as [|c rs Hc Hrs IH]; [done|]. cbn [fmap list_fmap concat]. rewrite IH. f_equal.
  unfold ToProtocolString. cbn [argc argv request]. by rewrite Hc.
Qed.

(** C10. From one server to the next, through the compaction. A server has served the commands
    [cmds] under the conditions of a crash ([crash_recovery]) and its worker has written them
    all; the commands in the log are [plain] and what the store holds in the end is [storable]
    (see [RemoveRedundancy_preserves]). The tool compacts the file into a new one, at most one
    command a key, while its own worker takes its steps at any access, except that no
    [push_back] falls between its writing of that vector and its clearing; its destructor begins
    while the worker waits and gets to its end, the file being opened. A server whose
    configuration names the new file (append-only file on, cache size positive, memory threshold
    a number) is started, without an eviction in the replay. For both files the buffer has room
    for the pieces of 64 KiB ([small_file_room]). It comes up with [omap rewritten] of the old
    store: every key with its value, except that a text that is the decimal of an [int64_t] has
    become that integer and that the keys of empty containers are gone. *)
Theorem compacted_restart cache_order hash_order uset_order
    (Hcache : forall m, cache_order m ≡ₚ map_to_list m) (Hhash : forall m, hash_order m ≡ₚ map_to_list m)
    (Huset : forall s, uset_order s ≡ₚ elements s) (clock : list ascii -> nat -> Z * Z)
    (max : Z) (s : logging) (cmds : list command) :
  live max s cmds -> all_written s ->
  Forall plain (log_of ∅ cmds) -> (forall k a, store_after cmds !! k = Some a -> storable a) ->
  Z.of_nat (length (aof_bytes s)) <= INT64_MAX ->
  room [] (file_chunks (length (aof_bytes s)) (aof_bytes s)) (Buffer_new 64) cache_Clear ->
  exists rs, rewrite_dump cache_order hash_order uset_order clock (Some (aof_bytes s)) None =
      Some (foldl aof_Append (AppendableFile_new [] 4096 true) rs) /\
    forall ls ls' m t fs argv envs sv c e0,
      t_run_late (threads_init [] 4096) ls (mkThreads m BWait ORun) 0 -> pushed ls = rs ->
      t_run opened_ok (mkThreads (stop m) BWait (DJoin false)) ls' t -> th_serving t = DDone ->
      let new := sh_file (th_mem t) in
      Config_new (fs (default (bs "../conf/litekv.conf") (argv !! 1%nat))) = Some c ->
      appendonly_enabled_ c = true -> 1 <= dump_cachesize_ c -> Engine_of_config c = Some e0 -> enough_memory envs e0 ->
      fs (dumpfile_ c) = Some new -> Z.of_nat (length new) <= INT64_MAX ->
      room [] (file_chunks (length new) new) (Buffer_new 64) cache_Clear ->
      exists e1, main fs argv envs sv = Some (c, e1, port_ c mod 2 ^ 16) /\
        kv_repr (container_ e1) (omap rewritten (store_after cmds)).
Proof.
  intros Hlive Hall Hplain Hst Hsize Hroom. destruct (live_invariant _ s cmds Hlive) as [_ Hok Hpops _].
  destruct (live_file max s cmds Hlive) as (written & rest & Eold & El & Hrest). rewrite (Hrest Hall), app_nil_r in El. subst written.
  destruct (file_chunks_spec (length (aof_bytes s)) (aof_bytes s) (le_n _)) as [Echunks Hne].
  destruct (compaction cache_order hash_order uset_order Hcache Hhash Huset clock (AppendableFile_new [] 4096 true)
    (file_chunks (length (aof_bytes s)) (aof_bytes s)) cmds Hok Hpops Hplain Hst) as (rs & Ers & Hcounts & _ & Hreplay);
    [by rewrite Echunks|done|done|by rewrite Echunks|].
  exists rs. split; [exact Ers|].
  intros ls ls' m t fs argv envs sv c e0 Hrun Hls Hrun' Hd. cbv zeta. intros Hc Hao Hcs He0 Hmem Hfs Hlen Hroom'.
  destruct (only_late_pushes_lost_in_the_end [] 4096 ls ls' 0 m ORun t Hrun eq_refl Hrun' Hd) as (rs' & lost & Enew & Hperm & Hlost).
  assert (lost = []) as -> by (apply nil_length_inv; lia). rewrite app_nil_r, Hls in Hperm. cbn [app] in Enew.
  rewrite (print_counts rs') in Enew by (by rewrite Hperm).
  destruct (Engine_of_config_new c e0 He0) as (policy & limit & Ee0).
  set (new := sh_file (th_mem t)) in *. set (a0 := AppendableFile_new new (dump_cachesize_ c) true).
  destruct (file_chunks_spec (length new) new (le_n _)) as [Enc Hnne].
  destruct (Hreplay envs (with_data (container_ e0) (Some a0) e0) sv (Protocol.argv <$> rs')) as (e1 & j & Hrun1 & Hr1).
  { rewrite Ee0. apply KVContainer_new_repr. }
  { exact Hmem. }
  { by rewrite Hperm. }
  eexists. split; [eapply main_restores; [exact Hc|exact Hao|exact Hcs|exact He0|exact Hfs|]|].
  - fold a0. unfold RestoreFromAppendableFile.
    rewrite (CommonOperation_all (replay_command envs sv) (with_data (container_ e0) (Some a0) e0, O) (Protocol.argv <$> rs')).
    + rewrite Hrun1. reflexivity.
    + by rewrite Enc.
    + done.
    + exact Hroom'.
    + by rewrite <- Enew.
  - exact Hr1.
Qed.

(** ** Witness *)

Lemma put_away_late : t_run_late (threads_init [] 4096) put_away (mkThreads (mkShared [] [set_request] [] true 4096 false None) BWait ORun) 0.
Proof.
  repeat (eapply late_cons_0; [|econstructor; reflexivity|]; [reflexivity|]). apply l_nil.
Qed.

(** What was appended, as far as it can be seen. *)
Lemma foldl_append_length rs : forall f,
  (length (cur_caches_ (foldl aof_Append f rs)) + length (backup_caches_ (foldl aof_Append f rs)) =
   length (cur_caches_ f) + length (backup_caches_ f) + length rs)%nat.
Proof.
  induction rs as [|c rs IH]; intros f; cbn [foldl length]; [lia|]. rewrite IH. unfold aof_Append, Switch.
  destruct (_ >=? _); cbn [cur_caches_ backup_caches_]; rewrite length_app; cbn [length]; lia.
Qed.

Lemma append_one_read rs c : foldl aof_Append (AppendableFile_new [] 4096 true) rs = mkAof [] 4096 [c] [] true false -> rs = [c].
Proof.
  intros E. pose proof (foldl_append_length rs (AppendableFile_new [] 4096 true)) as Hl. rewrite E in Hl.
  destruct rs as [|c' [|? ?]]; [done| |cbn in Hl; lia]. by injection E as ->.
Qed.

(** The compacted file of [set k v] is the same file. *)
Lemma compacted_restart_witness : exists e1,
  main (directory set_line) [bs "LiteKV"; bs "kv.conf"] (λ _, quiet_env) no_server = Some (directory_config, e1, 9527) /\
  kv_repr (container_ e1) (omap rewritten (store_after one_set)).
Proof.
  destruct one_set_live as (e & Hl).
  destruct (compacted_restart map_to_list map_to_list elements ltac:(done) ltac:(done) ltac:(done) at_1000 16
    (mkLogging e [] written_threads) one_set Hl) as (rs & Ers & H); [split_and!; reflexivity| | |by vm_compute|vm_compute; intuition congruence|].
  - repeat constructor. refine (bool_decide_unpack _ _). by vm_compute.
  - intros k a H. assert (store_after one_set = {[ bs "k" := AStr (bs "v") ]}) as E by (by vm_compute). rewrite E in H.
    by apply lookup_singleton_Some in H as [_ <-].
  - assert (rewrite_dump map_to_list map_to_list elements at_1000 (Some set_line) None =
      Some (mkAof [] 4096 [set_request] [] true false)) as E by (by vm_compute).
    change (aof_bytes _) with set_line in Ers. rewrite E in Ers. injection Ers as Ers. symmetry in Ers. apply append_one_read in Ers. subst rs.
    eapply (H put_away [TWorker; TWorker; TWorker; TWorker; TWrite true; TWorker; TWorker; TWorker; TClose true]
      _ (mkThreads (mkShared set_line [] [] true 4096 true None) BExit DDone) (directory set_line) [bs "LiteKV"; bs "kv.conf"] (λ _, quiet_env) no_server
      directory_config (Engine_new EVICTION_POLICY_RANDOM 1887436) put_away_late eq_refl).
    + walk ltac:(first [exact I | reflexivity]).
    + done.
    + by vm_compute.
    + by vm_compute.
    + by vm_compute.
    + by vm_compute.
    + intros i. by vm_compute.
    + by vm_compute.
    + by vm_compute.
    + vm_compute. intuition congruence.
Defined.
