(* ===== verification/Tools.v ===== *)
(** * Tools: the generator of test data and the benchmark's command line (src/tools/)

    litekv-gen-pseudo-data writes random commands into a file as the server would log them;
    litekv-benchmark reads its options and prints them, which is all it does so far. The
    rewriting tool is in Lifecycle. *)

From S2P Require Import Prelude Encoding Numerals Doubles Str Buffer Protocol Core CoreSpec CoreFacts TimeEvent Server Persistence PersistenceFacts Commands CommandsSpec CommandsFacts EngineFacts Eviction Recovery.
From S2P Require Import Config ConfigFacts Boot.
From stdpp Require Import list gmap fin_maps.

Local Open Scope Z_scope.

(** ** Random generation

    [rnd i lo hi] is the [i]th number drawn, by a distribution from [lo] to [hi]; a generator
    is run at the number of draws so far. *)

Definition gen (A : Type) : Type := nat -> A * nat.

#[export] Instance gen_ret : MRet gen := λ A x i, (x, i).
#[export] Instance gen_bind : MBind gen := λ A B f m i, let '(x, i) := m i in f x i.

Fixpoint times {A} (n : nat) (g : gen A) : gen (list A) :=
  match n with
  | O => mret []
  | S n => x ← g; xs ← times n g; mret (x :: xs)
  end.

Section Generator.

Context (rnd : nat -> Z -> Z -> Z).

Definition uniform (lo hi : Z) : gen Z := λ i, (rnd i lo hi, S i).

Section Records.

Context (kNumRecord : Z).   (* long *)

Definition uni_dist : gen Z := uniform 1 4.
Definition uni_dist2 : gen Z := uniform 1 (i32 kNumRecord).
Definition uni_dist3 : gen Z := uniform 3 15.

Definition alphabet : list ascii := bs "0123456789abcdefghijklmnopqrstuvwxyz".

(** The index is not negative. *)
Definition GenRandomStr (n : Z) : gen (list ascii) :=
  x ← uni_dist2;
  mret (replicate (Z.to_nat n) (nth (Z.to_nat (Z.rem x 36)) alphabet NUL)).

Definition GenRandomStr2 (n : Z) : gen (list ascii) :=
  ans ← times (Z.to_nat n) (GenRandomStr 1);
  mret (concat ans).

(** The draws of [k] are in the order of the text; the language leaves it open. *)
Definition hash_item : gen (list (list ascii)) :=
  a ← uni_dist;
  b ← uni_dist;
  s ← GenRandomStr b;
  w ← uni_dist3;
  v ← GenRandomStr2 w;
  mret [to_string (Z.rem a kNumRecord) ++ s; v].

(** One iteration of the loop of [main]: the arguments of the command. *)
Definition one_record : gen (list (list ascii)) :=
  option ← uni_dist;
  k ← uni_dist2;
  let key := to_string (Z.rem k kNumRecord) in
  if option =? OBJECT_INT then
    v ← uni_dist;
    mret [bs "set"; key; to_string (Z.rem v kNumRecord)]
  else if option =? OBJECT_STRING then
    w ← uni_dist3;
    value ← GenRandomStr2 w;
    mret [bs "set"; key; value]
  else if option =? OBJECT_LIST then
    pop ← uni_dist;
    x ← uni_dist;
    let n := Z.max (Z.rem x 20) 5 in
    let vals := (λ j, to_string (Z.of_nat j)) <$> seq 0 (Z.to_nat n) in
    mret ((if pop >=? 2 then bs "lpush" else bs "rpush") :: key :: vals)
  else if option =? OBJECT_HASH then
    x ← uni_dist;
    let n := Z.max (Z.rem x 20) 5 in
    kvs ← times (Z.to_nat n) hash_item;
    mret (bs "hset" :: key :: concat kvs)
  else mret [].

Definition records : gen (list (list (list ascii))) := times (Z.to_nat kNumRecord) one_record.

End Records.

(** [main]: what is in the file in the end, when it held [old] and can be opened. *)
Definition gen_pseudo_data (argv : list (list ascii)) (old : list ascii) : list ascii :=
  match argv with
  | [_; kNumRecord; _] =>
      let kNumRecord := (strtoll (c_str kNumRecord)).1.1 in
      old ++ print_all (request <$> (records kNumRecord O).1)
  | _ => old
  end.

End Generator.

(** ** The benchmark's options *)

Record BenchMarkConfig := mkBench {
  host : list ascii;
  port : Z;            (* size_t, as all the numbers *)
  n_clients : Z;
  n_requests : Z;
  keyspace_len : Z;
  testing_cmds : list (list ascii);
  testing_cmds_str : list ascii
}.

Definition g_config : BenchMarkConfig := mkBench (bs "127.0.0.1") 9527 50 100000 10 [] [].

Definition BenchMark_ToString (c : BenchMarkConfig) : list ascii :=
  bs "BenchMarkConfig: " ++ [LF] ++
  bs "==> host: " ++ host c ++ [LF] ++
  bs "==> port: " ++ to_string (port c) ++ [LF] ++
  bs "==> n_clients: " ++ to_string (n_clients c) ++ [LF] ++
  bs "==> n_requests: " ++ to_string (n_requests c) ++ [LF] ++
  bs "==> keyspace_len: " ++ to_string (keyspace_len c) ++ [LF] ++
  bs "==> testing_cmds: " ++ testing_cmds_str c ++ [LF].

(** [std::atol], made a [size_t]. *)
Definition atol (s : list ascii) : Z := u64 (strtoll (c_str s)).1.1.

(** An option with its value. *)
Definition bench_option (arg value : list ascii) (c : BenchMarkConfig) : option BenchMarkConfig :=
  let 'mkBench h p nc nr kl tc ts := c in
  if decide (arg = bs "-h") then Some (mkBench value p nc nr kl tc ts)
  else if decide (arg = bs "-p") then Some (mkBench h (atol value) nc nr kl tc ts)
  else if decide (arg = bs "-c") then Some (mkBench h p (atol value) nr kl tc ts)
  else if decide (arg = bs "-n") then Some (mkBench h p nc (atol value) kl tc ts)
  else if decide (arg = bs "-k") then Some (mkBench h p nc nr (atol value) tc ts)
  else if decide (arg = bs "-t") then
    Some (mkBench h p nc nr kl (tc ++ filter (λ tmp, tmp <> []) (pieces ","%char [] value)) value)
  else None.

Definition takes_value (arg : list ascii) : bool :=
  bool_decide (arg ∈ [bs "-h"; bs "-p"; bs "-c"; bs "-n"; bs "-k"; bs "-t"]).

(** The loop of [ParseArgs] over [argv\[1\]], ...: the configuration and the argument that
    is reported as invalid, after which the usage is printed. Other words are passed over. *)
Fixpoint ParseArgs (args : list (list ascii)) (c : BenchMarkConfig) : BenchMarkConfig * option (list ascii) :=
  match args with
  | [] => (c, None)
  | arg :: rest =>
      if takes_value arg then
        match rest with
        | [] => (c, Some arg)
        | value :: rest => ParseArgs rest (default c (bench_option arg value c))
        end
      else ParseArgs rest c
  end.

(** ** The generated commands *)

(** Draws within their bounds. *)
Definition within (rnd : nat -> Z -> Z -> Z) : Prop := forall i lo hi, lo <= hi -> lo <= rnd i lo hi <= hi.

Definition short (s : list ascii) : Prop := (length s <= 64)%nat.

(** What the generator writes: a number or a text of up to 15 letters is set; five elements are
    pushed; five fields are set. *)
Inductive pseudo : command -> Prop :=
  | pseudo_set key value : short value -> pseudo (CSet key value)
  | pseudo_push lf key vals : length vals = 5%nat -> Forall short vals -> pseudo (CPush lf key vals)
  | pseudo_hset key items : length items = 5%nat -> Forall short items.*1 -> Forall short items.*2 -> pseudo (CHSet key items).

Lemma gen_bind_eq {A B} (g : gen A) (f : A -> gen B) i : (x ← g; f x) i = f (g i).1 (g i).2.
Proof. unfold mbind, gen_bind. by destruct (g i). Qed.

Lemma times_Forall {A} (P : A -> Prop) (g : gen A) n : (forall i, P (g i).1) -> forall i,
  Forall P (times n g i).1 /\ length (times n g i).1 = n.
Proof.
  intros Hg. induction n as [|n IH]; intros i; cbn [times]; [by split|]. rewrite gen_bind_eq, gen_bind_eq.
  destruct (IH (g i).2) as [Hf Hl]. cbn. split; [by constructor|by rewrite Hl].
Qed.

Lemma length_concat_units {A} (l : list (list A)) : Forall (λ s, length s = 1%nat) l -> length (concat l) = length l.
Proof. induction 1 as [|s l Hs _ IH]; [done|]. cbn [concat length]. by rewrite length_app, Hs, IH. Qed.

Section Generated.

Context (rnd : nat -> Z -> Z -> Z) (Hrnd : within rnd) (kNumRecord : Z) (Hnum : 1 <= kNumRecord <= INT32_MAX).

Lemma uniform_within lo hi i : lo <= hi -> lo <= (uniform rnd lo hi i).1 <= hi.
Proof. apply Hrnd. Qed.

Lemma GenRandomStr_length n i : length (GenRandomStr rnd kNumRecord n i).1 = Z.to_nat n.
Proof. unfold GenRandomStr. rewrite gen_bind_eq. cbn. apply length_replicate. Qed.

Lemma GenRandomStr2_length n i : length (GenRandomStr2 rnd kNumRecord n i).1 = Z.to_nat n.
Proof.
  unfold GenRandomStr2. rewrite gen_bind_eq. cbn.
  destruct (times_Forall (λ s, length s = 1%nat) (GenRandomStr rnd kNumRecord 1) (Z.to_nat n) (GenRandomStr_length 1) i) as [Hf Hl].
  by rewrite length_concat_units.
Qed.

Lemma draw3 i : 3 <= (uni_dist3 rnd i).1 <= 15.
Proof. by apply uniform_within. Qed.

Lemma draw1 i : 1 <= (uni_dist rnd i).1 <= 4.
Proof. by apply uniform_within. Qed.

Lemma rem_i64 a : 1 <= a <= INT32_MAX -> in_i64 (Z.rem a kNumRecord).
Proof.
  intros Ha. pose proof (Z.rem_bound_pos a kNumRecord ltac:(lia) ltac:(lia)).
  unfold in_i64, INT64_MIN, INT64_MAX, INT32_MAX in *. lia.
Qed.

Lemma rem_short a : 1 <= a <= INT32_MAX -> (length (to_string (Z.rem a kNumRecord)) <= 20)%nat.
Proof. intros Ha. apply to_string_i64_length. by apply rem_i64. Qed.

(** The number of elements is drawn from 1 to 4, reduced modulo 20 and raised to 5. *)
Lemma always_five x : 1 <= x <= 4 -> Z.max (Z.rem x 20) 5 = 5.
Proof. intros H. rewrite Z.rem_small by lia. lia. Qed.

Lemma hash_item_short i : exists f v, (hash_item rnd kNumRecord i).1 = [f; v] /\ short f /\ short v.
Proof.
  unfold hash_item. rewrite !gen_bind_eq. cbn [mret gen_ret fst]. eexists _, _. split; [done|]. split.
  - unfold short. rewrite length_app, GenRandomStr_length.
    pose proof (draw1 i). pose proof (draw1 (uni_dist rnd i).2).
    pose proof (rem_short (uni_dist rnd i).1 ltac:(unfold INT32_MAX; lia)). lia.
  - unfold short. rewrite GenRandomStr2_length. match goal with |- context [uni_dist3 rnd ?j] => pose proof (draw3 j) end. lia.
Qed.

Lemma one_record_pseudo i : exists cmd, (one_record rnd kNumRecord i).1 = cmd_args cmd /\ pseudo cmd.
Proof.
  unfold one_record. rewrite !gen_bind_eq. set (o := (uni_dist rnd i).1). set (k := (uni_dist2 rnd kNumRecord _).1).
  set (i2 := (uni_dist2 rnd kNumRecord _).2). set (key := to_string _). assert (1 <= o <= 4) as Ho by apply draw1.
  cbv zeta. destruct (Z.eqb_spec o OBJECT_INT) as [_|H1]; [|destruct (Z.eqb_spec o OBJECT_STRING) as [_|H2];
    [|destruct (Z.eqb_spec o OBJECT_LIST) as [_|H3]; [|destruct (Z.eqb_spec o OBJECT_HASH) as [_|H4];
    [|unfold OBJECT_INT, OBJECT_STRING, OBJECT_LIST, OBJECT_HASH in *; lia]]]]; rewrite ?gen_bind_eq; cbn [mret gen_ret fst].
  - eexists (CSet key _). split; [done|]. constructor. unfold short.
    pose proof (draw1 i2). pose proof (rem_short (uni_dist rnd i2).1). unfold INT32_MAX in *. lia.
  - eexists (CSet key _). split; [done|]. constructor. unfold short. rewrite GenRandomStr2_length. pose proof (draw3 i2). lia.
  - rewrite always_five by apply draw1. eexists (CPush ((uni_dist rnd i2).1 >=? 2) key _). split; [done|]. constructor; [done|].
    repeat constructor; unfold short; vm_compute; lia.
  - rewrite always_five by apply draw1. change (Z.to_nat 5) with 5%nat. set (i3 := (uni_dist rnd i2).2).
    destruct (times_Forall (λ kv, exists f v, kv = [f; v] /\ short f /\ short v) (hash_item rnd kNumRecord) 5 hash_item_short i3) as [Hf Hl].
    assert (exists items : list (list ascii * list ascii), concat (times 5 (hash_item rnd kNumRecord) i3).1 = (i ← items; [i.1; i.2]) /\
      length items = length (times 5 (hash_item rnd kNumRecord) i3).1 /\ Forall short items.*1 /\ Forall short items.*2) as (items & E & El & Hk & Hv).
    { clear Hl. induction Hf as [|kv l (f & v & -> & Hsf & Hsw) _ (items & E & El & Hk & Hv)]; [by exists []|].
      exists ((f, v) :: items). cbn [concat fmap list_fmap length mbind list_bind app fst snd]. rewrite E, El.
      split; [done|]. split; [done|]. by split; constructor. }
    exists (CHSet key items). cbn [cmd_args]. rewrite <- E. split; [done|]. constructor; [by rewrite El|done..].
Qed.

Lemma records_pseudo i : exists cmds, (records rnd kNumRecord i).1 = cmd_args <$> cmds /\ Forall pseudo cmds /\
  length cmds = Z.to_nat kNumRecord.
Proof.
  unfold records. destruct (times_Forall (λ r, exists cmd, r = cmd_args cmd /\ pseudo cmd) (one_record rnd kNumRecord)
    (Z.to_nat kNumRecord) one_record_pseudo i) as [Hf Hl].
  set (l := (times _ _ i).1) in *. clearbody l. rewrite <- Hl. clear Hl.
  induction Hf as [|r l (cmd & -> & Hc) _ (cmds & E & H & El)]; [by exists []|].
  exists (cmd :: cmds). cbn [fmap list_fmap length]. rewrite <- E, El. split; [done|]. split; [by constructor|done].
Qed.

End Generated.

(** ** Loading them *)

(** The values that [n / 5] generated commands can have made. *)
Definition grown (n : nat) (m : astore) : Prop := forall k a, m !! k = Some a ->
  match a with
  | AInt _ => True
  | AStr s => short s
  | AList l => (length l <= n)%nat
  | ADict d => (size d <= n)%nat
  | ASet _ => False
  end.

Lemma grown_small n m k a : grown n m -> Z.of_nat n < 2 ^ 30 -> m !! k = Some a -> aval_small a.
Proof. intros Hg Hn Hk. specialize (Hg k a Hk). destruct a; unfold aval_small, small, short in *; try done; lia. Qed.

Lemma grown_insert n n' m k a : grown n m -> (n <= n')%nat ->
  match a with AInt _ => True | AStr s => short s | AList l => (length l <= n')%nat | ADict d => (size d <= n')%nat | ASet _ => False end ->
  grown n' (<[k := a]> m).
Proof.
  intros Hg Hn Ha k' a'. rewrite lookup_insert_Some. intros [[<- <-]|[_ H]]; [done|]. specialize (Hg k' a' H).
  destruct a'; try done; lia.
Qed.

Lemma grown_more n n' m : grown n m -> (n <= n')%nat -> grown n' m.
Proof. intros Hg Hn k a H. specialize (Hg k a H). destruct a; try done; lia. Qed.

Lemma set_fields_size fields : forall d vals, (size (set_fields d fields vals) <= size d + length fields)%nat.
Proof.
  induction fields as [|f fields IH]; intros d [|v vals]; cbn [set_fields length]; try lia.
  specialize (IH (<[f := v]> d) vals). rewrite map_size_insert in IH. unfold id in IH. destruct (d !! f); cbn in IH; lia.
Qed.

Lemma short_small l : Forall short l -> length l = 5%nat -> all_small l.
Proof.
  intros H Hl. split; [|rewrite Hl; lia]. eapply Forall_impl; [exact H|]. cbn. intros s Hs. unfold small, short in *. lia.
Qed.

Lemma pseudo_ok n m cmd : grown n m -> Z.of_nat n < 2 ^ 30 -> pseudo cmd -> cmd_ok m cmd.
Proof.
  intros Hg Hn H. assert (forall k a, m !! k = Some a -> aval_small a) as Hs by (intros k a; by eapply grown_small).
  destruct H as [key value Hv|lf key vals Hl Hv|key items Hl H1 H2]; (split; [|split; [|done]]); try (by intros ->);
    try done; (intros o [= <-]; split; [|intros a; apply Hs]); cbn [args_ok].
  - unfold small, short in *. lia.
  - by apply short_small.
  - by split; apply short_small; rewrite ?length_fmap.
Qed.

Lemma pseudo_grown n m cmd : grown n m -> pseudo cmd -> grown (n + 5) (cmd_spec m cmd).1.1.
Proof.
  intros Hg H. destruct H as [key value Hv|lf key vals Hl Hv|key items Hl H1 H2]; cbn [cmd_spec].
  - apply (grown_insert n); [done|lia|]. unfold scalar. by destruct (CanConvertToInt64 value).
  - unfold modify. destruct (m !! Key_std key) as [a|] eqn:E.
    + destruct a as [| |l| |]; cbn [v_list]; try (by apply (grown_more n); [done|lia]). apply (grown_insert n); [done|lia|]. cbn [fst].
      specialize (Hg _ _ E). cbn in Hg. destruct lf; rewrite length_app, ?length_rev; lia.
    + apply (grown_insert n); [done|lia|]. cbn [fst]. destruct lf; rewrite length_app, ?length_rev; cbn [length]; lia.
  - unfold modify. destruct (m !! Key_std key) as [a|] eqn:E.
    + destruct a as [| | |d|]; cbn [v_dict]; try (by apply (grown_more n); [done|lia]). apply (grown_insert n); [done|lia|]. cbn [fst].
      specialize (Hg _ _ E). cbn in Hg. pose proof (set_fields_size items.*1 d items.*2). rewrite length_fmap in *. lia.
    + apply (grown_insert n); [done|lia|]. cbn [fst]. pose proof (set_fields_size items.*1 ∅ items.*2).
      rewrite length_fmap, map_size_empty in *. lia.
Qed.

Lemma pseudo_cmds_ok cmds : forall n m, Forall pseudo cmds -> grown n m -> Z.of_nat (n + 5 * length cmds) < 2 ^ 30 -> cmds_ok m cmds.
Proof.
  induction cmds as [|cmd cmds IH]; intros n m Hc Hg Hn; [done|]. inversion Hc as [|? ? Hc1 Hcs]; subst. cbn [length] in Hn.
  split; [apply (pseudo_ok n); [done|lia|done]|]. apply (IH (n + 5)%nat); [done|by apply pseudo_grown|lia].
Qed.

Lemma grown_empty : grown 0 ∅.
Proof. intros k a H. by rewrite lookup_empty in H. Qed.

(** C31. The generated test data. For any number of records the generator is asked for (up to
    200 million) and numbers that are within the bounds they are drawn from, the new file it
    writes is a log of that many complete commands. A server whose configuration names this file
    (append-only file on, cache size positive, memory threshold a number), whose buffer has room
    for the pieces of 64 KiB in which it is read (always so for a file of one piece,
    [small_file_room]; for a longer one it depends on the draws, src/net/buffer.h:46) and which
    has no eviction to do, is started on it, reads back exactly these commands and comes up with
    the store they make, without undefined behaviour. *)
Theorem pseudo_data_loads (rnd : nat -> Z -> Z -> Z) (tool num file : list ascii)
    (fs : list ascii -> option (list ascii)) (argv : list (list ascii)) (envs : nat -> Env) (sv : Server) (c : Config) (e0 : Engine) :
  let n := (strtoll (c_str num)).1.1 in
  let content := gen_pseudo_data rnd [tool; num; file] [] in
  within rnd -> 1 <= n <= 200000000 ->
  Config_new (fs (default (bs "../conf/litekv.conf") (argv !! 1%nat))) = Some c ->
  appendonly_enabled_ c = true -> 1 <= dump_cachesize_ c -> Engine_of_config c = Some e0 -> enough_memory envs e0 ->
  fs (dumpfile_ c) = Some content -> Z.of_nat (length content) <= INT64_MAX ->
  room [] (file_chunks (length content) content) (Buffer_new 64) cache_Clear ->
  exists cmds e1, Forall pseudo cmds /\ length cmds = Z.to_nat n /\ content = file_of (cmd_args <$> cmds) /\
    main fs argv envs sv = Some (c, e1, port_ c mod 2 ^ 16) /\ kv_repr (container_ e1) (store_after cmds).
Proof.
  cbv zeta. set (n := (strtoll (c_str num)).1.1). set (content := gen_pseudo_data _ _ _).
  intros Hrnd Hn Hc Hao Hsize He0 Hmem Hfs Hlen Hroom.
  destruct (records_pseudo rnd Hrnd n ltac:(unfold INT32_MAX; lia) O) as (cmds & E & Hps & El).
  assert (content = file_of (cmd_args <$> cmds)) as Ec by (unfold content, gen_pseudo_data; cbn [app]; fold n; by rewrite E).
  destruct (file_chunks_spec (length content) content (le_n _)) as [Echunks Hne].
  destruct (Engine_of_config_new c e0 He0) as (policy & limit & Ee0).
  set (a0 := AppendableFile_new content (dump_cachesize_ c) true).
  destruct (replay_runs envs sv a0 cmds (with_data (container_ e0) (Some a0) e0) O ∅) as (e1 & j & Hrun & Hr & _).
  { rewrite Ee0. apply KVContainer_new_repr. }
  { apply (pseudo_cmds_ok cmds 0); [done|apply grown_empty|lia]. }
  { exact Hmem. }
  { by exists true. }
  exists cmds. eexists. do 3 (split; [done|]). split; [eapply main_restores; [exact Hc|exact Hao|exact Hsize|exact He0|exact Hfs|]|].
  - fold a0. unfold RestoreFromAppendableFile.
    rewrite (CommonOperation_all (replay_command envs sv) (with_data (container_ e0) (Some a0) e0, O) (cmd_args <$> cmds));
      [|by rewrite Echunks|done|exact Hroom|by rewrite <- Ec].
    rewrite Hrun. reflexivity.
  - exact Hr.
Qed.

(** Two records. *)
Definition some_numbers : nat -> Z -> Z -> Z := λ i lo hi, lo + (Z.of_nat (7 * i * i + 2)) mod (hi - lo + 1).

Lemma pseudo_data_loads_witness : exists cmds e1, length cmds = 2%nat /\
  main (directory (gen_pseudo_data some_numbers [bs "gen"; bs "2"; bs "dump.aof"] [])) [bs "LiteKV"; bs "kv.conf"] (λ _, quiet_env) no_server =
    Some (directory_config, e1, 9527) /\ kv_repr (container_ e1) (store_after cmds).
Proof.
  destruct (pseudo_data_loads some_numbers (bs "gen") (bs "2") (bs "dump.aof")
    (directory (gen_pseudo_data some_numbers [bs "gen"; bs "2"; bs "dump.aof"] [])) [bs "LiteKV"; bs "kv.conf"] (λ _, quiet_env) no_server
    directory_config (Engine_new EVICTION_POLICY_RANDOM 1887436)) as (cmds & e1 & _ & Hl & _ & Hm & Hr);
    [|by vm_compute|by vm_compute|by vm_compute|by vm_compute|by vm_compute|intros i; by vm_compute|by vm_compute|by vm_compute| |].
  - intros i lo hi H. unfold some_numbers. pose proof (Z.mod_pos_bound (Z.of_nat (7 * i * i + 2)) (hi - lo + 1) ltac:(lia)). lia.
  - vm_compute. intuition congruence.
  - exists cmds, e1. split; [exact Hl|]. split; [exact Hm|exact Hr].
Defined.

(** ** The options of the benchmark *)

Lemma atol_to_string n : 0 <= n <= INT64_MAX -> atol (to_string n) = n.
Proof.
  intros Hn. assert (in_i64 n) as Hi by (unfold in_i64, INT64_MIN; lia).
  unfold atol. rewrite c_str_no_nul by (apply to_string_no_nul; auto). destruct (strtoll_to_string n [] Hi I) as [E _]. rewrite app_nil_r in E. rewrite E.
  cbn [fst]. apply u64_small. unfold in_u64, UINT64_MAX, INT64_MAX in *. lia.
Qed.

(** The options of a configuration. *)
Fixpoint joined (words : list (list ascii)) : list ascii :=
  match words with
  | [] => []
  | [w] => w
  | w :: words => w ++ [","%char] ++ joined words
  end.

Definition options (c : BenchMarkConfig) : list (list ascii) :=
  [bs "-h"; host c; bs "-p"; to_string (port c); bs "-c"; to_string (n_clients c); bs "-n"; to_string (n_requests c);
   bs "-k"; to_string (keyspace_len c); bs "-t"; joined (testing_cmds c)].

Lemma pieces_word w : ","%char ∉ w -> forall acc s, pieces ","%char acc (w ++ s) = pieces ","%char (acc ++ w) s.
Proof.
  induction w as [|x w IH]; intros Hw acc s; [by rewrite app_nil_r|]. apply not_elem_of_cons in Hw as [Hx Hw].
  cbn [app pieces]. rewrite decide_False by congruence. rewrite IH by done. by rewrite <- app_assoc.
Qed.

Lemma pieces_joined words : Forall (λ w, w <> [] /\ ","%char ∉ w) words -> pieces ","%char [] (joined words) = words.
Proof.
  induction 1 as [|w words [Hne Hw] Hws IH]; [done|]. destruct words as [|w' words].
  - cbn [joined]. rewrite <- (app_nil_r w) at 1. rewrite pieces_word by done. cbn. by rewrite decide_False.
  - change (joined (w :: w' :: words)) with (w ++ [","%char] ++ joined (w' :: words)).
    rewrite pieces_word by done. cbn [app pieces]. by rewrite decide_True, IH.
Qed.

(** What is asked for is what the tool uses. *)
Lemma ParseArgs_roundtrip c : Forall (λ n, 0 <= n <= INT64_MAX) [port c; n_clients c; n_requests c; keyspace_len c] ->
  Forall (λ w, w <> [] /\ ","%char ∉ w) (testing_cmds c) -> testing_cmds_str c = joined (testing_cmds c) ->
  ParseArgs (options c) g_config = (c, None).
Proof.
  destruct c as [h p nc nr kl tc ts]. cbn [port n_clients n_requests keyspace_len testing_cmds testing_cmds_str].
  intros Hn Ht ->. rewrite !Forall_cons in Hn. destruct Hn as (H1 & H2 & H3 & H4 & _).
  change (ParseArgs (options _) g_config) with
    (mkBench h (atol (to_string p)) (atol (to_string nc)) (atol (to_string nr)) (atol (to_string kl))
       (filter (λ tmp, tmp <> []) (pieces ","%char [] (joined tc))) (joined tc), @None (list ascii)).
  rewrite !atol_to_string by done. rewrite pieces_joined by done.
  assert (filter (λ tmp, tmp <> []) tc = tc) as ->; [|done].
  induction Ht as [|w tc [Hw _] _ IH]; [done|]. by rewrite filter_cons_True, IH.
Qed.

Lemma ParseArgs_roundtrip_witness :
  let c := mkBench (bs "10.0.0.1") 6379 8 1000 3 [bs "get"; bs "set"] (bs "get,set") in
  ParseArgs (options c) g_config = (c, None).
Proof. apply ParseArgs_roundtrip; [repeat constructor; by vm_compute| |done]. repeat constructor; try done; refine (bool_decide_unpack _ _); by vm_compute. Defined.

(** An option that is the last word has no value: the rest has been set. *)
Lemma ParseArgs_no_value arg c : takes_value arg = true -> ParseArgs [arg] c = (c, Some arg).
Proof. intros H. cbn. by rewrite H. Qed.
