(* ===== verification/Sockets.v ===== *)
(** * Sockets: options and the listening socket (src/net/utils.cpp, Server::Server,
    InitListenSession and the options AcceptProc sets in src/net/server.cpp)

    What a socket has been told is the list of its options, the last one first. Whether
    the kernel takes an option is an argument. *)

From S2P Require Import Prelude Numerals Buffer Protocol Core TimeEvent Server Lkvdb Commands EngineFacts Net NetFacts Background Config ConfigFacts Platform.
From stdpp Require Import list gmap fin_maps.

Local Open Scope Z_scope.

Inductive sockopt :=
  | NODELAY | REUSEADDR | REUSEPORT | KEEPALIVE | KEEPIDLE | KEEPINTVL | KEEPCNT.

#[global] Instance sockopt_eq_dec : EqDecision sockopt.
Proof. solve_decision. Defined.

(** The flags of the descriptor and the options that were set. *)
Record socket := mkSocket { flags : Z; options : list (sockopt * Z) }.

Definition O_NONBLOCK : Z := 2048.
Definition OK : Z := 0.
Definition ERR : Z := -1.

(** The value an option has. *)
Fixpoint option_value (l : list (sockopt * Z)) (o : sockopt) : option Z :=
  match l with
  | [] => None
  | (o', val) :: l => if decide (o = o') then Some val else option_value l o
  end.

Section Options.

(** Whether [setsockopt] takes the value; what [fcntl] answers to [F_GETFL] and [F_SETFL]. *)
Variable takes : sockopt -> Z -> bool.
Variables (getfl setfl : bool).

(** [setsockopt(fd, level, o, &val, sizeof(val))] with the test of its result, which the
    functions below repeat. *)
Definition set_option (s : socket) (o : sockopt) (val : Z) : Z * socket :=
  if takes o val then (OK, mkSocket (flags s) ((o, val) :: options s)) else (ERR, s).

Definition SetFdNonBlock (s : socket) : Z * socket :=
  if negb getfl then (ERR, s)
  else if negb setfl then (ERR, s)
  else (OK, mkSocket (Z.lor (flags s) O_NONBLOCK) (options s)).

Definition SetTcpNoDelayOption (s : socket) (val : Z) : Z * socket := set_option s NODELAY val.
Definition EnableTcpNoDelay (s : socket) : Z * socket := SetTcpNoDelayOption s 1.
Definition DisableTcpNoDelay (s : socket) : Z * socket := SetTcpNoDelayOption s 0.
Definition SetReuseAddress (s : socket) : Z * socket := set_option s REUSEADDR 1.
Definition SetReusePort (s : socket) : Z * socket := set_option s REUSEPORT 1.

Definition SetKeepAlive (s : socket) (idle interal cnt : Z) : Z * socket :=
  let '(r, s) := set_option s KEEPALIVE 1 in
  if r =? ERR then (ERR, s)
  else
    let '(r, s) := set_option s KEEPIDLE idle in
    if r =? ERR then (ERR, s)
    else
      let '(r, s) := set_option s KEEPINTVL interal in
      if r =? ERR then (ERR, s)
      else
        let '(r, s) := set_option s KEEPCNT cnt in
        if r =? ERR then (ERR, s) else (OK, s).

(** The options [AcceptProc] sets on a new connection; the results are not looked at, and
    the product is an [int]. *)
Definition accept_options (config : Config) (s : socket) : option socket :=
  let '(_, s) := SetFdNonBlock s in
  let interval := keepalive_interval_ config in
  idle ← chk32 (interval * 3);
  let cnt := keepalive_cnt_ config in
  let '(_, s) := SetKeepAlive s idle interval cnt in
  Some s.

(** [InitListenSession], with the answers to [socket] and [bind]: the socket and the epoll
    instance with it, or the exit. The result of [listen] is not looked at. *)
Definition InitListenSession (socket_ok bind_ok : bool) (k : Kernel) : option (socket * Kernel) :=
  if negb socket_ok then None
  else
    let s := mkSocket 0 [] in
    let '(_, s) := SetReuseAddress s in
    let '(_, s) := SetReusePort s in
    let '(_, s) := SetFdNonBlock s in
    if negb bind_ok then None
    else
      let k := mkKernel (watch k) (alter (λ p, mkProcess (epfd_open p) ({[None]} ∪ fds p)) O (procs k)) in
      let '(_, k) := AddFd k O None EPOLLIN in
      Some (s, k).

(** [Server(loop, engine, config, ip, port)] with a loop: the address and the listening
    session. *)
Definition Server_new (inet_pton : list ascii -> option Z) (inet_ntop : Z -> list ascii) (socket_ok bind_ok : bool)
    (k : Kernel) (config : Config) : option (Ipv4Addr * socket * Kernel) :=
  addr_ ← Ipv4Addr_new inet_pton inet_ntop (ip_ config) (port_ config mod 2 ^ 16);
  '(s, k) ← InitListenSession socket_ok bind_ok k;
  Some (addr_, s, k).

(** ** Lemmas *)

Lemma set_option_spec s o val : set_option s o val = (if takes o val then OK else ERR, (set_option s o val).2) /\
  flags (set_option s o val).2 = flags s /\
  options (set_option s o val).2 = (if takes o val then [(o, val)] else []) ++ options s.
Proof. unfold set_option. by destruct (takes o val). Qed.

(** [SetKeepAlive] returns [OK] exactly when all four options were taken, and then they have
    these values; it sets nothing after the first that was not. *)
Lemma SetKeepAlive_spec s idle interal cnt :
  let wanted := [(KEEPALIVE, 1); (KEEPIDLE, idle); (KEEPINTVL, interal); (KEEPCNT, cnt)] in
  let taken := forallb (λ p, takes p.1 p.2) wanted in
  exists n, SetKeepAlive s idle interal cnt = (if taken then OK else ERR, mkSocket (flags s) (reverse (take n wanted) ++ options s)) /\
    (taken = true -> n = 4%nat) /\ (taken = false -> exists p, wanted !! n = Some p /\ takes p.1 p.2 = false).
Proof.
  cbn [forallb fst snd]. unfold SetKeepAlive, set_option.
  destruct (takes KEEPALIVE 1) eqn:E1; [|exists O; cbn; destruct s; split; [done|]; split; [done|]; by eexists].
  destruct (takes KEEPIDLE idle) eqn:E2; [|exists 1%nat; cbn; split; [done|]; split; [done|]; by eexists].
  destruct (takes KEEPINTVL interal) eqn:E3; [|exists 2%nat; cbn; split; [done|]; split; [done|]; by eexists].
  destruct (takes KEEPCNT cnt) eqn:E4; [|exists 3%nat; cbn; split; [done|]; split; [done|]; by eexists].
  by exists 4%nat.
Qed.

(** With a loaded configuration the idle time does not overflow; where the kernel takes the
    options, a connection does not block, and is closed by the kernel after at most
    [idle + interval * cnt] seconds of silence, 30 minutes. *)
Lemma accept_options_ok config s : config_ok config -> (forall o val, takes o val = true) -> getfl = true -> setfl = true ->
  exists s' idle, accept_options config s = Some s' /\ Z.testbit (flags s') 11 = true /\
    option_value (options s') KEEPALIVE = Some 1 /\ option_value (options s') KEEPIDLE = Some idle /\
    option_value (options s') KEEPINTVL = Some (keepalive_interval_ config) /\
    option_value (options s') KEEPCNT = Some (keepalive_cnt_ config) /\
    idle = 3 * keepalive_interval_ config /\ idle + keepalive_interval_ config * keepalive_cnt_ config <= 1800.
Proof.
  intros Hc Ht Hg Hf. pose proof (ok_interval config Hc) as Hi. pose proof (ok_cnt config Hc) as Hn.
  unfold accept_options, SetFdNonBlock. rewrite Hg, Hf. cbn [negb].
  assert (chk32 (keepalive_interval_ config * 3) = Some (keepalive_interval_ config * 3)) as ->.
  { unfold chk32, INT32_MIN, INT32_MAX. destruct (Z.leb_spec (-2147483648) (keepalive_interval_ config * 3)); [|lia].
    by destruct (Z.leb_spec (keepalive_interval_ config * 3) 2147483647); [|lia]. }
  cbn [mbind option_bind]. unfold SetKeepAlive, set_option. rewrite !Ht.
  eexists _, _. split; [reflexivity|]. split; [|do 4 (split; [reflexivity|]); split; [lia|nia]].
  change (Z.testbit (Z.lor (flags s) O_NONBLOCK) 11 = true). rewrite Z.lor_spec. apply orb_true_r.
Qed.

(** A server that starts watches its listening socket and nothing else: the state in which
    [serving_system] begins. *)
Lemma InitListenSession_starts {E} (st : loop_state E) fs : server_ st = mkServer ∅ ∅ ∅ ->
  exists s, InitListenSession true true (mkKernel ∅ {[ O := mkProcess true ∅ ]}) = Some (s, s_kernel (serving_system st fs)) /\
    (forall o, o <> REUSEADDR -> o <> REUSEPORT -> option_value (options s) o = None).
Proof.
  intros Est.
  assert (s_kernel (serving_system st fs) = mkKernel {[ None := EPOLLIN ]} {[ O := mkProcess true {[None]} ]}) as ->.
  { unfold serving_system. cbn [s_kernel]. rewrite Est. by vm_compute. }
  assert (AddFd (mkKernel ∅ (alter (λ p, mkProcess (epfd_open p) ({[None]} ∪ fds p)) O {[ O := mkProcess true ∅ ]})) O None EPOLLIN =
    (true, mkKernel {[ None := EPOLLIN ]} {[ O := mkProcess true {[None]} ]})) as Ea by (by vm_compute).
  unfold InitListenSession. cbn [negb watch procs]. rewrite Ea. unfold SetReuseAddress, SetReusePort, SetFdNonBlock, set_option.
  assert (forall (l : list (sockopt * Z)) o, Forall (λ p, p.1 = REUSEADDR \/ p.1 = REUSEPORT) l -> o <> REUSEADDR -> o <> REUSEPORT ->
    option_value l o = None) as Hnone.
  { intros l o Hl H1 H2. induction Hl as [|[o' v] l Ho Hl IH]; [done|]. cbn. rewrite decide_False; [done|]. intros ->. by destruct Ho. }
  destruct (takes REUSEADDR 1), (takes REUSEPORT 1), getfl, setfl; cbn; (eexists; split; [reflexivity|]; intros o H1 H2; apply Hnone;
    [|done|done]); repeat apply Forall_cons_2; try apply Forall_nil_2; cbn; auto.
Qed.

End Options.
